(* ===== verification/_CoqProject ===== *)
-Q . S2P
Prelude.v
Fmt.v
Log.v
Addr.v
Frame.v
Memory.v
FrameAllocator.v
Bitmap.v
Intervals.v
Region.v
Heap.v
Paging.v
World.v
Mapper.v
MapperClass.v
AddressSpace.v
PhysicalRange.v
Context.v
Task.v
Scheduler.v
Init.v
Io.v
Gdt.v
Trap.v
Platform.v
Arch.v
Serial.v
Report.v
Idle.v
KernelTest.v
Display.v
TestBase.v
MmTests.v
HeapTests.v
VmTests.v
PagingTests.v
StackTests.v
Boot.v
Run.v
TestSuite.v
XtaskLog.v
Xtask.v
Ci.v
