(* ===== verification/Prelude.v ===== *)
(** * Eira: a verification development for the eira microkernel

    Eira is a small x86_64 kernel in Rust: physical and virtual memory
    management, a heap, page tables, cooperative tasks with a priority
    scheduler, interrupts and a serial console.  This library translates its
    core into executable definitions and proves the properties that make each
    part correct.  The in-kernel tests, the build tooling (xtask) and the whole
    run of the test command, from the command line to its exit code, are
    modelled in the same way.  Paths below are relative to src/eira/src, unless
    they begin with xtask.

    ** Conventions

    A call ends in an [outcome]: [Ret v], [Panic why] for a failed [assert!],
    [expect], index or overflow check (the kernel is built in the dev profile),
    or [Hang] for a spin lock or a busy wait that never ends.  [Result] is
    [result], [Option] is [option].  Machine integers are [Z] with their checks
    written out ([add_], [sub_], [mul_], the [checked_] operations) and bit
    operations with [Z.land], [Z.lor] and the shifts; newtypes around an
    address are the address.  Memory is a finite map from addresses to 64-bit
    words (Memory.v); a Rust array or slice is a list, and indexing checks its
    length.  A [spin::Mutex] is a flag beside its contents: locking a locked one
    hangs, which is what happens on the one CPU that the kernel runs on.

    ** Files and sources

    - Prelude: outcomes, notations, checked arithmetic, tactics, shared lemmas.
    - Fmt: texts and numbers as Rust's formatting writes them, and reading
      numbers back.  Log: the records and lines a component hands to the console.
    - Addr: mm/addr.rs.  Frame: mm/frame.rs.
    - Memory: the words that raw pointers reach.
    - FrameAllocator: the trait of mm/allocator/mod.rs as a type class, and a
      second class with the laws that clients rely on.
    - Bitmap: mm/allocator/bitmap.rs, which discharges those laws.
    - Intervals: sorted free lists as sets of addresses, used by the next two.
    - Region: mm/vm/region.rs and mm/vm/mod.rs.  Heap: mm/heap.rs.
    - Paging: mm/paging/mod.rs, arch/x86_64/paging/entry.rs and table.rs.
    - World: the globals of mm/init.rs.  Init: [mm::init::init].
    - Mapper: arch/x86_64/paging/mapper.rs and the mapper constructors of
      arch/x86_64/imp.rs.  MapperClass: what an address space needs of a mapper
      as a class, and its instance.
    - AddressSpace: mm/address_space.rs, over any mapper and frame allocator.
      PhysicalRange: the theorem on its [map_physical_range].
    - Context: arch/x86_64/context.rs and task/stack.rs, with the assembly of
      the switch instruction by instruction.  Task: task/task.rs.
      Scheduler: task/scheduler.rs.
    - Io: arch/x86_64/io.rs.  Gdt: arch/x86_64/gdt.rs.  Trap:
      arch/x86_64/idt.rs, irq.rs and the end of interrupt of pic.rs.  Platform:
      the rest of pic.rs, [init_cpu] of imp.rs and [enable_sse] of
      arch/x86_64/mod.rs.
    - Arch: the traits of arch/mod.rs and task/context.rs as type classes, the
      laws of halting and masking interrupts, and their implementation
      (arch/x86_64/imp.rs).  Idle: the idle loop of task/scheduler.rs on a core
      that takes interrupts, from the gate to the end of interrupt and back.
    - Serial: serial/uart16550.rs and serial/mod.rs.  Report: the text of a CPU
      exception (arch/x86_64/idt.rs), of a panic (main.rs) and of a log record
      (logger.rs), and the way of records and lines to the console.  Display: the
      other texts of values, the impls of [Display] and [Debug] in every file.
    - KernelTest: test/mod.rs, macros.rs, runner.rs and qemu.rs.  TestBase: what
      the tests share; MmTests: mm/tests.rs; HeapTests: mm/heap_tests.rs;
      VmTests: mm/vm/tests.rs; PagingTests: mm/paging/tests.rs; StackTests:
      task/tests.rs.  TestSuite: all 113 tests in link order.
    - Boot: [kmain] of main.rs, which composes all of the above.  Run: the loops
      of task_a and task_b of main.rs after it.
    - Xtask: the sources under xtask/src, with eira/build.rs.  XtaskLog: its log
      macros (xtask/src/log.rs).
      Ci: the test command on a machine that runs the kernel of Boot.

    ** What the theorems show

    - Physical memory: [init] frees exactly the whole usable frames off the
      bitmap; frames handed out are owned by one client at a time, freeing one
      makes it available again and freeing it twice panics.
    - Virtual ranges and heap: both are first-fit free lists.  Allocation takes
      the first range that fits, live blocks never overlap each other or a free
      one, the statistics balance, allocating and freeing gives the free space
      back, and every heap operation returns.  For virtual ranges two of the 64
      slots must be unused, for the heap the alignment at most 2^45.
    - Paging: entries and flags survive encoding, and [map], [unmap] and
      [remap] implement update, removal and replacement on the finite map from
      pages to frames that the tables represent.
    - Address spaces: [alloc_and_map] maps every page or changes nothing, and
      [unmap_and_dealloc] undoes it.  With two unused slots in the pool and enough
      frames, mapping fails only for want of virtual space or where something is
      mapped already; without, the code can panic or deadlock.  [map_physical_range] maps exactly
      the given frames in order, or undoes what it did.
    - Tasks: the context switch saves and restores a task completely; the
      scheduler keeps its invariant, picks the highest priority in queue order,
      runs equal priorities in turn with a bound on waiting, never runs a blocked
      task, and implements one virtual CPU per task.  A spawned task gets its virtual CPU on a stack
      of its own.
    - Interrupts: descriptors and gates decode to what was meant; an interrupt
      restores the general state of the interrupted code but not its SSE registers,
      which the stubs do not save; it reaches the handler registered
      last, and takes the controllers back to their state before it.  An idling
      core with interrupts on serves any number of ticks and is left as it was;
      with interrupts off, as after a panic, it serves none.
    - Console: printing ends and sends the text with line ends as CR LF; from the
      report of a CPU exception the whole interrupted state can be read back,
      unless the console was locked.
    - Booting: on a machine as the boot protocol describes it, [kmain] runs
      without a panic until the first task stands at its entry, with a virtual
      CPU for every task and the heap's pages mapped; from there the two tasks
      log in strict alternation for ever.  The bytes sent to the console from
      power-on are given, from the set-up of the line to the last log line.
    - Texts: an entry of a page table, the free list of a region allocator and
      the registers of an exception can be read back from their text; no two
      errors have the same text.
    - Testing: the runner is equivalent to a stable sort of the tests by kind
      followed by one pass, and exits with success exactly if none failed; all
      in-kernel tests pass on a demonstration machine; success of the test command
      means that the kernel just built with its tests ran and reported success,
      and its exit code is the kernel's verdict.
    - Where the code departs from its documentation, or fails, a theorem states
      what it does: a panic on a full range tracker or on a huge alignment, the
      deadlock of [alloc_and_map] without frames, [VirtAddr::align_up] below its
      argument for alignments from 2^48, starved idle-priority tasks,
      [exit] returning into a dead task, the boot thread in the idle task's
      place.

    ** Fuel and bounds

    Loops over a count recurse on that count (frames of a region, pages of a
    range, table indices).  A walk along the heap's free list recurses on fuel
    [size m + 2]: the nodes are distinct words of memory, so the fuel exceeds
    the length of every acyclic list, and [heap_operations_return] proves that
    it never runs out under the heap's invariant.  The busy wait of the serial
    driver recurses on a number of polls that is a parameter; the theorem is for
    every device that becomes ready within it.

    ** Not modelled

    - The moment at which a line appears within a call: what a component says
      in one call is a list of outputs, which [kmain] hands to the console when
      the call returns, in the same order.  Only the components that log return
      such a list.  The log crate, which routes a record to the installed logger,
      is not represented; its levels, their names and their order are parameters.
    - The bootloader's data beyond the memory map, the assembly entry point,
      and the aarch64 stubs, which lack items that the trait [Arch] requires: that
      target does not compile.
    - Interrupts during tasks: interrupts stay disabled from the boot protocol's
      entry on, since nothing calls [enable_interrupts].  Idle.v states what the
      idle loop would do with interrupts on.
    - The heap storage of the scheduler's [VecDeque]s and of the runner's [Vec]s:
      only tasks, stacks and the shared address space are allocated from the
      modelled heap.
    - The [LowerHex] and [UpperHex] impls of addresses, which forward the
      caller's formatter.
    - xtask: the command-line parser, a library.  The lines that its log macros
      print are modelled by themselves and not as part of a run.
    - The SSE registers in the context switch: they are the caller's to save
      there, except for the control bits of MXCSR, which no code changes.
    - Trivial accessors and [Default] impls, module declarations and re-exports.

    What is left is outside the reach of a model of this code: libraries,
    hardware beyond the registers and ports the kernel touches, and glue. *)

From stdpp Require Export base numbers list gmap.
From Stdlib Require Export ZArith Lia.
From Stdlib Require String.
Export String.StringSyntax.
Abbreviation string := String.string.
Bind Scope string_scope with String.string.
Open Scope Z_scope.
#[export] Set Warnings "-clear-no-such-hyp".

(** lia with quotients and remainders replaced by their defining equations. *)
Ltac zlia := Z.div_mod_to_equations; lia.

(** ** Outcomes of kernel code

    A call returns a value, panics (a failed [assert!], [expect], array bounds
    check or, in the dev profile, an arithmetic overflow: the panic handler
    halts the core), or spins forever on a [spin::Mutex] that is never
    released. *)
Inductive outcome (A : Type) : Type :=
| Ret (a : A)
| Panic (why : string)
| Hang.
Arguments Ret {A} a.
Arguments Panic {A} why.
Arguments Hang {A}.

Definition obind {A B : Type} (m : outcome A) (k : A -> outcome B) : outcome B :=
  match m with
  | Ret a => k a
  | Panic w => Panic w
  | Hang => Hang
  end.

(** Rust's [Result]. *)
Inductive result (A E : Type) : Type :=
| Ok (a : A)
| Err (e : E).
Arguments Ok {A E} a.
Arguments Err {A E} e.

Declare Scope kernel_scope.
Delimit Scope kernel_scope with kernel.
Notation "'let!' x := m 'in' k" := (obind m (fun x => k))
  (at level 10, x binder, m at level 100, k at level 200) : kernel_scope.
Notation "'let!' ' p := m 'in' k" := (obind m (fun p => k))
  (at level 10, p strict pattern, m at level 100, k at level 200) : kernel_scope.
Open Scope kernel_scope.

(** Rust's [?] in code that threads a state [W]: an error leaves the function
    with the state it has reached. *)
Definition rbind {W A B E : Type} (m : outcome (result A E * W))
    (k : A -> W -> outcome (result B E * W)) : outcome (result B E * W) :=
  obind m (fun rw => match rw with
                     | (Ok a, w) => k a w
                     | (Err e, w) => Ret (Err e, w)
                     end).
Notation "'let?' x ',' w := m 'in' k" := (rbind m (fun x w => k))
  (at level 10, x name, w name, m at level 100, k at level 200) : kernel_scope.

Definition assert_ (b : bool) (why : string) : outcome unit :=
  if b then Ret tt else Panic why.

Definition expect {A : Type} (o : option A) (why : string) : outcome A :=
  match o with Some a => Ret a | None => Panic why end.

Lemma obind_Ret_inv {A B} (m : outcome A) (k : A -> outcome B) b :
  obind m k = Ret b -> exists a, m = Ret a /\ k a = Ret b.
Proof. destruct m; cbn; try discriminate; eauto. Qed.

Lemma assert_Ret_inv b w u : assert_ b w = Ret u -> b = true.
Proof. unfold assert_. destruct b; congruence. Qed.

Lemma expect_Ret_inv {A} (o : option A) w a : expect o w = Ret a -> o = Some a.
Proof. destruct o; cbn; congruence. Qed.

Lemma assert_true w : assert_ true w = Ret tt.
Proof. reflexivity. Qed.

(** Open a computation that is known to return: every bind in the hypothesis
    is split into the equation of its first part and of its continuation. *)
Ltac ret_inv :=
  repeat match goal with
  | H : obind _ _ = Ret _ |- _ =>
      let a := fresh "v" in let E := fresh "E" in
      apply obind_Ret_inv in H as (a & E & H)
  | H : assert_ _ _ = Ret _ |- _ => apply assert_Ret_inv in H
  | H : expect _ _ = Ret _ |- _ => apply expect_Ret_inv in H
  | H : Ret _ = Ret _ |- _ => injection H as H
  | H : Panic _ = Ret _ |- _ => discriminate H
  | H : Hang = Ret _ |- _ => discriminate H
  end.

(** ** Machine words

    [usize] and [u64] are integers in [0, 2^64).  The kernel is built with the
    dev profile by default, so the plain operators panic on overflow; the
    [checked_*] methods return an option. *)
Abbreviation W64 := 18446744073709551616.
Abbreviation USIZE_MAX := 18446744073709551615.

Definition is_u64 (x : Z) : Prop := 0 <= x < W64.

#[export] Instance is_u64_dec x : Decision (is_u64 x).
Proof. unfold is_u64. apply _. Defined.

Definition checked_add (a b : Z) : option Z := if a + b <? W64 then Some (a + b) else None.
Definition checked_sub (a b : Z) : option Z := if b <=? a then Some (a - b) else None.
Definition checked_mul (a b : Z) : option Z := if a * b <? W64 then Some (a * b) else None.

Definition add_ (a b : Z) : outcome Z :=
  expect (checked_add a b) "attempt to add with overflow".
Definition sub_ (a b : Z) : outcome Z :=
  expect (checked_sub a b) "attempt to subtract with overflow".
Definition mul_ (a b : Z) : outcome Z :=
  expect (checked_mul a b) "attempt to multiply with overflow".

(** Bitwise complement of a [usize]. *)
Definition not64 (x : Z) : Z := Z.land (Z.lnot x) USIZE_MAX.

(** [usize::is_power_of_two] (count of ones equal to one). *)
Definition is_power_of_two (x : Z) : bool := (0 <? x) && (Z.land x (x - 1) =? 0).

Lemma W64_pow : W64 = 2 ^ 64.
Proof. reflexivity. Qed.

Lemma USIZE_MAX_ones : USIZE_MAX = Z.ones 64.
Proof. reflexivity. Qed.

Lemma checked_add_Some a b c : checked_add a b = Some c <-> c = a + b /\ a + b < W64.
Proof. unfold checked_add. destruct (Z.ltb_spec (a + b) W64); split; intros; simplify_eq; lia || (f_equal; lia) || done. Qed.

Lemma checked_add_None a b : checked_add a b = None <-> W64 <= a + b.
Proof. unfold checked_add. destruct (Z.ltb_spec (a + b) W64); split; intros; simplify_eq; lia || (f_equal; lia) || done. Qed.

Lemma checked_sub_Some a b c : checked_sub a b = Some c <-> c = a - b /\ b <= a.
Proof. unfold checked_sub. destruct (Z.leb_spec b a); split; intros; simplify_eq; lia || (f_equal; lia) || done. Qed.

Lemma checked_mul_Some a b c : checked_mul a b = Some c <-> c = a * b /\ a * b < W64.
Proof. unfold checked_mul. destruct (Z.ltb_spec (a * b) W64); split; intros; simplify_eq; lia || (f_equal; lia) || done. Qed.

Lemma add_Ret a b : a + b < W64 -> add_ a b = Ret (a + b).
Proof. intros H. unfold add_. by rewrite (proj2 (checked_add_Some a b _) (conj eq_refl H)). Qed.

Lemma sub_Ret a b : b <= a -> sub_ a b = Ret (a - b).
Proof. intros H. unfold sub_. by rewrite (proj2 (checked_sub_Some a b _) (conj eq_refl H)). Qed.

Lemma mul_Ret a b : a * b < W64 -> mul_ a b = Ret (a * b).
Proof. intros H. unfold mul_. by rewrite (proj2 (checked_mul_Some a b _) (conj eq_refl H)). Qed.

Lemma add_Ret_inv a b c : add_ a b = Ret c -> c = a + b /\ a + b < W64.
Proof. unfold add_. intros H%expect_Ret_inv. by apply checked_add_Some. Qed.

Lemma sub_Ret_inv a b c : sub_ a b = Ret c -> c = a - b /\ b <= a.
Proof. unfold sub_. intros H%expect_Ret_inv. by apply checked_sub_Some. Qed.

Lemma mul_Ret_inv a b c : mul_ a b = Ret c -> c = a * b /\ a * b < W64.
Proof. unfold mul_. intros H%expect_Ret_inv. by apply checked_mul_Some. Qed.

(** ** Powers of two and alignment masks *)
Lemma is_power_of_two_pow2 k : 0 <= k -> is_power_of_two (2 ^ k) = true.
Proof.
  intros. unfold is_power_of_two.
  replace (2 ^ k - 1) with (Z.ones k) by (rewrite Z.ones_equiv; lia).
  rewrite Z.land_ones, Z.mod_same by lia.
  pose proof (Z.pow_pos_nonneg 2 k). apply andb_true_iff. split; [apply Z.ltb_lt; lia | done].
Qed.

Lemma is_power_of_two_inv x : is_power_of_two x = true -> exists k, 0 <= k /\ x = 2 ^ k.
Proof.
  unfold is_power_of_two. intros [Hpos Hl]%andb_true_iff.
  apply Z.ltb_lt in Hpos. apply Z.eqb_eq in Hl.
  exists (Z.log2 x). split; [apply Z.log2_nonneg|].
  pose proof (Z.log2_spec x Hpos) as [Hlo Hhi].
  destruct (Z.eq_dec x (2 ^ Z.log2 x)) as [|Hne]; [done|exfalso].
  assert (Hb : Z.testbit (Z.land x (x - 1)) (Z.log2 x) = true).
  { rewrite Z.land_spec, Z.bit_log2 by done. cbn.
    pose proof (Z.log2_nonneg x). pose proof (Z.pow_pos_nonneg 2 (Z.log2 x)).
    assert (E : Z.log2 (x - 1) = Z.log2 x) by (apply Z.log2_unique; lia).
    rewrite <- E. apply Z.bit_log2. lia. }
  rewrite Hl, Z.bits_0 in Hb. done.
Qed.

Lemma pow2_u64_exp k : 0 <= k -> 2 ^ k < W64 -> k < 64.
Proof.
  intros Hk Hlt. destruct (Z.lt_ge_cases k 64) as [|Hge]; [done|].
  pose proof (Z.pow_le_mono_r 2 64 k). rewrite <- W64_pow in *. lia.
Qed.

(** [x & (align - 1)] is the remainder. *)
Lemma land_mask x k : 0 <= k -> Z.land x (2 ^ k - 1) = x mod 2 ^ k.
Proof.
  intros. replace (2 ^ k - 1) with (Z.ones k) by (rewrite Z.ones_equiv; lia).
  by apply Z.land_ones.
Qed.

(** [x & !(align - 1)] drops the remainder. *)
Lemma land_not_mask x k :
  is_u64 x -> 0 <= k < 64 -> Z.land x (not64 (2 ^ k - 1)) = x - x mod 2 ^ k.
Proof.
  intros Hx Hk. unfold not64.
  replace (2 ^ k - 1) with (Z.ones k) by (rewrite Z.ones_equiv; lia).
  rewrite Z.land_assoc, (Z.land_comm _ USIZE_MAX), Z.land_assoc.
  rewrite (Z.land_comm USIZE_MAX), USIZE_MAX_ones, Z.land_ones, <- W64_pow by lia.
  rewrite Z.mod_small by done.
  rewrite <- Z.ldiff_land, Z.ldiff_ones_r by lia.
  rewrite Z.shiftr_div_pow2, Z.shiftl_mul_pow2 by lia.
  pose proof (Z.pow_pos_nonneg 2 k). zlia.
Qed.

Lemma align_down_bounds x k :
  is_u64 x -> 0 <= k -> 0 <= x - x mod 2 ^ k <= x.
Proof. intros [??] ?. pose proof (Z.mod_pos_bound x (2 ^ k)). pose proof (Z.mod_le x (2^k)).
  pose proof (Z.pow_pos_nonneg 2 k). lia. Qed.

Lemma align_down_mod x a : 0 < a -> (x - x mod a) mod a = 0.
Proof. intros. rewrite Zminus_mod, Z.mod_mod, Z.sub_diag by lia. done. Qed.

(** The least multiple of [a] that is at least [x]. *)
Definition round_up (x a : Z) : Z := (x + (a - 1)) - (x + (a - 1)) mod a.

Lemma round_up_spec x a :
  0 < a -> x <= round_up x a < x + a /\ round_up x a mod a = 0.
Proof.
  intros Ha. unfold round_up. pose proof (Z.mod_pos_bound (x + (a - 1)) a Ha).
  split; [lia | by apply align_down_mod].
Qed.

Lemma round_up_least x a y : 0 < a -> y mod a = 0 -> x <= y -> round_up x a <= y.
Proof.
  intros Ha Hy Hle. destruct (round_up_spec x a Ha) as [[? ?] Hm].
  assert (exists p, y = a * p) as [p ->] by (exists (y / a); zlia).
  assert (exists q, round_up x a = a * q) as [q Hq] by (exists (round_up x a / a); zlia).
  assert (q < p + 1) by (apply (Z.mul_lt_mono_pos_l a); lia).
  assert (a * q <= a * p) by (apply Z.mul_le_mono_nonneg_l; lia). lia.
Qed.

Lemma round_up_id x a : 0 < a -> x mod a = 0 -> round_up x a = x.
Proof.
  intros. destruct (round_up_spec x a); [done|].
  pose proof (round_up_least x a x). lia.
Qed.


(** Constants of the source are unfolded for arithmetic by [klia]; each file
    adds its own to the database. *)
Create HintDb kconst.
Create HintDb kernel.
Ltac kunfold := repeat (autounfold with kconst in *).
Ltac klia := kunfold; unfold is_u64 in *; zlia.

Lemma align_mask_cases align :
  is_power_of_two align = true -> is_u64 align ->
  exists k, 0 <= k < 64 /\ align = 2 ^ k /\ 0 < align.
Proof.
  intros (k & Hk & ->)%is_power_of_two_inv Hu.
  pose proof (pow2_u64_exp k). pose proof (Z.pow_pos_nonneg 2 k).
  exists k. unfold is_u64 in *. lia.
Qed.

Lemma land_align_mask x align :
  is_power_of_two align = true -> is_u64 align -> Z.land x (align - 1) = x mod align.
Proof. intros Hp Hu. destruct (align_mask_cases align Hp Hu) as (k & Hk & -> & ?). apply land_mask. lia. Qed.

Lemma land_align_not_mask x align :
  is_power_of_two align = true -> is_u64 align -> is_u64 x ->
  Z.land x (not64 (align - 1)) = x - x mod align.
Proof. intros Hp Hu ?. destruct (align_mask_cases align Hp Hu) as (k & Hk & -> & ?). by apply land_not_mask. Qed.

Lemma power_of_two_pos align : is_power_of_two align = true -> 0 < align.
Proof. unfold is_power_of_two. intros [H%Z.ltb_lt _]%andb_true_iff. done. Qed.
