(* ===== verification/Fmt.v ===== *)
(** * Formatted text

    A text is the list of its bytes.  These are the parts of Rust's formatting
    that the kernel's messages use; how the formatting machinery cuts a text
    into pieces makes no difference on the line. *)

From stdpp Require Import pretty.
From S2P Require Import Prelude.

Definition ascii_byte (a : Ascii.ascii) : Z := Z.of_N (Ascii.N_of_ascii a).

(** The bytes of a string. *)
Definition bytes (s : string) : list Z := ascii_byte <$> String.list_ascii_of_string s.

(** A literal, in which ^ stands for the escape character [\x1B]. *)
Definition text (s : string) : list Z :=
  (fun a => let b := ascii_byte a in if b =? 94 then 27 else b) <$> String.list_ascii_of_string s.

(** [writeln!], or [println!] *)
Definition line (s : list Z) : list Z := s ++ [10].

(** [{}] of an integer *)
Definition decimal (v : Z) : list Z := ascii_byte <$> String.list_ascii_of_string (pretty (Z.to_N v)).

Definition hex_digit (d : Z) : Z := if d <? 10 then 48 + d else 87 + d.

(** The [n] last hexadecimal digits. *)
Fixpoint hex_digits (n : nat) (v : Z) : list Z :=
  match n with
  | O => []
  | S n => hex_digits n (v / 16) ++ [hex_digit (v mod 16)]
  end.

(** [{:#018x}]: a [u64] has at most 16 digits. *)
Definition hex (v : Z) : list Z := text "0x" ++ hex_digits 16 v.

(** [{:<5}] *)
Definition pad_right (n : nat) (s : list Z) : list Z := s ++ replicate (n - length s) 32.

(** [{:#x}] *)
Definition hex_short (v : Z) : list Z := text "0x" ++ hex_digits (if v =? 0 then 1 else Z.to_nat (Z.log2 v / 4 + 1)) v.

(** ** Reading numbers back *)

Definition undigit (b : Z) : Z := if b <? 58 then b - 48 else b - 87.
Definition number (base : Z) (s : list Z) : Z := foldl (fun n b => base * n + undigit b) 0 s.

(** The numbers written 0x with 16 digits, in order. *)
Fixpoint hex_fields (s : list Z) : list Z :=
  match s with
  | a :: (b :: rest) as tl =>
      if (a =? 48) && (b =? 120) then number 16 (take 16 rest) :: hex_fields tl else hex_fields tl
  | _ => []
  end.

Definition is_digit (b : Z) : bool := (48 <=? b) && (b <? 58).

(** The decimal digits at the head. *)
Fixpoint digits_at (s : list Z) : list Z :=
  match s with
  | b :: s => if is_digit b then b :: digits_at s else []
  | [] => []
  end.

(** A piece without 0x, also where it meets the next one. *)
Fixpoint no_number (s : list Z) : bool :=
  match s with
  | [] => true
  | [a] => negb (a =? 48)
  | a :: (b :: _) as tl => negb ((a =? 48) && (b =? 120)) && no_number tl
  end.

Lemma hex_fields_cons a r :
  hex_fields (a :: r) =
    match r with
    | b :: rest => if (a =? 48) && (b =? 120) then number 16 (take 16 rest) :: hex_fields r else hex_fields r
    | [] => []
    end.
Proof. by destruct r. Qed.

Lemma hex_fields_skip s r : no_number s = true -> hex_fields (s ++ r) = hex_fields r.
Proof.
  induction s as [|a s IH]; [done|]. intros Hs. rewrite <- app_comm_cons, hex_fields_cons.
  destruct s as [|b s].
  - cbn in Hs. apply negb_true_iff in Hs. cbn [app]. destruct r as [|b r]; [done|]. by rewrite Hs.
  - cbn [no_number] in Hs. apply andb_true_iff in Hs as [H1%negb_true_iff H2].
    cbn [app]. rewrite H1. by apply IH.
Qed.

Lemma hex_digit_range d : 0 <= d < 16 -> (48 <= hex_digit d < 58 \/ 97 <= hex_digit d < 103) /\ undigit (hex_digit d) = d.
Proof. intros. unfold undigit, hex_digit. repeat case_match; lia. Qed.

Lemma hex_digits_length n v : length (hex_digits n v) = n.
Proof. revert v. induction n as [|n IH]; intros v; [done|]. cbn. rewrite length_app, IH. cbn. lia. Qed.

Lemma hex_digits_plain n v : Forall (fun b => b <> 120) (hex_digits n v).
Proof.
  revert v. induction n as [|n IH]; intros v; [constructor|]. cbn. apply Forall_app. split; [apply IH|].
  constructor; [|constructor]. destruct (hex_digit_range (v mod 16)); zlia.
Qed.

Lemma number_hex_digits n v : 0 <= v < 16 ^ Z.of_nat n -> number 16 (hex_digits n v) = v.
Proof.
  revert v. induction n as [|n IH]; intros v Hv; [cbn in *; lia|].
  assert (E : 16 ^ Z.of_nat (S n) = 16 * 16 ^ Z.of_nat n) by (rewrite Nat2Z.inj_succ, Z.pow_succ_r; lia).
  cbn [hex_digits]. unfold number. rewrite foldl_app. fold (number 16 (hex_digits n (v / 16))).
  rewrite IH by zlia. cbn [foldl]. destruct (hex_digit_range (v mod 16)) as [_ ->]; zlia.
Qed.

Lemma no_number_plain s : Forall (fun b => b <> 120) s -> no_number (s ++ [27]) = true.
Proof.
  induction 1 as [|a s Ha Hs IH]; [done|]. cbn [app no_number].
  destruct (s ++ [27]) as [|b t] eqn:E; [by destruct s|]. rewrite IH, andb_true_r.
  destruct s as [|b' s]; injection E as <- _; [by rewrite andb_false_r|].
  inversion_clear Hs. rewrite (proj2 (Z.eqb_neq b' 120)) by done. by rewrite andb_false_r.
Qed.

Lemma hex_fields_plain s c r : Forall (fun b => b <> 120) s -> c <> 120 -> hex_fields (s ++ c :: r) = hex_fields (c :: r).
Proof.
  intros Hs Hc. induction Hs as [|a s Ha Hs IH]; [done|]. rewrite <- app_comm_cons, hex_fields_cons.
  destruct s as [|b s]; cbn [app] in *.
  - by rewrite (proj2 (Z.eqb_neq c 120)), andb_false_r.
  - inversion_clear Hs. by rewrite (proj2 (Z.eqb_neq b 120)), andb_false_r.
Qed.

(** What [{:#018x}] prints is found again. *)
Lemma hex_fields_hex v c r : is_u64 v -> c <> 120 -> hex_fields (hex v ++ c :: r) = v :: hex_fields (c :: r).
Proof.
  intros Hv Hc. unfold hex. rewrite <- app_assoc. change (text "0x") with [48; 120]. cbn [app]. rewrite hex_fields_cons.
  cbn [Z.eqb Pos.eqb andb].
  rewrite take_app_le, take_ge by (rewrite hex_digits_length; lia). rewrite number_hex_digits by apply Hv. f_equal.
  change (120 :: hex_digits 16 v ++ c :: r) with ([120] ++ hex_digits 16 v ++ c :: r).
  rewrite hex_fields_skip by done. apply hex_fields_plain; [apply hex_digits_plain|done].
Qed.

Lemma pretty_digits x s :
  bytes (pretty_N_go x s) = bytes (pretty_N_go x "") ++ bytes s /\
  Forall (fun b => is_digit b = true) (bytes (pretty_N_go x "")) /\
  number 10 (bytes (pretty_N_go x "")) = Z.of_N x.
Proof.
  revert s. induction (N.lt_wf_0 x) as [x _ IH]; intros s. destruct (decide (x = 0)%N) as [->|Hx]; [done|].
  rewrite (pretty_N_go_step x s), (pretty_N_go_step x "") by lia. set (ch := pretty_N_char (x mod 10)).
  assert (Hch : is_digit (ascii_byte ch) = true /\ undigit (ascii_byte ch) = Z.of_N (x mod 10)).
  { pose proof (N.mod_lt x 10 ltac:(done)) as Hlt. unfold ch. revert Hlt. generalize (x mod 10)%N as d. intros d Hd.
    assert (d = 0 \/ d = 1 \/ d = 2 \/ d = 3 \/ d = 4 \/ d = 5 \/ d = 6 \/ d = 7 \/ d = 8 \/ d = 9)%N as Hcases by lia.
    by repeat destruct Hcases as [->|Hcases]; subst. }
  assert (Hlt : (x / 10 < x)%N) by (apply N.div_lt; lia).
  destruct (IH _ Hlt (String ch s)) as (E1 & Hd & Hn). destruct (IH _ Hlt (String ch "")) as (E2 & _ & _).
  rewrite E1, E2. change (bytes (String ch s)) with (ascii_byte ch :: bytes s). change (bytes (String ch "")) with [ascii_byte ch].
  rewrite <- app_assoc. split_and!; [done| |].
  - apply Forall_app. split; [done|]. constructor; [apply Hch|constructor].
  - unfold number. rewrite foldl_app. fold (number 10 (bytes (pretty_N_go (x / 10) ""))). rewrite Hn. cbn [foldl].
    rewrite (proj2 Hch). pose proof (N.div_mod x 10 ltac:(done)). lia.
Qed.

Lemma digits_at_app s c r : Forall (fun b => is_digit b = true) s -> is_digit c = false -> digits_at (s ++ c :: r) = s.
Proof. intros Hs Hc. induction Hs as [|b s Hb Hs IH]; cbn; [by rewrite Hc|]. by rewrite Hb, IH. Qed.

Lemma decimal_digits v : 0 <= v -> Forall (fun b => is_digit b = true) (decimal v) /\ number 10 (decimal v) = v.
Proof.
  intros Hv. unfold decimal, pretty, pretty_N. case_decide as Hd.
  - assert (v = 0) as -> by lia. split; [by repeat constructor|done].
  - destruct (pretty_digits (Z.to_N v) "") as (_ & H1 & H2). split; [exact H1|]. etransitivity; [exact H2|]. by apply Z2N.id.
Qed.

(** What [{}] prints for a number is found again. *)
Lemma number_decimal v c r : 0 <= v -> is_digit c = false -> number 10 (digits_at (decimal v ++ c :: r)) = v.
Proof. intros Hv Hc. destruct (decimal_digits v Hv). by rewrite digits_at_app. Qed.
