(* ===== verification/Log.v ===== *)
(** * What the kernel says

    Log records and printed lines, as the calls of a component in order.  A call
    of [log::debug!] and the like hands a record to the log crate, which hands it
    to the kernel's logger; Report.v writes records and lines to the console. *)

From S2P Require Import Prelude Fmt.

(** The log crate's levels. *)
Inductive Level := LevelError | LevelWarn | LevelInfo | LevelDebug | LevelTrace.

(** A log record: level, target and formatted arguments.  The target is the path
    of the module that logs. *)
Record log_record := mk_record { r_level : Level; r_target : list Z; r_args : list Z }.

Definition warn (target : string) (args : list Z) : log_record := mk_record LevelWarn (bytes target) args.
Definition info (target : string) (args : list Z) : log_record := mk_record LevelInfo (bytes target) args.
Definition debug (target : string) (args : list Z) : log_record := mk_record LevelDebug (bytes target) args.

(** A record, or the text of a [print!]. *)
Inductive output := Logged (r : log_record) | Printed (s : list Z).

(** The log crate's order of levels and their names, for the demonstrations. *)
Module LogDemo.

Definition rank (l : Level) : nat :=
  match l with LevelError => 1 | LevelWarn => 2 | LevelInfo => 3 | LevelDebug => 4 | LevelTrace => 5 end.
Definition level_le (l l' : Level) : bool := (rank l <=? rank l')%nat.
Definition level_name (l : Level) : list Z :=
  bytes match l with
        | LevelError => "ERROR" | LevelWarn => "WARN" | LevelInfo => "INFO" | LevelDebug => "DEBUG" | LevelTrace => "TRACE"
        end.

Lemma all_enabled l : level_le l LevelTrace = true.
Proof. by destruct l. Qed.

End LogDemo.
