(* ===== verification/Addr.v ===== *)
(** * Physical and virtual addresses (eira/src/mm/addr.rs)

    The newtypes [PhysAddr(usize)] and [VirtAddr(usize)] are modelled by the
    word they wrap.  Methods that assert ([is_aligned], [align_down],
    [align_up] panic unless [align] is a power of two) return an [outcome]. *)

From S2P Require Import Prelude.

Definition PAGE_SIZE : Z := 4096.
#[export] Hint Unfold PAGE_SIZE : kconst.

Module PhysAddr.

Definition MAX : Z := Z.shiftl 1 52 - 1.

Definition new (addr : Z) : option Z := if addr <=? MAX then Some addr else None.

Definition new_unchecked (addr : Z) : Z := addr.

Definition new_truncate (addr : Z) : Z := Z.land addr MAX.

Definition is_aligned (self align : Z) : outcome bool :=
  let! _ := assert_ (is_power_of_two align) "align must be a power of two" in
  Ret (Z.land self (align - 1) =? 0).

Definition align_down (self align : Z) : outcome Z :=
  let! _ := assert_ (is_power_of_two align) "align must be a power of two" in
  Ret (Z.land self (not64 (align - 1))).

Definition align_up (self align : Z) : outcome (option Z) :=
  let! _ := assert_ (is_power_of_two align) "align must be a power of two" in
  let mask := align - 1 in
  Ret match Prelude.checked_add self mask with
      | Some v => new (Z.land v (not64 mask))
      | None => None
      end.

Definition checked_add (self rhs : Z) : option Z :=
  match Prelude.checked_add self rhs with
  | Some v => new v
  | None => None
  end.

Definition checked_sub (self rhs : Z) : option Z :=
  match Prelude.checked_sub self rhs with
  | Some v => Some v
  | None => None
  end.

(** The representable physical addresses: 52 bits. *)
Definition valid (a : Z) : Prop := 0 <= a <= MAX.

End PhysAddr.

Module VirtAddr.

Definition is_canonical (addr : Z) : bool :=
  let top := Z.shiftr addr 47 in
  (top =? 0) || (top =? Z.shiftl 1 17 - 1).

Definition new (addr : Z) : option Z := if is_canonical addr then Some addr else None.

Definition new_unchecked (addr : Z) : Z := addr.

(** [addr << 16] on [usize] drops the bits shifted out. *)
Definition shl16 (addr : Z) : Z := Z.land (Z.shiftl addr 16) USIZE_MAX.
(** [x as isize] *)
Definition as_isize (x : Z) : Z := if x <? 2 ^ 63 then x else x - W64.
(** [x as usize] for an [isize] *)
Definition as_usize_of (x : Z) : Z := x mod W64.

Definition new_canonical (addr : Z) : Z := as_usize_of (Z.shiftr (as_isize (shl16 addr)) 16).

Definition is_canonical_addr (self : Z) : bool := is_canonical self.

Definition is_aligned (self align : Z) : outcome bool :=
  let! _ := assert_ (is_power_of_two align) "assertion failed: align.is_power_of_two()" in
  Ret (Z.land self (align - 1) =? 0).

Definition align_down (self align : Z) : outcome Z :=
  let! _ := assert_ (is_power_of_two align) "assertion failed: align.is_power_of_two()" in
  Ret (new_canonical (Z.land self (not64 (align - 1)))).

Definition align_up (self align : Z) : outcome (option Z) :=
  let! _ := assert_ (is_power_of_two align) "assertion failed: align.is_power_of_two()" in
  let mask := align - 1 in
  Ret match checked_add self mask with
      | Some v => Some (new_canonical (Z.land v (not64 mask)))
      | None => None
      end.

End VirtAddr.

#[export] Hint Unfold PhysAddr.valid : kconst.

(** ** Lemmas shared by the clients *)
Lemma PhysAddr_MAX_val : PhysAddr.MAX = 4503599627370495.
Proof. reflexivity. Qed.

Lemma PAGE_SIZE_pow2 : is_power_of_two PAGE_SIZE = true.
Proof. reflexivity. Qed.

Lemma PhysAddr_valid_u64 a : PhysAddr.valid a -> is_u64 a.
Proof. unfold PhysAddr.valid, is_u64. rewrite PhysAddr_MAX_val. lia. Qed.

Lemma PhysAddr_new_Some a r : PhysAddr.new a = Some r <-> r = a /\ a <= PhysAddr.MAX.
Proof. unfold PhysAddr.new. destruct (Z.leb_spec a PhysAddr.MAX); split; intros; simplify_eq; lia || (destruct_and?; congruence) || lia. Qed.

Lemma PhysAddr_is_aligned_eq a align :
  is_power_of_two align = true -> is_u64 align ->
  PhysAddr.is_aligned a align = Ret (a mod align =? 0).
Proof.
  intros Hp Hu. unfold PhysAddr.is_aligned. rewrite Hp. cbn [assert_ obind].
  by rewrite land_align_mask.
Qed.

Lemma PhysAddr_align_down_eq a align :
  is_power_of_two align = true -> is_u64 align -> is_u64 a ->
  PhysAddr.align_down a align = Ret (a - a mod align).
Proof.
  intros Hp Hu Ha. unfold PhysAddr.align_down. rewrite Hp. cbn [assert_ obind].
  by rewrite land_align_not_mask.
Qed.

Lemma PhysAddr_align_up_eq a align :
  is_power_of_two align = true -> is_u64 align -> PhysAddr.valid a ->
  PhysAddr.align_up a align =
    Ret (if round_up a align <=? PhysAddr.MAX then Some (round_up a align) else None).
Proof.
  intros Hp Hu Ha. unfold PhysAddr.align_up. rewrite Hp. cbn [assert_ obind].
  pose proof (power_of_two_pos _ Hp). pose proof (PhysAddr_valid_u64 _ Ha) as Hau.
  destruct (checked_add a (align - 1)) as [v|] eqn:E.
  - apply checked_add_Some in E as [-> Hlt].
    rewrite land_align_not_mask by (done || unfold is_u64 in *; lia). reflexivity.
  - apply checked_add_None in E. destruct (round_up_spec a align) as [[Hge _] Hm]; [done|].
    destruct (Z.leb_spec (round_up a align) PhysAddr.MAX) as [Hle|]; [exfalso|done].
    (* the least multiple of [align] above [a] is [align] itself *)
    apply (align_mask_cases align Hp) in Hu as (k & Hk & -> & ?).
    pose proof (Z.pow_le_mono_r 2 k 63). change (2 ^ 63) with 9223372036854775808 in *.
    rewrite PhysAddr_MAX_val in *. unfold PhysAddr.valid in Ha. rewrite PhysAddr_MAX_val in Ha. lia.
Qed.

Lemma VirtAddr_is_aligned_eq a align :
  is_power_of_two align = true -> is_u64 align ->
  VirtAddr.is_aligned a align = Ret (a mod align =? 0).
Proof.
  intros Hp Hu. unfold VirtAddr.is_aligned. rewrite Hp. cbn [assert_ obind].
  by rewrite land_align_mask.
Qed.

Lemma is_u64_PAGE_SIZE : is_u64 PAGE_SIZE.
Proof. unfold is_u64, PAGE_SIZE. lia. Qed.

#[export] Hint Resolve PAGE_SIZE_pow2 is_u64_PAGE_SIZE PhysAddr_valid_u64 : kernel.

Lemma is_canonical_iff a :
  is_u64 a -> VirtAddr.is_canonical a = true <-> a < 2 ^ 47 \/ W64 - 2 ^ 47 <= a.
Proof.
  intros Ha. unfold VirtAddr.is_canonical. rewrite orb_true_iff, !Z.eqb_eq.
  rewrite Z.shiftr_div_pow2 by lia. change (Z.shiftl 1 17 - 1) with 131071.
  change (2 ^ 47) with 140737488355328. unfold is_u64 in *. zlia.
Qed.

(** Sign extension of bit 47 as arithmetic on the low 48 bits. *)
Lemma new_canonical_eq a :
  is_u64 a ->
  VirtAddr.new_canonical a =
    if a mod 2 ^ 48 <? 2 ^ 47 then a mod 2 ^ 48 else a mod 2 ^ 48 + (W64 - 2 ^ 48).
Proof.
  intros Ha. unfold VirtAddr.new_canonical, VirtAddr.shl16, VirtAddr.as_usize_of.
  rewrite USIZE_MAX_ones, Z.land_ones, Z.shiftl_mul_pow2, Z.shiftr_div_pow2 by lia.
  assert (E : (a * 2 ^ 16) mod 2 ^ 64 = (a mod 2 ^ 48) * 2 ^ 16).
  { change (2 ^ 64) with (2 ^ 48 * 2 ^ 16). by rewrite Z.mul_mod_distr_r. }
  rewrite E. unfold VirtAddr.as_isize.
  pose proof (Z.mod_pos_bound a (2 ^ 48)).
  change (2 ^ 16) with 65536 in *. change (2 ^ 63) with 9223372036854775808.
  change (2 ^ 47) with 140737488355328. change (2 ^ 48) with 281474976710656 in *.
  destruct (Z.ltb_spec (a mod 281474976710656) 140737488355328).
  - rewrite (proj2 (Z.ltb_lt _ _)) by lia. zlia.
  - rewrite (proj2 (Z.ltb_ge _ _)) by lia. zlia.
Qed.

(** ** Properties *)

(** C37: [PhysAddr::align_up] on a representable address and a power-of-two
    alignment never panics; it returns the least multiple of the alignment that
    is not below the address, and returns [None] exactly when no such multiple
    is representable in 52 bits. *)
Theorem phys_align_up_least a align :
  PhysAddr.valid a -> is_power_of_two align = true -> is_u64 align ->
  exists r, PhysAddr.align_up a align = Ret r /\
    match r with
    | Some v => PhysAddr.valid v /\ a <= v /\ v mod align = 0 /\
                (forall w, a <= w -> w mod align = 0 -> v <= w)
    | None => forall w, a <= w -> w mod align = 0 -> PhysAddr.MAX < w
    end.
Proof.
  intros Ha Hp Hu. rewrite PhysAddr_align_up_eq by done.
  pose proof (power_of_two_pos _ Hp) as Hpos.
  destruct (round_up_spec a align Hpos) as [[? ?] ?].
  eexists. split; [reflexivity|].
  destruct (Z.leb_spec (round_up a align) PhysAddr.MAX).
  - unfold PhysAddr.valid in *. split_and!; try lia. eauto using round_up_least.
  - intros w Hw Hm. pose proof (round_up_least a align w Hpos Hm Hw). lia.
Qed.

Lemma phys_align_up_least_witness :
  exists r, PhysAddr.align_up 4097 4096 = Ret r /\
    match r with
    | Some v => PhysAddr.valid v /\ 4097 <= v /\ v mod 4096 = 0 /\
                (forall w, 4097 <= w -> w mod 4096 = 0 -> v <= w)
    | None => forall w, 4097 <= w -> w mod 4096 = 0 -> PhysAddr.MAX < w
    end.
Proof.
  apply (phys_align_up_least 4097 4096).
  - unfold PhysAddr.valid. rewrite PhysAddr_MAX_val. lia.
  - reflexivity.
  - unfold is_u64. lia.
Defined.

(** [VirtAddr::new_canonical] sign-extends bit 47: the result is a
    canonical word with the same low 48 bits, canonical addresses are fixed
    points, and [VirtAddr::new] accepts exactly the fixed points. *)
Theorem new_canonical_sign_extends a :
  is_u64 a ->
  VirtAddr.is_canonical (VirtAddr.new_canonical a) = true /\
  is_u64 (VirtAddr.new_canonical a) /\
  VirtAddr.new_canonical a mod 2 ^ 48 = a mod 2 ^ 48 /\
  (VirtAddr.new a = Some a <-> VirtAddr.new_canonical a = a).
Proof.
  intros Ha.
  assert (Hu : is_u64 (VirtAddr.new_canonical a)).
  { rewrite new_canonical_eq by done. change (2 ^ 47) with 140737488355328.
    change (2 ^ 48) with 281474976710656. unfold is_u64 in *. case_match; zlia. }
  assert (Hnew : VirtAddr.new a = Some a <-> VirtAddr.is_canonical a = true).
  { unfold VirtAddr.new. destruct (VirtAddr.is_canonical a); naive_solver. }
  rewrite Hnew, !is_canonical_iff by done.
  rewrite !new_canonical_eq in * by done. change (2 ^ 47) with 140737488355328 in *.
  change (2 ^ 48) with 281474976710656 in *. unfold is_u64 in *.
  destruct (Z.ltb_spec (a mod 281474976710656) 140737488355328); zlia.
Qed.

Lemma new_canonical_sign_extends_witness :
  is_u64 0x800000000000 /\ VirtAddr.new_canonical 0x800000000000 = 0xffff800000000000 /\
  VirtAddr.is_canonical (VirtAddr.new_canonical 0x800000000000) = true.
Proof.
  assert (H : is_u64 0x800000000000) by (unfold is_u64; lia).
  split; [exact H|]. split; [reflexivity|].
  exact (proj1 (new_canonical_sign_extends _ H)).
Defined.

(** A word that is a canonical address. *)
Definition canonical_word (a : Z) : Prop := is_u64 a /\ (a < 2 ^ 47 \/ W64 - 2 ^ 47 <= a).

Lemma canonical_word_iff a : canonical_word a <-> is_u64 a /\ VirtAddr.is_canonical a = true.
Proof. unfold canonical_word. split; intros [Hu H]; (split; [done|]); by apply is_canonical_iff. Qed.

Lemma new_canonical_word a : is_u64 a -> canonical_word (VirtAddr.new_canonical a).
Proof.
  intros Ha. unfold canonical_word. rewrite new_canonical_eq by done. change (2 ^ 47) with 140737488355328.
  change (2 ^ 48) with 281474976710656. unfold is_u64 in *. case_match; zlia.
Qed.

Lemma new_canonical_id a : canonical_word a -> VirtAddr.new_canonical a = a.
Proof.
  intros [Ha Hc]. rewrite new_canonical_eq by done. change (2 ^ 47) with 140737488355328 in *.
  change (2 ^ 48) with 281474976710656. unfold is_u64 in *. case_match; zlia.
Qed.

(** The greatest multiple below, and divisibility by a power of two. *)
Lemma round_down_greatest a align w : 0 < align -> w mod align = 0 -> w <= a -> w <= a - a mod align.
Proof.
  intros Hp Hm Hle. pose proof (Z.div_mod a align ltac:(lia)). pose proof (Z.div_mod w align ltac:(lia)).
  pose proof (Z.div_le_mono w a align Hp Hle). nia.
Qed.

Lemma round_down_mod a align : 0 < align -> (a - a mod align) mod align = 0.
Proof. intros Hp. rewrite Zminus_mod_idemp_r, Z.sub_diag. by apply Z.mod_0_l; lia. Qed.

Lemma pow2_mod_le j k x : 0 <= j <= k -> x mod 2 ^ k = 0 -> x mod 2 ^ j = 0.
Proof.
  intros Hj Hx. pose proof (Z.pow_pos_nonneg 2 j). pose proof (Z.pow_pos_nonneg 2 k).
  apply Z.mod_divide in Hx; [|lia]. apply Z.mod_divide; [lia|]. transitivity (2 ^ k); [|done].
  exists (2 ^ (k - j)). rewrite <- Z.pow_add_r by lia. f_equal. lia.
Qed.

(** Both halves are multiples of a small power of two; only 0 is a canonical
    multiple of a large one. *)
Lemma half_multiple k : 0 <= k <= 47 -> 2 ^ 47 mod 2 ^ k = 0 /\ (W64 - 2 ^ 47) mod 2 ^ k = 0 /\ W64 mod 2 ^ k = 0.
Proof. intros Hk. split_and!; apply (pow2_mod_le k 47); lia || by vm_compute. Qed.

Lemma large_multiple k w : 48 <= k -> canonical_word w -> w mod 2 ^ k = 0 -> w = 0.
Proof.
  intros Hk [Hw Hc] Hm. apply (pow2_mod_le 48 k) in Hm; [|lia]. change (2 ^ 47) with 140737488355328 in *.
  change (2 ^ 48) with 281474976710656 in *. unfold is_u64 in *. zlia.
Qed.

Lemma new_canonical_large k x : 48 <= k -> is_u64 x -> x mod 2 ^ k = 0 -> VirtAddr.new_canonical x = 0.
Proof.
  intros Hk Hx Hm. apply (pow2_mod_le 48 k) in Hm; [|lia]. rewrite new_canonical_eq by done. by rewrite Hm.
Qed.

Lemma virt_align_down_greatest a align :
  canonical_word a -> is_power_of_two align = true -> is_u64 align ->
  exists d, VirtAddr.align_down a align = Ret d /\ canonical_word d /\ d mod align = 0 /\ d <= a /\
    forall w, canonical_word w -> w mod align = 0 -> w <= a -> w <= d.
Proof.
  intros Ha Hp Hu. unfold VirtAddr.align_down. rewrite Hp, land_align_not_mask by (done || apply Ha). cbn [assert_ obind].
  destruct (align_mask_cases align Hp Hu) as (k & Hk & -> & Hpos).
  pose proof (Z.mod_pos_bound a (2 ^ k) Hpos) as Hm. pose proof (Z.mod_le a (2 ^ k) (proj1 (proj1 Ha)) Hpos).
  assert (Hd : is_u64 (a - a mod 2 ^ k)) by (destruct Ha; unfold is_u64 in *; lia).
  pose proof (round_down_mod a _ Hpos) as Hdm. eexists. split; [reflexivity|]. destruct (Z.le_gt_cases k 47) as [Hs|Hl].
  - assert (Hc : canonical_word (a - a mod 2 ^ k)).
    { split; [done|]. destruct Ha as [_ [Hlo|Hhi]]; [left; lia|right].
      apply round_down_greatest; [done|apply half_multiple; lia|done]. }
    rewrite (new_canonical_id _ Hc). split_and!; try done; [lia|]. intros. by apply round_down_greatest.
  - rewrite (new_canonical_large k) by (done || lia). split_and!; [|by apply Z.mod_0_l; lia|apply Ha|].
    + split; [unfold is_u64; lia|by left].
    + intros w Hw Hwm _. rewrite (large_multiple k w) by (done || lia). done.
Qed.

(** Rounding up, by the outcome. *)
Lemma virt_align_up_cases a align :
  canonical_word a -> is_power_of_two align = true -> is_u64 align ->
  exists u, VirtAddr.align_up a align = Ret u /\
    match u with
    | Some v => canonical_word v /\ v mod align = 0 /\
        if align <=? 2 ^ 47 then a <= v /\ forall w, canonical_word w -> w mod align = 0 -> a <= w -> v <= w
        else v = 0 /\ a < 2 ^ 47
    | None => forall w, canonical_word w -> w mod align = 0 -> w < a
    end.
Proof.
  intros Ha Hp Hu. unfold VirtAddr.align_up. rewrite Hp. cbn [assert_ obind].
  destruct (align_mask_cases align Hp Hu) as (k & Hk & -> & Hpos).
  destruct (round_up_spec a (2 ^ k) Hpos) as [Hb Hm]. set (q := round_up a (2 ^ k)) in *.
  eexists. split; [reflexivity|]. destruct (checked_add a (2 ^ k - 1)) as [v|] eqn:E.
  - apply checked_add_Some in E as [-> Hlt].
    assert (Hq : is_u64 q) by (unfold is_u64; destruct Ha as [[? ?] _]; lia).
    rewrite land_align_not_mask by (done || (unfold is_u64; destruct Ha as [[? ?] _]; lia)). fold (round_up a (2 ^ k)). fold q.
    destruct (Z.leb_spec (2 ^ k) (2 ^ 47)) as [Hs|Hl].
    + apply Z.pow_le_mono_r_iff in Hs; [|lia|lia]. destruct (half_multiple k) as (H47 & Hh & _); [lia|].
      split; [by apply new_canonical_word|].
      assert (Hcase : canonical_word q \/ (q = 2 ^ 47 /\ a <= 2 ^ 47)).
      { destruct Ha as [_ [Hlo|Hhi]]; [|left; split; [done|right; lia]].
        pose proof (round_up_least a (2 ^ k) (2 ^ 47) Hpos H47 ltac:(lia)) as Hle. fold q in Hle.
        destruct (Z.eq_dec q (2 ^ 47)) as [->|]; [by right; lia|left; split; [done|left; lia]]. }
      destruct Hcase as [Hc|[Hq47 Hle]].
      * rewrite new_canonical_id by done. split_and!; [done|lia|]. intros w Hw Hwm Haw. by apply round_up_least.
      * rewrite Hq47. change (VirtAddr.new_canonical (2 ^ 47)) with (W64 - 2 ^ 47). split_and!; [done|klia|].
        intros w [_ [Hw|Hw]] Hwm Haw; [|done]. pose proof (round_up_least a (2 ^ k) w Hpos Hwm Haw) as Hqw. fold q in Hqw. lia.
    + apply Z.pow_lt_mono_r_iff in Hl; [|lia|lia]. rewrite (new_canonical_large k) by (done || lia).
      split_and!; [split; [unfold is_u64; lia|by left]|by apply Z.mod_0_l; lia|done|].
      destruct Ha as [_ [Hlo|Hhi]]; [done|]. pose proof (Z.pow_le_mono_r 2 48 k ltac:(lia) ltac:(lia)).
      change (2 ^ 47) with 140737488355328 in *. change (2 ^ 48) with 281474976710656 in *. lia.
  - apply checked_add_None in E. intros w Hw Hwm. destruct (Z.lt_ge_cases w a) as [|Haw]; [done|exfalso].
    pose proof (round_up_least a (2 ^ k) w Hpos Hwm Haw) as Hle. fold q in Hle.
    assert (HW : W64 mod 2 ^ k = 0) by (apply (pow2_mod_le k 64); [lia|by vm_compute]).
    pose proof (round_down_greatest (a + (2 ^ k - 1)) (2 ^ k) W64 Hpos HW E) as Hge. fold (round_up a (2 ^ k)) in Hge. fold q in Hge.
    destruct Hw as [[_ ?] _]. lia.
Qed.

(** In the low half nothing overflows. *)
Lemma virt_align_up_low a align :
  0 <= a < 2 ^ 47 -> is_power_of_two align = true -> is_u64 align -> VirtAddr.align_up a align <> Ret None.
Proof.
  intros Ha Hp Hu. destruct (align_mask_cases align Hp Hu) as (k & Hk & -> & Hpos).
  pose proof (Z.pow_le_mono_r 2 k 63 ltac:(lia) ltac:(lia)). unfold VirtAddr.align_up. rewrite Hp. cbn [assert_ obind].
  rewrite (proj2 (checked_add_Some _ _ (a + (2 ^ k - 1)))); [done|].
  change (2 ^ 47) with 140737488355328 in *. change (2 ^ 63) with 9223372036854775808 in *. split; [done|lia].
Qed.

(** C36: typing and alignment of virtual addresses.  On a canonical address and a
    power of two neither alignment panics and both stay canonical and aligned:
    [align_down] gives the greatest canonical multiple below; [align_up] gives the
    least one above, stepping over the gap between the halves, or [None] when
    there is none.  For alignments from 2^48 on [align_up] gives 0 for
    every address of the low half, although only for the address 0 that is not
    below it. *)
Theorem virt_align_canonical a align :
  canonical_word a -> is_power_of_two align = true -> is_u64 align ->
  (exists d, VirtAddr.align_down a align = Ret d /\ canonical_word d /\ d mod align = 0 /\ d <= a /\
    forall w, canonical_word w -> w mod align = 0 -> w <= a -> w <= d) /\
  exists u, VirtAddr.align_up a align = Ret u /\
    match u with
    | Some v => canonical_word v /\ v mod align = 0 /\
        if align <=? 2 ^ 47 then a <= v /\ forall w, canonical_word w -> w mod align = 0 -> a <= w -> v <= w
        else v = 0 /\ a < 2 ^ 47
    | None => forall w, canonical_word w -> w mod align = 0 -> w < a
    end /\ (2 ^ 47 < align -> a < 2 ^ 47 -> u = Some 0).
Proof.
  intros Ha Hp Hu. split; [by apply virt_align_down_greatest|].
  destruct (virt_align_up_cases a align Ha Hp Hu) as (u & E & Hcase). exists u. split_and!; [done|done|].
  intros Hl Hlow. destruct u as [v|]; [|by destruct (virt_align_up_low a align); [split; [apply Ha|]|..]].
  rewrite (proj2 (Z.leb_gt _ _)) in Hcase by done. by destruct Hcase as (_ & _ & -> & _).
Qed.

Lemma virt_align_canonical_witness :
  VirtAddr.align_up 0x7ffffffff001 PAGE_SIZE = Ret (Some 0xffff800000000000) /\
  forall w, canonical_word w -> w mod PAGE_SIZE = 0 -> 0x7ffffffff001 <= w -> 0xffff800000000000 <= w.
Proof.
  assert (Ha : canonical_word 0x7ffffffff001) by (split; [unfold is_u64; lia|left; reflexivity]).
  destruct (virt_align_canonical _ PAGE_SIZE Ha eq_refl is_u64_PAGE_SIZE) as [_ (u & E & Hu)].
  split; [reflexivity|]. injection E as <-. destruct Hu as [Hu _]. apply Hu.
Defined.
