(* ===== verification/Frame.v ===== *)
(** * Physical frames (eira/src/mm/frame.rs)

    [PhysFrame<S>] is modelled by its base address, the const generic [S] is an
    explicit argument.  [OwnedFrame] is the same word; that it cannot be copied
    or dropped is a property of the Rust type system, so the clients thread it
    linearly.  [FrameRange<S>] is a record; [next] is the [Iterator] method and
    [collect] the loop that drives it. *)

From S2P Require Import Prelude Addr.

Module PhysFrame.

Definition from_base (S base : Z) : outcome (option Z) :=
  let! b := PhysAddr.is_aligned base S in
  Ret (if b then Some base else None).

Definition containing (S addr : Z) : outcome Z := PhysAddr.align_down addr S.

(** [end] is a Rocq keyword. *)
Definition end_ (S self : Z) : option Z := PhysAddr.checked_add self S.

Definition index (S self : Z) : Z := self / S.

Definition from_index (S index : Z) : option Z :=
  match checked_mul index S with
  | Some addr =>
      match PhysAddr.new addr with
      | Some base => Some base
      | None => None
      end
  | None => None
  end.

(** The type invariant: aligned to [S] and representable. *)
Definition wf (S f : Z) : Prop := PhysAddr.valid f /\ f mod S = 0.

End PhysFrame.

Module FrameRange.

Record t := mk { start : Z; end_ : Z }.

Definition new (start end_ : Z) : t := mk start end_.

Definition from_addr_len (S base len : Z) : outcome (option t) :=
  if len =? 0 then Ret None
  else
    match PhysAddr.checked_add base (len - 1) with
    | Some end_addr =>
        let! s := PhysFrame.containing S base in
        let! e := PhysFrame.containing S end_addr in
        Ret (Some (mk s e))
    | None => Ret None
    end.

Definition is_empty (S : Z) (self : t) : bool :=
  PhysFrame.index S (end_ self) <? PhysFrame.index S (start self).

Definition len (S : Z) (self : t) : outcome Z :=
  if is_empty S self then Ret 0
  else
    let! d := sub_ (PhysFrame.index S (end_ self)) (PhysFrame.index S (start self)) in
    add_ d 1.

Definition contains (S : Z) (self : t) (frame : Z) : bool :=
  (PhysFrame.index S (start self) <=? PhysFrame.index S frame) &&
  (PhysFrame.index S frame <=? PhysFrame.index S (end_ self)).

(** The [?] on [from_index] leaves the method before the frame is yielded. *)
Definition next (S : Z) (self : t) : outcome (option Z * t) :=
  if start self <=? end_ self then
    let frame := start self in
    let! i := add_ (PhysFrame.index S (start self)) 1 in
    match PhysFrame.from_index S i with
    | Some s => Ret (Some frame, mk s (end_ self))
    | None => Ret (None, self)
    end
  else Ret (None, self).

(** A [for] loop over the range, with fuel. *)
Fixpoint collect (fuel : nat) (S : Z) (self : t) : outcome (list Z) :=
  match fuel with
  | O => Hang
  | Datatypes.S n =>
      let! '(o, self') := next S self in
      match o with
      | None => Ret []
      | Some f => let! l := collect n S self' in Ret (f :: l)
      end
  end.

End FrameRange.

#[export] Hint Unfold PhysFrame.wf : kconst.

(** ** Lemmas *)
Section frames.
  Context (S : Z) (HS : is_power_of_two S = true) (HSu : is_u64 S).

Lemma containing_eq a : is_u64 a -> PhysFrame.containing S a = Ret (a - a mod S).
Proof. intros. by apply PhysAddr_align_down_eq. Qed.

Lemma from_base_eq a :
  PhysFrame.from_base S a = Ret (if a mod S =? 0 then Some a else None).
Proof. unfold PhysFrame.from_base. by rewrite PhysAddr_is_aligned_eq. Qed.

Lemma containing_wf a : PhysAddr.valid a -> PhysFrame.wf S (a - a mod S).
Proof.
  intros [? ?]. pose proof (power_of_two_pos _ HS).
  pose proof (Z.mod_pos_bound a S). pose proof (Z.mod_le a S).
  split; [unfold PhysAddr.valid; lia | by apply align_down_mod].
Qed.

Lemma from_index_Some i f :
  0 <= i -> PhysFrame.from_index S i = Some f <-> f = i * S /\ i * S <= PhysAddr.MAX.
Proof.
  intros Hi. unfold PhysFrame.from_index.
  pose proof PhysAddr_MAX_val.
  destruct (checked_mul i S) as [a|] eqn:E.
  - apply checked_mul_Some in E as [-> ?].
    destruct (PhysAddr.new (i * S)) eqn:E2.
    + apply PhysAddr_new_Some in E2 as [-> ?]. naive_solver.
    + unfold PhysAddr.new in E2. destruct (Z.leb_spec (i * S) PhysAddr.MAX); [done|].
      split; [done | lia].
  - split; [done|]. intros [-> ?]. unfold checked_mul in E.
    destruct (Z.ltb_spec (i * S) W64); [done|lia].
Qed.

Lemma index_mul i : PhysFrame.index S (i * S) = i.
Proof. pose proof (power_of_two_pos _ HS). unfold PhysFrame.index. apply Z.div_mul. lia. Qed.

Lemma wf_index f :
  PhysFrame.wf S f -> f = PhysFrame.index S f * S /\ 0 <= PhysFrame.index S f <= f.
Proof.
  pose proof (power_of_two_pos _ HS).
  intros [[? ?] Hm]. unfold PhysFrame.index.
  pose proof (Z.div_le_upper_bound f S f). split; [zlia|]. split; [by apply Z.div_pos|nia].
Qed.

Lemma from_index_index f : PhysFrame.wf S f -> PhysFrame.from_index S (PhysFrame.index S f) = Some f.
Proof.
  intros Hf. destruct (wf_index f Hf) as [Hi ?]. apply from_index_Some; [lia|].
  destruct Hf as [[??] ?]. lia.
Qed.

Lemma from_index_wf i f : 0 <= i -> PhysFrame.from_index S i = Some f -> PhysFrame.wf S f.
Proof.
  pose proof (power_of_two_pos _ HS).
  intros Hi [-> ?]%from_index_Some; [|done]. split; [unfold PhysAddr.valid; nia|].
  apply Z.mod_mul. lia.
Qed.

(** One step of the iterator on a non-empty range. *)
Lemma next_step f e :
  PhysFrame.wf S f -> f <= e -> f + S <= PhysAddr.MAX ->
  FrameRange.next S (FrameRange.mk f e) = Ret (Some f, FrameRange.mk (f + S) e).
Proof.
  intros Hf Hle Hmax. destruct (wf_index f Hf) as [Hi [Hnn Hif]]. pose proof (power_of_two_pos _ HS).
  unfold FrameRange.next. cbn [FrameRange.start FrameRange.end_].
  rewrite (proj2 (Z.leb_le _ _)) by done.
  rewrite add_Ret by (rewrite PhysAddr_MAX_val in *; lia). cbn [obind].
  rewrite (proj2 (from_index_Some (PhysFrame.index S f + 1) (f + S) ltac:(lia))) by lia. done.
Qed.

Lemma next_empty f e : e < f -> FrameRange.next S (FrameRange.mk f e) = Ret (None, FrameRange.mk f e).
Proof. intros. unfold FrameRange.next. cbn. by rewrite (proj2 (Z.leb_gt _ _)). Qed.

Lemma next_top f e :
  PhysFrame.wf S f -> f <= e -> PhysAddr.MAX < f + S ->
  FrameRange.next S (FrameRange.mk f e) = Ret (None, FrameRange.mk f e).
Proof.
  intros Hf Hle Hmax. destruct (wf_index f Hf) as [Hi [Hnn Hif]]. pose proof (power_of_two_pos _ HS).
  unfold FrameRange.next. cbn [FrameRange.start FrameRange.end_].
  rewrite (proj2 (Z.leb_le _ _)) by done.
  destruct Hf as [[_ Hfm] _].
  rewrite add_Ret by (rewrite PhysAddr_MAX_val in *; lia). cbn [obind].
  destruct (PhysFrame.from_index S (PhysFrame.index S f + 1)) eqn:E; [|done].
  apply from_index_Some in E; lia.
Qed.

(** [n] steps: as long as every yielded frame has a representable successor. *)
Lemma collect_frames n fuel f e :
  PhysFrame.wf S f -> f + Z.of_nat n * S <= PhysAddr.MAX ->
  (forall i, 0 <= i < Z.of_nat n -> f + i * S <= e) ->
  (forall r, FrameRange.next S (FrameRange.mk (f + Z.of_nat n * S) e) = Ret r -> r.1 = None) ->
  (exists r, FrameRange.next S (FrameRange.mk (f + Z.of_nat n * S) e) = Ret r) ->
  (n < fuel)%nat ->
  FrameRange.collect fuel S (FrameRange.mk f e) =
    Ret ((fun i => f + Z.of_nat i * S) <$> seq 0 n).
Proof.
  pose proof (power_of_two_pos _ HS).
  revert fuel f; induction n as [|n IH]; intros [|fuel] f Hf Hmax Hin Hlast [r Hr] Hfuel; try lia.
  - rewrite Z.mul_0_l, Z.add_0_r in *. cbn. rewrite Hr.
    specialize (Hlast _ Hr). destruct r as [o r]. cbn in *. by subst o.
  - cbn [FrameRange.collect].
    rewrite next_step; [|done| specialize (Hin 0); lia | nia]. cbn [obind].
    replace (f + Z.of_nat (Datatypes.S n) * S) with (f + S + Z.of_nat n * S) in * by lia.
    rewrite IH.
    + cbn [obind fmap list_fmap seq]. f_equal. f_equal; [lia|].
      rewrite <- (fmap_S_seq 0 n), <- list_fmap_compose. apply list_fmap_ext. intros; cbn. lia.
    + destruct Hf as [[??] Hm]. split; [unfold PhysAddr.valid; nia|].
      rewrite Zplus_mod, Hm, Z.mod_same by lia. done.
    + done.
    + intros i Hi. specialize (Hin (i + 1)). lia.
    + done.
    + eauto.
    + lia.
Qed.

End frames.

Lemma range_len_eq S s e :
  is_power_of_two S = true -> is_u64 S -> PhysFrame.wf S s -> PhysFrame.wf S e -> s <= e ->
  FrameRange.len S (FrameRange.mk s e) = Ret ((e - s) / S + 1) /\
  e = s + (e - s) / S * S /\ 0 <= (e - s) / S.
Proof.
  intros HS HSu Hs He Hle. pose proof (power_of_two_pos _ HS).
  destruct (wf_index S HS s Hs) as [Es ?], (wf_index S HS e He) as [Ee ?].
  unfold FrameRange.len, FrameRange.is_empty. cbn [FrameRange.start FrameRange.end_].
  revert Es Ee; generalize (PhysFrame.index S s) (PhysFrame.index S e); intros i j -> ->.
  assert (i <= j) by nia.
  replace (j * S - i * S) with ((j - i) * S) by lia. rewrite Z.div_mul by lia.
  rewrite (proj2 (Z.ltb_ge _ _)), sub_Ret by lia. cbn [obind].
  destruct He as [[_ He] _]. rewrite PhysAddr_MAX_val in He.
  rewrite add_Ret by nia. split; [done|]. nia.
Qed.

Lemma contains_iff S s e f :
  is_power_of_two S = true -> PhysFrame.wf S s -> PhysFrame.wf S e -> PhysFrame.wf S f ->
  FrameRange.contains S (FrameRange.mk s e) f = true <-> s <= f <= e.
Proof.
  intros HS Hs He Hf. pose proof (power_of_two_pos _ HS).
  destruct (wf_index S HS s Hs) as [Es ?], (wf_index S HS e He) as [Ee ?], (wf_index S HS f Hf) as [Ef ?].
  unfold FrameRange.contains. rewrite andb_true_iff, !Z.leb_le. cbn [FrameRange.start FrameRange.end_].
  revert Es Ee Ef; generalize (PhysFrame.index S s) (PhysFrame.index S e) (PhysFrame.index S f).
  intros i j k -> -> ->. nia.
Qed.

(** ** Properties *)

(** iterating a [FrameRange] whose last frame is not the topmost frame of
    the 52-bit space terminates without panicking and yields, in ascending
    order and each once, exactly the frames the range contains, as many as
    [len] says. *)
Theorem frame_range_iter_complete S s e :
  is_power_of_two S = true -> is_u64 S -> PhysFrame.wf S s -> PhysFrame.wf S e ->
  s <= e -> e + S <= PhysAddr.MAX ->
  exists frames,
    FrameRange.len S (FrameRange.mk s e) = Ret (Z.of_nat (length frames)) /\
    (forall fuel, (length frames < fuel)%nat ->
       FrameRange.collect fuel S (FrameRange.mk s e) = Ret frames) /\
    (forall i f, frames !! i = Some f -> f = s + Z.of_nat i * S) /\
    (forall f, PhysFrame.wf S f ->
       f ∈ frames <-> FrameRange.contains S (FrameRange.mk s e) f = true).
Proof.
  intros HS HSu Hs He Hle Hmax. pose proof (power_of_two_pos _ HS).
  destruct (range_len_eq S s e) as (Hlen & Ee & Hq); try done.
  set (n := Z.to_nat ((e - s) / S + 1)).
  assert (Hn : Z.of_nat n = (e - s) / S + 1) by (unfold n; lia).
  exists ((fun i => s + Z.of_nat i * S) <$> seq 0 n).
  rewrite length_fmap, length_seq. split_and!.
  - rewrite Hlen. f_equal. lia.
  - intros fuel Hfuel. apply collect_frames; try done.
    + nia.
    + intros i Hi. nia.
    + intros r Hr. rewrite next_empty in Hr by nia. ret_inv. by subst r.
    + eexists. apply next_empty. nia.
  - intros i f Hf. apply list_lookup_fmap_Some in Hf as (j & -> & Hj).
    apply lookup_seq in Hj as [-> ?]. done.
  - intros f Hf. rewrite contains_iff, list_elem_of_fmap by done.
    setoid_rewrite elem_of_seq. split; [intros (i & -> & ?); nia|].
    destruct (wf_index S HS s Hs) as [Es ?], (wf_index S HS f Hf) as [Ef ?].
    intros [? ?]. exists (Z.to_nat (PhysFrame.index S f - PhysFrame.index S s)).
    assert (PhysFrame.index S s <= PhysFrame.index S f) by nia. split; [nia|].
    assert (PhysFrame.index S f - PhysFrame.index S s < Z.of_nat n) by nia. lia.
Qed.

Lemma wf_4K f : 0 <= f <= PhysAddr.MAX -> f mod 4096 = 0 -> PhysFrame.wf 4096 f.
Proof. by split. Qed.

Lemma frame_range_iter_complete_witness :
  exists frames,
    FrameRange.len 4096 (FrameRange.mk 0 8192) = Ret (Z.of_nat (length frames)) /\
    (forall fuel, (length frames < fuel)%nat ->
       FrameRange.collect fuel 4096 (FrameRange.mk 0 8192) = Ret frames) /\
    (forall i f, frames !! i = Some f -> f = 0 + Z.of_nat i * 4096) /\
    (forall f, PhysFrame.wf 4096 f ->
       f ∈ frames <-> FrameRange.contains 4096 (FrameRange.mk 0 8192) f = true).
Proof.
  apply (frame_range_iter_complete 4096 0 8192);
    first [reflexivity | apply wf_4K; [rewrite PhysAddr_MAX_val; lia | reflexivity]
          | rewrite PhysAddr_MAX_val; lia | unfold is_u64; lia].
Defined.

(** A [FrameRange] that ends at the topmost frame of the 52-bit space is
    iterated one frame short: [next] computes the successor before it yields,
    so the last frame is contained in the range and counted by [len] but never
    yielded. *)
Theorem frame_range_top_frame_lost S s e :
  is_power_of_two S = true -> is_u64 S -> PhysFrame.wf S s -> PhysFrame.wf S e ->
  s <= e -> PhysAddr.MAX < e + S ->
  exists frames,
    FrameRange.len S (FrameRange.mk s e) = Ret (Z.of_nat (length frames) + 1) /\
    (forall fuel, (length frames < fuel)%nat ->
       FrameRange.collect fuel S (FrameRange.mk s e) = Ret frames) /\
    FrameRange.contains S (FrameRange.mk s e) e = true /\ e ∉ frames.
Proof.
  intros HS HSu Hs He Hle Hmax. pose proof (power_of_two_pos _ HS).
  destruct (range_len_eq S s e) as (Hlen & Ee & Hq); try done.
  set (n := Z.to_nat ((e - s) / S)).
  assert (Hn : Z.of_nat n = (e - s) / S) by (unfold n; lia).
  assert (Hsn : s + Z.of_nat n * S = e) by lia.
  exists ((fun i => s + Z.of_nat i * S) <$> seq 0 n).
  rewrite length_fmap, length_seq. split_and!.
  - rewrite Hlen. f_equal. lia.
  - intros fuel Hfuel. apply collect_frames; rewrite ?Hsn; try done.
    + destruct He as [[??] ?]. lia.
    + intros i Hi. nia.
    + intros r Hr. rewrite next_top in Hr by done. ret_inv. by subst r.
    + eexists. by apply next_top.
  - by apply contains_iff.
  - rewrite list_elem_of_fmap. setoid_rewrite elem_of_seq. intros (i & Hi & ?). nia.
Qed.

Lemma frame_range_top_frame_lost_witness :
  exists frames,
    FrameRange.len 4096 (FrameRange.mk 0xfffffffffe000 0xffffffffff000) =
      Ret (Z.of_nat (length frames) + 1) /\
    (forall fuel, (length frames < fuel)%nat ->
       FrameRange.collect fuel 4096 (FrameRange.mk 0xfffffffffe000 0xffffffffff000) = Ret frames) /\
    FrameRange.contains 4096 (FrameRange.mk 0xfffffffffe000 0xffffffffff000) 0xffffffffff000 = true /\
    0xffffffffff000 ∉ frames.
Proof.
  apply (frame_range_top_frame_lost 4096 0xfffffffffe000 0xffffffffff000);
    first [reflexivity | apply wf_4K; [rewrite PhysAddr_MAX_val; lia | reflexivity]
          | rewrite PhysAddr_MAX_val; lia | unfold is_u64; lia].
Defined.
