(* ===== verification/Memory.v ===== *)
(** * Machine memory

    The kernel reads and writes frames, free-list nodes, page tables, heap
    headers and task stacks through raw pointers.  Every such access is a whole,
    naturally aligned 64-bit word, so memory is a finite map from word addresses
    to words (absent words read as zero).  [same_outside P m m'] says that [m']
    differs from [m] at most on the addresses [P]. *)

From S2P Require Import Prelude Addr.

Abbreviation mem := (gmap Z Z).

Definition read64 (m : mem) (a : Z) : Z := default 0 (m !! a).
Definition write64 (m : mem) (a v : Z) : mem := <[a := v]> m.

Lemma read_write_eq m a v : read64 (write64 m a v) a = v.
Proof. unfold read64, write64. by rewrite lookup_insert_eq. Qed.

Lemma read_write_ne m a b v : a <> b -> read64 (write64 m a v) b = read64 m b.
Proof. intros. unfold read64, write64. by rewrite lookup_insert_ne. Qed.

Lemma read_write m a b v :
  read64 (write64 m a v) b = if decide (a = b) then v else read64 m b.
Proof. unfold read64, write64. rewrite lookup_insert. by case_decide. Qed.

Definition same_outside (P : Z -> Prop) (m m' : mem) : Prop :=
  forall w, ~ P w -> read64 m' w = read64 m w.

Lemma same_outside_refl P m : same_outside P m m.
Proof. done. Qed.

Lemma same_outside_trans (P Q R : Z -> Prop) m1 m2 m3 :
  same_outside P m1 m2 -> same_outside Q m2 m3 ->
  (forall w, P w \/ Q w -> R w) -> same_outside R m1 m3.
Proof. intros H1 H2 H w Hw. rewrite H2, H1; naive_solver. Qed.

Lemma same_outside_weaken (P Q : Z -> Prop) m1 m2 :
  same_outside P m1 m2 -> (forall w, P w -> Q w) -> same_outside Q m1 m2.
Proof. intros H1 H w Hw. apply H1. naive_solver. Qed.

Lemma same_outside_write (P : Z -> Prop) m a v : P a -> same_outside P m (write64 m a v).
Proof. intros Ha w Hw. apply read_write_ne. by intros ->. Qed.

#[export] Hint Resolve same_outside_refl same_outside_write : kernel.

(** The words of the 4 KiB frame at physical address [f], seen through the
    higher-half direct map at [hhdm]. *)
Definition in_frame (hhdm f w : Z) : Prop := hhdm + f <= w < hhdm + f + PAGE_SIZE.

#[export] Instance in_frame_dec hhdm f w : Decision (in_frame hhdm f w).
Proof. unfold in_frame. apply _. Defined.

Lemma in_frame_disjoint hhdm f g w :
  f mod PAGE_SIZE = 0 -> g mod PAGE_SIZE = 0 -> f <> g ->
  in_frame hhdm f w -> ~ in_frame hhdm g w.
Proof. unfold in_frame. klia. Qed.

Lemma in_frame_base hhdm f : in_frame hhdm f (f + hhdm).
Proof. unfold in_frame. klia. Qed.

#[export] Hint Resolve in_frame_base : kernel.

(** [n] consecutive words from [a] set to zero. *)
Fixpoint zero_words (m : mem) (a : Z) (n : nat) : mem :=
  match n with
  | O => m
  | S n => zero_words (write64 m a 0) (a + 8) n
  end.

Lemma zero_words_other m a n w :
  (forall i, (i < n)%nat -> w <> a + 8 * Z.of_nat i) -> read64 (zero_words m a n) w = read64 m w.
Proof.
  revert m a; induction n as [|n IH]; intros m a H; [done|]. cbn. rewrite IH.
  - apply read_write_ne. specialize (H O). lia.
  - intros i Hi. specialize (H (S i)). lia.
Qed.

Lemma zero_words_zero m a n i :
  (i < n)%nat -> read64 (zero_words m a n) (a + 8 * Z.of_nat i) = 0.
Proof.
  revert m a i; induction n as [|n IH]; intros m a i Hi; [lia|]. cbn.
  destruct i as [|i].
  - rewrite zero_words_other by lia. rewrite Z.add_0_r. apply read_write_eq.
  - replace (a + 8 * Z.of_nat (S i)) with (a + 8 + 8 * Z.of_nat i) by lia. apply IH. lia.
Qed.
