(* ===== verification/FrameAllocator.v ===== *)
(** * The frame-allocator interface (eira/src/mm/allocator/mod.rs)

    [FrameAllocator] is the trait: the operations every implementor provides
    and the trait's default methods.  An allocator threads its bookkeeping
    through the frames it manages, so the methods take the machine memory.

    [FrameAllocatorSpec] states what an implementor promises to its clients, in
    terms of two disjoint sets of frames: the free ones and the live ones (those
    handed out and not returned).  The page-table mapper and the address space
    are verified against this class; [Bitmap.v] provides the instance. *)

From S2P Require Import Prelude Addr Frame Memory.

Class FrameAllocator (A : Type) := {
  allocate : mem -> A -> outcome (option Z * A);
  deallocate : mem -> A -> Z -> outcome (mem * A);
  total_frames : A -> Z;
  free_frames : A -> Z;
}.

Section default_methods.
  Context {A : Type} `{FrameAllocator A}.

Definition allocate_contiguous (m : mem) (a : A) (count : Z) : outcome (option Z * A) :=
  if count =? 1 then allocate m a else Ret (None, a).

Definition used_frames (a : A) : outcome Z := sub_ (total_frames a) (free_frames a).

(** [OwnedFrame::into_inner] followed by [deallocate]. *)
Definition deallocate_owned (m : mem) (a : A) (frame : Z) : outcome (mem * A) :=
  deallocate m a frame.

(** [OwnedFrame::free] *)
Definition OwnedFrame_free (m : mem) (a : A) (frame : Z) : outcome (mem * A) :=
  deallocate m a frame.

End default_methods.

Class FrameAllocatorSpec (A : Type) `{FrameAllocator A} := {
  (** [fa_state hhdm m a free live]: allocator [a] over memory [m] (mapped at
      [hhdm]) has the frames [free] to give and has handed out [live]. *)
  fa_state : Z -> mem -> A -> gset Z -> gset Z -> Prop;

  fa_disjoint hhdm m a free live : fa_state hhdm m a free live -> free ## live;

  fa_wf hhdm m a free live f :
    fa_state hhdm m a free live -> f ∈ free ∪ live ->
    PhysFrame.wf PAGE_SIZE f /\ 0 < f + hhdm /\ f + hhdm + PAGE_SIZE <= W64;

  fa_free_frames hhdm m a free live :
    fa_state hhdm m a free live -> free_frames a = Z.of_nat (size free);

  fa_total_frames hhdm m a free live :
    fa_state hhdm m a free live -> Z.of_nat (size free) + Z.of_nat (size live) <= total_frames a;

  fa_allocate_none hhdm m a live :
    fa_state hhdm m a ∅ live -> allocate m a = Ret (None, a);

  fa_allocate_some hhdm m a free live :
    fa_state hhdm m a free live -> free <> ∅ ->
    exists f a', allocate m a = Ret (Some f, a') /\ f ∈ free /\
      fa_state hhdm m a' (free ∖ {[f]}) ({[f]} ∪ live);

  fa_deallocate hhdm m a free live f :
    fa_state hhdm m a free live -> f ∈ live ->
    exists m' a', deallocate m a f = Ret (m', a') /\
      same_outside (in_frame hhdm f) m m' /\
      fa_state hhdm m' a' ({[f]} ∪ free) (live ∖ {[f]});

  (** The allocator looks at no memory but that of its free frames. *)
  fa_frame hhdm m m' a free live :
    fa_state hhdm m a free live ->
    (forall f w, f ∈ free -> in_frame hhdm f w -> read64 m' w = read64 m w) ->
    fa_state hhdm m' a free live;
}.
