(* ===== verification/Bitmap.v ===== *)
(** * The bitmap and free-list frame allocator (eira/src/mm/allocator/bitmap.rs)

    The state is the record [t]: the bitmap as its bytes, the head of the
    intrusive free list, the HHDM offset and the two counters.  A free frame's
    first word in memory holds the address of the next free frame; the list ends
    with [FREE_LIST_EMPTY].

    [inv m a fl live] is the allocator's invariant: the list threaded through
    memory from [free_list_head] is [fl], the frames of [fl] are marked free and
    counted, and the frames marked allocated are exactly [live]. *)

From S2P Require Import Prelude Addr Frame Memory FrameAllocator.

Module BitmapAllocator.

Definition FREE_LIST_EMPTY : Z := USIZE_MAX.

Record t := mk {
  bitmap : list Z;
  free_list_head : Z;
  hhdm_offset : Z;
  total : Z;
  free : Z;
}.

Definition new (bitmap : list Z) (hhdm_offset max_phys_addr : Z) : outcome t :=
  let! s1 := add_ max_phys_addr PAGE_SIZE in
  let! s2 := sub_ s1 1 in
  let total := s2 / PAGE_SIZE in
  let! t7 := add_ total 7 in
  let required := t7 / 8 in
  let! _ := assert_ (required <=? Z.of_nat (length bitmap)) "bitmap too small" in
  Ret (mk bitmap FREE_LIST_EMPTY hhdm_offset total 0).

(** The frame index, split as the methods split it. *)
Definition byte_of (frame : Z) : nat := Z.to_nat (PhysFrame.index PAGE_SIZE frame / 8).
Definition bit_of (frame : Z) : Z := PhysFrame.index PAGE_SIZE frame mod 8.

Definition is_allocated (self : t) (frame : Z) : bool :=
  match bitmap self !! byte_of frame with
  | None => true
  | Some b => negb (Z.land b (Z.shiftl 1 (bit_of frame)) =? 0)
  end.

Definition mark_allocated (self : t) (frame : Z) : outcome t :=
  match bitmap self !! byte_of frame with
  | None => Panic "frame index out of bitmap bounds"
  | Some b =>
      Ret (mk (<[byte_of frame := Z.lor b (Z.shiftl 1 (bit_of frame))]> (bitmap self))
              (free_list_head self) (hhdm_offset self) (total self) (free self))
  end.

Definition mark_free (self : t) (frame : Z) : outcome t :=
  match bitmap self !! byte_of frame with
  | None => Panic "frame index out of bitmap bounds"
  | Some b =>
      Ret (mk (<[byte_of frame := Z.land b (Z.lxor 255 (Z.shiftl 1 (bit_of frame)))]> (bitmap self))
              (free_list_head self) (hhdm_offset self) (total self) (free self))
  end.

Definition phys_to_virt (self : t) (phys : Z) : outcome Z := add_ phys (hhdm_offset self).

Definition free_frame (m : mem) (self : t) (frame : Z) : outcome (mem * t) :=
  let! self := mark_free self frame in
  let! node := phys_to_virt self frame in
  let! _ := assert_ (negb (node =? 0)) "frame base is null" in
  let m := write64 m node (free_list_head self) in
  let! n := add_ (free self) 1 in
  Ret (m, mk (bitmap self) frame (hhdm_offset self) (total self) n).

Definition pop_free (m : mem) (self : t) : outcome (option Z * t) :=
  if free_list_head self =? FREE_LIST_EMPTY then Ret (None, self)
  else
    let phys := free_list_head self in
    let! node := phys_to_virt self phys in
    let! _ := assert_ (negb (node =? 0)) "free list node is null" in
    let self := mk (bitmap self) (read64 m node) (hhdm_offset self) (total self) (free self) in
    let! frame := expect (PhysFrame.from_index PAGE_SIZE (phys / PAGE_SIZE))
                         "free list contained invalid frame address" in
    let! self := mark_allocated self frame in
    let! n := sub_ (free self) 1 in
    Ret (Some frame, mk (bitmap self) (free_list_head self) (hhdm_offset self) (total self) n).

(** The [while frame < end_frame] loop of [add_region]. *)
Fixpoint add_frames (fuel : nat) (m : mem) (self : t) (frame end_frame : Z) : outcome (mem * t) :=
  match fuel with
  | O => Hang
  | S fuel =>
      if frame <? end_frame then
        let! '(m, self) := free_frame m self frame in
        let! i := add_ (PhysFrame.index PAGE_SIZE frame) 1 in
        match PhysFrame.from_index PAGE_SIZE i with
        | Some f => add_frames fuel m self f end_frame
        | None => Ret (m, self)
        end
      else Ret (m, self)
  end.

(** The loop runs once per frame, which bounds the fuel. *)
Definition add_region (m : mem) (self : t) (base len : Z) : outcome (mem * t) :=
  let! up := PhysAddr.align_up base PAGE_SIZE in
  let! up := expect up "region base align_up overflowed" in
  let! start_frame := PhysFrame.containing PAGE_SIZE up in
  match PhysAddr.checked_add base len with
  | None => Ret (m, self)
  | Some end_addr =>
      let! down := PhysAddr.align_down end_addr PAGE_SIZE in
      let! end_frame := PhysFrame.containing PAGE_SIZE down in
      if end_frame <=? start_frame then Ret (m, self)
      else add_frames (S (Z.to_nat ((end_frame - start_frame) / PAGE_SIZE)))
             m self start_frame end_frame
  end.

(** The trait methods. *)
Definition allocate (m : mem) (self : t) : outcome (option Z * t) := pop_free m self.

Definition deallocate (m : mem) (self : t) (frame : Z) : outcome (mem * t) :=
  let! _ := assert_ (is_allocated self frame)
              "deallocate called on a frame that is not allocated" in
  free_frame m self frame.

Definition total_frames (self : t) : Z := total self.
Definition free_frames (self : t) : Z := free self.

End BitmapAllocator.

#[export] Instance bitmap_frame_allocator : FrameAllocator BitmapAllocator.t := {
  allocate := BitmapAllocator.allocate;
  deallocate := BitmapAllocator.deallocate;
  total_frames := BitmapAllocator.total_frames;
  free_frames := BitmapAllocator.free_frames;
}.

#[export] Hint Unfold BitmapAllocator.FREE_LIST_EMPTY : kconst.

(** ** Invariant *)
Module BitmapInv.
Import BitmapAllocator.

(** The linked list through the frames' first words. *)
Fixpoint chain (m : mem) (hhdm head : Z) (fl : list Z) : Prop :=
  match fl with
  | [] => head = FREE_LIST_EMPTY
  | f :: fl => head = f /\ chain m hhdm (read64 m (f + hhdm)) fl
  end.

(** The bit of a frame in the bitmap; [None] outside it. *)
Definition bit (bm : list Z) (frame : Z) : option bool :=
  (fun b => Z.testbit b (bit_of frame)) <$> bm !! byte_of frame.

(** Frames the allocator can track and reach through the HHDM. *)
Definition managed (a : t) (f : Z) : Prop :=
  PhysFrame.wf PAGE_SIZE f /\ PhysFrame.index PAGE_SIZE f < total a /\
  0 < f + hhdm_offset a /\ f + hhdm_offset a + PAGE_SIZE <= W64.

Record inv (m : mem) (a : t) (fl : list Z) (live : gset Z) : Prop := {
  inv_chain : chain m (hhdm_offset a) (free_list_head a) fl;
  inv_nodup : NoDup fl;
  inv_free : forall f, f ∈ fl -> managed a f /\ bit (bitmap a) f = Some false;
  inv_live : forall f, f ∈ live -> managed a f /\ bit (bitmap a) f = Some true;
  inv_only : forall f, PhysFrame.wf PAGE_SIZE f -> bit (bitmap a) f = Some true -> f ∈ live;
  inv_count : free a = Z.of_nat (length fl);
  inv_cap : 0 <= total a <= 8 * Z.of_nat (length (bitmap a));
  inv_total : total a <= PhysAddr.MAX;
}.

Arguments inv_chain {m a fl live} _.
Arguments inv_nodup {m a fl live} _.
Arguments inv_free {m a fl live} _.
Arguments inv_live {m a fl live} _.
Arguments inv_only {m a fl live} _.
Arguments inv_count {m a fl live} _.
Arguments inv_cap {m a fl live} _.
Arguments inv_total {m a fl live} _.

End BitmapInv.
Import BitmapInv.

(** ** Bit lemmas *)
Lemma testbit_shiftl1 k j : 0 <= k -> Z.testbit (Z.shiftl 1 k) j = bool_decide (j = k).
Proof.
  intros Hk. rewrite Z.shiftl_1_l. destruct (Z.lt_ge_cases j 0).
  - rewrite Z.testbit_neg_r by done. symmetry. apply bool_decide_eq_false. lia.
  - rewrite Z.pow2_bits_eqb by done. destruct (Z.eqb_spec k j); symmetry;
      [apply bool_decide_eq_true | apply bool_decide_eq_false]; lia.
Qed.

Lemma land_shiftl1_testbit b k : 0 <= k -> negb (Z.land b (Z.shiftl 1 k) =? 0) = Z.testbit b k.
Proof.
  intros Hk. destruct (Z.testbit b k) eqn:E.
  - destruct (Z.eqb_spec (Z.land b (Z.shiftl 1 k)) 0) as [H0|]; [|done].
    assert (Hf : Z.testbit (Z.land b (Z.shiftl 1 k)) k = true)
      by (rewrite Z.land_spec, E, testbit_shiftl1, bool_decide_true by done; done).
    rewrite H0, Z.bits_0 in Hf. done.
  - rewrite (proj2 (Z.eqb_eq _ _)); [done|]. apply Z.bits_inj_0. intros j.
    rewrite Z.land_spec, testbit_shiftl1 by done. case_bool_decide; [subst; by rewrite E | apply andb_false_r].
Qed.

Lemma testbit_set b k j : 0 <= k ->
  Z.testbit (Z.lor b (Z.shiftl 1 k)) j = if decide (j = k) then true else Z.testbit b j.
Proof.
  intros. rewrite Z.lor_spec, testbit_shiftl1 by done.
  repeat case_decide || case_bool_decide; subst; try done; [apply orb_true_r | apply orb_false_r].
Qed.

(** [!(1 << k)] on [u8] keeps the other seven bits. *)
Lemma testbit_clear b k j : 0 <= k < 8 -> 0 <= j < 8 ->
  Z.testbit (Z.land b (Z.lxor 255 (Z.shiftl 1 k))) j = if decide (j = k) then false else Z.testbit b j.
Proof.
  intros. rewrite Z.land_spec, Z.lxor_spec, testbit_shiftl1 by lia.
  change 255 with (Z.ones 8). rewrite Z.ones_spec_low by lia.
  repeat case_decide || case_bool_decide; subst; try done; [apply andb_false_r | apply andb_true_r].
Qed.

Section bits.
Import BitmapAllocator.

Lemma bit_of_bounds f : 0 <= bit_of f < 8.
Proof. unfold bit_of. zlia. Qed.

Lemma byte_bit_inj f g :
  PhysFrame.wf PAGE_SIZE f -> PhysFrame.wf PAGE_SIZE g ->
  byte_of f = byte_of g -> bit_of f = bit_of g -> f = g.
Proof.
  intros Hf Hg. unfold byte_of, bit_of.
  destruct (wf_index _ PAGE_SIZE_pow2 f Hf), (wf_index _ PAGE_SIZE_pow2 g Hg). klia.
Qed.

Lemma bit_insert bm f g b v :
  bm !! byte_of f = Some b -> PhysFrame.wf PAGE_SIZE f -> PhysFrame.wf PAGE_SIZE g ->
  (forall j, 0 <= j < 8 -> j <> bit_of f -> Z.testbit v j = Z.testbit b j) ->
  bit (<[byte_of f := v]> bm) g =
    if decide (f = g) then Some (Z.testbit v (bit_of f)) else bit bm g.
Proof.
  intros Hb Hf Hg Hv. unfold bit. pose proof (lookup_lt_Some _ _ _ Hb).
  case_decide as Hfg; [subst; by rewrite list_lookup_insert_eq|].
  destruct (decide (byte_of f = byte_of g)) as [E|E]; [|by rewrite list_lookup_insert_ne].
  rewrite <- E, list_lookup_insert_eq, Hb by done. cbn. f_equal.
  apply Hv; [apply bit_of_bounds|]. intros E2. apply Hfg. by apply byte_bit_inj.
Qed.

Lemma bit_mark_allocated a f :
  is_Some (bitmap a !! byte_of f) ->
  exists bm', mark_allocated a f = Ret (mk bm' (free_list_head a) (hhdm_offset a) (total a) (free a)) /\
    length bm' = length (bitmap a) /\
    forall g, PhysFrame.wf PAGE_SIZE f -> PhysFrame.wf PAGE_SIZE g ->
      bit bm' g = if decide (f = g) then Some true else bit (bitmap a) g.
Proof.
  intros [b Hb]. unfold mark_allocated. rewrite Hb. eexists. split; [reflexivity|].
  pose proof (bit_of_bounds f).
  split; [apply length_insert|]. intros g Hf Hg. rewrite (bit_insert _ _ _ b) by (try done; intros;
    by rewrite testbit_set, decide_False by lia).
  rewrite testbit_set by lia. by rewrite (decide_True _ _ (eq_refl (bit_of f))).
Qed.

Lemma bit_mark_free a f :
  is_Some (bitmap a !! byte_of f) ->
  exists bm', mark_free a f = Ret (mk bm' (free_list_head a) (hhdm_offset a) (total a) (free a)) /\
    length bm' = length (bitmap a) /\
    forall g, PhysFrame.wf PAGE_SIZE f -> PhysFrame.wf PAGE_SIZE g ->
      bit bm' g = if decide (f = g) then Some false else bit (bitmap a) g.
Proof.
  intros [b Hb]. unfold mark_free. rewrite Hb. eexists. split; [reflexivity|].
  pose proof (bit_of_bounds f).
  split; [apply length_insert|]. intros g Hf Hg. rewrite (bit_insert _ _ _ b) by (try done; intros;
    by rewrite testbit_clear, decide_False by lia).
  rewrite testbit_clear by lia. by rewrite (decide_True _ _ (eq_refl (bit_of f))).
Qed.

Lemma is_allocated_bit a f b : bit (bitmap a) f = Some b -> is_allocated a f = b.
Proof.
  unfold bit, is_allocated. destruct (bitmap a !! byte_of f); cbn; [|done].
  pose proof (bit_of_bounds f). intros [= <-]. apply land_shiftl1_testbit. lia.
Qed.

Lemma managed_in_bitmap a f :
  0 <= total a <= 8 * Z.of_nat (length (bitmap a)) -> managed a f -> is_Some (bitmap a !! byte_of f).
Proof.
  intros Hcap (Hf & Hi & _). destruct (wf_index _ PAGE_SIZE_pow2 f Hf) as [_ ?].
  apply lookup_lt_is_Some_2. unfold byte_of. zlia.
Qed.

End bits.

(** ** Operations preserve the invariant *)
Section operations.
Import BitmapAllocator.
Implicit Types (a : t) (fl : list Z) (live : gset Z).

Lemma chain_frame m m' h head fl :
  chain m h head fl -> (forall f, f ∈ fl -> read64 m' (f + h) = read64 m (f + h)) ->
  chain m' h head fl.
Proof.
  revert head; induction fl as [|f fl IH]; intros head Hc Hr; [done|].
  destruct Hc as [-> Hc]. split; [done|]. rewrite Hr by apply list_elem_of_here.
  apply IH; [done|]. intros g Hg. apply Hr. by apply list_elem_of_further.
Qed.

(** Distinct managed frames are no more than [total]. *)
Lemma managed_length a fl :
  0 <= total a -> NoDup fl -> (forall f, f ∈ fl -> managed a f) -> Z.of_nat (length fl) <= total a.
Proof.
  intros Ht Hnd Hm.
  assert (Hinj : NoDup (PhysFrame.index PAGE_SIZE <$> fl)).
  { apply NoDup_fmap_2_strong; [|done]. intros f g Hf%Hm Hg%Hm E.
    destruct (wf_index _ PAGE_SIZE_pow2 f (proj1 Hf)), (wf_index _ PAGE_SIZE_pow2 g (proj1 Hg)). lia. }
  assert (Hsub : (PhysFrame.index PAGE_SIZE <$> fl) ⊆+ seqZ 0 (total a)).
  { apply NoDup_submseteq; [done|]. intros i (f & -> & Hf%Hm)%list_elem_of_fmap.
    destruct (wf_index _ PAGE_SIZE_pow2 f (proj1 Hf)). apply elem_of_seqZ.
    destruct Hf as (_ & ? & _). lia. }
  apply submseteq_length in Hsub. rewrite length_fmap, length_seqZ in Hsub. lia.
Qed.

Lemma inv_free_not_live m a fl live f : inv m a fl live -> f ∈ fl -> f ∉ live.
Proof.
  intros Hi Hf Hl. destruct (inv_free Hi f Hf) as [_ H1].
  destruct (inv_live Hi f Hl) as [_ H2]. congruence.
Qed.

Lemma pop_free_nil m a live : inv m a [] live -> pop_free m a = Ret (None, a).
Proof.
  intros Hi. pose proof (inv_chain Hi) as Hc. cbn in Hc.
  unfold pop_free. by rewrite Hc, Z.eqb_refl.
Qed.

(** A managed frame's address: what [phys_to_virt] and the null checks need. *)
Lemma managed_virt a f : managed a f ->
  phys_to_virt a f = Ret (f + hhdm_offset a) /\ (f + hhdm_offset a =? 0) = false /\
  (f =? FREE_LIST_EMPTY) = false.
Proof.
  intros ([[? ?] ?] & ? & ? & ?). unfold phys_to_virt. rewrite PhysAddr_MAX_val in *.
  rewrite add_Ret by klia. split_and!; [done| apply Z.eqb_neq; lia | apply Z.eqb_neq; klia].
Qed.

Lemma pop_free_cons m a f fl live :
  inv m a (f :: fl) live ->
  exists bm', let a' := mk bm' (read64 m (f + hhdm_offset a)) (hhdm_offset a) (total a) (free a - 1) in
    pop_free m a = Ret (Some f, a') /\ inv m a' fl ({[f]} ∪ live).
Proof.
  intros Hi. destruct (inv_chain Hi) as [Hh Hc].
  destruct (inv_free Hi f) as [Hm Hb]; [left|].
  destruct (managed_virt a f Hm) as (Hv & H0 & He). pose proof Hm as (Hwf & _).
  pose proof (inv_count Hi) as Hcount. cbn in Hcount.
  set (a1 := mk (bitmap a) (read64 m (f + hhdm_offset a)) (hhdm_offset a) (total a) (free a)).
  destruct (bit_mark_allocated a1 f) as (bm' & Hmark & Hlen & Hbit).
  { apply (managed_in_bitmap a); [apply (inv_cap Hi) | done]. }
  exists bm'. split.
  - unfold pop_free. rewrite Hh, He, Hv. cbn [obind]. rewrite H0. cbn [negb assert_ obind].
    pose proof (from_index_index _ PAGE_SIZE_pow2 f Hwf) as Hx. unfold PhysFrame.index in Hx at 1.
    rewrite Hx. cbn [expect obind]. fold a1. rewrite Hmark. cbn. by rewrite sub_Ret by lia.
  - pose proof (inv_nodup Hi) as [Hnf Hnd]%NoDup_cons.
    constructor; cbn; try apply (inv_total Hi); try done.
    + intros g Hg. destruct (inv_free Hi g) as [Hgm Hgb]; [by right|].
      split; [done|]. rewrite Hbit by apply Hgm || done. rewrite decide_False; [done|congruence].
    + intros g [->%elem_of_singleton|Hg]%elem_of_union.
      * split; [done|]. rewrite Hbit by done. by rewrite decide_True.
      * destruct (inv_live Hi g Hg) as [Hgm Hgb]. split; [done|].
        rewrite Hbit by apply Hgm || done. by case_decide.
    + intros g Hg. rewrite Hbit by done. case_decide as E; [subst; set_solver|].
      intros. apply elem_of_union_r. by apply (inv_only Hi).
    + cbn in Hcount. lia.
    + rewrite Hlen. apply (inv_cap Hi).
Qed.

Lemma free_frame_ok m a fl live f :
  inv m a fl live -> managed a f -> f ∉ fl ->
  exists bm', let a' := mk bm' f (hhdm_offset a) (total a) (free a + 1) in
    let m' := write64 m (f + hhdm_offset a) (free_list_head a) in
    free_frame m a f = Ret (m', a') /\ inv m' a' (f :: fl) (live ∖ {[f]}).
Proof.
  intros Hi Hm Hnf. pose proof Hm as (Hwf & _).
  destruct (managed_virt a f Hm) as (Hv & H0 & He).
  destruct (bit_mark_free a f) as (bm' & Hmark & Hlen & Hbit).
  { apply managed_in_bitmap; [apply (inv_cap Hi) | done]. }
  assert (Hle : Z.of_nat (length (f :: fl)) <= total a).
  { apply managed_length; [apply (inv_cap Hi) | by apply NoDup_cons; split; [|apply (inv_nodup Hi)] |].
    intros g [->|Hg]%elem_of_cons; [done|]. by apply (inv_free Hi). }
  pose proof (inv_count Hi) as Hcount. pose proof (inv_total Hi) as Htot.
  rewrite PhysAddr_MAX_val in Htot. cbn in Hle.
  assert (Hmg : forall g, g ∈ fl -> f <> g) by (intros g Hg ->; done).
  exists bm'. split.
  - unfold free_frame. rewrite Hmark. cbn [obind].
    unfold phys_to_virt in *. cbn [hhdm_offset] in *. rewrite Hv. cbn [obind]. rewrite H0.
    cbn [negb assert_ obind free]. by rewrite add_Ret by lia.
  - constructor; cbn; try apply (inv_total Hi).
    + split; [done|]. rewrite read_write_eq. eapply chain_frame; [apply (inv_chain Hi)|].
      intros g Hg. apply read_write_ne. specialize (Hmg g Hg). lia.
    + apply NoDup_cons. split; [done|apply (inv_nodup Hi)].
    + intros g [->|Hg]%elem_of_cons.
      * split; [done|]. rewrite Hbit by done. by rewrite decide_True.
      * destruct (inv_free Hi g Hg) as [Hgm Hgb]. split; [done|].
        rewrite Hbit by apply Hgm || done. by rewrite decide_False by auto.
    + intros g [Hg Hgf]%elem_of_difference. destruct (inv_live Hi g Hg) as [Hgm Hgb].
      split; [done|]. rewrite Hbit by apply Hgm || done. rewrite decide_False; [done|set_solver].
    + intros g Hg. rewrite Hbit by done. case_decide; [done|]. intros Hb.
      apply elem_of_difference. split; [by apply (inv_only Hi) | set_solver].
    + lia.
    + rewrite Hlen. apply (inv_cap Hi).
Qed.

Lemma deallocate_ok m a fl live f :
  inv m a fl live -> f ∈ live ->
  exists bm', let a' := mk bm' f (hhdm_offset a) (total a) (free a + 1) in
    let m' := write64 m (f + hhdm_offset a) (free_list_head a) in
    deallocate m a f = Ret (m', a') /\ inv m' a' (f :: fl) (live ∖ {[f]}).
Proof.
  intros Hi Hl. destruct (inv_live Hi f Hl) as [Hm Hb].
  unfold deallocate. rewrite (is_allocated_bit _ _ _ Hb). cbn [assert_ obind].
  apply free_frame_ok; try done. intros Hf. by eapply inv_free_not_live.
Qed.

Lemma bitmap_inv_frame m m' a fl live :
  inv m a fl live -> (forall f, f ∈ fl -> read64 m' (f + hhdm_offset a) = read64 m (f + hhdm_offset a)) ->
  inv m' a fl live.
Proof. intros [] Hr. constructor; try done. by eapply chain_frame. Qed.

End operations.

(** ** [add_region] *)
Section regions.
Import BitmapAllocator.

(** [n] consecutive frames from [f]. *)
Fixpoint frames_from (f : Z) (n : nat) : list Z :=
  match n with
  | O => []
  | S n => f :: frames_from (f + PAGE_SIZE) n
  end.

Lemma elem_of_frames_from f n g :
  g ∈ frames_from f n <-> exists i, 0 <= i < Z.of_nat n /\ g = f + i * PAGE_SIZE.
Proof.
  revert f; induction n as [|n IH]; intros f; cbn [frames_from].
  - rewrite elem_of_nil. split; [done|]. intros (i & ? & _). lia.
  - rewrite elem_of_cons, IH. split.
    + intros [->|(i & ? & ->)]; [exists 0; lia | exists (i + 1); lia].
    + intros (i & ? & ->). destruct (decide (i = 0)) as [->|]; [left; lia|].
      right. exists (i - 1). lia.
Qed.

Lemma add_frames_ok n m a fl live f :
  inv m a fl live -> (forall g, g ∈ frames_from f n -> managed a g /\ (g ∉ fl) /\ (g ∉ live)) ->
  f + Z.of_nat n * PAGE_SIZE <= PhysAddr.MAX ->
  exists m' a', add_frames (S n) m a f (f + Z.of_nat n * PAGE_SIZE) = Ret (m', a') /\
    inv m' a' (reverse (frames_from f n) ++ fl) live /\
    same_outside (fun w => exists g, g ∈ frames_from f n /\ in_frame (hhdm_offset a) g w) m m' /\
    hhdm_offset a' = hhdm_offset a /\ total a' = total a.
Proof.
  revert m a fl f; induction n as [|n IH]; intros m a fl f Hi Hg Hmax.
  { exists m, a. cbn. rewrite (proj2 (Z.ltb_ge _ _)) by lia. split_and!; eauto with kernel. }
  destruct (Hg f) as (Hm & Hnf & Hnl); [left|]. pose proof Hm as (Hwf & _).
  destruct (free_frame_ok m a fl live f Hi Hm Hnf) as (bm' & Hff & Hi').
  rewrite difference_disjoint_L in Hi' by set_solver.
  remember (S n) as k. cbn [add_frames]. subst k.
  rewrite (proj2 (Z.ltb_lt _ _)) by klia. rewrite Hff. cbn [obind].
  destruct (wf_index _ PAGE_SIZE_pow2 f Hwf) as [Hidx ?].
  rewrite add_Ret by (rewrite PhysAddr_MAX_val in *; klia). cbn [obind].
  rewrite (proj2 (from_index_Some _ (PhysFrame.index PAGE_SIZE f + 1) (f + PAGE_SIZE)
             ltac:(lia))) by klia.
  edestruct (IH _ _ _ (f + PAGE_SIZE) Hi') as (m' & a' & Hadd & Hinv & Hout & Hh & Ht).
  { intros g Hin. destruct (Hg g) as (? & ? & ?); [by right|]. split_and!; try done.
    apply not_elem_of_cons. split; [|done]. intros ->.
    apply elem_of_frames_from in Hin as (i & ? & ?). klia. }
  { lia. }
  exists m', a'. replace (f + Z.of_nat (S n) * PAGE_SIZE) with (f + PAGE_SIZE + Z.of_nat n * PAGE_SIZE) by lia.
  split_and!; try done.
  - cbn [frames_from]. by rewrite reverse_cons, <- app_assoc.
  - eapply same_outside_trans; [apply (same_outside_write (in_frame (hhdm_offset a) f)); eauto with kernel
      | exact Hout|]. cbn. intros w [Hw|(g & Hin & Hw)]; [exists f | exists g]; split; try done; [left|by right].
Qed.

(** The whole 4 KiB frames inside [base, base + len). *)
Definition region_first (base : Z) : Z := round_up base PAGE_SIZE.
Definition region_count (base len : Z) : nat :=
  Z.to_nat ((base + len) / PAGE_SIZE - region_first base / PAGE_SIZE).

Lemma region_frames_spec base len f :
  0 <= base -> 0 <= len -> f mod PAGE_SIZE = 0 ->
  f ∈ frames_from (region_first base) (region_count base len) <->
  base <= f /\ f + PAGE_SIZE <= base + len.
Proof.
  intros Hb Hl Hf. rewrite elem_of_frames_from.
  destruct (round_up_spec base PAGE_SIZE) as [? Hm]; [klia|].
  unfold region_count, region_first. split.
  - intros (i & ? & ->). klia.
  - intros [? ?]. exists ((f - round_up base PAGE_SIZE) / PAGE_SIZE).
    pose proof (round_up_least base PAGE_SIZE f). klia.
Qed.

Lemma bitmap_add_region_ok m a fl live base len :
  inv m a fl live -> 0 <= base -> region_first base <= PhysAddr.MAX ->
  0 <= len -> base + len <= PhysAddr.MAX ->
  (forall g, g ∈ frames_from (region_first base) (region_count base len) ->
     managed a g /\ (g ∉ fl) /\ (g ∉ live)) ->
  exists m' a', add_region m a base len = Ret (m', a') /\
    inv m' a' (reverse (frames_from (region_first base) (region_count base len)) ++ fl) live /\
    same_outside (fun w => exists g, g ∈ frames_from (region_first base) (region_count base len) /\
                            in_frame (hhdm_offset a) g w) m m' /\
    hhdm_offset a' = hhdm_offset a /\ total a' = total a.
Proof.
  intros Hi Hb Hup Hl Hmax Hg. pose proof PAGE_SIZE_pow2. pose proof is_u64_PAGE_SIZE.
  destruct (round_up_spec base PAGE_SIZE) as [? Hm]; [klia|].
  unfold add_region, region_count, region_first in *. rewrite PhysAddr_MAX_val in *.
  rewrite PhysAddr_align_up_eq by (try done; unfold PhysAddr.valid; rewrite PhysAddr_MAX_val; lia). cbn [obind]. rewrite PhysAddr_MAX_val.
  rewrite (proj2 (Z.leb_le _ _)) by done.
  cbn [expect obind]. rewrite containing_eq by klia || done. cbn [obind]. rewrite Hm, Z.sub_0_r.
  unfold PhysAddr.checked_add. rewrite (proj2 (checked_add_Some base len (base + len))) by klia.
  rewrite (proj2 (PhysAddr_new_Some (base + len) (base + len))) by (rewrite PhysAddr_MAX_val; klia).
  rewrite PhysAddr_align_down_eq by klia || done. cbn [obind].
  rewrite containing_eq by klia || done. cbn [obind].
  rewrite align_down_mod, Z.sub_0_r by klia.
  set (e := base + len - (base + len) mod PAGE_SIZE) in *.
  set (s := round_up base PAGE_SIZE) in *.
  destruct (Z.leb_spec e s).
  - replace (Z.to_nat ((base + len) / PAGE_SIZE - s / PAGE_SIZE)) with 0%nat by (unfold e in *; klia).
    exists m, a. cbn. split_and!; eauto with kernel.
  - set (n := Z.to_nat ((base + len) / PAGE_SIZE - s / PAGE_SIZE)) in *.
    assert (Hn : s + Z.of_nat n * PAGE_SIZE = e) by (unfold n, e in *; klia).
    replace (Z.to_nat ((e - s) / PAGE_SIZE)) with n by (rewrite <- Hn; klia).
    rewrite <- Hn. apply add_frames_ok; try done. rewrite PhysAddr_MAX_val, Hn. unfold e. klia.
Qed.

Lemma bitmap_new_ok bm hhdm max_phys m :
  (forall b, b ∈ bm -> b = 0) -> 0 <= max_phys <= PhysAddr.MAX ->
  (max_phys + PAGE_SIZE - 1) / PAGE_SIZE <= 8 * Z.of_nat (length bm) ->
  exists a, new bm hhdm max_phys = Ret a /\ inv m a [] ∅ /\
    total a = (max_phys + PAGE_SIZE - 1) / PAGE_SIZE /\ hhdm_offset a = hhdm.
Proof.
  intros Hz Hmax Hlen. rewrite PhysAddr_MAX_val in *. unfold new.
  rewrite add_Ret by klia. cbn [obind]. rewrite sub_Ret by klia. cbn [obind].
  rewrite add_Ret by klia. cbn [obind].
  rewrite (proj2 (Z.leb_le _ _)) by klia. cbn [assert_ obind].
  eexists. split; [reflexivity|]. split_and!; [|done|done].
  constructor; cbn; try done; try klia; try (rewrite PhysAddr_MAX_val; klia); try set_solver.
  - constructor.
  - intros f Hf. unfold bit. destruct (bm !! byte_of f) as [b|] eqn:E; cbn; [|done].
    apply list_elem_of_lookup_2 in E. rewrite (Hz b E), Z.bits_0. done.
Qed.

(** [add_region] in terms of addresses: exactly the whole frames inside the
    region become free. *)
Lemma add_region_exact m a fl live base len :
  inv m a fl live -> 0 <= base -> region_first base <= PhysAddr.MAX ->
  0 <= len -> base + len <= PhysAddr.MAX ->
  (forall g, PhysFrame.wf PAGE_SIZE g -> base <= g -> g + PAGE_SIZE <= base + len ->
     managed a g /\ (g ∉ fl) /\ (g ∉ live)) ->
  exists m' a' fl', add_region m a base len = Ret (m', a') /\ inv m' a' fl' live /\
    (forall g, PhysFrame.wf PAGE_SIZE g ->
       g ∈ fl' <-> g ∈ fl \/ (base <= g /\ g + PAGE_SIZE <= base + len)) /\
    length fl' = (length fl + region_count base len)%nat /\
    same_outside (fun w => exists g, PhysFrame.wf PAGE_SIZE g /\ base <= g /\ g + PAGE_SIZE <= base + len /\
                            in_frame (hhdm_offset a) g w) m m' /\
    hhdm_offset a' = hhdm_offset a /\ total a' = total a.
Proof.
  intros Hi Hb Hup Hl Hmax Hg.
  assert (Hspec := region_frames_spec base len).
  destruct (round_up_spec base PAGE_SIZE) as [? Hm]; [klia|].
  assert (Hmod : forall g, g ∈ frames_from (region_first base) (region_count base len) -> g mod PAGE_SIZE = 0).
  { intros g (i & _ & ->)%elem_of_frames_from. unfold region_first.
    rewrite Z.mod_add by klia. done. }
  destruct (bitmap_add_region_ok m a fl live base len) as (m' & a' & Hadd & Hi' & Hout & Hh & Ht); try done.
  { intros g Hin. pose proof (Hmod g Hin). apply Hspec in Hin; try done.
    apply Hg; try lia. split; [unfold PhysAddr.valid; klia|done]. }
  eexists m', a', _. split; [done|]. split; [done|]. split_and!; try done.
  - intros g [_ Hgm]. rewrite elem_of_app, elem_of_reverse, Hspec by done. tauto.
  - rewrite length_app, length_reverse.
    assert (forall n f, length (frames_from f n) = n) as ->; [|lia].
    intros n; induction n; intros; cbn; congruence.
  - eapply same_outside_weaken; [done|]. intros w (g & Hin & Hw). exists g.
    pose proof (Hmod g Hin). apply Hspec in Hin; try done.
    split_and!; try tauto. split; [unfold PhysAddr.valid; klia|done].
Qed.

End regions.

(** ** The bitmap allocator meets the interface *)
Section interface.
Import BitmapAllocator.

Definition bitmap_state (hhdm : Z) (m : mem) (a : t) (free live : gset Z) : Prop :=
  exists fl, inv m a fl live /\ free = list_to_set fl /\ hhdm_offset a = hhdm.

#[export] Program Instance bitmap_frame_allocator_spec : FrameAllocatorSpec t := {
  fa_state := bitmap_state;
}.
Next Obligation.
  intros hhdm m a free live (fl & Hi & -> & _) f Hf%elem_of_list_to_set Hl.
  by eapply inv_free_not_live.
Qed.
Next Obligation.
  intros hhdm m a free live f (fl & Hi & -> & <-) [Hf%elem_of_list_to_set|Hf]%elem_of_union.
  - destruct (inv_free Hi f Hf) as [(?&?&?&?) _]. done.
  - destruct (inv_live Hi f Hf) as [(?&?&?&?) _]. done.
Qed.
Next Obligation.
  intros hhdm m a free live (fl & Hi & -> & _). cbn. unfold free_frames.
  rewrite size_list_to_set by apply (inv_nodup Hi). apply (inv_count Hi).
Qed.
Next Obligation.
  intros hhdm m a free live (fl & Hi & -> & _). cbn. unfold total_frames.
  assert (Hd : list_to_set fl ## live).
  { intros f Hf%elem_of_list_to_set Hl. by eapply inv_free_not_live. }
  rewrite <- Nat2Z.inj_add, <- size_union by done.
  rewrite <- (list_to_set_elements_L (list_to_set fl ∪ live)), size_list_to_set by apply NoDup_elements.
  apply managed_length; [apply (inv_cap Hi) | apply NoDup_elements|].
  intros f [Hf%elem_of_list_to_set|Hf]%elem_of_elements%elem_of_union; [apply (inv_free Hi f Hf)|apply (inv_live Hi f Hf)].
Qed.
Next Obligation.
  intros hhdm m a live (fl & Hi & Hfl & _). destruct fl as [|f fl]; [|set_solver]. by eapply pop_free_nil.
Qed.
Next Obligation.
  intros hhdm m a free live (fl & Hi & -> & <-) Hne. destruct fl as [|f fl]; [set_solver|].
  pose proof (inv_nodup Hi) as [Hnf Hnd]%NoDup_cons.
  destruct (pop_free_cons m a f fl live Hi) as (bm' & Hpop & Hi').
  eexists _, _. split; [exact Hpop|]. split; [set_solver|].
  exists fl. split; [done|]. split; [|done]. set_solver.
Qed.
Next Obligation.
  intros hhdm m a free live f (fl & Hi & -> & <-) Hl.
  destruct (deallocate_ok m a fl live f Hi Hl) as (bm' & Hd & Hi').
  eexists _, _. split; [exact Hd|]. split; [apply same_outside_write, in_frame_base|].
  exists (f :: fl). split; [done|]. split; [set_solver|done].
Qed.
Next Obligation.
  intros hhdm m m' a free live (fl & Hi & -> & <-) Hr. exists fl. split; [|done].
  eapply bitmap_inv_frame; [done|]. intros f Hf. eapply Hr; [by apply elem_of_list_to_set|]. apply in_frame_base.
Qed.

End interface.

(** ** A client of the allocator

    The client holds frames, may write into the frames it holds, and gives back
    only frames it holds (what [OwnedFrame] enforces). *)
Module BitmapClient.
Import BitmapAllocator.

Record state := mk_state { st_mem : mem; st_alloc : t; st_held : gset Z }.

Inductive step : state -> state -> Prop :=
| step_alloc m a held f a' :
    allocate m a = Ret (Some f, a') ->
    step (mk_state m a held) (mk_state m a' ({[f]} ∪ held))
| step_alloc_none m a held a' :
    allocate m a = Ret (None, a') ->
    step (mk_state m a held) (mk_state m a' held)
| step_free m a held f m' a' :
    f ∈ held -> deallocate m a f = Ret (m', a') ->
    step (mk_state m a held) (mk_state m' a' (held ∖ {[f]}))
| step_write m a held m' :
    same_outside (fun w => exists f, f ∈ held /\ in_frame (hhdm_offset a) f w) m m' ->
    step (mk_state m a held) (mk_state m' a held).

Definition good (s : state) : Prop :=
  exists fl, inv (st_mem s) (st_alloc s) fl (st_held s).

(** Frames the allocator knows of: free ones and held ones. *)
Definition population (s : state) : Z :=
  BitmapAllocator.free_frames (st_alloc s) + Z.of_nat (size (st_held s)).

End BitmapClient.

Section client.
Import BitmapAllocator BitmapClient.

Lemma step_good s s' : good s -> step s s' -> good s' /\ population s' = population s.
Proof.
  intros [fl Hi] Hstep. unfold good, population, free_frames.
  destruct Hstep as [m a held f a' Ha | m a held a' Ha | m a held f m' a' Hf Hd | m a held m' Hw];
    cbn in *.
  - destruct fl as [|g fl]; [unfold allocate in Ha; by rewrite (pop_free_nil _ _ _ Hi) in Ha|].
    destruct (pop_free_cons m a g fl held Hi) as (bm' & Hpop & Hi').
    unfold allocate in Ha. rewrite Hpop in Ha. injection Ha as <- <-. split; [eauto|].
    cbn. rewrite size_union by (pose proof (inv_free_not_live _ _ _ _ g Hi); set_solver).
    rewrite size_singleton. lia.
  - destruct fl as [|g fl].
    + unfold allocate in Ha. rewrite (pop_free_nil _ _ _ Hi) in Ha. injection Ha as <-. eauto.
    + destruct (pop_free_cons m a g fl held Hi) as (bm' & Hpop & Hi').
      unfold allocate in Ha. by rewrite Hpop in Ha.
  - destruct (deallocate_ok m a fl held f Hi Hf) as (bm' & Hd' & Hi').
    rewrite Hd' in Hd. injection Hd as <- <-. split; [eauto|]. cbn.
    rewrite size_difference by set_solver. rewrite size_singleton.
    assert (size held <> 0%nat) by (rewrite size_non_empty_iff; set_solver). lia.
  - split; [|done]. exists fl. eapply bitmap_inv_frame; [done|]. intros f Hf. apply Hw.
    intros (g & Hg & Hin). destruct (inv_free Hi f Hf) as [([_ Hfm]&_) _].
    destruct (inv_live Hi g Hg) as [([_ Hgm]&_) _].
    destruct (decide (f = g)) as [->|Hne]; [by eapply inv_free_not_live|].
    eapply (in_frame_disjoint _ f g); eauto. apply in_frame_base.
Qed.

Lemma steps_good s s' : rtc step s s' -> good s -> good s' /\ population s' = population s.
Proof.
  induction 1 as [|s1 s2 s3 H12 _ IH]; [done|]. intros Hg.
  destruct (step_good _ _ Hg H12) as [Hg2 Hp]. destruct (IH Hg2) as [? ?]. split; [done|congruence].
Qed.

End client.

(** A small concrete allocator: four frames tracked, frames 1 and 2 free. *)
Module BitmapDemo.
Import BitmapAllocator.

Definition hhdm : Z := 0xffff800000000000.
Definition memory : mem := write64 (write64 ∅ (4096 + hhdm) FREE_LIST_EMPTY) (8192 + hhdm) 4096.
Definition alloc : t := mk [0] 8192 hhdm 4 2.

Lemma demo_managed f : f = 8192 \/ f = 4096 -> managed alloc f.
Proof.
  intros Hf. unfold managed, alloc, hhdm, PhysFrame.wf, PhysAddr.valid, PhysFrame.index. cbn [total hhdm_offset].
  rewrite PhysAddr_MAX_val. destruct Hf as [-> | ->]; unfold PAGE_SIZE; split_and!; reflexivity || lia.
Qed.

Lemma demo_inv : inv memory alloc [8192; 4096] ∅.
Proof.
  constructor; cbn; try done; try set_solver.
  - repeat constructor; set_solver.
  - intros f [->|[->|[]%elem_of_nil]%elem_of_cons]%elem_of_cons;
      (split; [apply demo_managed; auto | reflexivity]).
  - intros f _. unfold bit. destruct (byte_of f) as [|[|n]]; cbn; rewrite ?Z.bits_0; done.
Qed.

End BitmapDemo.

(** ** Properties *)
Section properties.
Import BitmapAllocator BitmapClient.

(** C1: frames are exclusively owned.  Whatever sequence of allocations,
    frees of held frames and writes into held frames a client performs, the
    free list threaded through memory stays intact: the number of free plus
    held frames is conserved, [allocate] never panics and returns [None] only
    when no frame is free, a frame it returns is page-aligned and not held by
    the client, and freeing a held frame never panics. *)
Theorem bitmap_exclusive_ownership s s' :
  good s -> rtc step s s' ->
  population s' = population s /\
  (exists o a', allocate (st_mem s') (st_alloc s') = Ret (o, a') /\
     match o with
     | None => free_frames (st_alloc s') = 0
     | Some f => (f ∉ st_held s') /\ PhysFrame.wf PAGE_SIZE f
     end) /\
  (forall f, f ∈ st_held s' ->
     exists m' a', deallocate (st_mem s') (st_alloc s') f = Ret (m', a')).
Proof.
  intros Hg Hs. destruct (steps_good _ _ Hs Hg) as [[fl Hi] Hp]. split; [done|]. split.
  - destruct fl as [|f fl].
    + exists None, (st_alloc s'). split; [by eapply pop_free_nil|]. apply (inv_count Hi).
    + destruct (pop_free_cons _ _ _ _ _ Hi) as (bm' & Hpop & _).
      eexists (Some f), _. split; [exact Hpop|]. split.
      * eapply inv_free_not_live; [done|left].
      * destruct (inv_free Hi f) as [[? _] _]; [left|done].
  - intros f Hf. destruct (deallocate_ok _ _ _ _ f Hi Hf) as (bm' & Hd & _). eauto.
Qed.

Lemma bitmap_exclusive_ownership_witness :
  let s := mk_state BitmapDemo.memory BitmapDemo.alloc ∅ in
  let s' := mk_state BitmapDemo.memory
              (mk [4] 4096 BitmapDemo.hhdm 4 1) ({[8192]} ∪ ∅) in
  population s' = population s /\
  (exists o a', allocate (st_mem s') (st_alloc s') = Ret (o, a') /\
     match o with
     | None => free_frames (st_alloc s') = 0
     | Some f => (f ∉ st_held s') /\ PhysFrame.wf PAGE_SIZE f
     end) /\
  (forall f, f ∈ st_held s' ->
     exists m' a', deallocate (st_mem s') (st_alloc s') f = Ret (m', a')).
Proof.
  apply bitmap_exclusive_ownership.
  - exists [8192; 4096]. apply BitmapDemo.demo_inv.
  - apply rtc_once. apply step_alloc. vm_compute. reflexivity.
Defined.

(** a double free, or a free of a frame that was never handed out, is
    caught: [deallocate] panics on every frame that is not live, and changes
    nothing. *)
Theorem bitmap_double_free_panics m a fl live f :
  inv m a fl live -> PhysFrame.wf PAGE_SIZE f -> f ∉ live ->
  exists why, deallocate m a f = Panic why.
Proof.
  intros Hi Hf Hl. unfold deallocate.
  destruct (bit (bitmap a) f) as [[]|] eqn:E.
  - by apply (inv_only Hi) in E.
  - rewrite (is_allocated_bit _ _ _ E). cbn. eauto.
  - unfold bit in E. apply fmap_None in E. unfold is_allocated, free_frame, mark_free.
    rewrite E. cbn. eauto.
Qed.

Lemma bitmap_double_free_panics_witness :
  exists why, deallocate BitmapDemo.memory BitmapDemo.alloc 4096 = Panic why.
Proof.
  apply (bitmap_double_free_panics _ _ [8192; 4096] ∅).
  - apply BitmapDemo.demo_inv.
  - apply BitmapDemo.demo_managed. auto.
  - set_solver.
Defined.

(** Allocation is last-in first-out: after [deallocate f] the next
    [allocate] returns [f] again, and the allocator is back in a state with the
    same free list, the same live frames and the same free count. *)
Theorem bitmap_free_then_allocate m a fl live f :
  inv m a fl live -> f ∈ live ->
  exists m1 a1 a2, deallocate m a f = Ret (m1, a1) /\
    free_frames a1 = free_frames a + 1 /\
    allocate m1 a1 = Ret (Some f, a2) /\
    inv m1 a2 fl live /\ free_frames a2 = free_frames a.
Proof.
  intros Hi Hl. destruct (deallocate_ok m a fl live f Hi Hl) as (bm1 & Hd & Hi1).
  destruct (pop_free_cons _ _ _ _ _ Hi1) as (bm2 & Hpop & Hi2).
  eexists _, _, _. split; [exact Hd|]. split; [done|]. split; [exact Hpop|].
  cbn in *. split; [|unfold free_frames; cbn; lia].
  replace live with ({[f]} ∪ live ∖ {[f]}) by (rewrite <- union_difference_L; set_solver). done.
Qed.

Lemma bitmap_free_then_allocate_witness :
  exists a0 m1 a1 a2,
    allocate BitmapDemo.memory BitmapDemo.alloc = Ret (Some 8192, a0) /\
    deallocate BitmapDemo.memory a0 8192 = Ret (m1, a1) /\
    allocate m1 a1 = Ret (Some 8192, a2) /\ free_frames a2 = free_frames a0.
Proof.
  destruct (pop_free_cons _ _ _ _ _ BitmapDemo.demo_inv) as (bm & Hpop & Hi).
  destruct (bitmap_free_then_allocate _ _ [4096] ({[8192]} ∪ ∅) 8192 Hi) as (m1 & a1 & a2 & H1 & _ & H2 & _ & H3).
  - set_solver.
  - eexists _, m1, a1, a2. split; [exact Hpop|]. split; [exact H1|]. split; [exact H2|exact H3].
Defined.

(** C29: [add_region] frees exactly the whole frames inside
    [base, base + len): on a region whose frames the allocator tracks and does
    not yet own, it terminates without panicking, every such frame becomes
    free, no other frame changes status, the count grows by their number, and
    no memory outside these frames is written. *)
Theorem bitmap_add_region_exact m a fl live base len :
  inv m a fl live -> 0 <= base -> region_first base <= PhysAddr.MAX ->
  0 <= len -> base + len <= PhysAddr.MAX ->
  (forall g, PhysFrame.wf PAGE_SIZE g -> base <= g -> g + PAGE_SIZE <= base + len ->
     managed a g /\ (g ∉ fl) /\ (g ∉ live)) ->
  exists m' a' fl', add_region m a base len = Ret (m', a') /\ inv m' a' fl' live /\
    (forall g, PhysFrame.wf PAGE_SIZE g ->
       g ∈ fl' <-> g ∈ fl \/ (base <= g /\ g + PAGE_SIZE <= base + len)) /\
    free_frames a' = free_frames a + Z.of_nat (region_count base len) /\
    same_outside (fun w => exists g, base <= g /\ g + PAGE_SIZE <= base + len /\
                            in_frame (hhdm_offset a) g w) m m'.
Proof.
  intros Hi Hb Hup Hl Hmax Hg.
  destruct (add_region_exact m a fl live base len) as (m' & a' & fl' & E & Hi' & Hfl & Hlen & Hout & _); try done.
  exists m', a', fl'. split_and!; try done.
  - unfold free_frames. rewrite (inv_count Hi'), (inv_count Hi). lia.
  - eapply same_outside_weaken; [exact Hout|]. cbn. naive_solver.
Qed.

Lemma bitmap_add_region_exact_witness :
  exists m' a' fl', add_region BitmapDemo.memory BitmapDemo.alloc 12000 4500 = Ret (m', a') /\
    inv m' a' fl' ∅ /\ free_frames a' = 3.
Proof.
  destruct (bitmap_add_region_exact BitmapDemo.memory BitmapDemo.alloc [8192; 4096] ∅ 12000 4500)
    as (m' & a' & fl' & H1 & H2 & _ & H3 & _).
  - apply BitmapDemo.demo_inv.
  - lia.
  - vm_compute. discriminate.
  - lia.
  - rewrite PhysAddr_MAX_val. lia.
  - intros g [_ Hg] ? ?. assert (g = 12288) as -> by (unfold PAGE_SIZE in *; zlia).
    split; [|split; set_solver].
    unfold managed, PhysFrame.wf, PhysAddr.valid. rewrite PhysAddr_MAX_val.
    unfold PAGE_SIZE, PhysFrame.index, BitmapDemo.alloc, BitmapDemo.hhdm. cbn. split_and!; reflexivity || lia.
  - exists m', a', fl'. split; [exact H1|]. split; [exact H2|]. rewrite H3. reflexivity.
Defined.

End properties.
