(* ===== verification/Intervals.v ===== *)
(** * Free ranges as sorted lists of intervals

    Both the virtual region allocator and the kernel heap keep their free space
    as an address-sorted list of ranges [(base, size)] in which no two ranges
    overlap or touch.  This file holds the theory the two share: the invariant
    [wf], the set of addresses a list [covers], the facts that inserting with
    coalescing ([merge_at]) and carving a piece out ([carve]) preserve the
    invariant and have the expected coverage, and that a well-formed list is
    determined by its coverage ([wf_canonical]). *)

From S2P Require Import Prelude.

Abbreviation ival := (Z * Z)%type.

Definition iend (i : ival) : Z := i.1 + i.2.
Definition in_ival (i : ival) (x : Z) : Prop := i.1 <= x < iend i.

(** Sorted, non-empty, separated by gaps; the first range starts above [lo]. *)
Fixpoint wf_above (lo : Z) (l : list ival) : Prop :=
  match l with
  | [] => True
  | i :: l => lo < i.1 /\ 0 < i.2 /\ wf_above (iend i) l
  end.

Definition wf (l : list ival) : Prop := wf_above (-1) l.

Fixpoint covers (l : list ival) (x : Z) : Prop :=
  match l with
  | [] => False
  | i :: l => in_ival i x \/ covers l x
  end.

Fixpoint bytes (l : list ival) : Z :=
  match l with
  | [] => 0
  | i :: l => i.2 + bytes l
  end.

(** The lower bound that the ranges after [l] have to respect. *)
Definition end_above (lo : Z) (l : list ival) : Z :=
  match last l with Some i => iend i | None => lo end.

Lemma end_above_snoc lo l i : end_above lo (l ++ [i]) = iend i.
Proof. unfold end_above. by rewrite last_snoc. Qed.

Lemma end_above_cons lo i l : end_above lo (i :: l) = end_above (iend i) l.
Proof. unfold end_above. rewrite last_cons. by destruct (last l). Qed.

Lemma wf_above_app lo l1 l2 :
  wf_above lo (l1 ++ l2) <-> wf_above lo l1 /\ wf_above (end_above lo l1) l2.
Proof.
  revert lo; induction l1 as [|i l1 IH]; intros lo; cbn [app wf_above]; [tauto|].
  rewrite IH, end_above_cons. tauto.
Qed.

Lemma wf_above_weaken lo lo' l : lo' <= lo -> wf_above lo l -> wf_above lo' l.
Proof. destruct l as [|i l]; cbn; [done|]. intros ? (? & ? & ?). split_and!; try done. lia. Qed.

Lemma covers_app l1 l2 x : covers (l1 ++ l2) x <-> covers l1 x \/ covers l2 x.
Proof. induction l1; cbn; tauto. Qed.

Lemma bytes_app l1 l2 : bytes (l1 ++ l2) = bytes l1 + bytes l2.
Proof. induction l1; cbn; lia. Qed.

Lemma covers_elem l x : covers l x <-> exists i, i ∈ l /\ in_ival i x.
Proof.
  induction l as [|i l IH]; cbn.
  - split; [done|]. by intros (i & []%elem_of_nil & _).
  - rewrite IH. setoid_rewrite elem_of_cons. naive_solver.
Qed.

Lemma wf_above_lt lo l i : wf_above lo l -> i ∈ l -> lo < i.1 /\ 0 < i.2 /\ iend i <= end_above lo l.
Proof.
  revert lo; induction l as [|j l IH]; intros lo; cbn; [by intros _ []%elem_of_nil|].
  intros (? & ? & Hw) [->|Hi]%elem_of_cons.
  - rewrite end_above_cons. split_and!; try done. clear IH.
    revert Hw; generalize (iend j) as e. induction l as [|k l IHl] using rev_ind; intros e Hw; [done|].
    rewrite end_above_snoc. apply wf_above_app in Hw as [Hw1 (? & ? & _)].
    specialize (IHl e Hw1). unfold iend in *. lia.
  - rewrite end_above_cons. destruct (IH _ Hw Hi) as (? & ? & ?).
    unfold iend in *. split_and!; lia.
Qed.

Lemma wf_above_covers lo l x : wf_above lo l -> covers l x -> lo < x < end_above lo l.
Proof.
  intros Hw (i & Hi & Hx)%covers_elem.
  destruct (wf_above_lt lo l i Hw Hi) as (? & ? & ?). unfold in_ival in Hx. lia.
Qed.

Lemma bytes_nonneg lo l : wf_above lo l -> 0 <= bytes l.
Proof. revert lo; induction l as [|i l IH]; intros lo; cbn; [done|]. intros (? & ? & ?%IH). lia. Qed.

(** The space between the bounds is an upper bound for the bytes. *)
Lemma bytes_le lo l : wf_above lo l -> bytes l <= end_above lo l - lo.
Proof.
  revert lo; induction l as [|i l IH]; intros lo; cbn; [unfold end_above; cbn; lia|].
  intros (? & ? & H3%IH). rewrite end_above_cons. unfold iend in *. lia.
Qed.

(** ** A well-formed list is determined by what it covers *)
Lemma wf_above_head_min lo i l x : wf_above lo (i :: l) -> covers (i :: l) x -> i.1 <= x.
Proof.
  cbn. intros (? & ? & Hw) [Hx|Hx]; [unfold in_ival in Hx; lia|].
  pose proof (wf_above_covers _ _ _ Hw Hx). unfold iend in *. lia.
Qed.

Lemma wf_above_gap lo i l : wf_above lo (i :: l) -> ~ covers (i :: l) (iend i).
Proof.
  cbn. intros (? & ? & Hw) [Hx|Hx]; [unfold in_ival, iend in *; lia|].
  pose proof (wf_above_covers _ _ _ Hw Hx). lia.
Qed.

Lemma wf_canonical lo l1 l2 :
  wf_above lo l1 -> wf_above lo l2 -> (forall x, covers l1 x <-> covers l2 x) -> l1 = l2.
Proof.
  revert lo l2; induction l1 as [|[b1 s1] l1 IH]; intros lo [|[b2 s2] l2] H1 H2 Hc; [done| | |].
  - exfalso. destruct H2 as (_ & Hs & _). cbn in Hs. apply (Hc b2). left. unfold in_ival, iend. cbn. lia.
  - exfalso. destruct H1 as (_ & Hs & _). cbn in Hs. apply (Hc b1). left. unfold in_ival, iend. cbn. lia.
  - pose proof H1 as (Hb1 & Hs1 & Hw1). pose proof H2 as (Hb2 & Hs2 & Hw2). cbn in Hs1, Hs2.
    assert (b1 = b2) as ->.
    { assert (covers ((b1, s1) :: l1) b1) by (left; unfold in_ival, iend; cbn; lia).
      assert (covers ((b2, s2) :: l2) b2) by (left; unfold in_ival, iend; cbn; lia).
      pose proof (wf_above_head_min _ _ _ b2 H1 ltac:(by apply Hc)).
      pose proof (wf_above_head_min _ _ _ b1 H2 ltac:(by apply Hc)). cbn in *. lia. }
    assert (Hin : forall s s' l l', 0 < s -> s < s' -> ~ covers ((b2, s) :: l) (b2 + s) ->
              covers ((b2, s') :: l') (b2 + s)).
    { intros. left. unfold in_ival, iend. cbn. lia. }
    assert (s1 = s2) as ->.
    { pose proof (wf_above_gap _ _ _ H1) as G1. pose proof (wf_above_gap _ _ _ H2) as G2.
      destruct (Z.lt_trichotomy s1 s2) as [|[|]]; [exfalso|done|exfalso].
      - apply G1, Hc. by eapply Hin.
      - apply G2, Hc. by eapply Hin. }
    f_equal. eapply IH; [exact Hw1|exact Hw2|]. intros x. specialize (Hc x). cbn in Hc.
    assert (covers l1 x -> ~ in_ival (b2, s2) x).
    { intros Hx%(wf_above_covers _ _ _ Hw1). unfold in_ival. lia. }
    assert (covers l2 x -> ~ in_ival (b2, s2) x).
    { intros Hx%(wf_above_covers _ _ _ Hw2). unfold in_ival. lia. }
    tauto.
Qed.

(** ** Insertion with coalescing *)
Definition merge_right (i : ival) (l2 : list ival) : ival * list ival :=
  match l2 with
  | j :: l2' => if iend i =? j.1 then ((i.1, i.2 + j.2), l2') else (i, l2)
  | [] => (i, [])
  end.

Definition merge_left (l1 : list ival) (i : ival) : list ival :=
  match last l1 with
  | Some j => if iend j =? i.1 then removelast l1 ++ [(j.1, j.2 + i.2)] else l1 ++ [i]
  | None => [i]
  end.

(** Put [i] between [l1] and [l2], merging with the neighbours it touches. *)
Definition merge_at (l1 : list ival) (i : ival) (l2 : list ival) : list ival :=
  let (i', l2') := merge_right i l2 in merge_left l1 i' ++ l2'.

Lemma merge_right_spec i l2 i' l2' :
  merge_right i l2 = (i', l2') -> 0 < i.2 -> wf_above (iend i - 1) l2 ->
  i'.1 = i.1 /\ 0 < i'.2 /\ wf_above (iend i') l2' /\ i'.2 + bytes l2' = i.2 + bytes l2 /\
  (forall x, covers (i' :: l2') x <-> in_ival i x \/ covers l2 x).
Proof.
  destruct l2 as [|j l2]; cbn [merge_right]; [intros [= <- <-] ? _; cbn; split_and!; lia || tauto|].
  destruct (Z.eqb_spec (iend i) j.1) as [E|E]; intros [= <- <-] Hi (? & ? & Hw); cbn.
  - split_and!; try lia.
    + unfold iend in *. cbn. replace (i.1 + (i.2 + j.2)) with (j.1 + j.2) by lia. done.
    + intros x. unfold in_ival, iend in *. cbn. intuition lia.
  - split_and!; try done. unfold iend in *. lia.
Qed.

Lemma merge_left_spec lo l1 i :
  wf_above lo l1 -> end_above lo l1 <= i.1 -> lo < i.1 -> 0 < i.2 ->
  wf_above lo (merge_left l1 i) /\ end_above lo (merge_left l1 i) = iend i /\
  bytes (merge_left l1 i) = bytes l1 + i.2 /\
  (forall x, covers (merge_left l1 i) x <-> covers l1 x \/ in_ival i x).
Proof.
  intros Hw He Hlo Hi. unfold merge_left.
  destruct l1 as [|j l1 _] using rev_ind; cbn [last].
  - cbn. unfold end_above. cbn. split_and!; try lia || done. tauto.
  - rewrite last_snoc, removelast_last. rewrite end_above_snoc in He.
    apply wf_above_app in Hw as (Hw1 & Hj & Hjs & _).
    destruct (Z.eqb_spec (iend j) i.1) as [E|E].
    + rewrite end_above_snoc, wf_above_app, !bytes_app. cbn. split_and!; try done; try lia.
      * unfold iend in *. cbn. lia.
      * intros x. rewrite !covers_app. cbn. unfold in_ival, iend in *. cbn. intuition lia.
    + rewrite end_above_snoc, !wf_above_app, !bytes_app, end_above_snoc. cbn. split_and!; try done; try lia.
      intros x. rewrite !covers_app. cbn. tauto.
Qed.

(** Position of a range that is disjoint from the list, by base address. *)
Lemma split_bounds lo l1 l2 i :
  wf_above lo (l1 ++ l2) -> 0 < i.2 -> lo < i.1 ->
  (forall j, j ∈ l1 -> j.1 < i.1) -> (forall j, j ∈ l2 -> i.1 <= j.1) ->
  (forall x, in_ival i x -> ~ covers (l1 ++ l2) x) ->
  end_above lo l1 <= i.1 /\ wf_above (iend i - 1) l2.
Proof.
  intros [Hw1 Hw2]%wf_above_app Hi Hlo H1 H2 Hd. split.
  - destruct l1 as [|j l1 _] using rev_ind; [unfold end_above; cbn; lia|].
    rewrite end_above_snoc. destruct (Z.le_gt_cases (iend j) i.1); [done|exfalso].
    apply (Hd i.1); [unfold in_ival, iend; lia|]. rewrite !covers_app. left. right. left.
    specialize (H1 j). unfold in_ival. split; [|lia].
    assert (j.1 < i.1); [apply H1; set_solver|lia].
  - destruct l2 as [|k l2]; [done|]. destruct Hw2 as (? & ? & Hw2). cbn. split_and!; try done.
    destruct (Z.le_gt_cases (iend i) k.1); [lia|exfalso].
    assert (i.1 <= k.1) by (apply H2; left).
    apply (Hd k.1); [unfold in_ival; lia|]. rewrite covers_app. right. left. unfold in_ival, iend. lia.
Qed.

Lemma merge_at_spec lo l1 i l2 :
  wf_above lo (l1 ++ l2) -> 0 < i.2 -> lo < i.1 ->
  (forall j, j ∈ l1 -> j.1 < i.1) -> (forall j, j ∈ l2 -> i.1 <= j.1) ->
  (forall x, in_ival i x -> ~ covers (l1 ++ l2) x) ->
  wf_above lo (merge_at l1 i l2) /\ bytes (merge_at l1 i l2) = bytes (l1 ++ l2) + i.2 /\
  (forall x, covers (merge_at l1 i l2) x <-> covers (l1 ++ l2) x \/ in_ival i x).
Proof.
  intros Hw Hi Hlo H1 H2 Hd.
  destruct (split_bounds lo l1 l2 i) as [He Hw2]; try done.
  apply wf_above_app in Hw as [Hw1 _]. unfold merge_at.
  destruct (merge_right i l2) as [i' l2'] eqn:E.
  destruct (merge_right_spec _ _ _ _ E Hi Hw2) as (Hb & Hi' & Hw2' & Hby & Hc).
  destruct (merge_left_spec lo l1 i') as (Hwl & Hel & Hbl & Hcl); try lia; try done.
  rewrite wf_above_app, Hel, !bytes_app. split_and!; try done; try lia.
  intros x. rewrite !covers_app, Hcl. specialize (Hc x). cbn in Hc. tauto.
Qed.

(** ** Carving a piece out of a range *)
Definition piece (b s : Z) : list ival := if 0 <? s then [(b, s)] else [].

(** What is left of [i] when [a, a + n) is taken. *)
Definition carve (i : ival) (a n : Z) : list ival :=
  piece i.1 (a - i.1) ++ piece (a + n) (iend i - (a + n)).

Lemma piece_spec lo b s x :
  0 <= s -> lo < b ->
  wf_above lo (piece b s) /\ bytes (piece b s) = s /\ end_above lo (piece b s) <= Z.max lo (b + s) /\
  (covers (piece b s) x <-> b <= x < b + s).
Proof.
  intros. unfold piece. destruct (Z.ltb_spec 0 s); cbn; unfold end_above, in_ival, iend; cbn;
    split_and!; try lia; tauto || lia.
Qed.

Lemma carve_spec lo l1 i l2 a n :
  wf_above lo (l1 ++ i :: l2) -> 0 < n -> i.1 <= a -> a + n <= iend i ->
  wf_above lo (l1 ++ carve i a n ++ l2) /\
  bytes (l1 ++ carve i a n ++ l2) = bytes (l1 ++ i :: l2) - n /\
  (forall x, covers (l1 ++ carve i a n ++ l2) x <->
     covers (l1 ++ i :: l2) x /\ ~ (a <= x < a + n)).
Proof.
  intros (Hw1 & Hlo & Hi & Hw2)%wf_above_app Hn Ha Hb. unfold carve.
  set (lo1 := end_above lo l1) in *.
  destruct (piece_spec lo1 i.1 (a - i.1) 0) as (Hp1 & Hby1 & He1 & _); [lia|done|].
  set (lo2 := end_above lo1 (piece i.1 (a - i.1))) in *.
  destruct (piece_spec lo2 (a + n) (iend i - (a + n)) 0) as (Hp2 & Hby2 & He2 & _); [lia|lia|].
  rewrite <- !app_assoc. rewrite !wf_above_app, !bytes_app. fold lo1. fold lo2. cbn [bytes wf_above].
  split_and!; try done.
  - eapply wf_above_weaken; [|exact Hw2]. lia.
  - unfold iend in *. lia.
  - intros x. rewrite !covers_app. cbn [covers].
    destruct (piece_spec lo1 i.1 (a - i.1) x) as (_ & _ & _ & ->); [lia|done|].
    destruct (piece_spec lo2 (a + n) (iend i - (a + n)) x) as (_ & _ & _ & ->); [lia|lia|].
    assert (covers l1 x -> x < i.1) by (intros Hx%(wf_above_covers _ _ _ Hw1); lia).
    assert (covers l2 x -> iend i < x) by (intros Hx%(wf_above_covers _ _ _ Hw2); lia).
    unfold in_ival, iend in *. intuition lia.
Qed.

(** Carving a piece and inserting it again gives the list back. *)
Lemma carve_merge_id lo l1 i l2 a n l1' l2' :
  wf_above lo (l1 ++ i :: l2) -> 0 < n -> i.1 <= a -> a + n <= iend i ->
  l1 ++ carve i a n ++ l2 = l1' ++ l2' -> lo < a ->
  (forall j, j ∈ l1' -> j.1 < a) -> (forall j, j ∈ l2' -> a <= j.1) ->
  merge_at l1' (a, n) l2' = l1 ++ i :: l2.
Proof.
  intros Hw Hn Ha Hb Heq Hlo H1 H2.
  destruct (carve_spec _ _ _ _ a n Hw Hn Ha Hb) as (Hw' & _ & Hc). rewrite Heq in *.
  destruct (merge_at_spec lo l1' (a, n) l2') as (Hwm & _ & Hcm); try done.
  { intros x Hx. rewrite Hc. unfold in_ival, iend in Hx. cbn in Hx. tauto. }
  eapply wf_canonical; [exact Hwm|exact Hw|]. intros x. rewrite Hcm, Hc.
  unfold in_ival, iend. cbn. rewrite covers_app. cbn. unfold in_ival, iend in *.
  destruct (decide (a <= x < a + n)); [|tauto]. split; [|tauto]. intros _. right. left. lia.
Qed.

(** A contiguous covered range lies inside a single range of the list. *)
Lemma covered_in_one lo l a n :
  wf_above lo l -> 0 < n -> (forall x, a <= x < a + n -> covers l x) ->
  exists i, i ∈ l /\ i.1 <= a /\ a + n <= iend i.
Proof.
  intros Hw Hn Hc. destruct (proj1 (covers_elem l a)) as (i & Hi & Hx); [apply Hc; lia|].
  exists i. split; [done|]. unfold in_ival in Hx. split; [lia|].
  destruct (Z.le_gt_cases (a + n) (iend i)); [done|exfalso].
  assert (Hcov : covers l (iend i)) by (apply Hc; lia).
  apply list_elem_of_split in Hi as (l1 & l2 & ->).
  apply wf_above_app in Hw as [Hw1 Hw2]. apply covers_app in Hcov as [Hcov|Hcov].
  - pose proof (wf_above_covers _ _ _ Hw1 Hcov). destruct Hw2 as (? & _). lia.
  - by eapply wf_above_gap.
Qed.

(** Elements before and after a position are ordered by base. *)
Lemma wf_above_split_lt lo l1 i l2 j :
  wf_above lo (l1 ++ i :: l2) -> j ∈ l1 -> iend j < i.1.
Proof.
  intros [Hw1 (Hi & _)]%wf_above_app Hj.
  destruct (wf_above_lt _ _ _ Hw1 Hj) as (_ & _ & ?). lia.
Qed.

Lemma wf_above_elem lo l1 i l2 : wf_above lo (l1 ++ i :: l2) -> lo < i.1 /\ 0 < i.2.
Proof. intros Hw. destruct (wf_above_lt _ _ i Hw) as (? & ? & _); [|done]. set_solver. Qed.

(** ** First fit *)

(** The range has room for [size] bytes at its first [align]ed address. *)
Definition fits (size align : Z) (i : ival) : Prop := round_up i.1 align + size <= iend i.

#[export] Instance fits_dec size align i : Decision (fits size align i).
Proof. unfold fits. apply _. Defined.

(** An [align]ed, [size]-byte range of covered addresses. *)
Definition free_range (l : list ival) (size align a : Z) : Prop :=
  a mod align = 0 /\ forall x, a <= x < a + size -> covers l x.

(** Decompose a list at its first fitting range. *)
Lemma first_fit_split size align (l : list ival) :
  (forall r, r ∈ l -> ~ fits size align r) \/
  exists l1 slot l2, l = l1 ++ slot :: l2 /\ fits size align slot /\
    (forall r, r ∈ l1 -> ~ fits size align r).
Proof.
  induction l as [|r l IH]; [left; set_solver|].
  destruct (decide (fits size align r)) as [Hf|Hf].
  - right. exists [], r, l. split_and!; try done. set_solver.
  - destruct IH as [IH|(l1 & s & l2 & -> & Hs & IH)].
    + left. intros x [->|Hx]%elem_of_cons; [done|by apply IH].
    + right. exists (r :: l1), s, l2. split_and!; try done. intros x [->|Hx]%elem_of_cons; [done|by apply IH].
Qed.

Lemma free_range_fits lo l size align a :
  wf_above lo l -> 0 < size -> 0 < align -> free_range l size align a ->
  exists r, r ∈ l /\ fits size align r /\ round_up r.1 align <= a /\ a < iend r.
Proof.
  intros Hw Hs Hpos [Ha Hc].
  destruct (covered_in_one _ _ _ _ Hw Hs Hc) as (r & Hr & Hlo & Hhi).
  pose proof (round_up_least r.1 align a Hpos Ha Hlo).
  exists r. unfold fits. split_and!; try done; lia.
Qed.

(** The address a first-fit search picks is free and the lowest choice. *)
Lemma first_fit_least lo l1 slot l2 size align :
  wf_above lo (l1 ++ slot :: l2) -> 0 < size -> 0 < align -> fits size align slot ->
  (forall r, r ∈ l1 -> ~ fits size align r) ->
  free_range (l1 ++ slot :: l2) size align (round_up slot.1 align) /\
  forall a, free_range (l1 ++ slot :: l2) size align a -> round_up slot.1 align <= a.
Proof.
  intros Hw Hs Hpos Hf Hfirst. destruct (round_up_spec slot.1 align Hpos) as [[Hge _] Hmod].
  unfold fits in Hf. split.
  - split; [done|]. intros x Hx. rewrite covers_app. right. left. unfold in_ival. lia.
  - intros a Ha. destruct (free_range_fits _ _ _ _ _ Hw Hs Hpos Ha) as (r & Hr & Hfr & Hle & _).
    apply elem_of_app in Hr as [Hr|[->|Hr]%elem_of_cons]; [by apply Hfirst in Hfr|done|].
    apply wf_above_app in Hw as (_ & _ & _ & Hw). destruct (wf_above_lt _ _ _ Hw Hr) as (? & _).
    destruct (round_up_spec r.1 align Hpos) as [[? _] _]. lia.
Qed.

(** ** Properties of ranges that survive coalescing *)
Section closed.
  Context (P : ival -> Prop).
  Context (P_join : forall a b, P a -> P b -> iend a = b.1 -> P (a.1, a.2 + b.2)).

Lemma merge_right_closed i l i' l' :
  merge_right i l = (i', l') -> P i -> (forall j, j ∈ l -> P j) -> P i' /\ forall j, j ∈ l' -> j ∈ l.
Proof using P_join.
  destruct l as [|j l]; cbn; [by intros [= <- <-]|].
  destruct (Z.eqb_spec (iend i) j.1); intros [= <- <-] Hi Hl; [|done].
  split; [|set_solver]. apply P_join; try done. apply Hl. left.
Qed.

Lemma merge_at_closed l1 i l2 j :
  P i -> (forall j, j ∈ l1 ++ l2 -> P j) -> j ∈ merge_at l1 i l2 -> P j.
Proof using P_join.
  intros Hi Hl. unfold merge_at. destruct (merge_right i l2) as [i' l2'] eqn:E.
  destruct (merge_right_closed _ _ _ _ E Hi) as [Hi' Hl2]; [set_solver|].
  unfold merge_left. destruct l1 as [|k l1 _] using rev_ind; cbn [last]; [set_solver|].
  rewrite last_snoc, removelast_last. destruct (Z.eqb_spec (iend k) i'.1); [|set_solver].
  assert (P (k.1, k.2 + i'.2)) by (apply P_join; [set_solver|done|done]). set_solver.
Qed.

End closed.

(** The position of an address in a sorted list. *)
Lemma sorted_split lo l b :
  wf_above lo l -> exists l1 l2, l = l1 ++ l2 /\
    (forall j, j ∈ l1 -> j.1 < b) /\ (forall j, j ∈ l2 -> b <= j.1).
Proof.
  revert lo; induction l as [|i l IH]; intros lo Hw.
  - exists [], []. split_and!; try done; set_solver.
  - destruct (Z.lt_ge_cases i.1 b) as [Hlt|Hge].
    + destruct Hw as (_ & _ & Hw). destruct (IH _ Hw) as (l1 & l2 & -> & H1 & H2).
      exists (i :: l1), l2. split_and!; try done. intros j [->|Hj]%elem_of_cons; auto.
    + exists [], (i :: l). split_and!; try done; [set_solver|].
      destruct Hw as (_ & ? & Hw). intros j [->|Hj]%elem_of_cons; [done|].
      destruct (wf_above_lt _ _ _ Hw Hj) as (? & _). unfold iend in *. lia.
Qed.
