(* ===== verification/Region.v ===== *)
(** * The virtual region allocator (eira/src/mm/vm/region.rs, vm/mod.rs)

    [Region] is the pair of its base and size.  [RegionAllocator] is the record
    of the 64 slots and the number of them in use; the abstract free list is
    the used prefix, [live].  Operations return the new state with Rust's
    [Result]; asserts, slice bounds and [expect] are panics.

    The proofs show that the array operations implement the interval list of
    [Intervals.v]: [insert_at] and [remove_at] are list insertion and deletion,
    [add_region] is [merge_at] and [alloc] is a first-fit [carve]. *)

From S2P Require Import Prelude Addr Intervals.

Definition CAPACITY : nat := 64.

Inductive RegionError := OutOfVirtualMemory | TrackerFull | UnalignedAddress.

#[export] Instance RegionError_eq_dec : EqDecision RegionError.
Proof. solve_decision. Defined.

Module Region.

Definition t : Type := Z * Z.
Definition base (r : t) : Z := r.1.
Definition size (r : t) : Z := r.2.

Definition new (base size : Z) : outcome t :=
  let! _ := assert_ (0 <? size) "region size must be non-zero" in
  let! b := VirtAddr.is_aligned base PAGE_SIZE in
  let! _ := assert_ b "region base is not page-aligned" in
  let! _ := assert_ (size mod PAGE_SIZE =? 0) "region size is not a multiple of PAGE_SIZE" in
  Ret (base, size).

Definition end_ (self : t) : option Z := checked_add (base self) (size self).

Definition is_left_adjacent_to (self other : t) : bool :=
  match end_ self with
  | Some e => e =? base other
  | None => false
  end.

End Region.

Module RegionAllocator.

Record t := mk { slots : list Region.t; len : nat }.

Definition SENTINEL : Region.t := (0, PAGE_SIZE).

Definition new : t := mk (replicate CAPACITY SENTINEL) 0.

(** [&self.slots[..self.len]] *)
Definition prefix (self : t) : outcome (list Region.t) :=
  if (len self <=? length (slots self))%nat then Ret (take (len self) (slots self))
  else Panic "range end index out of range for slice".

(** [slots.copy_within(src..end, dest)] *)
Definition copy_within (l : list Region.t) (src end_ dest : nat) : outcome (list Region.t) :=
  if ((src <=? end_) && (end_ <=? length l) && (dest + (end_ - src) <=? length l))%nat
  then Ret (take dest l ++ take (end_ - src) (drop src l) ++ drop (dest + (end_ - src)) l)
  else Panic "copy_within out of range".

(** [slots[pos]] and [slots[pos] = r] *)
Definition index (l : list Region.t) (pos : nat) : outcome Region.t :=
  expect (l !! pos) "index out of bounds".
Definition store (l : list Region.t) (pos : nat) (r : Region.t) : outcome (list Region.t) :=
  if (pos <? length l)%nat then Ret (<[pos := r]> l) else Panic "index out of bounds".

Definition insert_at (self : t) (pos : nat) (region : Region.t)
  : outcome (result unit RegionError * t) :=
  if (CAPACITY <=? len self)%nat then Ret (Err TrackerFull, self)
  else
    let! l := copy_within (slots self) pos (len self) (pos + 1) in
    let! l := store l pos region in
    Ret (Ok tt, mk l (len self + 1)).

Definition remove_at (self : t) (pos : nat) : outcome (Region.t * t) :=
  let! _ := assert_ (pos <? len self)%nat "remove_at: index out of bounds" in
  let! region := index (slots self) pos in
  let! l := copy_within (slots self) (pos + 1) (len self) pos in
  Ret (region, mk l (len self - 1)).

(** One half of [try_merge_at]: slots [i] and [i + 1]. *)
Definition merge_pair (self : t) (i : nat) : outcome t :=
  let! left_ := index (slots self) i in
  let! right_ := index (slots self) (i + 1) in
  if Region.is_left_adjacent_to left_ right_ then
    let! sz := add_ (Region.size left_) (Region.size right_) in
    let! r := Region.new (Region.base left_) sz in
    let! l := store (slots self) i r in
    let! '(_, self) := remove_at (mk l (len self)) (i + 1) in
    Ret self
  else Ret self.

Definition try_merge_at (self : t) (pos : nat) : outcome t :=
  let! self := if (pos + 1 <? len self)%nat then merge_pair self pos else Ret self in
  if (0 <? pos)%nat then merge_pair self (pos - 1) else Ret self.

(** [partition_point]: the number of leading slots that satisfy the predicate
    (the slots are sorted, so the predicate is true on a prefix). *)
Fixpoint partition_point (p : Region.t -> bool) (l : list Region.t) : nat :=
  match l with
  | [] => 0
  | r :: l => if p r then S (partition_point p l) else 0
  end.

Definition add_region (self : t) (region : Region.t) : outcome (result unit RegionError * t) :=
  let! aligned := VirtAddr.is_aligned (Region.base region) PAGE_SIZE in
  if negb aligned || negb (Region.size region mod PAGE_SIZE =? 0)
  then Ret (Err UnalignedAddress, self)
  else
    let! l := prefix self in
    let pos := partition_point (fun s => Region.base s <? Region.base region) l in
    let! '(r, self) := insert_at self pos region in
    match r with
    | Err e => Ret (Err e, self)
    | Ok _ => let! self := try_merge_at self pos in Ret (Ok tt, self)
    end.

(** The closure of [find_map]: the aligned base and the padding, if the slot
    fits; the [?] operators leave it with [None]. *)
Definition fit (size align : Z) (slot : Region.t) : outcome (option (Z * Z)) :=
  let base_raw := Region.base slot in
  match checked_add base_raw (align - 1) with
  | None => Ret None
  | Some v =>
      let aligned_raw := Z.land v (not64 (align - 1)) in
      let! padding := sub_ aligned_raw base_raw in
      match checked_add padding size with
      | None => Ret None
      | Some total_needed =>
          Ret (if total_needed <=? Region.size slot then Some (aligned_raw, padding) else None)
      end
  end.

Fixpoint find_fit (size align : Z) (i : nat) (l : list Region.t) : outcome (option (nat * Z * Z)) :=
  match l with
  | [] => Ret None
  | slot :: l =>
      let! o := fit size align slot in
      match o with
      | Some (a, p) => Ret (Some (i, a, p))
      | None => find_fit size align (S i) l
      end
  end.

Definition insert_expect (self : t) (pos : nat) (region : Region.t) : outcome t :=
  let! '(r, self) := insert_at self pos region in
  match r with
  | Ok _ => Ret self
  | Err _ => Panic "slot available after removal"
  end.

Definition alloc (self : t) (size align : Z) : outcome (result Region.t RegionError * t) :=
  if (size =? 0) || negb (size mod PAGE_SIZE =? 0) then Ret (Err UnalignedAddress, self)
  else if negb (is_power_of_two align) || negb (align mod PAGE_SIZE =? 0)
  then Ret (Err UnalignedAddress, self)
  else
    let! l := prefix self in
    let! found := find_fit size align 0 l in
    match found with
    | None => Ret (Err OutOfVirtualMemory, self)
    | Some (slot_idx, aligned_base, padding) =>
        let! '(slot, self) := remove_at self slot_idx in
        let! self :=
          if 0 <? padding then
            let! head := Region.new (Region.base slot) padding in
            insert_expect self slot_idx head
          else Ret self in
        let! t1 := sub_ (Region.size slot) padding in
        let! tail_size := sub_ t1 size in
        let! self :=
          if 0 <? tail_size then
            let! tail_base := add_ aligned_base size in
            let! tail := Region.new tail_base tail_size in
            insert_expect self (slot_idx + (if 0 <? padding then 1 else 0)) tail
          else Ret self in
        let! r := Region.new aligned_base size in
        Ret (Ok r, self)
    end.

Definition free (self : t) (region : Region.t) : outcome (result unit RegionError * t) :=
  add_region self region.

(** [Iterator::sum] on [usize] *)
Fixpoint sum_sizes (acc : Z) (l : list Region.t) : outcome Z :=
  match l with
  | [] => Ret acc
  | r :: l => let! acc := add_ acc (Region.size r) in sum_sizes acc l
  end.

Definition free_bytes (self : t) : outcome Z :=
  let! l := prefix self in sum_sizes 0 l.

Definition free_region_count (self : t) : nat := len self.

End RegionAllocator.

(** ** The kernel's address ranges (vm/mod.rs) *)
Definition HEAP_START : Z := 0xffffc00000000000.
Definition HEAP_END : Z := 0xffffd00000000000.
Definition KERNEL_VM_START : Z := 0xffffd00000000000.
Definition KERNEL_VM_END : Z := 0xffffe00000000000.
#[export] Hint Unfold HEAP_START HEAP_END KERNEL_VM_START KERNEL_VM_END : kconst.

Definition is_heap_addr (addr : Z) : bool := (HEAP_START <=? addr) && (addr <? HEAP_END).
Definition is_kernel_vm_addr (addr : Z) : bool := (KERNEL_VM_START <=? addr) && (addr <? KERNEL_VM_END).

Definition region_allocator_of (start end_ : Z) (why : string) : outcome RegionAllocator.t :=
  let ra := RegionAllocator.new in
  let base := VirtAddr.new_unchecked start in
  let! size := sub_ end_ start in
  let! r := Region.new base size in
  let! '(res, ra) := RegionAllocator.add_region ra r in
  match res with Ok _ => Ret ra | Err _ => Panic why end.

Definition heap_region_allocator : outcome RegionAllocator.t :=
  region_allocator_of HEAP_START HEAP_END "initial heap region registration failed".

Definition kernel_vm_region_allocator : outcome RegionAllocator.t :=
  region_allocator_of KERNEL_VM_START KERNEL_VM_END "initial kernel VM region registration failed".

(** ** The slot array implements a list *)
Module RegionInv.
Import RegionAllocator.

(** The used prefix of the array is [l]. *)
Definition repr (ra : t) (l : list Region.t) : Prop :=
  exists rest, slots ra = l ++ rest /\ len ra = length l /\ length (slots ra) = CAPACITY.

(** Page-aligned and ending inside the address space. *)
Definition page_range (r : Region.t) : Prop :=
  r.1 mod PAGE_SIZE = 0 /\ r.2 mod PAGE_SIZE = 0 /\ iend r < W64.

Record inv (ra : t) (l : list Region.t) : Prop := {
  inv_repr : repr ra l;
  inv_wf : wf l;
  inv_pages : forall r, r ∈ l -> page_range r;
}.
Arguments inv_repr {ra l} _.
Arguments inv_wf {ra l} _.
Arguments inv_pages {ra l} _.

End RegionInv.
Import RegionInv.

Section arrays.
Import RegionAllocator.
Implicit Types (ra : t) (l : list Region.t) (r : Region.t).

Lemma repr_length ra l : repr ra l -> (length l <= CAPACITY)%nat.
Proof. intros (rest & E & _ & H). rewrite E, length_app in H. lia. Qed.

Lemma prefix_ok ra l : repr ra l -> prefix ra = Ret l.
Proof.
  intros (rest & E & Hl & Hc). unfold prefix. rewrite E, Hl, length_app.
  rewrite (proj2 (Nat.leb_le _ _)) by lia. by rewrite take_app_length.
Qed.

Lemma insert_at_full ra l pos r :
  repr ra l -> length l = CAPACITY -> insert_at ra pos r = Ret (Err TrackerFull, ra).
Proof.
  intros (rest & _ & Hl & _) Hf. unfold insert_at. rewrite Hl, Hf.
  by rewrite (proj2 (Nat.leb_le _ _)) by lia.
Qed.

Lemma insert_at_ok ra l1 l2 r :
  repr ra (l1 ++ l2) -> (length (l1 ++ l2) < CAPACITY)%nat ->
  exists ra', insert_at ra (length l1) r = Ret (Ok tt, ra') /\ repr ra' (l1 ++ r :: l2).
Proof.
  intros (rest & E & Hl & Hc) Hlt. unfold insert_at. rewrite Hl.
  rewrite (proj2 (Nat.leb_gt _ _)) by done.
  destruct rest as [|x rest]; [rewrite E, app_nil_r in Hc; lia|].
  unfold copy_within. rewrite E in *. rewrite !length_app in *. cbn [length] in *.
  replace (length l1 + length l2 - length l1)%nat with (length l2) by lia.
  replace ((_ && _ && _)%nat) with true; cycle 1.
  { symmetry. rewrite !andb_true_iff, !Nat.leb_le. lia. }
  cbn [obind]. unfold store.
  assert (Hs : (take (length l1 + 1) ((l1 ++ l2) ++ x :: rest) ++
                take (length l2) (drop (length l1) ((l1 ++ l2) ++ x :: rest)) ++
                drop (length l1 + 1 + length l2) ((l1 ++ l2) ++ x :: rest))
             = l1 ++ take 1 (l2 ++ x :: rest) ++ l2 ++ rest).
  { rewrite <- app_assoc, take_app_add, drop_app_length, take_app_length, <- app_assoc.
    f_equal. f_equal. f_equal.
    replace (length l1 + 1 + length l2)%nat with (length (l1 ++ l2) + 1)%nat by (rewrite length_app; lia).
    by rewrite app_assoc, drop_app_add. }
  rewrite Hs.
  assert (Ht : exists y, take 1 (l2 ++ x :: rest) = [y]) by (destruct l2; cbn; eauto).
  destruct Ht as [y ->]. rewrite (proj2 (Nat.ltb_lt _ _)) by (rewrite !length_app; cbn; lia).
  cbn [obind]. eexists. split; [reflexivity|].
  exists rest. cbn [slots len]. rewrite insert_app_r_alt, Nat.sub_diag by lia. cbn.
  rewrite <- app_assoc. cbn. split_and!; [done| rewrite length_app; cbn; lia|].
  rewrite !length_app. cbn. rewrite length_app. lia.
Qed.

Lemma remove_at_ok ra l1 r l2 :
  repr ra (l1 ++ r :: l2) ->
  exists ra', remove_at ra (length l1) = Ret (r, ra') /\ repr ra' (l1 ++ l2).
Proof.
  intros (rest & E & Hl & Hc). unfold remove_at. rewrite Hl. rewrite E in *.
  rewrite !length_app in *. cbn [length] in *.
  rewrite (proj2 (Nat.ltb_lt _ _)) by lia. cbn [assert_ obind]. unfold index.
  rewrite <- app_assoc, lookup_app_r, Nat.sub_diag by lia. cbn [expect obind app lookup list_lookup].
  unfold copy_within. rewrite !length_app. cbn [length]. rewrite length_app.
  replace (length l1 + S (length l2) - (length l1 + 1))%nat with (length l2) by lia.
  replace ((_ && _ && _)%nat) with true; cycle 1.
  { symmetry. rewrite !andb_true_iff, !Nat.leb_le. lia. }
  cbn [obind]. eexists. split; [reflexivity|].
  rewrite take_app_length, drop_app_add.
  replace (drop 1 (r :: l2 ++ rest)) with (l2 ++ rest) by done. rewrite take_app_length.
  exists (drop (length l1 + length l2) (l1 ++ r :: l2 ++ rest)). cbn [slots len].
  rewrite <- app_assoc. split_and!; [done | rewrite length_app; lia|].
  rewrite !length_app, length_drop, length_app. cbn. rewrite length_app. lia.
Qed.

Lemma repr_lookup ra l i r : repr ra l -> l !! i = Some r -> index (slots ra) i = Ret r.
Proof.
  intros (rest & E & _) Hi. unfold index. rewrite E, lookup_app_l by by eapply lookup_lt_Some.
  by rewrite Hi.
Qed.

Lemma repr_store ra l1 r r' l2 :
  repr ra (l1 ++ r :: l2) ->
  exists sl, store (slots ra) (length l1) r' = Ret sl /\ repr (mk sl (len ra)) (l1 ++ r' :: l2).
Proof.
  intros (rest & E & Hl & Hc). unfold store.
  rewrite (proj2 (Nat.ltb_lt _ _)) by (rewrite E, !length_app; cbn; lia).
  eexists. split; [reflexivity|]. exists rest. cbn [slots len]. rewrite E, <- app_assoc.
  rewrite insert_app_r_alt, Nat.sub_diag by lia. cbn. rewrite <- app_assoc. split_and!; [done| |].
  - rewrite Hl, !length_app. done.
  - rewrite E in Hc. rewrite <- Hc, !length_app. cbn. rewrite !length_app. cbn. lia.
Qed.

Lemma Region_new_ok b s :
  0 < s -> b mod PAGE_SIZE = 0 -> s mod PAGE_SIZE = 0 -> Region.new b s = Ret (b, s).
Proof.
  intros Hs Hb Hm. unfold Region.new. rewrite (proj2 (Z.ltb_lt _ _)) by done.
  cbn [assert_ obind]. rewrite VirtAddr_is_aligned_eq by eauto with kernel. cbn [obind].
  by rewrite Hb, Hm.
Qed.

Lemma adjacent_iff r r' : page_range r -> Region.is_left_adjacent_to r r' = (iend r =? r'.1).
Proof.
  intros (_ & _ & Hlt). unfold Region.is_left_adjacent_to, Region.end_, Region.base, Region.size.
  by rewrite (proj2 (checked_add_Some r.1 r.2 (iend r))).
Qed.

Lemma merge_pair_ok ra l1 a b l2 :
  repr ra (l1 ++ a :: b :: l2) -> page_range a -> page_range b -> 0 < a.2 -> 0 < b.2 -> 0 <= a.1 ->
  exists ra', merge_pair ra (length l1) = Ret ra' /\
    repr ra' (if iend a =? b.1 then l1 ++ (a.1, a.2 + b.2) :: l2 else l1 ++ a :: b :: l2).
Proof.
  intros Hr Ha Hb Ha2 Hb2 Ha1. unfold merge_pair.
  erewrite repr_lookup; [|done|by rewrite lookup_app_r, Nat.sub_diag by lia]. cbn [obind].
  erewrite repr_lookup; [|done|]; cycle 1.
  { rewrite lookup_app_r by lia. by replace (length l1 + 1 - length l1)%nat with 1%nat by lia. }
  cbn [obind]. rewrite adjacent_iff by done.
  destruct (Z.eqb_spec (iend a) b.1) as [E|E]; [|eauto].
  destruct Ha as (? & Hms & ?), Hb as (? & Hms' & ?). unfold Region.size, Region.base, iend in *.
  rewrite add_Ret by lia. cbn [obind].
  rewrite Region_new_ok; [| lia | done | by rewrite Zplus_mod, Hms, Hms' by klia].
  cbn [obind]. destruct (repr_store _ _ _ (a.1, a.2 + b.2) _ Hr) as (sl & -> & Hr'). cbn [obind].
  replace (length l1 + 1)%nat with (length (l1 ++ [(a.1, a.2 + b.2)])) by (rewrite length_app; done).
  change (l1 ++ (a.1, a.2 + b.2) :: b :: l2) with (l1 ++ [(a.1, a.2 + b.2)] ++ b :: l2) in Hr'.
  rewrite app_assoc in Hr'. destruct (remove_at_ok _ _ _ _ Hr') as (ra' & Hrm & Hr'').
  unfold Region.t in *. rewrite Hrm. rewrite <- app_assoc in Hr''. cbn. eauto.
Qed.

End arrays.

Section operations.
Import RegionAllocator.
Implicit Types (ra : t) (l : list Region.t) (r : Region.t).

Definition good_range (r : Region.t) : Prop := page_range r /\ 0 < r.2 /\ 0 <= r.1.

Lemma good_merge a b : good_range a -> good_range b -> iend a = b.1 -> good_range (a.1, a.2 + b.2).
Proof.
  intros ((Ha1 & Ha2 & ?) & ? & ?) ((Hb1 & Hb2 & ?) & ? & ?) E. unfold good_range, page_range, iend in *.
  cbn. split_and!; try lia. by rewrite Zplus_mod, Ha2, Hb2 by klia.
Qed.

Lemma merge_right_step ra l1 r l2 :
  repr ra (l1 ++ r :: l2) -> good_range r -> (forall j, j ∈ l2 -> good_range j) ->
  exists ra', (if (length l1 + 1 <? len ra)%nat then merge_pair ra (length l1) else Ret ra) = Ret ra' /\
    repr ra' (l1 ++ (merge_right r l2).1 :: (merge_right r l2).2).
Proof.
  intros Hr (Hrp & ? & ?) Hl2. destruct (Hr) as (_ & _ & -> & _). rewrite length_app. cbn [length].
  destruct l2 as [|j l2]; cbn [merge_right].
  - rewrite (proj2 (Nat.ltb_ge _ _)) by (cbn; lia). eauto.
  - rewrite (proj2 (Nat.ltb_lt _ _)) by (cbn; lia).
    destruct (Hl2 j) as (? & ? & ?); [left|].
    destruct (merge_pair_ok ra l1 r j l2 Hr) as (ra' & -> & Hr'); try done.
    exists ra'. split; [done|]. by destruct (iend r =? j.1).
Qed.

Lemma merge_left_step ra l1 r l2 :
  repr ra (l1 ++ r :: l2) -> good_range r -> (forall j, j ∈ l1 -> good_range j) ->
  exists ra', (if (0 <? length l1)%nat then merge_pair ra (length l1 - 1) else Ret ra) = Ret ra' /\
    repr ra' (merge_left l1 r ++ l2).
Proof.
  intros Hr (Hrp & ? & ?) Hl1. unfold merge_left.
  destruct l1 as [|j l1 _] using rev_ind; [eauto|].
  rewrite last_snoc, removelast_last, length_app. cbn [length].
  rewrite (proj2 (Nat.ltb_lt _ _)) by lia.
  replace (length l1 + 1 - 1)%nat with (length l1) by lia.
  rewrite <- app_assoc in Hr. cbn in Hr. destruct (Hl1 j) as (? & ? & ?); [set_solver|].
  destruct (merge_pair_ok ra l1 j r l2 Hr) as (ra' & -> & Hr'); try done.
  exists ra'. split; [done|]. destruct (iend j =? r.1); by rewrite <- !app_assoc.
Qed.

Lemma try_merge_at_ok ra l1 r l2 :
  repr ra (l1 ++ r :: l2) -> (forall j, j ∈ l1 ++ r :: l2 -> good_range j) ->
  exists ra', try_merge_at ra (length l1) = Ret ra' /\ repr ra' (merge_at l1 r l2).
Proof.
  intros Hr Hg. unfold try_merge_at.
  destruct (merge_right_step ra l1 r l2 Hr) as (ra1 & E1 & Hr1); [apply Hg; set_solver|set_solver|].
  rewrite E1. cbn [obind]. unfold merge_at. destruct (merge_right r l2) as [i' l2'] eqn:E. cbn in Hr1.
  apply merge_left_step; try done; [|set_solver].
  eapply (merge_right_closed good_range good_merge); [done| |]; set_solver.
Qed.

Lemma inv_good ra l r : inv ra l -> r ∈ l -> good_range r.
Proof.
  intros Hi Hr. destruct (wf_above_lt _ _ _ (inv_wf Hi) Hr) as (? & ? & _).
  split; [by apply (inv_pages Hi)|]. lia.
Qed.

(** Sorted by base: [partition_point] is the place to insert. *)
Lemma partition_point_split lo l b :
  wf_above lo l -> exists l1 l2, l = l1 ++ l2 /\
    partition_point (fun s => Region.base s <? b) l = length l1 /\
    (forall j, j ∈ l1 -> j.1 < b) /\ (forall j, j ∈ l2 -> b <= j.1).
Proof.
  intros Hw. destruct (sorted_split _ _ b Hw) as (l1 & l2 & -> & H1 & H2).
  exists l1, l2. split_and!; try done. clear Hw.
  induction l1 as [|i l1 IH]; cbn; unfold Region.base at 1.
  - destruct l2 as [|j l2]; cbn; [done|]. by rewrite (proj2 (Z.ltb_ge _ _)) by (apply H2; left).
  - rewrite (proj2 (Z.ltb_lt _ _)) by (apply H1; left). rewrite IH; [done|]. intros; apply H1; by right.
Qed.

(** [add_region] on a disjoint page-aligned range, with a slot to spare. *)
Lemma add_region_ok ra l r :
  inv ra l -> good_range r -> (forall x, in_ival r x -> ~ covers l x) -> (length l < CAPACITY)%nat ->
  exists ra' l1 l2, l = l1 ++ l2 /\ add_region ra r = Ret (Ok tt, ra') /\ inv ra' (merge_at l1 r l2) /\
    (forall j, j ∈ l1 -> j.1 < r.1) /\ (forall j, j ∈ l2 -> r.1 <= j.1).
Proof.
  intros Hi Hg Hd Hlt. pose proof Hg as ((Hb & Hs & _) & Hpos & Hnn).
  destruct (partition_point_split _ l (Region.base r) (inv_wf Hi)) as (l1 & l2 & -> & Hpos' & H1 & H2).
  unfold add_region. rewrite VirtAddr_is_aligned_eq by eauto with kernel. cbn [obind].
  unfold Region.base, Region.size in *. rewrite Hb, Hs. cbn [Z.eqb negb orb].
  rewrite (prefix_ok _ _ (inv_repr Hi)). cbn [obind]. rewrite Hpos'.
  destruct (insert_at_ok ra l1 l2 r (inv_repr Hi) Hlt) as (ra1 & -> & Hr1). cbn [obind].
  assert (Hall : forall j, j ∈ l1 ++ l2 -> good_range j) by (intros; by eapply inv_good).
  destruct (try_merge_at_ok ra1 l1 r l2 Hr1) as (ra2 & -> & Hr2); [set_solver|].
  exists ra2, l1, l2. cbn. split_and!; try done.
  destruct (merge_at_spec (-1) l1 r l2) as (Hw & _ & _); try done; [apply (inv_wf Hi)|lia|].
  constructor; [done|done|]. intros j Hj. by eapply (merge_at_closed good_range good_merge).
Qed.

Lemma add_region_full ra l r :
  inv ra l -> length l = CAPACITY -> r.1 mod PAGE_SIZE = 0 -> r.2 mod PAGE_SIZE = 0 ->
  add_region ra r = Ret (Err TrackerFull, ra).
Proof.
  intros Hi Hf Hb Hs. unfold add_region. rewrite VirtAddr_is_aligned_eq by eauto with kernel. cbn [obind].
  unfold Region.base, Region.size in *. rewrite Hb, Hs. cbn [Z.eqb negb orb].
  rewrite (prefix_ok _ _ (inv_repr Hi)). cbn [obind].
  by rewrite (insert_at_full _ _ _ _ (inv_repr Hi) Hf).
Qed.

End operations.

Section allocation.
Import RegionAllocator.
Implicit Types (ra : t) (l : list Region.t) (r slot : Region.t).

Definition good_request (size align : Z) : Prop :=
  0 < size < W64 /\ size mod PAGE_SIZE = 0 /\
  is_power_of_two align = true /\ is_u64 align /\ align mod PAGE_SIZE = 0.

Lemma W64_multiple align : is_power_of_two align = true -> is_u64 align -> W64 mod align = 0.
Proof.
  intros Hp Hu. destruct (align_mask_cases align Hp Hu) as (k & Hk & -> & ?).
  change W64 with (2 ^ 64). replace 64 with (64 - k + k) by lia.
  rewrite Z.pow_add_r by lia. apply Z.mod_mul. lia.
Qed.

Lemma round_up_overflow b align :
  is_power_of_two align = true -> is_u64 align -> W64 <= b + (align - 1) -> W64 <= round_up b align.
Proof.
  intros Hp Hu Hge. pose proof (power_of_two_pos _ Hp). pose proof (W64_multiple _ Hp Hu) as Hm.
  unfold round_up. set (x := b + (align - 1)) in *.
  assert (W64 / align <= x / align) by (apply Z.div_le_mono; lia).
  pose proof (Z.div_mod x align). pose proof (Z.div_mod W64 align). nia.
Qed.

Lemma fit_ok size align slot :
  good_request size align -> good_range slot ->
  exists o, fit size align slot = Ret o /\
    match o with
    | Some (a, p) => fits size align slot /\ a = round_up slot.1 align /\ p = a - slot.1
    | None => ~ fits size align slot
    end.
Proof.
  intros (Hs & _ & Hp & Hu & _) ((_ & _ & Hend) & Hpos & Hnn). pose proof (power_of_two_pos _ Hp).
  unfold fit, fits, Region.base, Region.size, iend in *.
  destruct (round_up_spec slot.1 align) as [[? ?] _]; [done|].
  destruct (checked_add slot.1 (align - 1)) as [v|] eqn:E.
  - apply checked_add_Some in E as [-> ?].
    rewrite land_align_not_mask by (done || unfold is_u64 in *; lia). fold (round_up slot.1 align).
    rewrite sub_Ret by lia. cbn [obind].
    destruct (checked_add (round_up slot.1 align - slot.1) size) as [tn|] eqn:E.
    + apply checked_add_Some in E as [-> ?].
      destruct (Z.leb_spec (round_up slot.1 align - slot.1 + size) slot.2); eexists; (split; [reflexivity|]).
      * split_and!; lia.
      * cbn. lia.
    + apply checked_add_None in E. eexists. split; [reflexivity|]. cbn. lia.
  - apply checked_add_None in E. eexists. split; [reflexivity|].
    pose proof (round_up_overflow _ _ Hp Hu E). cbn. lia.
Qed.

(** First fit: the slot found is the first one with room. *)
Lemma find_fit_ok size align i l :
  good_request size align -> (forall r, r ∈ l -> good_range r) ->
  exists o, find_fit size align i l = Ret o /\
    match o with
    | Some (j, a, p) => exists l1 slot l2, l = l1 ++ slot :: l2 /\ j = (i + length l1)%nat /\
        fits size align slot /\ a = round_up slot.1 align /\ p = a - slot.1 /\
        (forall r, r ∈ l1 -> ~ fits size align r)
    | None => forall r, r ∈ l -> ~ fits size align r
    end.
Proof.
  intros Hq. revert i; induction l as [|slot l IH]; intros i Hl; cbn [find_fit].
  { exists None. split; [done|]. set_solver. }
  destruct (fit_ok size align slot Hq) as (o & -> & Ho); [apply Hl; left|]. cbn [obind].
  destruct o as [[a p]|].
  - eexists. split; [reflexivity|]. destruct Ho as (? & -> & ->).
    exists [], slot, l. cbn. split_and!; try done; set_solver.
  - destruct (IH (S i)) as (o & -> & Hr); [set_solver|]. eexists. split; [reflexivity|].
    destruct o as [[[j a] p]|].
    + destruct Hr as (l1 & s & l2 & -> & -> & ? & ? & ? & Hf). exists (slot :: l1), s, l2.
      cbn. split_and!; try done. intros r [->|Hr]%elem_of_cons; [done|]. by apply Hf.
    + intros r [->|Hr']%elem_of_cons; [done|]. by apply Hr.
Qed.

Lemma insert_piece_ok ra l1 l2 b s :
  repr ra (l1 ++ l2) -> (0 < s -> (length (l1 ++ l2) < CAPACITY)%nat) ->
  b mod PAGE_SIZE = 0 -> s mod PAGE_SIZE = 0 ->
  exists ra', (if 0 <? s then let! r := Region.new b s in insert_expect ra (length l1) r else Ret ra)
                = Ret ra' /\ repr ra' (l1 ++ piece b s ++ l2).
Proof.
  intros Hr Hc Hb Hs. unfold piece. destruct (Z.ltb_spec 0 s); [|eauto].
  rewrite Region_new_ok by done. cbn [obind]. unfold insert_expect.
  destruct (insert_at_ok ra l1 l2 (b, s) Hr) as (ra' & -> & Hr'); [auto|]. cbn. eauto.
Qed.

Lemma insert_expect_full ra l pos r :
  repr ra l -> length l = CAPACITY -> insert_expect ra pos r = Panic "slot available after removal".
Proof. intros Hr Hf. unfold insert_expect. by rewrite (insert_at_full _ _ _ _ Hr Hf). Qed.

Lemma round_up_page b align :
  is_power_of_two align = true -> align mod PAGE_SIZE = 0 -> round_up b align mod PAGE_SIZE = 0.
Proof.
  intros Hp Hm. destruct (round_up_spec b align) as [_ H0]; [by apply power_of_two_pos|].
  pose proof (power_of_two_pos _ Hp). apply Z.mod_divide in Hm; [|klia]. apply Z.mod_divide in H0; [|lia].
  apply Z.mod_divide; [klia|]. by etrans.
Qed.

Lemma find_fit_first size align l1 slot l2 :
  good_request size align -> (forall r, r ∈ l1 ++ slot :: l2 -> good_range r) ->
  fits size align slot -> (forall r, r ∈ l1 -> ~ fits size align r) ->
  find_fit size align 0 (l1 ++ slot :: l2) =
    Ret (Some (length l1, round_up slot.1 align, round_up slot.1 align - slot.1)).
Proof.
  intros Hq Hg Hf Hfirst.
  destruct (find_fit_ok size align 0 (l1 ++ slot :: l2) Hq Hg) as (o & -> & Ho).
  destruct o as [[[j a'] p]|]; [|exfalso; by apply (Ho slot); [set_solver|]].
  destruct Ho as (k1 & s & k2 & Hk & -> & Hs' & -> & -> & Hk1).
  assert (k1 = l1 /\ s = slot) as [-> ->]; [|done].
  apply app_eq_inv in Hk as [(k & -> & Hk)|(k & -> & Hk)]; destruct k as [|y k];
    rewrite ?app_nil_r; cbn in Hk; injection Hk as ? ?; subst; try done; exfalso.
  - apply (Hk1 slot); [set_solver|done].
  - apply (Hfirst s); [set_solver|done].
Qed.

(** The arguments of [alloc] pass its two alignment tests. *)
Lemma request_guards size align :
  good_request size align ->
  (size =? 0) || negb (size mod PAGE_SIZE =? 0) = false /\
  negb (is_power_of_two align) || negb (align mod PAGE_SIZE =? 0) = false.
Proof.
  intros (? & Hs & Hp & _ & Hm). rewrite Hs, Hp, Hm. split; [|done].
  rewrite (proj2 (Z.eqb_neq size 0)) by lia. done.
Qed.

Lemma carve_pages slot a size r :
  good_range slot -> slot.1 <= a -> a + size <= iend slot -> 0 < size ->
  a mod PAGE_SIZE = 0 -> size mod PAGE_SIZE = 0 -> r ∈ carve slot a size -> page_range r.
Proof.
  intros ((Hsb & Hss & Hend) & Hpos & Hnn) Hge Hf Hs Ham Hsm Hr.
  unfold carve, piece in Hr. unfold page_range, iend in *.
  destruct (0 <? a - slot.1), (0 <? slot.1 + slot.2 - (a + size)); cbn in Hr;
    repeat (apply elem_of_cons in Hr as [->|Hr]; [cbn; klia|]); by apply elem_of_nil in Hr.
Qed.

Lemma length_piece b s : length (piece b s) = if 0 <? s then 1%nat else 0%nat.
Proof. unfold piece. by destruct (0 <? s). Qed.

(** The array after a first-fit allocation. *)
Lemma alloc_repr ra l1 slot l2 size align (a := round_up slot.1 align) :
  repr ra (l1 ++ slot :: l2) -> (forall r, r ∈ l1 ++ slot :: l2 -> good_range r) ->
  good_request size align -> fits size align slot -> (forall r, r ∈ l1 -> ~ fits size align r) ->
  (length (carve slot a size) + length (l1 ++ l2) <= CAPACITY)%nat ->
  exists ra', alloc ra size align = Ret (Ok (a, size), ra') /\ repr ra' (l1 ++ carve slot a size ++ l2).
Proof.
  intros Hr Hall Hq Hf Hfirst Hcap. pose proof Hq as (Hs & Hsm & Hp & Hu & Hm).
  pose proof (power_of_two_pos _ Hp). destruct (round_up_spec slot.1 align) as [[Hge _] _]; [done|].
  pose proof (round_up_page slot.1 align Hp Hm) as Ham. fold a in Hge, Ham.
  destruct (Hall slot) as ((Hsb & Hss & Hend) & Hpos & Hnn); [set_solver|].
  unfold alloc. destruct (request_guards _ _ Hq) as [-> ->]. rewrite (prefix_ok _ _ Hr). cbn [obind].
  rewrite find_fit_first by done. cbn [obind]. unfold fits in Hf. fold a in Hf |- *.
  destruct (remove_at_ok ra l1 slot l2 Hr) as (ra1 & -> & Hr1). cbn [obind].
  unfold carve in *. rewrite length_app, !length_piece in Hcap.
  destruct (insert_piece_ok ra1 l1 l2 slot.1 (a - slot.1) Hr1) as (ra2 & E2 & Hr2); [|done|klia|].
  { intros Hpp. apply Z.ltb_lt in Hpp. rewrite Hpp in Hcap. lia. }
  unfold Region.base, Region.size. rewrite E2. cbn [obind].
  rewrite (sub_Ret slot.2) by (unfold iend in *; lia). cbn [obind].
  rewrite sub_Ret by (unfold iend in *; lia). cbn [obind].
  replace (slot.2 - (a - slot.1) - size) with (iend slot - (a + size)) by (unfold iend; lia).
  rewrite app_assoc in Hr2.
  destruct (insert_piece_ok ra2 _ _ (a + size) (iend slot - (a + size)) Hr2) as (ra3 & E3 & Hr3).
  { intros Hpp. apply Z.ltb_lt in Hpp. rewrite Hpp in Hcap.
    rewrite !length_app, length_piece. rewrite length_app in Hcap. unfold Region.t in *. lia. }
  { klia. }
  { unfold iend in *. klia. }
  exists ra3. split; [|by rewrite <- !app_assoc in *].
  replace (length l1 + (if (0 <? a - slot.1)%Z then 1 else 0))%nat
    with (length (l1 ++ piece slot.1 (a - slot.1))) by (rewrite length_app, length_piece; done).
  rewrite add_Ret by (unfold iend in *; lia). cbn [obind].
  unfold Region.t in *. rewrite E3. cbn [obind]. by rewrite Region_new_ok by (done || lia).
Qed.

Lemma alloc_found ra l1 slot l2 size align (a := round_up slot.1 align) :
  inv ra (l1 ++ slot :: l2) -> good_request size align -> fits size align slot ->
  (forall r, r ∈ l1 -> ~ fits size align r) ->
  (length (carve slot a size) + length (l1 ++ l2) <= CAPACITY)%nat ->
  exists ra', alloc ra size align = Ret (Ok (a, size), ra') /\ inv ra' (l1 ++ carve slot a size ++ l2).
Proof.
  intros Hi Hq Hf Hfirst Hcap. pose proof Hq as (Hs & Hsm & Hp & Hu & Hm).
  destruct (round_up_spec slot.1 align) as [[Hge _] _]; [by apply power_of_two_pos|].
  assert (Hall : forall r, r ∈ l1 ++ slot :: l2 -> good_range r) by (intros; by eapply inv_good).
  destruct (alloc_repr ra l1 slot l2 size align (inv_repr Hi)) as (ra' & Ha & Hr'); try done.
  exists ra'. split; [done|]. constructor; [done| |].
  - by apply (carve_spec (-1) l1 slot l2 a size (inv_wf Hi) (proj1 Hs) Hge Hf).
  - intros r [Hr|[Hr|Hr]%elem_of_app]%elem_of_app;
      [apply (inv_pages Hi); set_solver| |apply (inv_pages Hi); set_solver].
    eapply (carve_pages slot a size); try done; [apply Hall; set_solver|lia|by apply round_up_page].
Qed.

(** With all slots in use, an allocation that splits its slot in three finds no
    slot for the tail. *)
Lemma alloc_full ra l1 slot l2 size align (a := round_up slot.1 align) :
  inv ra (l1 ++ slot :: l2) -> good_request size align -> fits size align slot ->
  (forall r, r ∈ l1 -> ~ fits size align r) ->
  length (l1 ++ slot :: l2) = CAPACITY -> slot.1 < a -> a + size < iend slot ->
  alloc ra size align = Panic "slot available after removal".
Proof.
  intros Hi Hq Hf Hfirst Hfull Hlt Htail. pose proof Hq as (Hs & Hsm & Hp & Hu & Hm).
  pose proof (round_up_page slot.1 align Hp Hm) as Ham. fold a in Ham.
  assert (Hall : forall r, r ∈ l1 ++ slot :: l2 -> good_range r) by (intros; by eapply inv_good).
  destruct (Hall slot) as ((Hsb & Hss & Hend) & Hpos & Hnn); [set_solver|].
  unfold alloc. destruct (request_guards _ _ Hq) as [-> ->].
  rewrite (prefix_ok _ _ (inv_repr Hi)). cbn [obind].
  rewrite find_fit_first by done. cbn [obind]. fold a.
  destruct (remove_at_ok ra l1 slot l2 (inv_repr Hi)) as (ra1 & -> & Hr1). cbn [obind].
  rewrite length_app in Hfull. cbn [length] in Hfull.
  destruct (insert_piece_ok ra1 l1 l2 slot.1 (a - slot.1) Hr1) as (ra2 & E2 & Hr2); [|done|klia|].
  { intros _. rewrite length_app. lia. }
  unfold Region.base, Region.size. rewrite E2. cbn [obind].
  rewrite (sub_Ret slot.2) by (unfold iend in *; lia). cbn [obind].
  rewrite sub_Ret by (unfold iend in *; lia). cbn [obind].
  rewrite !(proj2 (Z.ltb_lt 0 _)) by (unfold iend in *; lia).
  rewrite add_Ret by (unfold iend in *; lia). cbn [obind].
  rewrite Region_new_ok by (unfold iend in *; klia). cbn [obind].
  erewrite insert_expect_full; [done|exact Hr2|]. unfold piece.
  rewrite (proj2 (Z.ltb_lt 0 _)) by lia. rewrite !length_app. cbn. unfold Region.t in *. lia.
Qed.

Lemma alloc_none ra l size align :
  inv ra l -> good_request size align -> (forall r, r ∈ l -> ~ fits size align r) ->
  alloc ra size align = Ret (Err OutOfVirtualMemory, ra).
Proof.
  intros Hi Hq Hn. unfold alloc. destruct (request_guards _ _ Hq) as [-> ->].
  rewrite (prefix_ok _ _ (inv_repr Hi)). cbn [obind].
  destruct (find_fit_ok size align 0 l Hq) as (o & -> & Ho); [intros; by eapply inv_good|].
  cbn [obind]. destruct o as [[[j a] p]|]; [|done].
  destruct Ho as (l1 & slot & l2 & -> & _ & Hf & _). exfalso. apply (Hn slot); [set_solver|done].
Qed.

End allocation.

(** ** Properties *)
Section properties.
Import RegionAllocator.

(** What [alloc] does, found or not. *)
Lemma alloc_spec ra l size align :
  inv ra l -> good_request size align -> (length l < CAPACITY)%nat ->
  exists res ra', alloc ra size align = Ret (res, ra') /\
    match res with
    | Ok r => free_range l size align r.1 /\ r.2 = size /\
        (forall a, free_range l size align a -> r.1 <= a) /\
        exists l', inv ra' l' /\ bytes l' = bytes l - size /\
          (forall x, covers l' x <-> covers l x /\ ~ in_ival r x)
    | Err e => e = OutOfVirtualMemory /\ ra' = ra /\ forall a, ~ free_range l size align a
    end.
Proof.
  intros Hi Hq Hcap. pose proof Hq as (Hs & _ & Hp & _). pose proof (power_of_two_pos _ Hp) as Hpos.
  destruct (first_fit_split size align l) as [Hn|(l1 & slot & l2 & -> & Hf & Hfirst)].
  { rewrite (alloc_none ra l) by done. eexists _, _. split; [reflexivity|]. split_and!; try done.
    intros a Ha. destruct (free_range_fits _ _ _ _ _ (inv_wf Hi) (proj1 Hs) Hpos Ha) as (r & Hr & Hf & _).
    by apply (Hn r). }
  destruct (alloc_found ra l1 slot l2 size align) as (ra' & -> & Hi'); try done.
  { unfold carve. rewrite !length_app, !length_piece in *. cbn in Hcap.
    repeat case_match; unfold Region.t in *; lia. }
  eexists _, _. split; [reflexivity|]. cbn [fst snd].
  destruct (first_fit_least _ _ _ _ _ _ (inv_wf Hi) (proj1 Hs) Hpos Hf Hfirst) as [Hfree Hleast].
  destruct (round_up_spec slot.1 align Hpos) as [[Hge _] _]. unfold fits in Hf.
  destruct (carve_spec (-1) l1 slot l2 (round_up slot.1 align) size) as (_ & Hb & Hc);
    [apply (inv_wf Hi)|lia..|].
  split_and!; try done.
  eexists. split; [exact Hi'|]. split; [done|]. intros x. rewrite Hc. unfold in_ival, iend. done.
Qed.

(** Freeing the region just allocated merges the fragments back. *)
Lemma alloc_free_restore ra l size align r ra1 :
  inv ra l -> good_request size align -> (length l + 1 < CAPACITY)%nat ->
  alloc ra size align = Ret (Ok r, ra1) ->
  exists ra2, free ra1 r = Ret (Ok tt, ra2) /\ inv ra2 l.
Proof.
  intros Hi Hq Hcap Ha. pose proof Hq as (Hs & Hsm & Hp & _ & Hm).
  pose proof (power_of_two_pos _ Hp) as Hpos.
  destruct (first_fit_split size align l) as [Hn|(l1 & slot & l2 & -> & Hf & Hfirst)].
  { by rewrite (alloc_none ra l) in Ha. }
  assert (Hlen : (length (l1 ++ carve slot (round_up slot.1 align) size ++ l2) < CAPACITY)%nat).
  { unfold carve. rewrite !length_app, !length_piece in *. cbn in Hcap.
    repeat case_match; unfold Region.t in *; lia. }
  destruct (alloc_found ra l1 slot l2 size align) as (ra1' & Ha' & Hi'); try done.
  { rewrite !length_app in *. unfold Region.t in *. lia. }
  rewrite Ha in Ha'. injection Ha' as -> <-.
  destruct (round_up_spec slot.1 align Hpos) as [[Hge _] _]. unfold fits in Hf.
  destruct (inv_good _ _ slot Hi) as ((_ & _ & ?) & ? & ?); [set_solver|].
  destruct (add_region_ok _ _ (round_up slot.1 align, size) Hi') as (ra2 & k1 & k2 & Hk & Hadd & Hi2 & Hk1 & Hk2).
  - unfold good_range, page_range, iend. cbn. unfold iend in *.
    split_and!; try done; try lia. by apply round_up_page.
  - intros x Hx. destruct (carve_spec (-1) l1 slot l2 (round_up slot.1 align) size) as (_ & _ & ->);
      [apply (inv_wf Hi)|lia..|]. unfold in_ival, iend in Hx. cbn in Hx. tauto.
  - done.
  - exists ra2. split; [done|]. erewrite carve_merge_id in Hi2; [done| apply (inv_wf Hi) |..]; try done; lia.
Qed.

(** C26: [RegionAllocator::alloc] is a correct and complete first-fit
    allocation.  With a slot to spare and a well-formed request it never
    panics.  On success the region has the requested size and alignment, was
    entirely free, is the lowest such region, and exactly its addresses leave
    the free set; it fails with [OutOfVirtualMemory], changing nothing, only
    when no aligned free range of that size exists. *)
Theorem region_alloc_first_fit ra l size align :
  inv ra l -> good_request size align -> (length l < CAPACITY)%nat ->
  exists res ra', alloc ra size align = Ret (res, ra') /\
    match res with
    | Ok r => free_range l size align r.1 /\ r.2 = size /\
        (forall a, free_range l size align a -> r.1 <= a) /\
        exists l', inv ra' l' /\ bytes l' = bytes l - size /\
          (forall x, covers l' x <-> covers l x /\ ~ in_ival r x)
    | Err e => e = OutOfVirtualMemory /\ ra' = ra /\ forall a, ~ free_range l size align a
    end.
Proof. apply alloc_spec. Qed.

(** C27: with at most 62 of the 64 slots in use before a well-formed allocation,
    freeing what was allocated restores the free list exactly, slot by slot: the
    fragments left around the region are merged back.  (With 63 in use the
    fragments can fill the tracker, and the region cannot be freed.) *)
Theorem region_alloc_free_roundtrip ra l size align r ra1 :
  inv ra l -> good_request size align -> (length l + 1 < CAPACITY)%nat ->
  alloc ra size align = Ret (Ok r, ra1) ->
  exists ra2, free ra1 r = Ret (Ok tt, ra2) /\ inv ra2 l.
Proof. apply alloc_free_restore. Qed.

(** Freeing a disjoint region adds its addresses. *)
Lemma free_spec ra l r :
  inv ra l -> good_range r -> (forall x, in_ival r x -> ~ covers l x) -> (length l < CAPACITY)%nat ->
  exists ra' l', free ra r = Ret (Ok tt, ra') /\ inv ra' l' /\
    bytes l' = bytes l + r.2 /\ (forall x, covers l' x <-> covers l x \/ in_ival r x).
Proof.
  intros Hi Hg Hd Hcap. destruct (add_region_ok ra l r Hi Hg Hd Hcap)
    as (ra' & l1 & l2 & -> & Hadd & Hi' & H1 & H2).
  destruct Hg as (_ & ? & ?).
  destruct (merge_at_spec (-1) l1 r l2) as (_ & ? & ?); try done; [apply (inv_wf Hi)|lia|].
  exists ra', (merge_at l1 r l2). split_and!; try done.
Qed.

(** C28: [add_region] and [free] of a page-aligned region disjoint from the
    free space, with a slot to spare, succeed; the free addresses become the
    union and the list stays sorted, disjoint and fully coalesced. *)
Theorem region_free_correct ra l r :
  inv ra l -> good_range r -> (forall x, in_ival r x -> ~ covers l x) -> (length l < CAPACITY)%nat ->
  exists ra' l', free ra r = Ret (Ok tt, ra') /\ inv ra' l' /\
    bytes l' = bytes l + r.2 /\ (forall x, covers l' x <-> covers l x \/ in_ival r x).
Proof. apply free_spec. Qed.

(** When all 64 slots are in use, [free] rejects every region with
    [TrackerFull], also one that touches a free region and would be merged into
    its slot: the slot is claimed before merging, not after. *)
Theorem region_full_rejects_mergeable ra l r i :
  inv ra l -> length l = CAPACITY -> good_range r -> i ∈ l -> iend i = r.1 ->
  (forall x, in_ival r x -> ~ covers l x) ->
  free ra r = Ret (Err TrackerFull, ra) /\
  exists l1 l2, l = l1 ++ l2 /\ wf (merge_at l1 r l2) /\ (length (merge_at l1 r l2) <= CAPACITY)%nat.
Proof.
  intros Hi Hfull Hg Hin Htouch Hd. pose proof Hg as ((? & ? & _) & ? & ?).
  split; [by eapply add_region_full|].
  destruct (partition_point_split _ l r.1 (inv_wf Hi)) as (l1 & l2 & -> & _ & Hl1 & Hl2).
  exists l1, l2. split; [done|].
  destruct (merge_at_spec (-1) l1 r l2) as (Hw & _); try done; [apply (inv_wf Hi)|lia|].
  split; [done|]. rewrite <- Hfull, length_app.
  destruct (wf_above_lt _ _ i (inv_wf Hi) Hin) as (_ & Hipos & _).
  assert (Hi1 : i ∈ l1).
  { apply elem_of_app in Hin as [|Hin]; [done|]. specialize (Hl2 i Hin). unfold iend in *. lia. }
  unfold merge_at. destruct (merge_right r l2) as [i' l2'] eqn:E.
  assert (Hb : i'.1 = r.1 /\ (length l2' <= length l2)%nat).
  { destruct l2 as [|k l2]; cbn in E; [by injection E as <- <-|].
    destruct (iend r =? k.1); injection E as <- <-; cbn; unfold Region.t in *; lia. }
  destruct Hb as [Hb Hlen]. unfold merge_left.
  destruct l1 as [|j l1 _] using rev_ind; [by apply elem_of_nil in Hi1|].
  rewrite last_snoc, removelast_last.
  assert (i = j) as ->.
  { apply elem_of_app in Hi1 as [Hi1|Hi1%list_elem_of_singleton]; [exfalso|done].
    pose proof (inv_wf Hi) as Hwl. rewrite <- app_assoc in Hwl. cbn in Hwl.
    pose proof (wf_above_split_lt _ _ _ _ _ Hwl Hi1).
    assert (j.1 < r.1) by (apply Hl1; set_solver). lia. }
  rewrite (proj2 (Z.eqb_eq _ _)) by congruence. rewrite !length_app. cbn. unfold Region.t in *. lia.
Qed.

(** With all 64 slots in use, an [alloc] whose first fitting slot would
    leave a fragment on both sides panics ("slot available after removal")
    instead of returning an error. *)
Theorem region_alloc_full_panics ra l1 slot l2 size align :
  inv ra (l1 ++ slot :: l2) -> good_request size align ->
  length (l1 ++ slot :: l2) = CAPACITY -> (forall r, r ∈ l1 -> ~ fits size align r) ->
  slot.1 < round_up slot.1 align -> round_up slot.1 align + size < iend slot ->
  alloc ra size align = Panic "slot available after removal".
Proof.
  intros Hi Hq Hfull Hfirst Hh Ht. apply (alloc_full ra l1 slot l2); try done. unfold fits. lia.
Qed.

End properties.

(** ** Witnesses: a small allocator and one with every slot in use *)
Module RegionDemo.
Import RegionAllocator.

Fixpoint strided (b : Z) (n : nat) : list Region.t :=
  match n with
  | O => []
  | S n => (b, 0x3000) :: strided (b + 0x10000) n
  end.

Definition of_list (l : list Region.t) : t := mk (l ++ replicate (CAPACITY - length l) SENTINEL) (length l).
Definition one : list Region.t := [(0x1000, 0x8000)].
Definition full : list Region.t := strided 0x1000 64.

Lemma of_list_inv l :
  (length l <= CAPACITY)%nat -> wf l -> Forall page_range l -> inv (of_list l) l.
Proof.
  intros Hl Hw Hp. split; [|done|by apply Forall_forall].
  eexists. split_and!; [reflexivity|done|]. cbn [slots of_list].
  rewrite length_app, length_replicate. unfold Region.t, CAPACITY in *. lia.
Qed.

Lemma one_inv : inv (of_list one) one.
Proof.
  apply of_list_inv; [cbn; unfold CAPACITY; lia|cbn; lia|].
  repeat constructor.
Qed.

Lemma strided_wf lo b n : lo < b -> wf_above lo (strided b n).
Proof.
  revert lo b; induction n as [|n IH]; intros lo b Hb; [done|]. cbn. split_and!; [done|lia|].
  apply IH. unfold iend. cbn. lia.
Qed.

Lemma full_inv : inv (of_list full) full.
Proof.
  apply of_list_inv; [vm_compute; lia|by apply strided_wf|].
  repeat (apply Forall_cons; split; [by vm_compute|]). apply Forall_nil. done.
Qed.

Lemma demo_request : good_request 0x1000 0x2000.
Proof. unfold good_request, is_u64. split_and!; reflexivity || lia. Qed.

End RegionDemo.
Import RegionDemo.

Lemma region_alloc_first_fit_witness :
  exists res ra', RegionAllocator.alloc (of_list one) 0x1000 0x2000 = Ret (res, ra') /\ res = Ok (0x2000, 0x1000).
Proof.
  destruct (region_alloc_first_fit (of_list one) one 0x1000 0x2000 one_inv demo_request)
    as (res & ra' & E & _); [cbn; unfold CAPACITY; lia|].
  exists res, ra'. split; [exact E|]. vm_compute in E. by injection E as <-.
Defined.

Lemma region_alloc_free_roundtrip_witness :
  exists ra1, RegionAllocator.alloc (of_list one) 0x1000 0x2000 = Ret (Ok (0x2000, 0x1000), ra1) /\
    exists ra2, RegionAllocator.free ra1 (0x2000, 0x1000) = Ret (Ok tt, ra2) /\ inv ra2 one.
Proof.
  eexists. split; [vm_compute; reflexivity|].
  apply (region_alloc_free_roundtrip (of_list one) one 0x1000 0x2000 (0x2000, 0x1000) _ one_inv demo_request);
    [cbn; unfold CAPACITY; lia|vm_compute; reflexivity].
Defined.

Lemma region_free_correct_witness :
  exists ra' l', RegionAllocator.free (of_list one) (0x9000, 0x1000) = Ret (Ok tt, ra') /\ inv ra' l' /\
    bytes l' = 0x9000.
Proof.
  destruct (region_free_correct (of_list one) one (0x9000, 0x1000) one_inv)
    as (ra' & l' & E & Hi & Hb & _); [unfold good_range, page_range, iend; cbn; split_and!; done || lia| |cbn; unfold CAPACITY; lia|].
  - intros x. unfold in_ival, iend. cbn. unfold in_ival, iend. cbn. lia.
  - exists ra', l'. split_and!; done.
Defined.

Lemma region_full_rejects_mergeable_witness :
  RegionAllocator.free (of_list full) (0x4000, 0x1000) = Ret (Err TrackerFull, of_list full).
Proof.
  apply (region_full_rejects_mergeable (of_list full) full (0x4000, 0x1000) (0x1000, 0x3000) full_inv).
  - reflexivity.
  - unfold good_range, page_range, iend; cbn; split_and!; done || lia.
  - left.
  - reflexivity.
  - intros x Hx Hc. unfold full in Hc. cbn [strided covers] in Hc. unfold in_ival, iend in *.
    cbn [fst snd] in *. intuition lia.
Defined.

Lemma region_alloc_full_panics_witness :
  RegionAllocator.alloc (of_list full) 0x1000 0x2000 = Panic "slot available after removal".
Proof.
  apply (region_alloc_full_panics (of_list full) [] (0x1000, 0x3000) (strided 0x11000 63) 0x1000 0x2000 full_inv
    demo_request); [reflexivity|by intros r []%elem_of_nil|vm_compute; reflexivity|vm_compute; reflexivity].
Defined.
