(* ===== verification/Heap.v ===== *)
(** * The kernel heap (eira/src/mm/heap.rs)

    The free list lives in the free memory itself: the header of a block at
    address [b] is the word at [b] (its size) and the word at [b + 8] (the
    address of the next block, the null pointer for [None]).  The Rust variable
    [prev_next] points either to the allocator's [head] field or to the [next]
    field of a block; it is the type [slot] here.

    The two list walks recurse on fuel.  A walk that does not read the same
    header twice reads a null [next] field after at most one block per word of
    memory, so a walk that outlives [fuel m] goes round a cycle for ever: it is
    [Hang].  The theorems show that a reachable heap never gets there.

    The proofs identify the linked list with an interval list of
    [Intervals.v]: allocation is a first-fit [carve], deallocation [merge_at]. *)

From S2P Require Import Prelude Addr Memory Intervals.

Definition BLOCK_ALIGN : Z := 16.
Definition MIN_BLOCK_SIZE : Z := 16.
#[export] Hint Unfold BLOCK_ALIGN MIN_BLOCK_SIZE : kconst.

(** [Option<NonNull<FreeBlock>>] is one word, null for [None]. *)
Definition ptr_of (w : Z) : option Z := if w =? 0 then None else Some w.
Definition word_of (p : option Z) : Z := default 0 p.

Module FreeBlock.

Definition size (m : mem) (b : Z) : Z := read64 m b.
Definition next (m : mem) (b : Z) : option Z := ptr_of (read64 m (b + 8)).
Definition set_size (m : mem) (b s : Z) : mem := write64 m b s.
Definition set_next (m : mem) (b : Z) (p : option Z) : mem := write64 m (b + 8) (word_of p).

(** [ptr.write(FreeBlock { size, next })] *)
Definition write (m : mem) (b s : Z) (p : option Z) : mem := set_next (set_size m b s) b p.

Definition addr (b : Z) : Z := b.
Definition end_ (b s : Z) : outcome Z := add_ (addr b) s.

End FreeBlock.

Module HeapStats.

Record t := mk { total_bytes : Z; free_bytes : Z; alloc_count : Z; dealloc_count : Z }.

Definition used_bytes (self : t) : outcome Z := sub_ (total_bytes self) (free_bytes self).

Definition is_balanced (self : t) : bool :=
  (alloc_count self =? dealloc_count self) && (free_bytes self =? total_bytes self).

End HeapStats.

Definition align_up (addr align : Z) : outcome Z :=
  let! s := add_ addr align in
  let! s := sub_ s 1 in
  Ret (Z.land s (not64 (align - 1))).

(** [usize::next_multiple_of] *)
Definition next_multiple_of (x rhs : Z) : outcome Z :=
  if x mod rhs =? 0 then Ret x else add_ x (rhs - x mod rhs).

Module HeapAllocator.

Record t := mk { head : option Z; stats : HeapStats.t }.

Definition new : t := mk None (HeapStats.mk 0 0 0 0).

(** Where [prev_next] points. *)
Inductive slot := HeadSlot | NextSlot (b : Z).

Definition read_slot (m : mem) (self : t) (s : slot) : option Z :=
  match s with
  | HeadSlot => head self
  | NextSlot b => FreeBlock.next m b
  end.

Definition write_slot (m : mem) (self : t) (s : slot) (p : option Z) : mem * t :=
  match s with
  | HeadSlot => (m, mk p (stats self))
  | NextSlot b => (FreeBlock.set_next m b p, self)
  end.

Definition fuel (m : mem) : nat := size m + 2.

(** The search loop of [insert_and_coalesce]: the slot to link the block
    into, and the block that holds it. *)
Fixpoint find_position (n : nat) (m : mem) (self : t) (block_addr : Z)
    (prev_next : slot) (prev_ptr : option Z) : outcome (slot * option Z) :=
  match n with
  | O => Hang
  | S n =>
      match read_slot m self prev_next with
      | Some next_block =>
          if FreeBlock.addr next_block <? block_addr
          then find_position n m self block_addr (NextSlot next_block) (Some next_block)
          else Ret (prev_next, prev_ptr)
      | None => Ret (prev_next, prev_ptr)
      end
  end.

Definition insert_and_coalesce (m : mem) (self : t) (block size : Z) : outcome (mem * t) :=
  let block_addr := FreeBlock.addr block in
  let! '(prev_next, prev_ptr) := find_position (fuel m) m self block_addr HeadSlot None in
  let next_block := read_slot m self prev_next in
  let m := FreeBlock.write m block size next_block in
  let (m, self) := write_slot m self prev_next (Some block) in
  let! m :=
    match next_block with
    | None => Ret m
    | Some right_ =>
        let! block_end := FreeBlock.end_ block size in
        if block_end =? FreeBlock.addr right_ then
          let right_size := FreeBlock.size m right_ in
          let right_next := FreeBlock.next m right_ in
          let! s := add_ size right_size in
          Ret (FreeBlock.set_next (FreeBlock.set_size m block s) block right_next)
        else Ret m
    end in
  let! m :=
    match prev_ptr with
    | None => Ret m
    | Some left_ =>
        let left_size := FreeBlock.size m left_ in
        let! left_end := FreeBlock.end_ left_ left_size in
        if left_end =? block_addr then
          let merged_next := FreeBlock.next m block in
          let merged_size := FreeBlock.size m block in
          let! s := add_ left_size merged_size in
          Ret (FreeBlock.set_next (FreeBlock.set_size m left_ s) left_ merged_next)
        else Ret m
    end in
  Ret (m, self).

Definition add_memory (m : mem) (self : t) (ptr size : Z) : outcome (mem * t) :=
  let! _ := assert_ (negb (ptr =? 0)) "add_memory: ptr must not be null" in
  let! _ := assert_ (ptr mod BLOCK_ALIGN =? 0) "add_memory: ptr is not aligned to BLOCK_ALIGN" in
  let! _ := assert_ (MIN_BLOCK_SIZE <=? size) "add_memory: size is less than MIN_BLOCK_SIZE" in
  let size := Z.land size (not64 (BLOCK_ALIGN - 1)) in
  let m := FreeBlock.write m ptr size None in
  let st := stats self in
  let! tb := add_ (HeapStats.total_bytes st) size in
  let! fb := add_ (HeapStats.free_bytes st) size in
  insert_and_coalesce m
    (mk (head self) (HeapStats.mk tb fb (HeapStats.alloc_count st) (HeapStats.dealloc_count st))) ptr size.

Definition free_bytes (self : t) : Z := HeapStats.free_bytes (stats self).
Definition total_bytes (self : t) : Z := HeapStats.total_bytes (stats self).
Definition is_empty (self : t) : bool := match head self with None => true | Some _ => false end.

(** What [alloc] does with the block it chose. *)
Definition take_block (m : mem) (self : t) (prev_next : slot) (block block_size alloc_start padding size : Z)
  : outcome (option Z * mem * t) :=
  let block_next := FreeBlock.next m block in
  let '(m, self, prev_next) :=
    if 0 <? padding then
      (FreeBlock.set_next (FreeBlock.set_size m block padding) block block_next, self, NextSlot block)
    else (write_slot m self prev_next block_next, prev_next) in
  let! r := sub_ block_size padding in
  let! remainder := sub_ r size in
  let! '(m, self) :=
    if MIN_BLOCK_SIZE <=? remainder then
      let! remainder_addr := add_ alloc_start size in
      let m := FreeBlock.write m remainder_addr remainder block_next in
      Ret (write_slot m self prev_next (Some remainder_addr))
    else Ret (m, self) in
  let freed_to_remainder := if MIN_BLOCK_SIZE <=? remainder then remainder else 0 in
  let! c := sub_ block_size padding in
  let! consumed := sub_ c freed_to_remainder in
  let st := stats self in
  let! fb := sub_ (HeapStats.free_bytes st) consumed in
  let! ac := add_ (HeapStats.alloc_count st) 1 in
  Ret (Some alloc_start, m,
       mk (head self) (HeapStats.mk (HeapStats.total_bytes st) fb ac (HeapStats.dealloc_count st))).

(** The search loop of [alloc]; [size] and [align] are already rounded. *)
Fixpoint alloc_loop (n : nat) (m : mem) (self : t) (size align : Z) (prev_next : slot)
  : outcome (option Z * mem * t) :=
  match n with
  | O => Hang
  | S n =>
      match read_slot m self prev_next with
      | None => Ret (None, m, self)
      | Some block =>
          let block_addr := FreeBlock.addr block in
          let block_size := FreeBlock.size m block in
          let! alloc_start := align_up block_addr align in
          let! padding := sub_ alloc_start block_addr in
          if (0 <? padding) && (padding <? MIN_BLOCK_SIZE)
          then alloc_loop n m self size align (NextSlot block)
          else
            match checked_add padding size with
            | None => alloc_loop n m self size align (NextSlot block)
            | Some total_needed =>
                if block_size <? total_needed
                then alloc_loop n m self size align (NextSlot block)
                else take_block m self prev_next block block_size alloc_start padding size
            end
      end
  end.

(** [size.max(MIN_BLOCK_SIZE).next_multiple_of(BLOCK_ALIGN)] *)
Definition rounded_size (size : Z) : outcome Z := next_multiple_of (Z.max size MIN_BLOCK_SIZE) BLOCK_ALIGN.

Definition alloc (m : mem) (self : t) (size align : Z) : outcome (option Z * mem * t) :=
  let! _ := assert_ (0 <? size) "alloc: size must be > 0" in
  let! _ := assert_ (is_power_of_two align) "alloc: align must be a power of two" in
  let align := Z.max align BLOCK_ALIGN in
  let! size := rounded_size size in
  alloc_loop (fuel m) m self size align HeadSlot.

Definition dealloc (m : mem) (self : t) (ptr size align : Z) : outcome (mem * t) :=
  let! block_size := rounded_size size in
  let st := stats self in
  let! fb := add_ (HeapStats.free_bytes st) block_size in
  let! dc := add_ (HeapStats.dealloc_count st) 1 in
  insert_and_coalesce m
    (mk (head self) (HeapStats.mk (HeapStats.total_bytes st) fb (HeapStats.alloc_count st) dc)) ptr block_size.

Fixpoint list_len (n : nat) (m : mem) (current : option Z) (count : Z) : outcome Z :=
  match n with
  | O => Hang
  | S n =>
      match current with
      | None => Ret count
      | Some block => let! count := add_ count 1 in list_len n m (FreeBlock.next m block) count
      end
  end.

Definition free_list_len (m : mem) (self : t) : outcome Z := list_len (fuel m) m (head self) 0.

End HeapAllocator.

(** The allocator behind its spin lock; [true] while a guard is alive. *)
Module LockedHeap.

Definition t : Type := bool * HeapAllocator.t.

Definition new : t := (false, HeapAllocator.new).

Definition lock (self : t) : outcome HeapAllocator.t := if self.1 then Hang else Ret self.2.

(** [GlobalAlloc::alloc]: null on failure. *)
Definition alloc (m : mem) (self : t) (size align : Z) : outcome (Z * mem * t) :=
  let! heap := lock self in
  let! '(p, m, heap) := HeapAllocator.alloc m heap size align in
  Ret (match p with Some ptr => ptr | None => 0 end, m, (false, heap)).

(** [GlobalAlloc::dealloc] *)
Definition dealloc (m : mem) (self : t) (ptr size align : Z) : outcome (mem * t) :=
  match ptr_of ptr with
  | None => Ret (m, self)
  | Some p =>
      let! heap := lock self in
      let! '(m, heap) := HeapAllocator.dealloc m heap p size align in
      Ret (m, (false, heap))
  end.

End LockedHeap.

(** ** The linked list implements an interval list *)
Module HeapInv.
Import HeapAllocator.

(** The first block of [l], or the pointer [q] that follows it. *)
Definition first (l : list ival) (q : option Z) : option Z :=
  match l with [] => q | i :: _ => Some i.1 end.

(** The headers of the blocks [l] are in memory; the last one points to [q]. *)
Fixpoint blocks (m : mem) (l : list ival) (q : option Z) : Prop :=
  match l with
  | [] => True
  | i :: l => read64 m i.1 = i.2 /\ FreeBlock.next m i.1 = first l q /\ blocks m l q
  end.

Definition chain (m : mem) (h : option Z) (l : list ival) : Prop := h = first l None /\ blocks m l None.

(** Ordered blocks of at least a header each; they may touch. *)
Fixpoint ordered (lo : Z) (l : list ival) : Prop :=
  match l with
  | [] => True
  | i :: l => lo <= i.1 /\ 16 <= i.2 /\ ordered (iend i) l
  end.

Definition block_ok (i : ival) : Prop := i.1 mod 16 = 0 /\ i.2 mod 16 = 0 /\ iend i < W64.

Record inv (m : mem) (h : t) (l : list ival) : Prop := {
  inv_chain : chain m (head h) l;
  inv_wf : wf_above 0 l;
  inv_ok : forall i, i ∈ l -> block_ok i;
  inv_bytes : HeapStats.free_bytes (stats h) = bytes l;
}.
Arguments inv_chain {m h l} _.
Arguments inv_wf {m h l} _.
Arguments inv_ok {m h l} _.
Arguments inv_bytes {m h l} _.

(** The slot that holds the pointer to what follows [l1]. *)
Definition slot_after (l1 : list ival) : slot :=
  match last l1 with None => HeadSlot | Some i => NextSlot i.1 end.

End HeapInv.
Import HeapInv.

Section lists.
Import HeapAllocator.
Implicit Types (m : mem) (l : list ival) (q : option Z).

Lemma first_app l1 l2 q : first (l1 ++ l2) q = first l1 (first l2 q).
Proof. by destruct l1. Qed.

Lemma blocks_app m l1 l2 q : blocks m (l1 ++ l2) q <-> blocks m l1 (first l2 q) /\ blocks m l2 q.
Proof. induction l1 as [|i l1 IH]; cbn; [tauto|]. rewrite IH, first_app. tauto. Qed.

Lemma ordered_app lo l1 l2 : ordered lo (l1 ++ l2) <-> ordered lo l1 /\ ordered (end_above lo l1) l2.
Proof.
  revert lo; induction l1 as [|i l1 IH]; intros lo; cbn [app ordered]; [tauto|].
  rewrite IH, end_above_cons. tauto.
Qed.

Lemma ordered_weaken lo lo' l : lo' <= lo -> ordered lo l -> ordered lo' l.
Proof. destruct l; cbn; [done|]. intros ? (? & ? & ?). split_and!; try done. lia. Qed.

Lemma ordered_end lo l : ordered lo l -> lo <= end_above lo l.
Proof.
  revert lo; induction l as [|i l IH]; intros lo; [done|]. rewrite end_above_cons. cbn.
  intros (? & ? & H%IH). unfold iend in *. lia.
Qed.

Lemma ordered_elem lo l i : ordered lo l -> i ∈ l -> lo <= i.1 /\ 16 <= i.2 /\ iend i <= end_above lo l.
Proof.
  revert lo; induction l as [|j l IH]; intros lo; [by intros _ []%elem_of_nil|].
  rewrite end_above_cons. cbn. intros (? & ? & Ho) [->|Hi]%elem_of_cons.
  - split_and!; try done. by apply ordered_end.
  - destruct (IH _ Ho Hi) as (? & ? & ?). unfold iend in *. lia.
Qed.

Lemma wf_ordered lo l : wf_above lo l -> (forall i, i ∈ l -> block_ok i) -> ordered lo l.
Proof.
  revert lo; induction l as [|i l IH]; intros lo; cbn; [done|]. intros (? & ? & ?) Hok.
  destruct (Hok i) as (_ & Hm & _); [by left|]. split_and!; [lia|zlia|].
  apply IH; [done|]. intros; apply Hok. by right.
Qed.

(** Writes elsewhere leave the headers alone. *)
Lemma blocks_frame m m' l q :
  blocks m l q ->
  (forall i, i ∈ l -> read64 m' i.1 = read64 m i.1 /\ read64 m' (i.1 + 8) = read64 m (i.1 + 8)) ->
  blocks m' l q.
Proof.
  induction l as [|i l IH]; cbn; [done|]. intros (Hs & Hn & Hb) Hf.
  destruct (Hf i) as [H1 H2]; [by left|]. unfold FreeBlock.next in *.
  rewrite H1, H2. split_and!; try done. apply IH; [done|]. intros; apply Hf. by right.
Qed.

Lemma blocks_same_outside lo (P : Z -> Prop) m m' l q :
  blocks m l q -> ordered lo l -> same_outside P m m' -> (forall x, covers l x -> ~ P x) ->
  blocks m' l q.
Proof.
  intros Hb Ho Hs HP. eapply blocks_frame; [done|]. intros i Hi.
  destruct (ordered_elem _ _ _ Ho Hi) as (_ & ? & _).
  split; apply Hs, HP, covers_elem; exists i; (split; [done|]); unfold in_ival, iend; lia.
Qed.

(** Blocks on either side of [b]. *)
Lemma ordered_left lo l1 i l2 j :
  ordered lo (l1 ++ i :: l2) -> j ∈ l1 -> j.1 + 16 <= i.1.
Proof.
  intros (Ho & Hi & _)%ordered_app Hj. destruct (ordered_elem _ _ _ Ho Hj) as (_ & ? & ?).
  unfold iend in *. lia.
Qed.

Lemma ordered_right lo l1 i l2 j :
  ordered lo (l1 ++ i :: l2) -> j ∈ l2 -> i.1 + 16 <= j.1.
Proof.
  intros (_ & _ & ? & Ho)%ordered_app Hj. destruct (ordered_elem _ _ _ Ho Hj) as (? & _).
  unfold iend in *. lia.
Qed.

Lemma word_ptr p : (forall b, p = Some b -> b <> 0) -> ptr_of (word_of p) = p.
Proof.
  destruct p as [b|]; cbn; [|done]. intros Hb. unfold ptr_of.
  rewrite (proj2 (Z.eqb_neq _ _)); [done|]. by apply Hb.
Qed.

Lemma first_nonnull lo l : 0 < lo -> ordered lo l -> forall b, first l None = Some b -> b <> 0.
Proof. intros Hlo Ho b. destruct l as [|i l]; cbn in *; [done|]. intros [= <-]. lia. Qed.

Lemma next_set_next m b p :
  (forall x, p = Some x -> x <> 0) -> FreeBlock.next (FreeBlock.set_next m b p) b = p.
Proof. intros. unfold FreeBlock.next, FreeBlock.set_next. rewrite read_write_eq. by apply word_ptr. Qed.

Lemma blocks_set_other m l q b (f : mem) :
  blocks m l q -> (forall w, w <> b -> w <> b + 8 -> read64 f w = read64 m w) ->
  (forall j, j ∈ l -> j.1 + 16 <= b \/ b + 16 <= j.1) -> blocks f l q.
Proof. intros Hb Hw Hj. eapply blocks_frame; [done|]. intros i Hi. destruct (Hj i Hi); split; apply Hw; lia. Qed.

Lemma header_other m b s p w :
  w <> b -> w <> b + 8 ->
  read64 (FreeBlock.set_next (FreeBlock.set_size m b s) b p) w = read64 m w.
Proof. intros. unfold FreeBlock.set_next, FreeBlock.set_size. rewrite !read_write_ne; done || lia. Qed.

(** Rewriting the header of a block: its size becomes [s'] and the blocks
    [l2'] follow it. *)
Lemma set_header_ok m h l1 b s s' l2 l2' :
  chain m h (l1 ++ (b, s) :: l2' ++ l2) -> ordered 1 (l1 ++ (b, s) :: l2' ++ l2) ->
  chain (FreeBlock.set_next (FreeBlock.set_size m b s') b (first l2 None)) h (l1 ++ (b, s') :: l2).
Proof.
  intros [-> Hb] Ho. split; [by rewrite !first_app|].
  apply blocks_app in Hb as (Hb1 & _ & _ & Hb2). apply blocks_app in Hb2 as [_ Hb2].
  apply blocks_app. cbn [first] in *. cbn [blocks]. split_and!.
  - eapply blocks_set_other; [exact Hb1|by intros; apply header_other|].
    intros j Hj. left. by eapply (ordered_left _ _ _ _ j Ho).
  - unfold FreeBlock.set_next, FreeBlock.set_size. cbn [fst snd].
    rewrite read_write_ne, read_write_eq by lia. done.
  - cbn [fst]. apply next_set_next. eapply (first_nonnull 1); [lia|].
    rewrite ordered_app in Ho. destruct Ho as (Ho1 & ? & ? & Ho%ordered_app).
    destruct Ho as [Ho' Ho]. eapply ordered_weaken; [|exact Ho].
    pose proof (ordered_end _ _ Ho1). pose proof (ordered_end _ _ Ho'). unfold iend in *. cbn in *. lia.
  - eapply blocks_set_other; [exact Hb2|by intros; apply header_other|].
    intros j Hj. right. eapply (ordered_right _ _ _ _ j Ho). set_solver.
Qed.

(** The slot after [l1] holds the pointer to the rest of the list. *)
Lemma read_slot_ok m h l1 l2 :
  chain m (head h) (l1 ++ l2) -> read_slot m h (slot_after l1) = first l2 None.
Proof.
  intros [Hh Hb]. rewrite first_app in Hh. apply blocks_app in Hb as [Hb _].
  unfold slot_after. destruct l1 as [|i l1 _] using rev_ind; [done|].
  rewrite last_snoc. apply blocks_app in Hb as (_ & _ & Hn & _). done.
Qed.

(** Writing to the slot redirects it. *)
Lemma write_slot_ok m h l1 q p m' h' lo :
  head h = first l1 q -> blocks m l1 q -> ordered lo l1 -> (forall x, p = Some x -> x <> 0) ->
  write_slot m h (slot_after l1) p = (m', h') ->
  head h' = first l1 p /\ blocks m' l1 p /\ stats h' = stats h /\
  same_outside (covers l1) m m'.
Proof.
  intros Hh Hb Ho Hp Hw. unfold slot_after in Hw.
  destruct l1 as [|i l1 _] using rev_ind; cbn in Hw.
  { injection Hw as <- <-. done. }
  rewrite last_snoc in Hw. injection Hw as <- <-. rewrite first_app in *.
  apply blocks_app in Hb as (Hb & Hs & Hn & _).
  assert (Ho' := Ho). apply ordered_app in Ho' as (_ & _ & Hi & _). split_and!; try done.
  - apply blocks_app. cbn [blocks]. split_and!; [|..|done].
    + eapply (blocks_set_other _ _ _ i.1); [exact Hb|..].
      * intros w _ ?. unfold FreeBlock.set_next. apply read_write_ne. lia.
      * intros j Hj. left. by eapply (ordered_left _ _ _ _ j Ho).
    + unfold FreeBlock.set_next. rewrite read_write_ne by lia. done.
    + by apply next_set_next.
  - apply same_outside_write, covers_elem. exists i. split; [set_solver|]. unfold in_ival, iend. lia.
Qed.

(** Link a new block [(b, s)] into the slot after [l1]. *)
Lemma link_block_ok m h l1 b s l2 m' h' :
  chain m (head h) (l1 ++ l2) -> ordered 1 (l1 ++ (b, s) :: l2) ->
  write_slot (FreeBlock.write m b s (first l2 None)) h (slot_after l1) (Some b) = (m', h') ->
  chain m' (head h') (l1 ++ (b, s) :: l2) /\ stats h' = stats h /\
  same_outside (covers (l1 ++ [(b, s)])) m m'.
Proof.
  intros [Hh Hb] Ho Hw. rewrite first_app in Hh. apply blocks_app in Hb as [Hb1 Hb2].
  assert (Ho' := Ho). apply ordered_app in Ho' as (Ho1 & Hlo & Hs & Ho2). cbn in Hlo, Hs.
  pose proof (ordered_end _ _ Ho1).
  assert (Hoth : forall w, w <> b -> w <> b + 8 ->
    read64 (FreeBlock.write m b s (first l2 None)) w = read64 m w) by (intros; by apply header_other).
  destruct (write_slot_ok (FreeBlock.write m b s (first l2 None)) h l1 (first l2 None) (Some b) m' h' 1)
    as (Hh' & Hb1' & Hst & Hsame); try done.
  { eapply blocks_set_other; [exact Hb1|exact Hoth|]. intros j Hj. left. by eapply (ordered_left _ _ _ _ j Ho). }
  { intros x [= <-]. lia. }
  assert (Hafter : forall w, b <= w -> read64 m' w = read64 (FreeBlock.write m b s (first l2 None)) w).
  { intros w Hw'. apply Hsame. intros (j & Hj & Hx)%covers_elem.
    destruct (ordered_elem _ _ _ Ho1 Hj) as (_ & _ & ?). unfold in_ival in Hx. lia. }
  split_and!; [split|done|].
  - by rewrite first_app.
  - apply blocks_app. cbn [blocks first fst snd]. split_and!; [done|..].
    + rewrite Hafter by lia. unfold FreeBlock.write, FreeBlock.set_next, FreeBlock.set_size.
      rewrite read_write_ne, read_write_eq by lia. done.
    + unfold FreeBlock.next. rewrite Hafter by lia. apply next_set_next.
      eapply (first_nonnull (iend (b, s))); [unfold iend; cbn; lia|done].
    + eapply blocks_frame; [exact Hb2|]. intros j Hj.
      pose proof (ordered_right _ _ _ _ j Ho Hj) as Hr. cbn in Hr.
      rewrite !Hafter by lia. split; apply Hoth; lia.
  - intros w Hn. rewrite Hsame; [apply Hoth|].
    + intros ->. apply Hn, covers_app. right. left. unfold in_ival, iend. cbn. lia.
    + intros ->. apply Hn, covers_app. right. left. unfold in_ival, iend. cbn. lia.
    + intros ?. apply Hn, covers_app. by left.
Qed.

(** Unlink the block after [l1]. *)
Lemma unlink_block_ok m h l1 i l2 m' h' :
  chain m (head h) (l1 ++ i :: l2) -> ordered 1 (l1 ++ i :: l2) ->
  write_slot m h (slot_after l1) (first l2 None) = (m', h') ->
  chain m' (head h') (l1 ++ l2) /\ stats h' = stats h /\ same_outside (covers l1) m m'.
Proof.
  intros [Hh Hb] Ho Hw. rewrite first_app in Hh. apply blocks_app in Hb as (Hb1 & _ & _ & Hb2).
  assert (Ho' := Ho). apply ordered_app in Ho' as (Ho1 & Hlo & Hs & Ho2).
  pose proof (ordered_end _ _ Ho1).
  destruct (write_slot_ok m h l1 (Some i.1) (first l2 None) m' h' 1) as (Hh' & Hb1' & Hst & Hsame); try done.
  { eapply (first_nonnull (iend i)); [unfold iend; lia|done]. }
  split_and!; [split|done|done].
  - by rewrite first_app.
  - apply blocks_app. split; [done|]. eapply (blocks_same_outside (iend i)); [exact Hb2|done|exact Hsame|].
    intros x (j & Hj & Hx)%covers_elem (k & Hk & Hx')%covers_elem.
    destruct (ordered_elem _ _ _ Ho1 Hk) as (_ & _ & ?). destruct (ordered_elem _ _ _ Ho2 Hj) as (? & _).
    unfold in_ival, iend in *. lia.
Qed.

(** There is enough fuel to walk the list. *)
Lemma ordered_NoDup lo l : ordered lo l -> NoDup l.*1.
Proof.
  revert lo; induction l as [|i l IH]; intros lo; cbn; [constructor|]. intros (? & ? & Ho).
  constructor; [|by eapply IH]. intros (j & Hj1 & Hj)%list_elem_of_fmap.
  destruct (ordered_elem _ _ _ Ho Hj) as (? & _). unfold iend in *. lia.
Qed.

Lemma chain_fuel m h l : chain m h l -> ordered 1 l -> (length l < fuel m)%nat.
Proof.
  intros [_ Hb] Ho. unfold fuel.
  assert (Hin : forall i, i ∈ l -> is_Some (m !! i.1)).
  { intros i Hi. apply list_elem_of_split in Hi as (l1 & l2 & ->).
    apply blocks_app in Hb as (_ & Hs & _). destruct (ordered_elem 1 _ i Ho) as (_ & ? & _); [set_solver|].
    unfold read64 in Hs. destruct (m !! i.1); [by eexists|cbn in Hs; lia]. }
  assert (list_to_set (C := gset Z) l.*1 ⊆ dom m) as Hsub%subseteq_size.
  { intros b (i & -> & Hi)%elem_of_list_to_set%list_elem_of_fmap. by apply elem_of_dom, Hin. }
  rewrite size_list_to_set in Hsub by (by eapply ordered_NoDup).
  rewrite length_fmap, size_dom in Hsub. lia.
Qed.

End lists.

(** ** Allocation *)
Section allocation.
Import HeapAllocator.
Implicit Types (m : mem) (h : t) (l : list ival) (i : ival).

(** The block size and alignment that serve a request. *)
Definition served_size (size : Z) : Z := round_up (Z.max size MIN_BLOCK_SIZE) BLOCK_ALIGN.
Definition served_align (align : Z) : Z := Z.max align BLOCK_ALIGN.

(** [Layout] bounds the size by [isize::MAX]. *)
Definition layout_ok (size align : Z) : Prop :=
  0 < size < 2 ^ 63 /\ is_power_of_two align = true /\ is_u64 align.

Lemma served_size_spec size : 0 < size -> 16 <= served_size size /\ served_size size mod 16 = 0 /\
  size <= served_size size < Z.max size 16 + 16.
Proof.
  intros. unfold served_size, MIN_BLOCK_SIZE, BLOCK_ALIGN.
  destruct (round_up_spec (Z.max size 16) 16) as [? ?]; [lia|]. split_and!; lia.
Qed.

Lemma rounded_size_ok size : 0 < size < 2 ^ 63 -> rounded_size size = Ret (served_size size).
Proof.
  intros. unfold rounded_size, next_multiple_of, served_size.
  set (x := Z.max size MIN_BLOCK_SIZE). assert (16 <= x < 2 ^ 63) by klia.
  destruct (Z.eqb_spec (x mod BLOCK_ALIGN) 0) as [E|E].
  - by rewrite round_up_id by (unfold BLOCK_ALIGN; lia || done).
  - rewrite add_Ret by klia. f_equal. unfold round_up. klia.
Qed.

Lemma served_align_spec align :
  is_power_of_two align = true -> is_u64 align ->
  is_power_of_two (served_align align) = true /\ is_u64 (served_align align) /\
  16 <= served_align align /\ served_align align mod 16 = 0.
Proof.
  intros Hp Hu. unfold served_align, BLOCK_ALIGN.
  destruct (Z.max_spec align 16) as [[? ->]|[Hge ->]]; [by split_and!|].
  split_and!; try done. destruct (align_mask_cases _ Hp Hu) as (k & Hk & -> & _).
  assert (4 <= k). { apply (Z.pow_le_mono_r_iff 2); lia. }
  replace (2 ^ k) with (2 ^ (k - 4) * 16); [by apply Z_mod_mult|].
  change 16 with (2 ^ 4). rewrite <- Z.pow_add_r by lia. f_equal. lia.
Qed.

Lemma align_up_ok b al :
  is_power_of_two al = true -> is_u64 al -> 0 <= b -> b + al < W64 -> align_up b al = Ret (round_up b al).
Proof.
  intros Hp Hu Hb Hlt. pose proof (power_of_two_pos _ Hp). unfold align_up.
  rewrite add_Ret by done. cbn [obind]. rewrite sub_Ret by lia. cbn [obind].
  rewrite land_align_not_mask by (done || (unfold is_u64; lia)). unfold round_up.
  by replace (b + al - 1) with (b + (al - 1)) by lia.
Qed.

Lemma round_up_mod16 b al : 16 <= al -> al mod 16 = 0 -> round_up b al mod 16 = 0.
Proof.
  intros H16 Hm. destruct (round_up_spec b al) as [_ H0]; [lia|].
  apply Z.mod_divide in Hm; [|lia]. apply Z.mod_divide in H0; [|lia].
  apply Z.mod_divide; [lia|]. by etrans.
Qed.

Context (size al : Z) (Hsize : 16 <= size < W64) (Hsize16 : size mod 16 = 0).
Context (Hal : is_power_of_two al = true) (Halu : is_u64 al) (Hal16 : 16 <= al) (Halm : al mod 16 = 0).

(** What the search loop does at one block. *)
Lemma alloc_loop_block n m h l1 i l2 :
  chain m (head h) (l1 ++ i :: l2) -> block_ok i -> 0 < i.1 -> 0 < i.2 -> i.1 + al < W64 ->
  alloc_loop (S n) m h size al (slot_after l1) =
    if decide (fits size al i)
    then take_block m h (slot_after l1) i.1 i.2 (round_up i.1 al) (round_up i.1 al - i.1) size
    else alloc_loop n m h size al (slot_after (l1 ++ [i])).
Proof.
  intros Hc (Hb & Hs & He) Hpos Hpos2 Hlt. cbn [alloc_loop].
  rewrite (read_slot_ok _ _ _ _ Hc). cbn [first]. unfold FreeBlock.addr.
  destruct Hc as [_ (_ & Hsz & _)%blocks_app].
  rewrite align_up_ok by (done || lia). cbn [obind].
  destruct (round_up_spec i.1 al) as [Hr _]; [lia|]. pose proof (round_up_mod16 i.1 al Hal16 Halm).
  rewrite sub_Ret by lia. cbn [obind].
  assert (Hpad : (0 <? round_up i.1 al - i.1) && (round_up i.1 al - i.1 <? MIN_BLOCK_SIZE) = false).
  { apply andb_false_iff. rewrite !Z.ltb_ge. klia. }
  rewrite Hpad. unfold FreeBlock.size. rewrite Hsz.
  assert (Hslot : slot_after (l1 ++ [i]) = NextSlot i.1) by (unfold slot_after; by rewrite last_snoc).
  rewrite Hslot. unfold fits, iend in *. case_decide as Hf.
  - rewrite (proj2 (checked_add_Some _ _ _)) by (split; [reflexivity|lia]).
    by rewrite (proj2 (Z.ltb_ge _ _)) by lia.
  - destruct (checked_add _ _) as [tn|] eqn:E; [|done]. apply checked_add_Some in E as [-> _].
    by rewrite (proj2 (Z.ltb_lt _ _)) by lia.
Qed.

Lemma alloc_loop_skip m h r : forall n l1 l2,
  chain m (head h) (l1 ++ r ++ l2) -> ordered 1 r ->
  (forall i, i ∈ r -> block_ok i /\ i.1 + al < W64 /\ ~ fits size al i) ->
  alloc_loop (length r + n) m h size al (slot_after l1) = alloc_loop n m h size al (slot_after (l1 ++ r)).
Proof.
  induction r as [|i r IH]; intros n l1 l2 Hc Ho Hr; [by rewrite app_nil_r|].
  destruct Ho as (? & ? & Ho).
  destruct (Hr i) as (Hok & Hlt & Hf); [by left|].
  cbn [length Nat.add]. rewrite (alloc_loop_block _ m h l1 i (r ++ l2)) by (done || lia).
  rewrite decide_False by done. rewrite (IH n (l1 ++ [i]) l2).
  - by rewrite <- app_assoc.
  - by rewrite <- app_assoc.
  - eapply ordered_weaken; [|exact Ho]. unfold iend. lia.
  - intros j Hj. apply Hr. by right.
Qed.

(** The first half of [take_block] leaves the padding in front as a block, or
    unlinks the block. *)
Lemma take_head_ok m h l1 i l2 p m1 h1 s1 :
  chain m (head h) (l1 ++ i :: l2) -> ordered 1 (l1 ++ i :: l2) -> 0 <= p ->
  (if 0 <? p then
     (FreeBlock.set_next (FreeBlock.set_size m i.1 p) i.1 (first l2 None), h, NextSlot i.1)
   else (write_slot m h (slot_after l1) (first l2 None), slot_after l1)) = (m1, h1, s1) ->
  chain m1 (head h1) ((l1 ++ piece i.1 p) ++ l2) /\ s1 = slot_after (l1 ++ piece i.1 p) /\
  stats h1 = stats h /\ same_outside (covers (l1 ++ i :: l2)) m m1.
Proof.
  intros Hc Ho Hp Heq. unfold piece. destruct (Z.ltb_spec 0 p).
  - injection Heq as <- <- <-. split_and!; try done.
    + rewrite <- app_assoc. destruct i as [b s]. by apply (set_header_ok m (head h) l1 b s p l2 []).
    + unfold slot_after. by rewrite last_snoc.
    + intros w Hw. apply header_other; intros ->; apply Hw, covers_app; right; left;
        apply ordered_app in Ho as (_ & _ & ? & _); unfold in_ival, iend; lia.
  - rewrite app_nil_r. destruct (write_slot m h (slot_after l1) (first l2 None)) as [m' h'] eqn:E.
    injection Heq as <- <- <-. destruct (unlink_block_ok _ _ _ _ _ _ _ Hc Ho E) as (? & ? & ?).
    split_and!; try done. eapply same_outside_weaken; [done|]. intros w. rewrite covers_app. tauto.
Qed.

(** The second half links the remainder behind. *)
Lemma take_tail_ok m h L l2 a r :
  chain m (head h) (L ++ l2) -> 0 <= r -> r mod 16 = 0 -> a < W64 ->
  (0 < r -> ordered 1 (L ++ (a, r) :: l2)) ->
  exists m2 h2,
    (if MIN_BLOCK_SIZE <=? r
     then Ret (write_slot (FreeBlock.write m a r (first l2 None)) h (slot_after L) (Some a))
     else Ret (m, h)) = Ret (m2, h2) /\
    chain m2 (head h2) (L ++ piece a r ++ l2) /\ stats h2 = stats h /\
    same_outside (covers (L ++ piece a r)) m m2.
Proof.
  intros Hc Hr Hm Ha Ho. unfold piece, MIN_BLOCK_SIZE.
  destruct (Z.leb_spec 16 r).
  - rewrite (proj2 (Z.ltb_lt _ _)) by lia.
    destruct (write_slot _ _ _ _) as [m2 h2] eqn:E.
    destruct (link_block_ok m h L a r l2 m2 h2) as (? & ? & ?); try done; [apply Ho; lia|].
    by exists m2, h2.
  - rewrite (proj2 (Z.ltb_ge _ _)) by zlia. exists m, h. by split_and!.
Qed.

Lemma carve_ordered l1 i l2 a :
  ordered 1 (l1 ++ i :: l2) -> i.1 <= a -> a + size <= iend i ->
  (a - i.1) mod 16 = 0 -> (iend i - (a + size)) mod 16 = 0 ->
  0 < iend i - (a + size) ->
  ordered 1 ((l1 ++ piece i.1 (a - i.1)) ++ (a + size, iend i - (a + size)) :: l2).
Proof.
  intros (Ho1 & ? & ? & Ho2)%ordered_app Ha He Hm1 Hm2 Hr.
  rewrite <- app_assoc. apply ordered_app. split; [done|]. unfold piece.
  destruct (Z.ltb_spec 0 (a - i.1)); cbn [app ordered fst snd iend].
  - split_and!; try done; try zlia; unfold iend in *; cbn; try zlia.
    eapply ordered_weaken; [|exact Ho2]. lia.
  - split_and!; try done; try zlia; unfold iend in *; cbn; try zlia.
    eapply ordered_weaken; [|exact Ho2]. lia.
Qed.

Lemma carve_block_ok i a :
  block_ok i -> 16 <= i.1 -> i.1 <= a -> a + size <= iend i -> a mod 16 = 0 ->
  forall j, j ∈ carve i a size -> block_ok j.
Proof.
  intros (? & ? & ?) ? ? ? ? j. unfold carve, piece, block_ok, iend in *.
  rewrite elem_of_app. intros [Hj|Hj]; case_match; try (by apply elem_of_nil in Hj);
    apply list_elem_of_singleton in Hj as ->; cbn; zlia.
Qed.

Lemma inv_ordered m h l : inv m h l -> ordered 1 l.
Proof.
  intros Hi. pose proof (inv_ok Hi) as Hok. pose proof (wf_ordered 0 l (inv_wf Hi) Hok) as Ho.
  destruct l as [|i l]; [done|]. destruct Ho as (_ & ? & ?). destruct (inv_wf Hi) as (? & _).
  cbn. split_and!; try done. lia.
Qed.

Lemma take_block_ok m h l1 i l2 (a := round_up i.1 al) :
  inv m h (l1 ++ i :: l2) -> fits size al i -> HeapStats.alloc_count (stats h) + 1 < W64 ->
  exists m' h', take_block m h (slot_after l1) i.1 i.2 a (a - i.1) size = Ret (Some a, m', h') /\
    inv m' h' (l1 ++ carve i a size ++ l2) /\ same_outside (covers (l1 ++ i :: l2)) m m' /\
    stats h' = HeapStats.mk (HeapStats.total_bytes (stats h)) (HeapStats.free_bytes (stats h) - size)
                 (HeapStats.alloc_count (stats h) + 1) (HeapStats.dealloc_count (stats h)).
Proof.
  intros Hi Hf Hac. pose proof (inv_ordered _ _ _ Hi) as Ho. unfold fits in Hf. fold a in Hf.
  destruct (round_up_spec i.1 al) as [[Hge _] _]; [lia|]. fold a in Hge.
  assert (Ha16 : a mod 16 = 0) by (by apply round_up_mod16).
  destruct (inv_ok Hi i) as (Hb16 & Hs16 & Hend); [set_solver|].
  destruct (wf_above_elem _ _ _ _ (inv_wf Hi)) as [Hpos Hpos2].
  destruct (carve_spec 0 l1 i l2 a size) as (Hw & Hby & Hcov); [apply (inv_wf Hi)|lia|done..|].
  assert (Hnext : FreeBlock.next m i.1 = first l2 None).
  { destruct (inv_chain Hi) as [_ (_ & _ & Hn & _)%blocks_app]. done. }
  unfold take_block. rewrite Hnext.
  destruct (if 0 <? a - i.1 then _ else _) as [[m1 h1] s1] eqn:E1.
  destruct (take_head_ok m h l1 i l2 (a - i.1) m1 h1 s1) as (Hc1 & -> & Hst1 & Hs1); try done;
    [apply (inv_chain Hi)|lia|].
  unfold iend in *. rewrite !sub_Ret by lia. cbn [obind]. rewrite sub_Ret by lia. cbn [obind].
  rewrite add_Ret by lia. cbn [obind].
  set (r := i.2 - (a - i.1) - size).
  assert (Hr : r = iend i - (a + size)) by (unfold r, iend; lia).
  assert (Hr' : r = i.2 - (a - i.1) - size) by done. clearbody r.
  destruct (take_tail_ok m1 h1 (l1 ++ piece i.1 (a - i.1)) l2 (a + size) r)
    as (m2 & h2 & -> & Hc2 & Hst2 & Hs2); [done|lia|rewrite Hr'; zlia|lia| |].
  { intros ?. rewrite Hr. apply carve_ordered; try done; unfold iend in *; zlia. }
  cbn [obind]. rewrite sub_Ret by (destruct (MIN_BLOCK_SIZE <=? r); lia). cbn [obind].
  assert (Hcons : i.2 - (a - i.1) - (if MIN_BLOCK_SIZE <=? r then r else 0) = size).
  { unfold MIN_BLOCK_SIZE. destruct (Z.leb_spec 16 r); [lia|]. assert (r = 0) by zlia. lia. }
  rewrite Hcons, Hst2, Hst1.
  assert (Hfb : size <= HeapStats.free_bytes (stats h)).
  { rewrite (inv_bytes Hi). pose proof (bytes_nonneg _ _ Hw). lia. }
  rewrite sub_Ret by done. cbn [obind]. rewrite add_Ret by done. cbn [obind].
  eexists _, _. split; [reflexivity|].
  assert (Hcarve : l1 ++ carve i a size ++ l2 = (l1 ++ piece i.1 (a - i.1)) ++ piece (a + size) r ++ l2).
  { unfold carve. by rewrite Hr, <- !app_assoc. }
  split_and!.
  - split; cbn; [by rewrite Hcarve|done| |by rewrite (inv_bytes Hi), Hby].
    intros j. rewrite !elem_of_app. intros [Hj|[Hj|Hj]]; [apply (inv_ok Hi); set_solver| |apply (inv_ok Hi); set_solver].
    revert j Hj. apply carve_block_ok; try done; unfold iend; zlia.
  - eapply same_outside_trans; [exact Hs1|exact Hs2|].
    intros w [?|Hw2]; [done|]. apply (Hcov w). rewrite Hcarve, app_assoc, covers_app. by left.
  - done.
Qed.

(** The whole search. *)
Lemma alloc_loop_ok m h l :
  inv m h l -> HeapStats.alloc_count (stats h) + 1 < W64 -> (forall i, i ∈ l -> i.1 + al < W64) ->
  (alloc_loop (fuel m) m h size al HeadSlot = Ret (None, m, h) /\ forall i, i ∈ l -> ~ fits size al i) \/
  exists l1 i l2 m' h', l = l1 ++ i :: l2 /\ fits size al i /\ (forall j, j ∈ l1 -> ~ fits size al j) /\
    alloc_loop (fuel m) m h size al HeadSlot = Ret (Some (round_up i.1 al), m', h') /\
    inv m' h' (l1 ++ carve i (round_up i.1 al) size ++ l2) /\ same_outside (covers l) m m' /\
    stats h' = HeapStats.mk (HeapStats.total_bytes (stats h)) (HeapStats.free_bytes (stats h) - size)
                 (HeapStats.alloc_count (stats h) + 1) (HeapStats.dealloc_count (stats h)).
Proof.
  intros Hi Hac Hlt. pose proof (inv_ordered _ _ _ Hi) as Ho.
  pose proof (chain_fuel _ _ _ (inv_chain Hi) Ho) as Hfuel.
  destruct (first_fit_split size al l) as [Hn|(l1 & i & l2 & -> & Hf & Hfirst)].
  - left. split; [|done]. replace (fuel m) with (length l + S (fuel m - length l - 1))%nat by lia.
    change HeadSlot with (slot_after []).
    rewrite (alloc_loop_skip m h l _ [] []); [|rewrite app_nil_r; apply (inv_chain Hi)|done|].
    + cbn [alloc_loop]. rewrite (read_slot_ok _ _ _ []); [done|]. rewrite app_nil_r. apply (inv_chain Hi).
    + intros j Hj. split_and!; [by apply (inv_ok Hi)|by apply Hlt|by apply Hn].
  - right. destruct (take_block_ok m h l1 i l2 Hi Hf Hac) as (m' & h' & Ht & Hi' & Hs & Hst).
    exists l1, i, l2, m', h'. split_and!; try done. rewrite length_app in Hfuel. cbn in Hfuel.
    replace (fuel m) with (length l1 + S (fuel m - length l1 - 1))%nat by lia.
    change HeadSlot with (slot_after []).
    destruct (wf_above_elem _ _ _ _ (inv_wf Hi)).
    rewrite (alloc_loop_skip m h l1 _ [] (i :: l2)); [|apply (inv_chain Hi)|by apply ordered_app in Ho as [? _]|].
    + cbn [app]. rewrite (alloc_loop_block _ _ _ _ i l2); [by rewrite decide_True by done|apply (inv_chain Hi)|..];
        [apply (inv_ok Hi); set_solver|done..|apply Hlt; set_solver].
    + intros j Hj. split_and!; [apply (inv_ok Hi); set_solver|apply Hlt; set_solver|by apply Hfirst].
Qed.

End allocation.

(** ** Insertion with coalescing *)
Section insertion.
Import HeapAllocator.
Implicit Types (m : mem) (h : t) (l : list ival) (i : ival).

Definition prev_of (l : list ival) : option Z := fst <$> last l.

Lemma find_position_ok m h b r : forall n l1 l2,
  chain m (head h) (l1 ++ r ++ l2) ->
  (forall j, j ∈ r -> j.1 < b) -> (forall j, j ∈ l2 -> b <= j.1) ->
  find_position (length r + S n) m h b (slot_after l1) (prev_of l1) =
    Ret (slot_after (l1 ++ r), prev_of (l1 ++ r)).
Proof.
  induction r as [|i r IH]; intros n l1 l2 Hc H1 H2; cbn [length Nat.add find_position];
    rewrite (read_slot_ok _ _ _ _ Hc).
  - rewrite app_nil_r. cbn [app]. destruct l2 as [|j l2]; cbn [first]; [done|].
    unfold FreeBlock.addr. by rewrite (proj2 (Z.ltb_ge _ _)) by (apply H2; left).
  - cbn [app first]. unfold FreeBlock.addr. rewrite (proj2 (Z.ltb_lt _ _)) by (apply H1; left).
    assert (E : NextSlot i.1 = slot_after (l1 ++ [i]) /\ Some i.1 = prev_of (l1 ++ [i])).
    { unfold slot_after, prev_of. by rewrite last_snoc. }
    destruct E as [-> ->]. rewrite (IH n (l1 ++ [i]) l2); [by rewrite <- app_assoc|by rewrite <- app_assoc| |done].
    intros; apply H1. by right.
Qed.

Lemma block_join a b : block_ok a -> block_ok b -> iend a = b.1 -> block_ok (a.1, a.2 + b.2).
Proof. unfold block_ok, iend. cbn. intros (? & ? & ?) (? & ? & ?) ?. zlia. Qed.

Lemma chain_block m (p : option Z) l1 i l2 :
  chain m p (l1 ++ i :: l2) -> FreeBlock.size m i.1 = i.2 /\ FreeBlock.next m i.1 = first l2 None.
Proof. intros [_ (_ & ? & ? & _)%blocks_app]. done. Qed.

(** Coalescing with the block on the right. *)
Lemma coalesce_right_ok m (p : option Z) l1 i l2 :
  chain m p (l1 ++ i :: l2) -> ordered 1 (l1 ++ i :: l2) -> (forall j, j ∈ i :: l2 -> block_ok j) ->
  exists m',
    match first l2 None with
    | None => Ret m
    | Some right_ =>
        let! block_end := FreeBlock.end_ i.1 i.2 in
        if block_end =? FreeBlock.addr right_ then
          let right_size := FreeBlock.size m right_ in
          let right_next := FreeBlock.next m right_ in
          let! s := add_ i.2 right_size in
          Ret (FreeBlock.set_next (FreeBlock.set_size m i.1 s) i.1 right_next)
        else Ret m
    end = Ret m' /\
    chain m' p (l1 ++ (merge_right i l2).1 :: (merge_right i l2).2) /\ same_outside (in_ival i) m m'.
Proof.
  intros Hc Ho Hok. destruct l2 as [|k l2]; cbn [first merge_right]; [by exists m|].
  destruct (Hok i) as (_ & _ & Hi); [left|]. destruct (Hok k) as (_ & _ & Hk); [right; left|].
  assert (Ho' := Ho). apply ordered_app in Ho' as (Ho1 & Hlo & Hs & Hik & Hks & _).
  pose proof (ordered_end _ _ Ho1).
  unfold FreeBlock.end_, FreeBlock.addr. rewrite add_Ret by done. cbn [obind].
  fold (iend i). destruct (Z.eqb_spec (iend i) k.1) as [E|E]; cbn [fst snd]; [|by exists m].
  destruct (chain_block m p (l1 ++ [i]) k l2) as [-> ->]; [by rewrite <- app_assoc|].
  rewrite add_Ret by (unfold iend in *; lia). cbn [obind]. eexists. split; [reflexivity|]. split.
  - destruct i as [b s]. by apply (set_header_ok m p l1 b s (s + k.2) l2 [k]).
  - intros w Hw. unfold in_ival, iend in *. apply header_other; intros ->; lia.
Qed.

(** Coalescing with the block on the left. *)
Lemma coalesce_left_ok m (p : option Z) l1 i l2 :
  chain m p (l1 ++ i :: l2) -> ordered 1 (l1 ++ i :: l2) -> (forall j, j ∈ l1 ++ [i] -> block_ok j) ->
  exists m',
    match prev_of l1 with
    | None => Ret m
    | Some left_ =>
        let left_size := FreeBlock.size m left_ in
        let! left_end := FreeBlock.end_ left_ left_size in
        if left_end =? i.1 then
          let merged_next := FreeBlock.next m i.1 in
          let merged_size := FreeBlock.size m i.1 in
          let! s := add_ left_size merged_size in
          Ret (FreeBlock.set_next (FreeBlock.set_size m left_ s) left_ merged_next)
        else Ret m
    end = Ret m' /\
    chain m' p (merge_left l1 i ++ l2) /\ same_outside (covers l1) m m'.
Proof.
  intros Hc Ho Hok. unfold merge_left, prev_of. destruct l1 as [|j l1 _] using rev_ind; [by exists m|].
  rewrite last_snoc, removelast_last. cbn [fmap option_fmap option_map fst].
  destruct (Hok i) as (_ & _ & Hi); [set_solver|]. destruct (Hok j) as (_ & _ & Hj); [set_solver|].
  destruct (chain_block _ _ _ _ _ Hc) as [-> ->]. rewrite <- app_assoc in Hc, Ho. cbn [app] in Hc, Ho.
  destruct (chain_block _ _ _ _ _ Hc) as [-> _].
  assert (Ho' := Ho). apply ordered_app in Ho' as (Ho1 & Hlo & Hs & Hji & His & _).
  pose proof (ordered_end _ _ Ho1).
  unfold FreeBlock.end_, FreeBlock.addr. rewrite add_Ret by done. cbn [obind].
  fold (iend j). destruct (Z.eqb_spec (iend j) i.1) as [E|E].
  - rewrite add_Ret by (unfold iend in *; lia). cbn [obind]. eexists. split; [reflexivity|]. split.
    + rewrite <- app_assoc. destruct j as [b s]. by apply (set_header_ok m p l1 b s (s + i.2) l2 [i]).
    + intros w Hw. rewrite covers_app in Hw. cbn in Hw. unfold in_ival, iend in *.
      apply header_other; intros ->; apply Hw; right; left; lia.
  - exists m. split_and!; [done| |done]. by rewrite <- !app_assoc.
Qed.

Lemma merge_right_ordered lo l1 i l2 i' l2' :
  merge_right i l2 = (i', l2') -> ordered lo (l1 ++ i :: l2) -> ordered lo (l1 ++ i' :: l2') /\ i'.1 = i.1.
Proof.
  intros E (Ho1 & ? & ? & Ho2)%ordered_app. rewrite ordered_app.
  destruct l2 as [|k l2]; cbn in E; [by injection E as <- <-|]. destruct Ho2 as (? & ? & ?).
  destruct (Z.eqb_spec (iend i) k.1); injection E as <- <-; cbn; [|by split_and!].
  split_and!; try done; [lia|]. unfold iend in *. cbn. by replace (i.1 + (i.2 + k.2)) with (k.1 + k.2) by lia.
Qed.

(** [insert_and_coalesce] is [merge_at]. *)
Lemma insert_and_coalesce_ok m h l i :
  chain m (head h) l -> wf_above 0 l -> (forall j, j ∈ l -> block_ok j) ->
  block_ok i -> 0 < i.1 -> 0 < i.2 -> (forall x, in_ival i x -> ~ covers l x) ->
  exists l1 l2 m' h', l = l1 ++ l2 /\
    insert_and_coalesce m h i.1 i.2 = Ret (m', h') /\ stats h' = stats h /\
    chain m' (head h') (merge_at l1 i l2) /\
    (forall j, j ∈ l1 -> j.1 < i.1) /\ (forall j, j ∈ l2 -> i.1 <= j.1) /\
    same_outside (fun w => covers l w \/ in_ival i w) m m'.
Proof.
  intros Hc Hw Hok Hi Hi1 Hi2 Hd. pose proof (wf_ordered _ _ Hw Hok) as Ho.
  assert (Hfuel : (length l < fuel m)%nat).
  { eapply chain_fuel; [exact Hc|]. destruct l as [|k l]; [done|]. destruct Hw as (? & _), Ho as (_ & ? & ?).
    cbn. split_and!; try done. lia. }
  destruct (sorted_split _ _ i.1 Hw) as (l1 & l2 & -> & H1 & H2).
  destruct (split_bounds 0 l1 l2 i Hw Hi2 Hi1 H1 H2 Hd) as [He Hw2].
  assert (Hoi : ordered 1 (l1 ++ i :: l2)).
  { apply wf_above_app in Hw as [Hw1 _]. assert (16 <= i.2) by (destruct Hi as (_ & ? & _); zlia).
    apply ordered_app. cbn [ordered]. split_and!; try done.
    - apply ordered_app in Ho as [Ho1 _]. destruct l1 as [|k l1]; [done|]. destruct Hw1 as (? & _), Ho1 as (_ & ? & ?).
      cbn. split_and!; try done. lia.
    - unfold end_above in *. destruct (last l1); lia.
    - apply wf_ordered in Hw2; [|intros; apply Hok; set_solver].
      destruct l2 as [|k l2]; [done|]. destruct Hw2 as (? & ? & ?). cbn.
      split_and!; try done.
      pose proof (H2 k ltac:(left)). destruct (Z.le_gt_cases (iend i) k.1); [done|].
      exfalso. apply (Hd k.1); [unfold in_ival; lia|]. apply covers_app. right. left. unfold in_ival, iend. lia. }
  exists l1, l2. unfold insert_and_coalesce. change (FreeBlock.addr i.1) with i.1.
  rewrite length_app in Hfuel.
  replace (fuel m) with (length l1 + S (fuel m - length l1 - 1))%nat by lia.
  change HeadSlot with (slot_after []). change (@None Z) with (prev_of []) at 1.
  rewrite (find_position_ok m h i.1 l1 _ [] l2) by done. cbn [obind app].
  rewrite (read_slot_ok _ _ _ _ Hc).
  destruct (write_slot _ _ _ _) as [m1 h1] eqn:E1.
  destruct i as [b s]. cbn [fst snd] in *.
  destruct (link_block_ok _ _ _ _ _ _ _ _ Hc Hoi E1) as (Hc1 & Hst & Hs1).
  destruct (coalesce_right_ok m1 (head h1) l1 (b, s) l2) as (m2 & E2 & Hc2 & Hs2); try done; [set_solver|].
  cbn [fst snd] in E2. rewrite E2. cbn [obind]. unfold merge_at.
  destruct (merge_right (b, s) l2) as [i' l2'] eqn:Em. cbn [fst snd] in Hc2.
  destruct (merge_right_ordered _ _ _ _ _ _ Em Hoi) as [Ho2 Hi'].
  destruct (merge_right_closed block_ok block_join _ _ _ _ Em) as [Hok' _]; [done|set_solver|].
  destruct (coalesce_left_ok m2 (head h1) l1 i' l2') as (m3 & E3 & Hc3 & Hs3); try done; [set_solver|].
  rewrite Hi' in E3. cbn [fst] in E3. rewrite E3. cbn [obind].
  exists m3, h1. split_and!; try done.
  eapply same_outside_trans; [exact Hs1|eapply (same_outside_trans _ _ _ _ _ _ Hs2 Hs3 (fun w H => H))|].
  intros w. cbn beta. rewrite !covers_app. cbn [covers]. tauto.
Qed.

End insertion.

(** ** Correctness of each operation *)
Section operations.
Import HeapAllocator.
Implicit Types (m : mem) (h : t) (l : list ival) (i : ival).

(** [add_memory] and [dealloc] add a block to the free list and to the
    byte count; the invariant follows from [merge_at_spec]. *)
Lemma insert_inv m h h0 l i :
  inv m h0 l -> head h = head h0 -> HeapStats.free_bytes (stats h) = bytes l + i.2 ->
  block_ok i -> 0 < i.1 -> 0 < i.2 -> (forall x, in_ival i x -> ~ covers l x) ->
  exists l1 l2 m' h', l = l1 ++ l2 /\
    insert_and_coalesce m h i.1 i.2 = Ret (m', h') /\ stats h' = stats h /\
    inv m' h' (merge_at l1 i l2) /\
    (forall j, j ∈ l1 -> j.1 < i.1) /\ (forall j, j ∈ l2 -> i.1 <= j.1) /\
    same_outside (fun w => covers l w \/ in_ival i w) m m'.
Proof.
  intros Hi Hh Hfb Hok H1 H2 Hd.
  destruct (insert_and_coalesce_ok m h l i) as (l1 & l2 & m' & h' & -> & E & Hst & Hc & Hl1 & Hl2 & Hs);
    try done; [rewrite Hh; apply (inv_chain Hi)|apply (inv_wf Hi)|apply (inv_ok Hi)|].
  destruct (merge_at_spec 0 l1 i l2) as (Hw & Hb & _); try done; [apply (inv_wf Hi)|].
  exists l1, l2, m', h'. split_and!; try done. split; try done.
  - intros j. apply (merge_at_closed block_ok block_join); [done|apply (inv_ok Hi)].
  - by rewrite Hst, Hfb, Hb.
Qed.

Lemma dealloc_ok m h l ptr size align :
  inv m h l -> 0 < size < 2 ^ 63 -> block_ok (ptr, served_size size) -> 0 < ptr ->
  (forall x, in_ival (ptr, served_size size) x -> ~ covers l x) ->
  bytes l + served_size size < W64 -> HeapStats.dealloc_count (stats h) + 1 < W64 ->
  exists l1 l2 m' h', l = l1 ++ l2 /\ dealloc m h ptr size align = Ret (m', h') /\
    inv m' h' (merge_at l1 (ptr, served_size size) l2) /\
    stats h' = HeapStats.mk (HeapStats.total_bytes (stats h))
                 (HeapStats.free_bytes (stats h) + served_size size)
                 (HeapStats.alloc_count (stats h)) (HeapStats.dealloc_count (stats h) + 1) /\
    (forall j, j ∈ l1 -> j.1 < ptr) /\ (forall j, j ∈ l2 -> ptr <= j.1) /\
    same_outside (fun w => covers l w \/ in_ival (ptr, served_size size) w) m m'.
Proof.
  intros Hi Hs Hok Hp Hd Hb Hdc. destruct (served_size_spec size) as (? & _); [lia|].
  unfold dealloc. rewrite rounded_size_ok by done. cbn [obind].
  rewrite add_Ret by (rewrite (inv_bytes Hi); lia). cbn [obind]. rewrite add_Ret by done. cbn [obind].
  match goal with |- context [insert_and_coalesce m ?h0] => set (h1 := h0) end.
  destruct (insert_inv m h1 h l (ptr, served_size size)) as (l1 & l2 & m' & h' & -> & E & Hst & Hi' & ? & ? & ?);
    try done; [by cbn; rewrite (inv_bytes Hi)|cbn; lia|].
  exists l1, l2, m', h'. split_and!; done.
Qed.

Lemma add_memory_ok m h l ptr size (s := size - size mod 16) :
  inv m h l -> block_ok (ptr, s) -> 0 < ptr -> 16 <= size < W64 ->
  (forall x, in_ival (ptr, s) x -> ~ covers l x) ->
  HeapStats.total_bytes (stats h) + s < W64 -> bytes l + s < W64 ->
  exists l1 l2 m' h', l = l1 ++ l2 /\ add_memory m h ptr size = Ret (m', h') /\
    inv m' h' (merge_at l1 (ptr, s) l2) /\
    stats h' = HeapStats.mk (HeapStats.total_bytes (stats h) + s) (HeapStats.free_bytes (stats h) + s)
                 (HeapStats.alloc_count (stats h)) (HeapStats.dealloc_count (stats h)) /\
    (forall j, j ∈ l1 -> j.1 < ptr) /\ (forall j, j ∈ l2 -> ptr <= j.1) /\
    same_outside (fun w => covers l w \/ in_ival (ptr, s) w) m m'.
Proof.
  intros Hi Hok Hp Hs Hd Htb Hfb. unfold add_memory, BLOCK_ALIGN, MIN_BLOCK_SIZE.
  rewrite (proj2 (Z.eqb_neq _ _)) by lia. destruct Hok as (Hpm & Hsm & He). cbn in Hpm. rewrite Hpm.
  rewrite (proj2 (Z.leb_le _ _)) by lia. cbn [negb Z.eqb assert_ obind].
  rewrite land_align_not_mask by (reflexivity || (unfold is_u64; lia)). fold s.
  assert (Hs16 : 16 <= s) by (subst s; zlia). clearbody s.
  rewrite add_Ret by done. cbn [obind]. rewrite add_Ret by (by rewrite (inv_bytes Hi)). cbn [obind].
  set (m1 := FreeBlock.write m ptr s None).
  assert (Hsame : same_outside (in_ival (ptr, s)) m m1).
  { intros w Hw. apply header_other; intros ->; apply Hw; unfold in_ival, iend; cbn; lia. }
  assert (Hi1 : inv m1 h l).
  { split; [|apply (inv_wf Hi)|apply (inv_ok Hi)|apply (inv_bytes Hi)].
    split; [apply (inv_chain Hi)|]. eapply blocks_same_outside; [apply (inv_chain Hi)|by eapply inv_ordered|done|].
    intros x Hx Hx'. by apply (Hd x). }
  match goal with |- context [insert_and_coalesce m1 ?h0] => set (h1 := h0) end.
  destruct (insert_inv m1 h1 h l (ptr, s)) as (l1 & l2 & m' & h' & -> & E & Hst & Hi' & ? & ? & Hs');
    try done; [by cbn; rewrite (inv_bytes Hi)|cbn; lia|].
  exists l1, l2, m', h'. split_and!; try done.
  eapply same_outside_trans; [exact Hsame|exact Hs'|]. intros w. cbn beta. tauto.
Qed.

(** Changing memory that is not free leaves the free list alone. *)
Lemma inv_frame m m' h l :
  inv m h l -> (forall w, covers l w -> read64 m' w = read64 m w) -> inv m' h l.
Proof.
  intros Hi Hf. split; [|apply (inv_wf Hi)|apply (inv_ok Hi)|apply (inv_bytes Hi)].
  split; [apply (inv_chain Hi)|]. pose proof (inv_ordered _ _ _ Hi) as Ho.
  eapply blocks_frame; [apply (inv_chain Hi)|]. intros i Hi'.
  destruct (ordered_elem _ _ _ Ho Hi') as (_ & ? & _).
  split; apply Hf, covers_elem; exists i; (split; [done|]); unfold in_ival, iend; lia.
Qed.

(** [alloc] after its checks and rounding. *)
Lemma alloc_cases m h l size align :
  inv m h l -> layout_ok size align -> HeapStats.alloc_count (stats h) + 1 < W64 ->
  (forall i, i ∈ l -> i.1 + served_align align < W64) ->
  let n := served_size size in let al := served_align align in
  (alloc m h size align = Ret (None, m, h) /\ forall i, i ∈ l -> ~ fits n al i) \/
  exists l1 i l2 m' h', l = l1 ++ i :: l2 /\ fits n al i /\ (forall j, j ∈ l1 -> ~ fits n al j) /\
    i.1 <= round_up i.1 al /\ round_up i.1 al mod al = 0 /\ round_up i.1 al mod 16 = 0 /\
    alloc m h size align = Ret (Some (round_up i.1 al), m', h') /\
    inv m' h' (l1 ++ carve i (round_up i.1 al) n ++ l2) /\ same_outside (covers l) m m' /\
    stats h' = HeapStats.mk (HeapStats.total_bytes (stats h)) (HeapStats.free_bytes (stats h) - n)
                 (HeapStats.alloc_count (stats h) + 1) (HeapStats.dealloc_count (stats h)).
Proof.
  intros Hi (Hs & Hp & Hu) Hac Hlt n al. unfold alloc.
  rewrite (proj2 (Z.ltb_lt _ _)) by lia. rewrite Hp. cbn [assert_ obind].
  rewrite rounded_size_ok by done. cbn [obind]. fold (served_align align). fold n al.
  destruct (served_size_spec size) as (Hs16 & Hsm & Hsb); [lia|].
  destruct (served_align_spec align Hp Hu) as (Hap & Hau & Ha16 & Ham).
  destruct (alloc_loop_ok n al) with (m := m) (h := h) (l := l)
    as [[-> Hn]|(l1 & i & l2 & m' & h' & -> & Hf & Hfirst & -> & Hi' & Hsame & Hst)]; try done; [subst n; lia|by left|].
  right. exists l1, i, l2, m', h'. destruct (round_up_spec i.1 al) as [[Hge _] Hmod]; [subst al; lia|].
  split_and!; try done. by apply round_up_mod16.
Qed.

Lemma served_align_mod align p :
  is_power_of_two align = true -> is_u64 align -> p mod served_align align = 0 -> p mod align = 0.
Proof.
  intros Hp Hu. pose proof (power_of_two_pos _ Hp). unfold served_align, BLOCK_ALIGN.
  destruct (Z.max_spec align 16) as [[Hlt16 ->]|[_ ->]]; [|done]. intros Hmod.
  destruct (align_mask_cases _ Hp Hu) as (k & Hk & -> & _).
  assert (k < 4) by (apply (Z.pow_lt_mono_r_iff 2); lia).
  apply Z.mod_divide in Hmod; [|lia]. apply Z.mod_divide; [lia|]. etrans; [|exact Hmod].
  exists (2 ^ (4 - k)). rewrite <- Z.pow_add_r by lia. by replace (4 - k + k) with 4 by lia.
Qed.

(** C23: [HeapAllocator::alloc] is a correct and complete first fit.  On a
    well-formed heap and for a valid layout it returns, provided that no free
    block's address plus the alignment passes the end of the address space (a huge
    alignment panics) and the counter of allocations does not overflow.  A returned pointer is aligned as
    requested, the block of the rounded size there was entirely free, no lower
    address would have done, exactly that block leaves the free list, and memory
    outside the old free blocks is untouched.  It returns [None], changing
    nothing, only when no aligned free range of that size exists. *)
Theorem heap_alloc_first_fit m h l size align :
  inv m h l -> layout_ok size align -> HeapStats.alloc_count (stats h) + 1 < W64 ->
  (forall i, i ∈ l -> i.1 + served_align align < W64) ->
  exists res m' h', alloc m h size align = Ret (res, m', h') /\
    match res with
    | Some p => p mod align = 0 /\ free_range l (served_size size) (served_align align) p /\
        (forall a, free_range l (served_size size) (served_align align) a -> p <= a) /\
        same_outside (covers l) m m' /\
        exists l', inv m' h' l' /\ bytes l' = bytes l - served_size size /\
          (forall x, covers l' x <-> covers l x /\ ~ in_ival (p, served_size size) x)
    | None => m' = m /\ h' = h /\
        forall a, ~ free_range l (served_size size) (served_align align) a
    end.
Proof.
  intros Hi Hlay Hac Hlt. pose proof Hlay as (Hs & Hp & Hu).
  destruct (served_size_spec size) as (Hs16 & _); [lia|].
  destruct (served_align_spec align Hp Hu) as (_ & _ & Ha16 & _).
  destruct (alloc_cases m h l size align Hi Hlay Hac Hlt) as
    [[-> Hn]|(l1 & i & l2 & m' & h' & -> & Hf & Hfirst & Hge & Hmod & _ & -> & Hi' & Hsame & _)].
  - exists None, m, h. split_and!; try done. intros a Ha.
    destruct (free_range_fits 0 l (served_size size) (served_align align) a) as (r & Hr & Hfr & _);
      [apply (inv_wf Hi)|lia|lia|done|]. by apply (Hn r).
  - eexists (Some _), m', h'. split; [reflexivity|].
    destruct (first_fit_least 0 l1 i l2 (served_size size) (served_align align)) as [Hfree Hleast];
      [apply (inv_wf Hi)|lia|lia|done|done|]. unfold fits in Hf.
    destruct (carve_spec 0 l1 i l2 (round_up i.1 (served_align align)) (served_size size)) as (_ & Hb & Hc);
      [apply (inv_wf Hi)|lia|done|done|].
    split_and!; try done; [by eapply served_align_mod|eexists; split_and!; [exact Hi'|done|exact Hc]].
Qed.

(** C24: deallocating with the same layout what was just allocated succeeds
    and restores the free list exactly, block by block, and the byte count, while
    the counters and the alignment stay clear of overflow. *)
Theorem heap_alloc_dealloc_roundtrip m h l size align p m1 h1 :
  inv m h l -> layout_ok size align -> HeapStats.alloc_count (stats h) + 1 < W64 ->
  HeapStats.dealloc_count (stats h) + 1 < W64 -> bytes l < W64 ->
  (forall i, i ∈ l -> i.1 + served_align align < W64) ->
  alloc m h size align = Ret (Some p, m1, h1) ->
  exists m2 h2, dealloc m1 h1 p size align = Ret (m2, h2) /\ inv m2 h2 l /\
    HeapStats.total_bytes (stats h2) = HeapStats.total_bytes (stats h).
Proof.
  intros Hi Hlay Hac Hdc Hby Hlt Ha. pose proof Hlay as (Hs & Hp & Hu).
  destruct (served_size_spec size) as (Hs16 & Hsm & _); [lia|].
  destruct (alloc_cases m h l size align Hi Hlay Hac Hlt) as
    [[E _]|(l1 & i & l2 & m' & h' & -> & Hf & _ & Hge & _ & Hm16 & E & Hi' & _ & Hst)];
    rewrite E in Ha; [done|]. injection Ha as <- <- <-.
  set (a := round_up i.1 (served_align align)) in *. set (n := served_size size) in *. unfold fits in Hf. fold a in Hf.
  destruct (carve_spec 0 l1 i l2 a n) as (_ & Hb & Hc); [apply (inv_wf Hi)|lia|done|done|].
  destruct (inv_ok Hi i) as (_ & _ & He); [set_solver|].
  destruct (wf_above_elem _ _ _ _ (inv_wf Hi)) as [Hpos _].
  destruct (dealloc_ok m' h' _ a size align Hi') as (k1 & k2 & m2 & h2 & Hk & -> & Hi2 & Hst2 & Hk1 & Hk2 & _); try done.
  - split_and!; try done. unfold iend in *. cbn. fold n. lia.
  - lia.
  - intros x Hx. rewrite Hc. unfold in_ival, iend in Hx. cbn in Hx. fold n in Hx. tauto.
  - fold n. lia.
  - by rewrite Hst.
  - exists m2, h2. split; [done|]. fold n in Hi2. rewrite Hst2, Hst. split; [|done].
    erewrite carve_merge_id in Hi2; [done|apply (inv_wf Hi)|..]; try done; lia.
Qed.

(** [align_up] adds before it masks, so a large alignment overflows: the
    request panics in the dev profile at the first block whose address plus the
    alignment passes the end of the address space, whatever the block's size. *)
Theorem heap_alloc_align_overflow m h i l size align :
  inv m h (i :: l) -> layout_ok size align -> W64 <= i.1 + served_align align ->
  alloc m h size align = Panic "attempt to add with overflow".
Proof.
  intros Hi (Hs & Hp & Hu) Hov. unfold alloc.
  rewrite (proj2 (Z.ltb_lt _ _)) by lia. rewrite Hp. cbn [assert_ obind].
  rewrite rounded_size_ok by done. cbn [obind]. fold (served_align align).
  unfold fuel. rewrite Nat.add_succ_r. cbn [alloc_loop read_slot].
  destruct (inv_chain Hi) as [-> _]. cbn [first]. unfold align_up, add_, FreeBlock.addr.
  by rewrite (proj2 (checked_add_None _ _)).
Qed.

End operations.

(** ** The heap and its clients

    A state is the memory, the heap and the live allocations (pointer and
    requested size).  Clients respect the safety contract in the comments of the
    source: they donate memory the heap does not own yet, inside the kernel's
    heap range; they deallocate live allocations with their layout; and they
    write only to their own allocations.  The counters are 64-bit: the machine
    stops short of [2^64] requests. *)
Definition HEAP_LIMIT : Z := 0xffffd00000000000.
#[export] Hint Unfold HEAP_LIMIT : kconst.

Module HeapClient.
Import HeapAllocator.

Record state := mk_state { memory : mem; heap : t; live : list (Z * Z) }.

(** The memory that serves an allocation. *)
Definition block_of (a : Z * Z) : ival := (a.1, served_size a.2).

Definition owned (st : state) (x : Z) : Prop := covers (block_of <$> live st) x.

Definition request_ok (st : state) (size align : Z) : Prop :=
  layout_ok size align /\ align <= 2 ^ 45 /\ HeapStats.alloc_count (stats (heap st)) + 1 < W64.

(** [donated] is the memory given so far. *)
Inductive step : state * list ival -> state * list ival -> Prop :=
| step_add_memory m h lv d ptr size m' h' :
    0 < ptr -> ptr mod 16 = 0 -> 16 <= size -> ptr + size <= HEAP_LIMIT ->
    (forall x, ptr <= x < ptr + size -> ~ covers d x) ->
    add_memory m h ptr size = Ret (m', h') ->
    step (mk_state m h lv, d) (mk_state m' h' lv, (ptr, size - size mod 16) :: d)
| step_alloc m h lv d size align p m' h' :
    request_ok (mk_state m h lv) size align ->
    alloc m h size align = Ret (Some p, m', h') ->
    step (mk_state m h lv, d) (mk_state m' h' ((p, size) :: lv), d)
| step_alloc_fail m h lv d size align m' h' :
    request_ok (mk_state m h lv) size align ->
    alloc m h size align = Ret (None, m', h') ->
    step (mk_state m h lv, d) (mk_state m' h' lv, d)
| step_dealloc m h lv1 p size lv2 d align m' h' :
    dealloc m h p size align = Ret (m', h') ->
    step (mk_state m h (lv1 ++ (p, size) :: lv2), d) (mk_state m' h' (lv1 ++ lv2), d)
| step_write m h lv d m' :
    same_outside (owned (mk_state m h lv)) m m' ->
    step (mk_state m h lv, d) (mk_state m' h lv, d).

Definition initial (m : mem) : state * list ival := (mk_state m new [], []).
Definition reachable (s : state * list ival) : Prop := exists m, rtc step (initial m) s.

(** Pairwise disjoint ranges. *)
Fixpoint separate (l : list ival) : Prop :=
  match l with
  | [] => True
  | i :: l => (forall x, in_ival i x -> ~ covers l x) /\ separate l
  end.

(** The invariant: the free list and the live blocks partition the donated
    memory, and the statistics count them. *)
Record good (s : state * list ival) (l d : list ival) : Prop := {
  good_inv : inv (memory s.1) (heap s.1) l;
  good_donated : wf_above 0 d /\ forall i, i ∈ d -> block_ok i /\ iend i <= HEAP_LIMIT;
  good_covers_d : forall x, covers d x <-> covers s.2 x;
  good_bytes_d : bytes d = bytes s.2;
  good_sizes : forall a, a ∈ live s.1 -> 0 < a.2 < 2 ^ 63 /\ 0 < a.1 /\ a.1 mod 16 = 0;
  good_live : separate (block_of <$> live s.1);
  good_split : forall x, covers d x <-> covers l x \/ owned s.1 x;
  good_disjoint : forall x, covers l x -> ~ owned s.1 x;
  good_total : HeapStats.total_bytes (stats (heap s.1)) = bytes d;
  good_bytes : bytes d = bytes l + bytes (block_of <$> live s.1);
  good_counts : 0 <= HeapStats.dealloc_count (stats (heap s.1)) /\
    HeapStats.alloc_count (stats (heap s.1)) =
      HeapStats.dealloc_count (stats (heap s.1)) + Z.of_nat (length (live s.1)) /\
    HeapStats.alloc_count (stats (heap s.1)) < W64;
}.
Arguments good_inv {s l d} _.
Arguments good_donated {s l d} _.
Arguments good_covers_d {s l d} _ _.
Arguments good_bytes_d {s l d} _.
Arguments good_sizes {s l d} _ _ _.
Arguments good_live {s l d} _.
Arguments good_split {s l d} _ _.
Arguments good_disjoint {s l d} _ _ _ _.
Arguments good_total {s l d} _.
Arguments good_bytes {s l d} _.
Arguments good_counts {s l d} _.

End HeapClient.
Import HeapClient.

Section client.
Import HeapAllocator.
Implicit Types (s : state * list ival) (l d : list ival).

Lemma separate_app l1 l2 :
  separate (l1 ++ l2) <->
  separate l1 /\ separate l2 /\ forall x, covers l1 x -> ~ covers l2 x.
Proof.
  induction l1 as [|i l1 IH]; cbn; [naive_solver|]. rewrite IH.
  setoid_rewrite covers_app. split; [intros (H1 & H2 & H3 & H4)|intros ((H1 & H2) & H3 & H4)]; split_and!; try done;
    naive_solver.
Qed.

Lemma separate_middle l1 i l2 :
  separate (l1 ++ i :: l2) ->
  separate (l1 ++ l2) /\ (forall x, in_ival i x -> ~ covers (l1 ++ l2) x).
Proof.
  intros (H1 & (H2 & H3) & H4)%separate_app. cbn in H4. split.
  - apply separate_app. split_and!; try done. naive_solver.
  - intros x Hx. rewrite covers_app. naive_solver.
Qed.

(** The donated memory fits the address space. *)
Lemma donated_bytes d :
  wf_above 0 d -> (forall i, i ∈ d -> block_ok i /\ iend i <= HEAP_LIMIT) -> bytes d <= HEAP_LIMIT.
Proof.
  intros Hw Hd. pose proof (bytes_le _ _ Hw). destruct d as [|i d _] using rev_ind; [done|].
  rewrite end_above_snoc in *. destruct (Hd i) as [_ ?]; [set_solver|]. lia.
Qed.

Lemma good_free_bound s l d i : good s l d -> i ∈ l -> i.1 + 2 ^ 45 < W64.
Proof.
  intros Hg Hi. destruct (good_donated Hg) as [Hw Hd].
  destruct (wf_above_lt _ _ _ (inv_wf (good_inv Hg)) Hi) as (_ & ? & _).
  assert (Hc : covers d i.1).
  { apply (good_split Hg). left. apply covers_elem. exists i. split; [done|]. unfold in_ival, iend. lia. }
  apply covers_elem in Hc as (j & Hj & Hx). destruct (Hd j Hj) as [_ ?]. unfold in_ival in Hx. klia.
Qed.

Lemma request_bounds s l d size align :
  good s l d -> request_ok s.1 size align -> forall i, i ∈ l -> i.1 + served_align align < W64.
Proof.
  intros Hg (_ & Ha & _) i Hi. pose proof (good_free_bound _ _ _ _ Hg Hi).
  unfold served_align, BLOCK_ALIGN. lia.
Qed.

Lemma live_bytes_nonneg (lv : list (Z * Z)) : (forall a, a ∈ lv -> 0 < a.2) -> 0 <= bytes (block_of <$> lv).
Proof.
  induction lv as [|a lv IH]; cbn; [done|]. intros Hlv.
  destruct (served_size_spec a.2) as (? & _); [apply Hlv; left|].
  assert (0 <= bytes (block_of <$> lv)); [apply IH; intros; apply Hlv; by right|]. lia.
Qed.

(** A live block can be given back. *)
Lemma live_block m h lv1 p size lv2 l d d0 :
  good (mk_state m h (lv1 ++ (p, size) :: lv2), d0) l d ->
  0 < size < 2 ^ 63 /\ 0 < p /\ block_ok (p, served_size size) /\
  (forall x, in_ival (p, served_size size) x -> ~ covers l x) /\
  bytes l + served_size size < W64 /\ HeapStats.dealloc_count (stats h) + 1 < W64.
Proof.
  intros Hg. destruct (good_sizes Hg (p, size)) as (Hs & Hp & Hm); [cbn; set_solver|]. cbn in Hs, Hp, Hm.
  destruct (served_size_spec size) as (Hs16 & Hsm & _); [lia|].
  assert (Hown : forall x, in_ival (p, served_size size) x -> owned (mk_state m h (lv1 ++ (p, size) :: lv2)) x).
  { intros x Hx. unfold owned. cbn. rewrite fmap_app, covers_app. right. by left. }
  destruct (good_donated Hg) as [Hwd Hd].
  destruct (covered_in_one 0 d p (served_size size) Hwd) as (j & Hj & _ & Hend); [lia|..].
  { intros x Hx. apply (good_split Hg). right. by apply Hown. }
  destruct (Hd j Hj) as [(_ & _ & ?) ?].
  assert (block_ok (p, served_size size)) by (split_and!; try done; unfold iend in *; cbn in *; lia).
  split_and!; try done; try lia.
  - intros x Hx Hc. apply (good_disjoint Hg x Hc). by apply Hown.
  - pose proof (donated_bytes d Hwd Hd). rewrite (good_bytes Hg) in *. cbn in *.
    rewrite fmap_app, bytes_app in *. cbn in *.
    assert (0 <= bytes (block_of <$> lv1)) by (apply live_bytes_nonneg; intros a Ha; apply (good_sizes Hg a); cbn; set_solver).
    assert (0 <= bytes (block_of <$> lv2)) by (apply live_bytes_nonneg; intros a Ha; apply (good_sizes Hg a); cbn; set_solver).
    klia.
  - destruct (good_counts Hg) as (? & Hac & ?). cbn in Hac. rewrite length_app in Hac. cbn in *. lia.
Qed.

Definition limit_ok (i : ival) : Prop := block_ok i /\ iend i <= HEAP_LIMIT.

Lemma limit_join a b : limit_ok a -> limit_ok b -> iend a = b.1 -> limit_ok (a.1, a.2 + b.2).
Proof. intros [? ?] [? ?] E. split; [by apply block_join|]. unfold iend in *. cbn. lia. Qed.

Lemma good_add_memory m h lv d0 l d ptr size (s := size - size mod 16) :
  good (mk_state m h lv, d0) l d ->
  0 < ptr -> ptr mod 16 = 0 -> 16 <= size -> ptr + size <= HEAP_LIMIT ->
  (forall x, ptr <= x < ptr + size -> ~ covers d0 x) ->
  exists m' h' l' d', add_memory m h ptr size = Ret (m', h') /\
    good (mk_state m' h' lv, (ptr, s) :: d0) l' d'.
Proof.
  intros Hg Hp Hpm Hs Hlim Hfresh. destruct (good_donated Hg) as [Hwd Hd].
  assert (Hs16 : 16 <= s <= size /\ s mod 16 = 0) by (subst s; zlia).
  assert (Hlok : limit_ok (ptr, s)). { unfold limit_ok, block_ok, iend. cbn. klia. }
  assert (Hfd : forall x, in_ival (ptr, s) x -> ~ covers d x).
  { intros x Hx. rewrite (good_covers_d Hg). apply Hfresh. unfold in_ival, iend in Hx. cbn in Hx. lia. }
  assert (Hfl : forall x, in_ival (ptr, s) x -> ~ covers l x).
  { intros x Hx Hc. apply (Hfd x Hx). apply (good_split Hg). by left. }
  destruct (sorted_split _ _ ptr Hwd) as (d1 & d2 & -> & Hd1 & Hd2).
  destruct (merge_at_spec 0 d1 (ptr, s) d2 Hwd) as (Hwd' & Hbd' & Hcd'); try done; [cbn; lia|].
  assert (Hd' : forall j, j ∈ merge_at d1 (ptr, s) d2 -> limit_ok j)
    by (intros j; by apply (merge_at_closed limit_ok limit_join)).
  pose proof (donated_bytes _ Hwd' Hd') as Hdb. cbn in Hbd'.
  assert (Hbl : bytes l <= bytes (d1 ++ d2)).
  { rewrite (good_bytes Hg). cbn. assert (0 <= bytes (block_of <$> lv)); [|lia].
    apply live_bytes_nonneg. intros a Ha. by apply (good_sizes Hg a). }
  pose proof (good_total Hg) as Htot. cbn in Htot.
  destruct (add_memory_ok m h l ptr size (good_inv Hg)) as (l1 & l2 & m' & h' & -> & E & Hi' & Hst & Hl1 & Hl2 & _);
    fold s; try done; try klia; [apply Hlok|]. fold s in Hi', Hst.
  destruct (merge_at_spec 0 l1 (ptr, s) l2 (inv_wf (good_inv Hg))) as (_ & Hbl' & Hcl'); try done; [cbn; lia|].
  exists m', h', (merge_at l1 (ptr, s) l2), (merge_at d1 (ptr, s) d2). split; [done|]. cbn in Hbl'.
  pose proof (good_bytes Hg) as Hgb. pose proof (good_bytes_d Hg) as Hgd. pose proof (good_counts Hg) as Hgc.
  cbn in Hgb, Hgd, Hgc. split; cbn; try rewrite Hst; cbn; try done; try lia; try apply Hg.
  - intros x. rewrite Hcd', (good_covers_d Hg). cbn. tauto.
  - intros x. rewrite Hcd', Hcl', (good_split Hg). unfold owned. cbn. tauto.
  - intros x. rewrite Hcl'. intros [Hx|Hx]; [by apply (good_disjoint Hg)|].
    intros Ho. apply (Hfd x Hx). apply (good_split Hg). by right.
Qed.

Lemma good_alloc m h lv d0 l d size align :
  good (mk_state m h lv, d0) l d -> request_ok (mk_state m h lv) size align ->
  exists res m' h' l', alloc m h size align = Ret (res, m', h') /\
    good (mk_state m' h' (match res with Some p => (p, size) :: lv | None => lv end), d0) l' d.
Proof.
  intros Hg Hq. pose proof (request_bounds _ _ _ _ _ Hg Hq) as Hlt. destruct Hq as (Hlay & _ & Hac).
  destruct (alloc_cases m h l size align (good_inv Hg) Hlay Hac Hlt) as
    [[-> _]|(l1 & i & l2 & m' & h' & -> & Hf & _ & Hge & _ & Hm16 & -> & Hi' & _ & Hst)].
  { by exists None, m, h, l. }
  eexists (Some _), m', h', (l1 ++ carve i (round_up i.1 (served_align align)) (served_size size) ++ l2).
  split; [reflexivity|]. destruct Hlay as (Hs & _).
  set (a := round_up i.1 (served_align align)) in *. unfold fits in Hf. fold a in Hf.
  destruct (served_size_spec size) as (Hs16 & _); [lia|].
  destruct (carve_spec 0 l1 i l2 a (served_size size)) as (_ & Hb & Hc);
    [apply (inv_wf (good_inv Hg))|lia|done|done|].
  destruct (wf_above_elem _ _ _ _ (inv_wf (good_inv Hg))) as [Hpos _].
  assert (Hcov : forall x, in_ival (a, served_size size) x -> covers (l1 ++ i :: l2) x).
  { intros x Hx. apply covers_app. right. left. unfold in_ival, iend in *. cbn in *. lia. }
  pose proof (good_bytes Hg) as Hgb. pose proof (good_counts Hg) as Hgc. cbn in Hgb, Hgc, Hac.
  split; cbn; try rewrite Hst; cbn; try done; try lia; try apply Hg.
  - intros b [->|Hb']%elem_of_cons; [cbn; split_and!; done || lia|by apply (good_sizes Hg)].
  - split; [|apply (good_live Hg)]. intros x Hx. by apply (good_disjoint Hg), Hcov.
  - intros x. rewrite Hc, (good_split Hg). unfold owned. cbn. unfold block_of at 1. cbn.
    specialize (Hcov x). destruct (decide (a <= x < a + served_size size)); unfold in_ival, iend in *; cbn in *; tauto.
  - intros x. rewrite Hc. intros [Hx Hn]. unfold owned. cbn. unfold in_ival, iend, block_of at 1. cbn.
    intros [Ho|Ho]; [tauto|]. by apply (good_disjoint Hg x Hx).
Qed.

Lemma good_dealloc m h lv1 p size lv2 d0 l d align :
  good (mk_state m h (lv1 ++ (p, size) :: lv2), d0) l d ->
  exists m' h' l', dealloc m h p size align = Ret (m', h') /\
    good (mk_state m' h' (lv1 ++ lv2), d0) l' d.
Proof.
  intros Hg. destruct (live_block _ _ _ _ _ _ _ _ _ Hg) as (Hs & Hp & Hok & Hd & Hb & Hdc).
  destruct (dealloc_ok m h l p size align (good_inv Hg)) as (l1 & l2 & m' & h' & -> & E & Hi' & Hst & Hl1 & Hl2 & _);
    try done.
  destruct (served_size_spec size) as (Hs16 & _); [lia|].
  destruct (merge_at_spec 0 l1 (p, served_size size) l2 (inv_wf (good_inv Hg))) as (_ & Hbl' & Hcl'); try done; [cbn; lia|].
  exists m', h', (merge_at l1 (p, served_size size) l2). split; [done|].
  pose proof (good_bytes Hg) as Hgb. pose proof (good_counts Hg) as Hgc. pose proof (good_live Hg) as Hgl.
  cbn in Hgb, Hgc, Hgl, Hbl'. rewrite fmap_app, !bytes_app in Hgb. rewrite length_app in Hgc. cbn in Hgb, Hgc.
  rewrite bytes_app in Hbl'.
  rewrite fmap_app in Hgl. apply separate_middle in Hgl as [Hgl Hgx].
  split; cbn; try rewrite Hst; cbn; try done; try apply Hg.
  - intros a Ha. apply (good_sizes Hg). cbn. set_solver.
  - by rewrite fmap_app.
  - intros x. rewrite Hcl', (good_split Hg). unfold owned. cbn. rewrite !fmap_app, !covers_app. cbn.
    unfold block_of at 2. cbn. tauto.
  - intros x. rewrite Hcl'. unfold owned. cbn. rewrite fmap_app.
    intros [Hx|Hx]; [|by apply Hgx]. intros Ho. apply (good_disjoint Hg x Hx). unfold owned. cbn.
    rewrite fmap_app, covers_app in *. cbn. tauto.
  - rewrite fmap_app, !bytes_app. lia.
  - rewrite length_app. lia.
Qed.

Lemma good_write m h lv d0 l d m' :
  good (mk_state m h lv, d0) l d -> same_outside (owned (mk_state m h lv)) m m' ->
  good (mk_state m' h lv, d0) l d.
Proof.
  intros Hg Hs. split; try apply Hg. cbn. eapply inv_frame; [apply (good_inv Hg)|].
  intros w Hw. apply Hs. by apply (good_disjoint Hg).
Qed.

Lemma good_step s s' l d : good s l d -> step s s' -> exists l' d', good s' l' d'.
Proof.
  intros Hg Hst. destruct Hst as [????????????? E|????????? Hq E|???????? Hq E|?????????? E|].
  - edestruct good_add_memory as (? & ? & l' & d' & E' & Hg'); [exact Hg|done..|].
    rewrite E in E'. simplify_eq. by exists l', d'.
  - edestruct good_alloc as (res & ? & ? & l' & E' & Hg'); [exact Hg|exact Hq|].
    rewrite E in E'. simplify_eq. by exists l', d.
  - edestruct good_alloc as (res & ? & ? & l' & E' & Hg'); [exact Hg|exact Hq|].
    rewrite E in E'. simplify_eq. by exists l', d.
  - edestruct good_dealloc as (? & ? & l' & E' & Hg'); [exact Hg|].
    rewrite E in E'. simplify_eq. by exists l', d.
  - exists l, d. by eapply good_write.
Qed.

Lemma good_initial m : good (initial m) [] [].
Proof.
  split; cbn; try done; try lia.
  - split; [done|done|by intros ? []%elem_of_nil|done].
  - split; [done|by intros ? []%elem_of_nil].
  - by intros ? []%elem_of_nil.
Qed.

Lemma good_reachable s : reachable s -> exists l d, good s l d.
Proof.
  intros (m & Hr). pose proof (good_initial m) as Hg.
  assert (exists l d, good (initial m) l d) as Hex by eauto. clear Hg.
  induction Hr as [|x y z Hxy _ IH]; [done|]. apply IH. destruct Hex as (l & d & Hg). by eapply good_step.
Qed.

(** C2: in every reachable state the live allocations are pairwise disjoint,
    lie in donated memory and are never part of the free list; [used_bytes] is
    exactly the sum of their blocks; and once everything has been deallocated
    [is_balanced] is true and all donated memory is free again, fully coalesced. *)
Theorem heap_live_exclusive s :
  reachable s ->
  exists l, inv (memory s.1) (heap s.1) l /\
    separate (block_of <$> live s.1) /\
    (forall x, covers l x -> ~ owned s.1 x) /\
    (forall x, covers s.2 x <-> covers l x \/ owned s.1 x) /\
    HeapStats.used_bytes (stats (heap s.1)) = Ret (bytes (block_of <$> live s.1)) /\
    (live s.1 = [] -> HeapStats.is_balanced (stats (heap s.1)) = true /\
       HeapStats.free_bytes (stats (heap s.1)) = bytes s.2).
Proof.
  intros (l & d & Hg)%good_reachable. exists l.
  pose proof (good_bytes Hg) as Hb. pose proof (inv_bytes (good_inv Hg)) as Hf. pose proof (good_total Hg) as Ht.
  assert (0 <= bytes (block_of <$> live s.1)) by (apply live_bytes_nonneg; intros a Ha; by apply (good_sizes Hg a)).
  split_and!; try apply Hg.
  - intros x. rewrite <- (good_covers_d Hg). apply (good_split Hg).
  - unfold HeapStats.used_bytes. rewrite Ht, Hf, sub_Ret by lia. f_equal. lia.
  - intros Hl. destruct (good_counts Hg) as (_ & Hc & _). rewrite Hl in *. cbn in *. split.
    + unfold HeapStats.is_balanced. rewrite andb_true_iff, !Z.eqb_eq. lia.
    + rewrite <- (good_bytes_d Hg). lia.
Qed.

(** C25: in every reachable state of a heap in the kernel's heap range, [alloc] of
    a valid layout with an alignment of at most 2^45, while fewer than 2^64 - 1
    requests have been made, [dealloc] of a live allocation and [add_memory] of
    fresh memory return: no panic, no unending list walk.  (Larger alignments can
    overflow and panic.) *)
Theorem heap_operations_return s :
  reachable s ->
  (forall size align, request_ok s.1 size align ->
     exists res, alloc (memory s.1) (heap s.1) size align = Ret res) /\
  (forall p size align, (p, size) ∈ live s.1 ->
     exists res, dealloc (memory s.1) (heap s.1) p size align = Ret res) /\
  (forall p size, 0 < p -> p mod 16 = 0 -> 16 <= size -> p + size <= HEAP_LIMIT ->
     (forall x, p <= x < p + size -> ~ covers s.2 x) ->
     exists res, add_memory (memory s.1) (heap s.1) p size = Ret res).
Proof.
  intros (l & d & Hg)%good_reachable. destruct s as [[m h lv] d0]. cbn. split_and!.
  - intros size align Hq. destruct (good_alloc _ _ _ _ _ _ _ _ Hg Hq) as (? & ? & ? & ? & E & _). eauto.
  - intros p size align (lv1 & lv2 & ->)%list_elem_of_split.
    destruct (good_dealloc _ _ _ _ _ _ _ _ _ align Hg) as (? & ? & ? & E & _). eauto.
  - intros p size ?????. edestruct good_add_memory as (? & ? & ? & ? & E & _); [exact Hg|done..|]. eauto.
Qed.

End client.

(** ** Witnesses: one donated page of heap *)
Module HeapDemo.
Import HeapAllocator.

Definition base : Z := 0xffffc00000000000.

Definition booted : mem * t :=
  match add_memory ∅ new base 0x1000 with Ret r => r | _ => (∅, new) end.

Definition free1 : list ival := [(base, 0x1000)].

Lemma booted_inv : inv booted.1 booted.2 free1.
Proof.
  split; [by vm_compute|vm_compute; intuition congruence| |by vm_compute].
  intros i ->%list_elem_of_singleton. by vm_compute.
Qed.

Lemma request : layout_ok 100 64.
Proof. by vm_compute. Qed.

Definition after_alloc : option Z * mem * t :=
  match alloc booted.1 booted.2 100 64 with Ret r => r | _ => (None, ∅, new) end.

Lemma alloc_eq : exists m1 h1, alloc booted.1 booted.2 100 64 = Ret (Some base, m1, h1).
Proof. exists after_alloc.1.2, after_alloc.2. vm_compute. reflexivity. Qed.

Definition started : state * list ival := (mk_state booted.1 booted.2 [], free1).
Definition used : state * list ival :=
  (mk_state after_alloc.1.2 after_alloc.2 [(base, 100)], free1).

Lemma used_reachable : reachable used.
Proof.
  exists ∅. eapply (rtc_l _ _ started).
  - unfold started, initial. change free1 with [(base, 0x1000 - 0x1000 mod 16)].
    apply step_add_memory; [reflexivity|reflexivity|lia|unfold base, HEAP_LIMIT; lia|by intros x _ []|].
    vm_compute. reflexivity.
  - eapply rtc_once. eapply (step_alloc _ _ _ _ 100 64); [|vm_compute; reflexivity].
    split_and!; [apply request|lia|reflexivity].
Qed.

End HeapDemo.
Import HeapDemo.

Lemma heap_alloc_first_fit_witness :
  exists m' h', HeapAllocator.alloc booted.1 booted.2 100 64 = Ret (Some base, m', h') /\ base mod 64 = 0.
Proof.
  destruct (heap_alloc_first_fit booted.1 booted.2 free1 100 64 booted_inv request) as (res & m' & h' & E & H).
  - by vm_compute.
  - intros i ->%list_elem_of_singleton. by vm_compute.
  - destruct alloc_eq as (m1 & h1 & Ea). rewrite Ea in E. injection E as <- <- <-.
    exists m1, h1. split; [exact Ea|apply H].
Defined.

Lemma heap_alloc_dealloc_roundtrip_witness :
  exists m1 h1 m2 h2, HeapAllocator.alloc booted.1 booted.2 100 64 = Ret (Some base, m1, h1) /\
    HeapAllocator.dealloc m1 h1 base 100 64 = Ret (m2, h2) /\ inv m2 h2 free1.
Proof.
  destruct alloc_eq as (m1 & h1 & Ea).
  destruct (heap_alloc_dealloc_roundtrip booted.1 booted.2 free1 100 64 base m1 h1
    booted_inv request) as (m2 & h2 & E2 & Hi & _);
    [by vm_compute|by vm_compute|by vm_compute| |exact Ea|exists m1, h1, m2, h2; split_and!; [exact Ea|exact E2|exact Hi]].
  intros i ->%list_elem_of_singleton. by vm_compute.
Defined.

Lemma heap_alloc_align_overflow_witness :
  HeapAllocator.alloc booted.1 booted.2 100 (2 ^ 63) = Panic "attempt to add with overflow".
Proof.
  apply (heap_alloc_align_overflow booted.1 booted.2 (base, 0x1000) [] 100 (2 ^ 63) booted_inv); by vm_compute.
Defined.

Lemma heap_live_exclusive_witness :
  HeapStats.used_bytes (HeapAllocator.stats (heap used.1)) = Ret 112.
Proof.
  destruct (heap_live_exclusive used used_reachable) as (l & _ & _ & _ & _ & E & _). exact E.
Defined.

Lemma heap_operations_return_witness :
  exists res, HeapAllocator.dealloc (memory used.1) (heap used.1) base 100 64 = Ret res.
Proof.
  apply (heap_operations_return used used_reachable). left.
Defined.
