(* ===== verification/Paging.v ===== *)
(** * Page flags, entries and tables (eira/src/mm/paging/mod.rs,
    eira/src/arch/x86_64/paging/entry.rs, table.rs)

    The newtypes [PageFlags(u8)], [EntryFlags(u64)] and [PageTableEntry(u64)]
    are modelled by the word they wrap.  A [PageTable] is the 512 words of a
    frame in memory. *)

From S2P Require Import Prelude Addr Frame Memory.

Module PageFlags.

Definition READ : Z := 1.
Definition WRITE : Z := 2.
Definition EXECUTE : Z := 4.
Definition USER : Z := 8.
Definition UNCACHED : Z := 16.
Definition GLOBAL : Z := 32.

Definition empty : Z := 0.
Definition kernel_data : Z := Z.lor (Z.lor READ WRITE) GLOBAL.
Definition kernel_code : Z := Z.lor (Z.lor READ EXECUTE) GLOBAL.
Definition user_data : Z := Z.lor (Z.lor READ WRITE) USER.
Definition user_code : Z := Z.lor (Z.lor READ EXECUTE) USER.

Definition contains (self other : Z) : bool := Z.land self other =? other.
Definition is_empty (self : Z) : bool := self =? 0.
Definition or (self other : Z) : Z := Z.lor self other.
(** [!other] on [u8] *)
Definition without (self other : Z) : Z := Z.land self (Z.lxor 255 other).

(** The values the six constants generate. *)
Definition valid (pf : Z) : Prop := 0 <= pf < 64.

End PageFlags.

(** [TlbFlush] is the address it stands for; it is consumed by [flush], which
    issues [invlpg], or [ignore]. *)
Module TlbFlush.
Definition new (addr : Z) : Z := addr.
End TlbFlush.

Inductive MapError := AlreadyMapped | FrameAllocationFailed | MapUnalignedAddress.
Inductive UnmapError := NotMapped | UnmapUnalignedAddress | HugePage.

#[export] Instance MapError_eq_dec : EqDecision MapError.
Proof. solve_decision. Defined.
#[export] Instance UnmapError_eq_dec : EqDecision UnmapError.
Proof. solve_decision. Defined.

Definition PHYS_MASK : Z := 0x000ffffffffff000.

Module EntryFlags.

Definition PRESENT : Z := Z.shiftl 1 0.
Definition WRITABLE : Z := Z.shiftl 1 1.
Definition USER : Z := Z.shiftl 1 2.
Definition WRITE_THROUGH : Z := Z.shiftl 1 3.
Definition CACHE_DISABLE : Z := Z.shiftl 1 4.
Definition ACCESSED : Z := Z.shiftl 1 5.
Definition DIRTY : Z := Z.shiftl 1 6.
Definition HUGE_PAGE : Z := Z.shiftl 1 7.
Definition GLOBAL : Z := Z.shiftl 1 8.
Definition NO_EXECUTE : Z := Z.shiftl 1 63.

Definition empty : Z := 0.
Definition contains (self other : Z) : bool := Z.land self other =? other.
Definition is_empty (self : Z) : bool := self =? 0.
Definition or (self other : Z) : Z := Z.lor self other.
Definition without (self other : Z) : Z := Z.land self (not64 other).
Definition bits (self : Z) : Z := self.

End EntryFlags.

Definition entry_flags_from_page_flags (pf : Z) : Z :=
  let ef := EntryFlags.PRESENT in
  let ef := if PageFlags.contains pf PageFlags.WRITE then EntryFlags.or ef EntryFlags.WRITABLE else ef in
  let ef := if PageFlags.contains pf PageFlags.USER then EntryFlags.or ef EntryFlags.USER else ef in
  let ef := if PageFlags.contains pf PageFlags.UNCACHED then EntryFlags.or ef EntryFlags.CACHE_DISABLE else ef in
  let ef := if PageFlags.contains pf PageFlags.GLOBAL then EntryFlags.or ef EntryFlags.GLOBAL else ef in
  if negb (PageFlags.contains pf PageFlags.EXECUTE) then EntryFlags.or ef EntryFlags.NO_EXECUTE else ef.

Definition page_flags_from_entry_flags (ef : Z) : Z :=
  let pf := PageFlags.READ in
  let pf := if EntryFlags.contains ef EntryFlags.WRITABLE then PageFlags.or pf PageFlags.WRITE else pf in
  let pf := if EntryFlags.contains ef EntryFlags.USER then PageFlags.or pf PageFlags.USER else pf in
  let pf := if EntryFlags.contains ef EntryFlags.CACHE_DISABLE then PageFlags.or pf PageFlags.UNCACHED else pf in
  let pf := if EntryFlags.contains ef EntryFlags.GLOBAL then PageFlags.or pf PageFlags.GLOBAL else pf in
  if negb (EntryFlags.contains ef EntryFlags.NO_EXECUTE) then PageFlags.or pf PageFlags.EXECUTE else pf.

Module PageTableEntry.

Definition EMPTY : Z := 0.

Definition flags (self : Z) : Z := Z.land self (not64 PHYS_MASK).

Definition is_present (self : Z) : bool := EntryFlags.contains (flags self) EntryFlags.PRESENT.

Definition is_huge (self : Z) : bool := EntryFlags.contains (flags self) EntryFlags.HUGE_PAGE.

Definition frame (self : Z) : outcome (option Z) :=
  if negb (is_present self) then Ret None
  else PhysFrame.from_base PAGE_SIZE (PhysAddr.new_unchecked (Z.land self PHYS_MASK)).

Definition new (frame flags : Z) : Z := Z.lor (Z.land frame PHYS_MASK) (EntryFlags.bits flags).

Definition raw (self : Z) : Z := self.

End PageTableEntry.

Definition ENTRY_COUNT : Z := 512.

Module PageTableLevel.

Inductive t := One | Two | Three | Four.

Definition as_u32 (self : t) : Z :=
  match self with One => 1 | Two => 2 | Three => 3 | Four => 4 end.

Definition next (self : t) : option t :=
  match self with
  | Four => Some Three
  | Three => Some Two
  | Two => Some One
  | One => None
  end.

Definition is_leaf (self : t) : bool := match self with One => true | _ => false end.

Definition index_shift (self : t) : Z := 12 + (as_u32 self - 1) * 9.

Definition index_of (self : t) (virt : Z) : Z := Z.land (Z.shiftr virt (index_shift self)) 0x1ff.

End PageTableLevel.

(** A table is at the virtual address [table] of its frame; [entry] is the
    address of an entry, with the array's bounds check. *)
Module PageTable.

Definition entry (table index : Z) : outcome Z :=
  let! _ := assert_ (index <? ENTRY_COUNT) "index out of bounds" in
  Ret (table + 8 * index).

(** Clear every entry. *)
Definition zero (m : mem) (table : Z) : mem := zero_words m table 512.

End PageTable.

(** ** Lemmas on entries *)
Lemma PHYS_MASK_bits n : Z.testbit PHYS_MASK n = (12 <=? n) && (n <? 52).
Proof.
  change PHYS_MASK with (Z.shiftl (Z.ones 40) 12). destruct (Z.lt_ge_cases n 0).
  - rewrite Z.testbit_neg_r by done. destruct (Z.leb_spec 12 n); [lia|done].
  - rewrite Z.shiftl_spec by done. destruct (Z.leb_spec 12 n); cbn.
    + destruct (Z.ltb_spec n 52); [rewrite Z.ones_spec_low by lia | rewrite Z.ones_spec_high by lia]; done.
    + by rewrite Z.testbit_neg_r by lia.
Qed.

Lemma frame_bits f n : PhysFrame.wf PAGE_SIZE f -> (n < 12 \/ 52 <= n) -> Z.testbit f n = false.
Proof.
  intros [[Hnn Hmax] Hm] [Hn|Hn].
  - destruct (Z.lt_ge_cases n 0); [by apply Z.testbit_neg_r|].
    assert (E : f = Z.shiftl (f / 4096) 12) by (rewrite Z.shiftl_mul_pow2 by lia; klia).
    rewrite E, Z.shiftl_spec_low by done. done.
  - rewrite PhysAddr_MAX_val in Hmax.
    destruct (Z.eq_dec f 0) as [->|]; [by rewrite Z.bits_0|].
    apply Z.bits_above_log2; [done|]. apply Z.log2_lt_pow2; [lia|].
    pose proof (Z.pow_le_mono_r 2 52 n). change (2 ^ 52) with 4503599627370496 in *. lia.
Qed.

Lemma land_frame_mask f : PhysFrame.wf PAGE_SIZE f -> Z.land f PHYS_MASK = f.
Proof.
  intros Hf. apply Z.bits_inj'. intros n Hn. rewrite Z.land_spec, PHYS_MASK_bits.
  destruct (decide (12 <= n < 52)).
  - rewrite (proj2 (Z.leb_le _ _)), (proj2 (Z.ltb_lt _ _)) by lia. by rewrite andb_true_r.
  - rewrite (frame_bits f n Hf) by lia. done.
Qed.

Lemma not64_mask_bits n : 0 <= n -> Z.testbit (not64 PHYS_MASK) n = negb ((12 <=? n) && (n <? 52)) && (n <? 64).
Proof.
  intros. unfold not64. rewrite Z.land_spec, Z.lnot_spec, PHYS_MASK_bits by done. f_equal.
  rewrite USIZE_MAX_ones. destruct (Z.ltb_spec n 64); [apply Z.ones_spec_low|apply Z.ones_spec_high]; lia.
Qed.

Lemma land_frame_not_mask f : PhysFrame.wf PAGE_SIZE f -> Z.land f (not64 PHYS_MASK) = 0.
Proof.
  intros Hf. apply Z.bits_inj'. intros n Hn. rewrite Z.land_spec, not64_mask_bits, Z.bits_0 by done.
  destruct (decide (12 <= n < 52)).
  - rewrite (proj2 (Z.leb_le _ _)), (proj2 (Z.ltb_lt _ _)) by lia. apply andb_false_r.
  - rewrite (frame_bits f n Hf) by lia. done.
Qed.

(** Flag words that do not touch the address bits. *)
Definition flag_word (fl : Z) : Prop := Z.land fl PHYS_MASK = 0 /\ Z.land fl (not64 PHYS_MASK) = fl.

Lemma entry_flags_ok pf :
  flag_word (entry_flags_from_page_flags pf) /\
  EntryFlags.contains (entry_flags_from_page_flags pf) EntryFlags.PRESENT = true /\
  EntryFlags.contains (entry_flags_from_page_flags pf) EntryFlags.HUGE_PAGE = false.
Proof.
  unfold entry_flags_from_page_flags, flag_word.
  destruct (PageFlags.contains pf PageFlags.WRITE), (PageFlags.contains pf PageFlags.USER),
    (PageFlags.contains pf PageFlags.UNCACHED), (PageFlags.contains pf PageFlags.GLOBAL),
    (PageFlags.contains pf PageFlags.EXECUTE); by vm_compute.
Qed.

Lemma table_flags_ok :
  flag_word (EntryFlags.or (EntryFlags.or EntryFlags.PRESENT EntryFlags.WRITABLE) EntryFlags.USER).
Proof. by vm_compute. Qed.

Lemma entry_new_flags f fl :
  PhysFrame.wf PAGE_SIZE f -> flag_word fl -> PageTableEntry.flags (PageTableEntry.new f fl) = fl.
Proof.
  intros Hf [_ Hfl]. unfold PageTableEntry.flags, PageTableEntry.new, EntryFlags.bits.
  by rewrite land_frame_mask, Z.land_lor_distr_l, land_frame_not_mask, Hfl, Z.lor_0_l by done.
Qed.

Lemma entry_frame_eq e :
  PageTableEntry.frame e =
    Ret (if PageTableEntry.is_present e then Some (Z.land e PHYS_MASK) else None).
Proof.
  unfold PageTableEntry.frame. destruct (PageTableEntry.is_present e); [|done]. cbn [negb].
  rewrite from_base_eq by (reflexivity || klia). unfold PhysAddr.new_unchecked.
  replace (Z.land e PHYS_MASK mod PAGE_SIZE =? 0) with true; [done|]. symmetry. apply Z.eqb_eq.
  change PAGE_SIZE with (2 ^ 12). apply Z.bits_inj'. intros n Hn. rewrite Z.bits_0.
  destruct (Z.lt_ge_cases n 12).
  - rewrite Z.mod_pow2_bits_low, Z.land_spec, PHYS_MASK_bits by lia.
    rewrite (proj2 (Z.leb_gt _ _)) by lia. apply andb_false_r.
  - by rewrite Z.mod_pow2_bits_high by lia.
Qed.

Lemma entry_new_addr f fl :
  PhysFrame.wf PAGE_SIZE f -> flag_word fl -> Z.land (PageTableEntry.new f fl) PHYS_MASK = f.
Proof.
  intros Hf [Hfl _]. unfold PageTableEntry.new, EntryFlags.bits.
  by rewrite Z.land_lor_distr_l, Hfl, Z.lor_0_r, !land_frame_mask by (done || by rewrite land_frame_mask).
Qed.


(** ** Lemmas on indices *)
Lemma index_of_eq lvl v :
  PageTableLevel.index_of lvl v = v / 2 ^ PageTableLevel.index_shift lvl mod 512.
Proof.
  unfold PageTableLevel.index_of. change 511 with (Z.ones 9).
  rewrite Z.land_ones, Z.shiftr_div_pow2 by (unfold PageTableLevel.index_shift, PageTableLevel.as_u32; destruct lvl; lia). done.
Qed.

Lemma index_of_bound lvl v : 0 <= PageTableLevel.index_of lvl v < 512.
Proof. rewrite index_of_eq. apply Z.mod_pos_bound. lia. Qed.

(** The 36 bits the four tables translate. *)
Definition page_of (v : Z) : Z := v / 4096 mod 2 ^ 36.

Lemma page_of_indices v :
  page_of v = PageTableLevel.index_of PageTableLevel.Four v * 2 ^ 27 +
              PageTableLevel.index_of PageTableLevel.Three v * 2 ^ 18 +
              PageTableLevel.index_of PageTableLevel.Two v * 2 ^ 9 +
              PageTableLevel.index_of PageTableLevel.One v.
Proof.
  rewrite !index_of_eq. unfold page_of.
  change (2 ^ PageTableLevel.index_shift PageTableLevel.One) with 4096.
  change (2 ^ PageTableLevel.index_shift PageTableLevel.Two) with 2097152.
  change (2 ^ PageTableLevel.index_shift PageTableLevel.Three) with 1073741824.
  change (2 ^ PageTableLevel.index_shift PageTableLevel.Four) with 549755813888.
  change (2 ^ 36) with 68719476736. change (2 ^ 27) with 134217728. change (2 ^ 18) with 262144.
  change (2 ^ 9) with 512.
  replace (v / 2097152) with (v / 4096 / 512) by (by rewrite (Z.div_div v 4096 512)).
  replace (v / 1073741824) with (v / 4096 / 512 / 512) by (by rewrite !Z.div_div).
  replace (v / 549755813888) with (v / 4096 / 512 / 512 / 512) by (by rewrite !Z.div_div).
  generalize (v / 4096) as p. intros p. zlia.
Qed.

Lemma indices_of_page lvl v v' : page_of v = page_of v' ->
  PageTableLevel.index_of lvl v = PageTableLevel.index_of lvl v'.
Proof.
  rewrite !page_of_indices.
  pose proof (index_of_bound PageTableLevel.One v). pose proof (index_of_bound PageTableLevel.One v').
  pose proof (index_of_bound PageTableLevel.Two v). pose proof (index_of_bound PageTableLevel.Two v').
  pose proof (index_of_bound PageTableLevel.Three v). pose proof (index_of_bound PageTableLevel.Three v').
  pose proof (index_of_bound PageTableLevel.Four v). pose proof (index_of_bound PageTableLevel.Four v').
  destruct lvl; lia.
Qed.

Lemma entry_addr_eq table lvl v :
  PageTable.entry table (PageTableLevel.index_of lvl v) =
    Ret (table + 8 * PageTableLevel.index_of lvl v).
Proof.
  unfold PageTable.entry, ENTRY_COUNT. pose proof (index_of_bound lvl v).
  by rewrite (proj2 (Z.ltb_lt _ _)) by lia.
Qed.

Lemma page_flags_convert pf :
  PageFlags.valid pf ->
  page_flags_from_entry_flags (entry_flags_from_page_flags pf) = PageFlags.or pf PageFlags.READ.
Proof.
  intros Hv.
  assert (Hall : forallb (fun n => page_flags_from_entry_flags (entry_flags_from_page_flags (Z.of_nat n)) =?
    PageFlags.or (Z.of_nat n) PageFlags.READ) (seq 0 64) = true) by (by vm_compute).
  rewrite forallb_forall in Hall. specialize (Hall (Z.to_nat pf)).
  unfold PageFlags.valid in Hv. rewrite Z2Nat.id in Hall by lia. apply Z.eqb_eq, Hall, in_seq. lia.
Qed.

(** ** Properties *)

(** C33: converting page flags to hardware bits and back is the identity up to
    [READ], which every present mapping implies; and the hardware bits never
    touch the address field, are always [PRESENT] and never [HUGE_PAGE]. *)
Theorem page_flags_roundtrip pf :
  PageFlags.valid pf ->
  page_flags_from_entry_flags (entry_flags_from_page_flags pf) = PageFlags.or pf PageFlags.READ /\
  Z.land (entry_flags_from_page_flags pf) PHYS_MASK = 0 /\
  PageTableEntry.is_present (entry_flags_from_page_flags pf) = true /\
  PageTableEntry.is_huge (entry_flags_from_page_flags pf) = false.
Proof.
  intros Hv. destruct (entry_flags_ok pf) as ([Hm Hn] & Hp & Hh).
  unfold PageTableEntry.is_present, PageTableEntry.is_huge, PageTableEntry.flags. rewrite Hn.
  split_and!; try done. by apply page_flags_convert.
Qed.

(** a page-table entry stores and returns its frame and its flags: what
    [PageTableEntry::new] packs, [frame], [flags], [is_present] and [is_huge]
    unpack, for every 52-bit page-aligned frame. *)
Theorem page_table_entry_roundtrip f pf (e := PageTableEntry.new f (entry_flags_from_page_flags pf)) :
  PhysFrame.wf PAGE_SIZE f ->
  PageTableEntry.frame e = Ret (Some f) /\
  PageTableEntry.flags e = entry_flags_from_page_flags pf /\
  PageTableEntry.is_present e = true /\ PageTableEntry.is_huge e = false.
Proof.
  intros Hf. destruct (entry_flags_ok pf) as (Hw & Hp & Hh).
  assert (Hfl : PageTableEntry.flags e = entry_flags_from_page_flags pf) by (by apply entry_new_flags).
  assert (Hpr : PageTableEntry.is_present e = true) by (unfold PageTableEntry.is_present; by rewrite Hfl).
  split_and!; try done; [|unfold PageTableEntry.is_huge; by rewrite Hfl].
  rewrite entry_frame_eq, Hpr. unfold e. by rewrite entry_new_addr.
Qed.

Lemma page_flags_roundtrip_witness :
  page_flags_from_entry_flags (entry_flags_from_page_flags PageFlags.kernel_data) = PageFlags.kernel_data.
Proof. apply (page_flags_roundtrip PageFlags.kernel_data). by vm_compute. Defined.

Lemma page_table_entry_roundtrip_witness :
  PageTableEntry.frame (PageTableEntry.new 0x7000 (entry_flags_from_page_flags PageFlags.user_code))
    = Ret (Some 0x7000).
Proof. apply (page_table_entry_roundtrip 0x7000 PageFlags.user_code). by vm_compute. Defined.
