(* ===== verification/World.v ===== *)
(** * The kernel's memory globals (eira/src/mm/init.rs, the accessors)

    [world] is the state the memory-management code shares: the machine memory,
    the static [FRAME_ALLOCATOR : Mutex<Option<BitmapAllocator>>] (whether its
    lock is held, and the allocator once [init] has run), the HHDM offset, and
    the log of the pages flushed from the TLB.  The allocator's type is a
    parameter with the [FrameAllocator] interface.

    Taking the lock while a guard is alive on the same core spins for ever
    ([Hang]). *)

From S2P Require Import Prelude Addr Frame Memory FrameAllocator.

Record world (A : Type) := mk_world {
  memory : mem;
  locked : bool;
  frame_allocator : option A;
  hhdm_offset : Z;
  flushed : list Z;
}.
Arguments mk_world {A} _ _ _ _ _.
Arguments memory {A} _.
Arguments locked {A} _.
Arguments frame_allocator {A} _.
Arguments hhdm_offset {A} _.
Arguments flushed {A} _.

Section world.
Context {A : Type} `{FrameAllocator A}.
Implicit Types (w : world A).

Definition with_memory w (m : mem) : world A :=
  mk_world m (locked w) (frame_allocator w) (hhdm_offset w) (flushed w).
Definition with_lock w (b : bool) : world A :=
  mk_world (memory w) b (frame_allocator w) (hhdm_offset w) (flushed w).
Definition with_allocator w (m : mem) (a : A) : world A :=
  mk_world m (locked w) (Some a) (hhdm_offset w) (flushed w).

(** [FRAME_ALLOCATOR.lock()]; the guard is alive in the returned world. *)
Definition lock w : outcome (world A) := if locked w then Hang else Ret (with_lock w true).
(** The guard is dropped. *)
Definition unlock w : world A := with_lock w false.

Definition get_allocator w : outcome A :=
  expect (frame_allocator w) "frame allocator not initialised".

(** [mm::allocate] *)
Definition mm_allocate w : outcome (Z * world A) :=
  let! w := lock w in
  let! a := get_allocator w in
  let! '(o, a) := allocate (memory w) a in
  let! frame := expect o "out of physical memory" in
  Ret (frame, unlock (with_allocator w (memory w) a)).

(** [mm::deallocate] *)
Definition mm_deallocate w (frame : Z) : outcome (world A) :=
  let! w := lock w in
  let! a := get_allocator w in
  let! '(m, a) := OwnedFrame_free (memory w) a frame in
  Ret (unlock (with_allocator w m a)).

(** [mm::free_frames] and [mm::total_frames] *)
Definition mm_free_frames w : outcome Z :=
  let! w := lock w in
  let! a := get_allocator w in
  Ret (free_frames a).
Definition mm_total_frames w : outcome Z :=
  let! w := lock w in
  let! a := get_allocator w in
  Ret (total_frames a).

(** [Platform::flush_tlb_page] *)
Definition flush_tlb_page w (addr : Z) : world A :=
  mk_world (memory w) (locked w) (frame_allocator w) (hhdm_offset w) (flushed w ++ [addr]).

(** [FRAME_ALLOCATOR.lock().as_mut().and_then(|a| a.allocate())]: the guard is a
    temporary of the enclosing statement, so it is still held on return. *)
Definition lock_and_allocate w : outcome (option Z * world A) :=
  let! w := lock w in
  match frame_allocator w with
  | None => Ret (None, w)
  | Some a =>
      let! '(o, a) := allocate (memory w) a in
      Ret (o, with_allocator w (memory w) a)
  end.

(** [FRAME_ALLOCATOR.lock().as_mut().expect(..).deallocate_owned(frame)] as a
    statement of its own. *)
Definition lock_and_deallocate w (frame : Z) : outcome (world A) :=
  let! w := lock w in
  let! a := expect (frame_allocator w) "frame allocator must be initialised" in
  let! '(m, a) := deallocate_owned (memory w) a frame in
  Ret (unlock (with_allocator w m a)).

End world.

(** ** What the interface promises, lifted to the world *)
Section spec.
Context {A : Type} `{FrameAllocatorSpec A}.
Implicit Types (w : world A) (free live : gset Z).

(** The lock is free and the allocator is initialised with these frames. *)
Definition mm_state w free live : Prop :=
  locked w = false /\ exists a, frame_allocator w = Some a /\
    fa_state (hhdm_offset w) (memory w) a free live.

Lemma mm_allocate_some w free live :
  mm_state w free live -> free <> ∅ ->
  exists f w', mm_allocate w = Ret (f, w') /\ f ∈ free /\
    mm_state w' (free ∖ {[f]}) ({[f]} ∪ live) /\ memory w' = memory w /\
    hhdm_offset w' = hhdm_offset w /\ flushed w' = flushed w.
Proof.
  destruct w as [m l fa hh fl]. intros (Hl & a & Ha & Hs) Hne. cbn in Hl, Ha, Hs. subst l fa.
  destruct (fa_allocate_some _ _ _ _ _ Hs Hne) as (f & a' & E & Hf & Hs').
  unfold mm_allocate. cbn. rewrite E. cbn.
  eexists f, _. split; [reflexivity|]. split_and!; try done. split; [done|]. by exists a'.
Qed.

Lemma mm_allocate_none w live :
  mm_state w ∅ live -> mm_allocate w = Panic "out of physical memory".
Proof.
  destruct w as [m l fa hh fl]. intros (Hl & a & Ha & Hs). cbn in Hl, Ha, Hs. subst l fa.
  unfold mm_allocate. cbn. by rewrite (fa_allocate_none _ _ _ _ Hs).
Qed.

Lemma lock_and_allocate_some w free live :
  mm_state w free live -> free <> ∅ ->
  exists f w', lock_and_allocate w = Ret (Some f, w') /\ locked w' = true /\ f ∈ free /\
    mm_state (unlock w') (free ∖ {[f]}) ({[f]} ∪ live) /\ memory w' = memory w /\
    hhdm_offset w' = hhdm_offset w /\ flushed w' = flushed w.
Proof.
  destruct w as [m l fa hh fl]. intros (Hl & a & Ha & Hs) Hne. cbn in Hl, Ha, Hs. subst l fa.
  destruct (fa_allocate_some _ _ _ _ _ Hs Hne) as (f & a' & E & Hf & Hs').
  unfold lock_and_allocate. cbn. rewrite E. cbn.
  eexists f, _. split; [reflexivity|]. split_and!; try done. split; [done|]. by exists a'.
Qed.

Lemma lock_and_allocate_none w live :
  mm_state w ∅ live ->
  exists w', lock_and_allocate w = Ret (None, w') /\ locked w' = true /\
    mm_state (unlock w') ∅ live /\ memory w' = memory w /\
    hhdm_offset w' = hhdm_offset w /\ flushed w' = flushed w.
Proof.
  destruct w as [m l fa hh fl]. intros (Hl & a & Ha & Hs). cbn in Hl, Ha, Hs. subst l fa.
  unfold lock_and_allocate. cbn. rewrite (fa_allocate_none _ _ _ _ Hs). cbn.
  eexists _. split; [reflexivity|]. split_and!; try done. split; [done|]. by exists a.
Qed.

Lemma lock_and_deallocate_ok w free live f :
  mm_state w free live -> f ∈ live ->
  exists w', lock_and_deallocate w f = Ret w' /\
    mm_state w' ({[f]} ∪ free) (live ∖ {[f]}) /\
    same_outside (in_frame (hhdm_offset w) f) (memory w) (memory w') /\
    hhdm_offset w' = hhdm_offset w /\ flushed w' = flushed w.
Proof.
  destruct w as [m l fa hh fl]. intros (Hl & a & Ha & Hs) Hf. cbn in Hl, Ha, Hs. subst l fa.
  destruct (fa_deallocate _ _ _ _ _ _ Hs Hf) as (m' & a' & E & Hsame & Hs').
  unfold lock_and_deallocate, deallocate_owned. cbn. rewrite E. cbn.
  eexists. split; [reflexivity|]. split_and!; try done. split; [done|]. by exists a'.
Qed.

(** Writes outside the free frames do not disturb the allocator. *)
Lemma mm_state_write w free live m' :
  mm_state w free live ->
  (forall f x, f ∈ free -> in_frame (hhdm_offset w) f x -> read64 m' x = read64 (memory w) x) ->
  mm_state (with_memory w m') free live.
Proof. intros (Hl & a & Ha & Hs) Hm. split; [done|]. exists a. split; [done|]. by eapply fa_frame. Qed.

Lemma mm_state_disjoint w free live : mm_state w free live -> free ## live.
Proof. intros (_ & a & _ & Hs). by eapply fa_disjoint. Qed.

Lemma mm_state_wf w free live f :
  mm_state w free live -> f ∈ free ∪ live ->
  PhysFrame.wf PAGE_SIZE f /\ 0 < f + hhdm_offset w /\ f + hhdm_offset w + PAGE_SIZE <= W64.
Proof. intros (_ & a & _ & Hs) Hf. by eapply fa_wf. Qed.

End spec.
