(* ===== verification/Mapper.v ===== *)
(** * The x86_64 page-table mapper (eira/src/arch/x86_64/paging/mapper.rs and
    the mapper constructors of eira/src/arch/x86_64/imp.rs)

    A reference to a page-table entry is the address of its word.  The macro
    [next_table!] of [walk_or_create] is the function [next_table].

    The proofs describe a hierarchy by the map [T] from paths (the indices that
    lead from the PML4) to table frames; [lookup m T v] is the present leaf entry
    that translates [v].  The operations are shown to be a lookup, an insertion, a
    deletion and an update on it, with the frames for new tables taken from the
    allocator through the [FrameAllocatorSpec] interface. *)

From S2P Require Import Prelude Addr Frame Memory FrameAllocator Bitmap Paging World.

Module PageTableMapper.
Import PageTableLevel.

Record t := mk { pml4 : Z; hhdm : Z }.

Definition new (pml4 hhdm_offset : Z) : t := mk pml4 hhdm_offset.

Definition phys_to_virt (phys hhdm : Z) : outcome Z := add_ phys hhdm.

Definition table_at_frame (frame hhdm : Z) : outcome Z := phys_to_virt frame hhdm.

(** The address of the entry of level [lvl] in the table at [frame]. *)
Definition entry_at (frame hhdm : Z) (lvl : PageTableLevel.t) (virt : Z) : outcome Z :=
  let! table := table_at_frame frame hhdm in
  PageTable.entry table (index_of lvl virt).

Definition walk (m : mem) (self : t) (virt : Z) : outcome (option Z) :=
  let h := hhdm self in
  let! l4e := entry_at (pml4 self) h Four virt in
  if negb (PageTableEntry.is_present (read64 m l4e)) then Ret None
  else
    let! o := PageTableEntry.frame (read64 m l4e) in
    match o with
    | None => Ret None
    | Some f3 =>
        let! l3e := entry_at f3 h Three virt in
        if negb (PageTableEntry.is_present (read64 m l3e)) || PageTableEntry.is_huge (read64 m l3e)
        then Ret None
        else
          let! o := PageTableEntry.frame (read64 m l3e) in
          match o with
          | None => Ret None
          | Some f2 =>
              let! l2e := entry_at f2 h Two virt in
              if negb (PageTableEntry.is_present (read64 m l2e)) || PageTableEntry.is_huge (read64 m l2e)
              then Ret None
              else
                let! o := PageTableEntry.frame (read64 m l2e) in
                match o with
                | None => Ret None
                | Some f1 => let! l1e := entry_at f1 h One virt in Ret (Some l1e)
                end
          end
    end.

Section operations.
Context {A : Type} `{FrameAllocator A}.

Definition next_table (w : world A) (h entry : Z) (alloc : bool) : outcome (result Z MapError * world A) :=
  let? _, w :=
    if negb (PageTableEntry.is_present (read64 (memory w) entry)) then
      if negb alloc then Ret (Err FrameAllocationFailed, w)
      else
        let! '(frame, w) := mm_allocate w in
        let! ptr := phys_to_virt frame h in
        let m := PageTable.zero (memory w) ptr in
        let m := write64 m entry
                   (PageTableEntry.new frame
                      (EntryFlags.or (EntryFlags.or EntryFlags.PRESENT EntryFlags.WRITABLE) EntryFlags.USER)) in
        Ret (Ok tt, with_memory w m)
    else Ret (Ok tt, w) in
  let e := read64 (memory w) entry in
  if PageTableEntry.is_huge e then Ret (Err AlreadyMapped, w)
  else
    let! o := PageTableEntry.frame e in
    match o with
    | None => Ret (Err FrameAllocationFailed, w)
    | Some child_frame => let! table := table_at_frame child_frame h in Ret (Ok table, w)
    end.

Definition walk_or_create (w : world A) (self : t) (virt : Z) (alloc : bool)
  : outcome (result Z MapError * world A) :=
  let h := hhdm self in
  let! l4e := entry_at (pml4 self) h Four virt in
  let? l3, w := next_table w h l4e alloc in
  let! l3e := PageTable.entry l3 (index_of Three virt) in
  let? l2, w := next_table w h l3e alloc in
  let! l2e := PageTable.entry l2 (index_of Two virt) in
  let? l1, w := next_table w h l2e alloc in
  let! l1e := PageTable.entry l1 (index_of One virt) in
  Ret (Ok l1e, w).

Definition map (w : world A) (self : t) (virt frame flags : Z)
  : outcome (result Z (Z * MapError) * world A) :=
  let! aligned := VirtAddr.is_aligned virt PAGE_SIZE in
  if negb aligned then Ret (Err (frame, MapUnalignedAddress), w)
  else if negb (VirtAddr.is_canonical_addr virt) then Ret (Err (frame, MapUnalignedAddress), w)
  else
    let! '(r, w) := walk_or_create w self virt true in
    match r with
    | Err e => Ret (Err (frame, e), w)
    | Ok leaf =>
        if PageTableEntry.is_present (read64 (memory w) leaf) then Ret (Err (frame, AlreadyMapped), w)
        else
          let m := write64 (memory w) leaf (PageTableEntry.new frame (entry_flags_from_page_flags flags)) in
          Ret (Ok (TlbFlush.new virt), with_memory w m)
    end.

(** One level of [unmap]'s descent: the child's frame. *)
Definition unmap_level (m : mem) (h frame : Z) (lvl : PageTableLevel.t) (virt : Z) (check_huge : bool)
  : outcome (result Z UnmapError) :=
  let! a := entry_at frame h lvl virt in
  let e := read64 m a in
  if negb (PageTableEntry.is_present e) then Ret (Err NotMapped)
  else if check_huge && PageTableEntry.is_huge e then Ret (Err HugePage)
  else
    let! o := PageTableEntry.frame e in
    Ret match o with Some f => Ok f | None => Err NotMapped end.

Definition unmap (w : world A) (self : t) (virt : Z) : outcome (result (Z * Z) UnmapError * world A) :=
  let! aligned := VirtAddr.is_aligned virt PAGE_SIZE in
  if negb aligned then Ret (Err UnmapUnalignedAddress, w)
  else
    let h := hhdm self in
    let m := memory w in
    let! r4 := unmap_level m h (pml4 self) Four virt false in
    match r4 with
    | Err e => Ret (Err e, w)
    | Ok l3_frame =>
        let! r3 := unmap_level m h l3_frame Three virt true in
        match r3 with
        | Err e => Ret (Err e, w)
        | Ok l2_frame =>
            let! r2 := unmap_level m h l2_frame Two virt true in
            match r2 with
            | Err e => Ret (Err e, w)
            | Ok l1_frame =>
                let! a := entry_at l1_frame h One virt in
                let e := read64 m a in
                if negb (PageTableEntry.is_present e) then Ret (Err NotMapped, w)
                else
                  let! o := PageTableEntry.frame e in
                  match o with
                  | None => Ret (Err NotMapped, w)
                  | Some frame =>
                      Ret (Ok (frame, TlbFlush.new virt), with_memory w (write64 m a PageTableEntry.EMPTY))
                  end
            end
        end
    end.

Definition remap (w : world A) (self : t) (virt new_flags : Z) : outcome (result Z UnmapError * world A) :=
  let! aligned := VirtAddr.is_aligned virt PAGE_SIZE in
  if negb aligned then Ret (Err UnmapUnalignedAddress, w)
  else
    let! '(r, w) := walk_or_create w self virt false in
    match r with
    | Err _ => Ret (Err NotMapped, w)
    | Ok leaf =>
        let e := read64 (memory w) leaf in
        if negb (PageTableEntry.is_present e) then Ret (Err NotMapped, w)
        else if PageTableEntry.is_huge e then Ret (Err HugePage, w)
        else
          let! o := PageTableEntry.frame e in
          match o with
          | None => Ret (Err NotMapped, w)
          | Some frame =>
              let m := write64 (memory w) leaf (PageTableEntry.new frame (entry_flags_from_page_flags new_flags)) in
              Ret (Ok (TlbFlush.new virt), with_memory w m)
          end
    end.

(** [Platform::create_mapper] *)
Definition create_mapper (w : world A) (root : Z) : outcome (t * world A) :=
  let h := hhdm_offset w in
  let! ptr := add_ root h in
  Ret (new root h, with_memory w (zero_words (memory w) ptr 512)).

(** [Platform::mapper_from_active] *)
Definition mapper_from_active (w : world A) (root_phys : Z) : outcome t :=
  let! o := PhysFrame.from_base PAGE_SIZE root_phys in
  let! raw_frame := expect o "active PML4 base address must be page-aligned" in
  Ret (new raw_frame (hhdm_offset w)).

End operations.

Definition translate (m : mem) (self : t) (virt : Z) : outcome (option (Z * Z)) :=
  let! o := walk m self virt in
  match o with
  | None => Ret None
  | Some leaf =>
      let e := read64 m leaf in
      if negb (PageTableEntry.is_present e) then Ret None
      else
        let! o := PageTableEntry.frame e in
        match o with
        | None => Ret None
        | Some frame =>
            let page_offset := Z.land virt (PAGE_SIZE - 1) in
            match PhysAddr.checked_add frame page_offset with
            | None => Ret None
            | Some phys => Ret (Some (phys, page_flags_from_entry_flags (PageTableEntry.flags e)))
            end
        end
  end.

End PageTableMapper.

(** ** The hierarchy as a map from paths to table frames *)
Module MapperInv.
Import PageTableLevel.

(** The address of entry [i] of the table at frame [f]. *)
Definition slot (h f i : Z) : Z := f + h + 8 * i.

(** What an entry of an upper table says about the path below it. *)
Definition entry_ok (p : list Z) (e : Z) (o : option Z) : Prop :=
  match o with
  | Some g => PageTableEntry.is_present e = true /\ PageTableEntry.is_huge e = false /\
              Z.land e PHYS_MASK = g
  | None => PageTableEntry.is_present e = false \/
            (p <> [] /\ PageTableEntry.is_present e = true /\ PageTableEntry.is_huge e = true)
  end.

Record pt_wf (h : Z) (m : mem) (root : Z) (T : gmap (list Z) Z) : Prop := {
  pt_root : T !! [] = Some root;
  pt_inj : forall p q f, T !! p = Some f -> T !! q = Some f -> p = q;
  pt_frames : forall p f, T !! p = Some f ->
    PhysFrame.wf PAGE_SIZE f /\ 0 < f + h /\ f + h + PAGE_SIZE <= W64;
  pt_closed : forall p i, is_Some (T !! (p ++ [i])) -> is_Some (T !! p);
  pt_entry : forall p f i, T !! p = Some f -> (length p < 3)%nat -> 0 <= i < 512 ->
    entry_ok p (read64 m (slot h f i)) (T !! (p ++ [i]));
}.
Arguments pt_root {h m root T} _.
Arguments pt_inj {h m root T} _.
Arguments pt_frames {h m root T} _.
Arguments pt_closed {h m root T} _.
Arguments pt_entry {h m root T} _.

Definition path (v : Z) : list Z := [index_of Four v; index_of Three v; index_of Two v].

(** The present leaf entry for [v]. *)
Definition lookup (h : Z) (m : mem) (T : gmap (list Z) Z) (v : Z) : option Z :=
  match T !! path v with
  | Some f => let e := read64 m (slot h f (index_of One v)) in
              if PageTableEntry.is_present e then Some e else None
  | None => None
  end.

(** The descent from table [f] along the indices [q] runs into a huge page. *)
Fixpoint huge_along (h : Z) (m : mem) (f : Z) (q : list Z) : bool :=
  match q with
  | [] => false
  | i :: q =>
      let e := read64 m (slot h f i) in
      PageTableEntry.is_present e &&
        (PageTableEntry.is_huge e || huge_along h m (Z.land e PHYS_MASK) q)
  end.

End MapperInv.
Import MapperInv.

Section hierarchy.
Import PageTableLevel PageTableMapper.
Implicit Types (m : mem) (T : gmap (list Z) Z) (p q : list Z).

Lemma slot_in_frame h f i : 0 <= i < 512 -> in_frame h f (slot h f i).
Proof. unfold in_frame, slot. klia. Qed.

Lemma slot_inj h f i j : slot h f i = slot h f j -> i = j.
Proof. unfold slot. lia. Qed.

(** Entries of different tables are different words. *)
Lemma slot_ne h f g i j :
  PhysFrame.wf PAGE_SIZE f -> PhysFrame.wf PAGE_SIZE g -> f <> g ->
  0 <= i < 512 -> 0 <= j < 512 -> slot h f i <> slot h g j.
Proof.
  intros [_ Hf] [_ Hg] Hne Hi Hj E. apply (in_frame_disjoint h f g (slot h f i) Hf Hg Hne).
  - by apply slot_in_frame.
  - rewrite E. by apply slot_in_frame.
Qed.

Lemma entry_at_eq h m root T p f lvl v :
  pt_wf h m root T -> T !! p = Some f -> entry_at f h lvl v = Ret (slot h f (index_of lvl v)).
Proof.
  intros Hw Hp. destruct (pt_frames Hw _ _ Hp) as (_ & _ & ?).
  unfold entry_at, table_at_frame, phys_to_virt. rewrite add_Ret by klia. cbn [obind].
  by rewrite entry_addr_eq.
Qed.

Lemma pt_closed_none h m root T p i j :
  pt_wf h m root T -> T !! (p ++ [i]) = None -> T !! ((p ++ [i]) ++ [j]) = None.
Proof.
  intros Hw Hn. destruct (T !! ((p ++ [i]) ++ [j])) eqn:E; [|done].
  destruct (pt_closed Hw (p ++ [i]) j) as [g Hg]; [by eexists|]. congruence.
Qed.

(** [walk] finds the leaf slot exactly when the leaf table exists. *)
Lemma walk_ok m mp T v :
  pt_wf (hhdm mp) m (pml4 mp) T ->
  walk m mp v = Ret ((fun f => slot (hhdm mp) f (index_of One v)) <$> T !! path v).
Proof.
  intros Hw. unfold walk, path. pose proof (pt_root Hw) as H0.
  rewrite (entry_at_eq _ _ _ _ _ _ _ _ Hw H0). cbn [obind].
  pose proof (pt_entry Hw [] _ (index_of Four v) H0 ltac:(cbn; lia) (index_of_bound Four v)) as E4.
  cbn [app] in E4. destruct (T !! [index_of Four v]) as [f3|] eqn:H3.
  2: { pose proof (pt_closed_none _ _ _ _ [] _ (index_of Three v) Hw H3) as H2.
       pose proof (pt_closed_none _ _ _ _ [_] _ (index_of Two v) Hw H2) as H1. cbn in H1. rewrite H1.
       destruct E4 as [->|(? & _)]; done. }
  destruct E4 as (Hp & _ & Hf). rewrite entry_frame_eq, Hp. cbn [obind negb]. rewrite Hf.
  rewrite (entry_at_eq _ _ _ _ _ _ _ _ Hw H3). cbn [obind].
  pose proof (pt_entry Hw _ _ (index_of Three v) H3 ltac:(cbn; lia) (index_of_bound Three v)) as E3.
  cbn [app] in E3. destruct (T !! [index_of Four v; index_of Three v]) as [f2|] eqn:H2.
  2: { pose proof (pt_closed_none _ _ _ _ [_] _ (index_of Two v) Hw H2) as H1. cbn in H1. rewrite H1.
       destruct E3 as [->|(_ & -> & ->)]; done. }
  destruct E3 as (Hp3 & Hh3 & Hf3). rewrite entry_frame_eq, Hp3, Hh3. cbn [obind negb orb]. rewrite Hf3.
  rewrite (entry_at_eq _ _ _ _ _ _ _ _ Hw H2). cbn [obind].
  pose proof (pt_entry Hw _ _ (index_of Two v) H2 ltac:(cbn; lia) (index_of_bound Two v)) as E2.
  cbn [app] in E2. destruct (T !! [index_of Four v; index_of Three v; index_of Two v]) as [f1|] eqn:H1.
  2: { destruct E2 as [->|(_ & -> & ->)]; done. }
  destruct E2 as (Hp2 & Hh2 & Hf2). rewrite entry_frame_eq, Hp2, Hh2. cbn [obind negb orb]. rewrite Hf2.
  by rewrite (entry_at_eq _ _ _ _ _ _ _ _ Hw H1).
Qed.

(** What a leaf entry translates an address to. *)
Definition target (v e : Z) : Z * Z :=
  (Z.land e PHYS_MASK + v mod PAGE_SIZE, page_flags_from_entry_flags (PageTableEntry.flags e)).

Lemma masked_bounds e : 0 <= Z.land e PHYS_MASK <= PhysAddr.MAX - 4095.
Proof.
  assert (Z.land e PHYS_MASK = Z.shiftl (Z.land (Z.shiftr e 12) (Z.ones 40)) 12) as ->.
  { change PHYS_MASK with (Z.shiftl (Z.ones 40) 12). apply Z.bits_inj'. intros n Hn.
    rewrite Z.land_spec, !Z.shiftl_spec, Z.land_spec by done.
    destruct (Z.lt_ge_cases n 12).
    - rewrite !(Z.testbit_neg_r _ (n - 12)) by lia. by rewrite andb_false_r.
    - rewrite Z.shiftr_spec by lia. by replace (n - 12 + 12) with n by lia. }
  rewrite Z.land_ones, Z.shiftl_mul_pow2, PhysAddr_MAX_val by lia.
  pose proof (Z.mod_pos_bound (Z.shiftr e 12) (2 ^ 40)). change (2 ^ 40) with 1099511627776 in *. lia.
Qed.

Lemma translate_ok m mp T v :
  pt_wf (hhdm mp) m (pml4 mp) T ->
  translate m mp v = Ret (target v <$> lookup (hhdm mp) m T v).
Proof.
  intros Hw. unfold translate, lookup. rewrite (walk_ok _ _ _ _ Hw). cbn [obind].
  destruct (T !! path v) as [f|]; cbn [fmap option_fmap option_map]; [|done].
  set (e := read64 m _). destruct (PageTableEntry.is_present e) eqn:Hp; cbn [negb]; [|done].
  rewrite entry_frame_eq, Hp. cbn [obind]. rewrite land_align_mask by (reflexivity || klia).
  pose proof (masked_bounds e). unfold PhysAddr.checked_add, checked_add, PhysAddr.new.
  assert (0 <= v mod PAGE_SIZE < 4096) by klia. rewrite PhysAddr_MAX_val in *.
  rewrite (proj2 (Z.ltb_lt _ _)), (proj2 (Z.leb_le _ _)) by lia. done.
Qed.

(** Writing one leaf entry. *)
Lemma set_leaf_wf h m root T v f e :
  pt_wf h m root T -> T !! path v = Some f ->
  pt_wf h (write64 m (slot h f (index_of One v)) e) root T.
Proof.
  intros Hw Hf. split; try apply Hw. intros p g i Hp Hl Hi.
  destruct (pt_frames Hw _ _ Hf) as [? _]. destruct (pt_frames Hw _ _ Hp) as [? _].
  rewrite read_write_ne; [by apply (pt_entry Hw)|].
  apply slot_ne; try done; [|apply index_of_bound]. intros ->.
  assert (path v = p) by (by eapply (pt_inj Hw)). subst p. cbn in Hl. lia.
Qed.

Lemma same_path v v' :
  path v' = path v -> index_of One v' = index_of One v -> page_of v' = page_of v.
Proof. unfold path. intros [= E4 E3 E2] E1. by rewrite !page_of_indices, E1, E2, E3, E4. Qed.

Lemma page_of_path v v' : page_of v' = page_of v -> path v' = path v.
Proof. intros E. unfold path. by rewrite !(indices_of_page _ v' v E). Qed.

Lemma set_leaf_lookup h m root T v f e v' :
  pt_wf h m root T -> T !! path v = Some f ->
  lookup h (write64 m (slot h f (index_of One v)) e) T v' =
    if decide (page_of v' = page_of v)
    then (if PageTableEntry.is_present e then Some e else None)
    else lookup h m T v'.
Proof.
  intros Hw Hf. unfold lookup. case_decide as Hpg.
  - rewrite (page_of_path _ _ Hpg), Hf, (indices_of_page One v' v Hpg), read_write_eq. done.
  - destruct (T !! path v') as [f'|] eqn:Hf'; [|done]. rewrite read_write_ne; [done|]. intros E.
    destruct (decide (f = f')) as [<-|Hne].
    + apply slot_inj in E. apply Hpg, same_path; [|done]. by eapply (pt_inj Hw).
    + destruct (pt_frames Hw _ _ Hf) as [? _]. destruct (pt_frames Hw _ _ Hf') as [? _].
      revert E. apply slot_ne; try done; apply index_of_bound.
Qed.

(** The entries the descent reads decide it. *)
Lemma huge_along_same h m m' root T q : forall p f,
  pt_wf h m root T -> T !! p = Some f -> (length p + length q <= 3)%nat ->
  (forall i, i ∈ q -> 0 <= i < 512) ->
  (forall p f i, T !! p = Some f -> (length p < 3)%nat -> 0 <= i < 512 ->
     read64 m' (slot h f i) = read64 m (slot h f i)) ->
  huge_along h m' f q = huge_along h m f q.
Proof.
  intros p f Hw. revert p f. induction q as [|i q IH]; intros p f Hp Hl Hi Hs; cbn [huge_along]; [done|].
  cbn in Hl. assert (Hi' : 0 <= i < 512) by (apply Hi; left). rewrite (Hs p) by (done || lia).
  pose proof (pt_entry Hw p f i Hp ltac:(lia) Hi') as He.
  destruct (T !! (p ++ [i])) as [g|] eqn:Hg.
  - destruct He as (_ & _ & ->). do 2 f_equal. apply (IH (p ++ [i])); try done; [rewrite length_app; cbn; lia|].
    intros j Hj. apply Hi. by right.
  - destruct He as [->|(_ & -> & ->)]; done.
Qed.

Lemma path_bounds v i : i ∈ path v -> 0 <= i < 512.
Proof. unfold path. rewrite !elem_of_cons, elem_of_nil. intros Hi. destruct_or?; subst; apply index_of_bound || done. Qed.

Lemma set_leaf_huge h m root T v f e v' :
  pt_wf h m root T -> T !! path v = Some f ->
  huge_along h (write64 m (slot h f (index_of One v)) e) root (path v') = huge_along h m root (path v').
Proof.
  intros Hw Hf. apply (huge_along_same h m _ root T _ []); try done; [apply (pt_root Hw)|apply path_bounds|].
  intros p g i Hp Hl Hi. apply read_write_ne.
  destruct (pt_frames Hw _ _ Hf) as [? _]. destruct (pt_frames Hw _ _ Hp) as [? _].
  apply slot_ne; try done; [|apply index_of_bound]. intros ->.
  assert (path v = p) by (by eapply (pt_inj Hw)). subst p. cbn in Hl. lia.
Qed.

(** A huge entry on the way to [q]. *)
Lemma huge_along_at h m root T p i k : forall p0 f0 f,
  pt_wf h m root T -> T !! p0 = Some f0 -> T !! (p0 ++ p) = Some f -> (length p0 + length p < 3)%nat ->
  (forall j, j ∈ p -> 0 <= j < 512) ->
  PageTableEntry.is_present (read64 m (slot h f i)) = true -> PageTableEntry.is_huge (read64 m (slot h f i)) = true ->
  huge_along h m f0 (p ++ i :: k) = true.
Proof.
  intros p0 f0 f Hw. revert p0 f0. induction p as [|j p IH]; intros p0 f0 H0 Hf Hl Hi Hp Hh; cbn [app huge_along].
  { rewrite app_nil_r in Hf. rewrite Hf in H0. injection H0 as ->. by rewrite Hp, Hh. }
  cbn in Hl. pose proof (pt_entry Hw p0 f0 j H0 ltac:(lia) ltac:(apply Hi; left)) as He.
  destruct (T !! (p0 ++ [j])) as [g|] eqn:Hg.
  - destruct He as (-> & -> & ->). cbn. apply (IH (p0 ++ [j]) g); try done; rewrite <- ?app_assoc; try done.
    + rewrite length_app. cbn. lia.
    + intros x Hx. apply Hi. by right.
  - exfalso. assert (Hnone : forall k, T !! (p0 ++ [j] ++ k) = None).
    { induction k0 as [|x k0 IHk] using rev_ind; [by rewrite app_nil_r|].
      destruct (T !! (p0 ++ [j] ++ k0 ++ [x])) eqn:E; [|done]. rewrite !app_assoc, <- (app_assoc p0) in E.
      destruct (pt_closed Hw ((p0 ++ [j]) ++ k0) x) as [y Hy]; [rewrite <- !app_assoc in *; by eexists|].
      rewrite <- app_assoc in Hy. congruence. }
    change (j :: p) with ([j] ++ p) in Hf. by rewrite Hnone in Hf.
Qed.

Definition table_flags : Z :=
  EntryFlags.or (EntryFlags.or EntryFlags.PRESENT EntryFlags.WRITABLE) EntryFlags.USER.

(** The memory after a fresh table at frame [g] is linked into entry [i] of the
    table at frame [f]. *)
Definition linked (h : Z) (m : mem) (f i g : Z) : mem :=
  write64 (PageTable.zero m (g + h)) (slot h f i) (PageTableEntry.new g table_flags).

Lemma linked_other h m f i g w :
  ~ in_frame h g w -> w <> slot h f i -> read64 (linked h m f i g) w = read64 m w.
Proof.
  intros Hg Hne. unfold linked, PageTable.zero. rewrite read_write_ne by done.
  apply zero_words_other. intros j Hj ->. apply Hg. unfold in_frame. klia.
Qed.

Lemma linked_zero h m f i g j :
  PhysFrame.wf PAGE_SIZE f -> PhysFrame.wf PAGE_SIZE g -> f <> g -> 0 <= i < 512 -> 0 <= j < 512 ->
  read64 (linked h m f i g) (slot h g j) = 0.
Proof.
  intros. unfold linked, PageTable.zero. rewrite read_write_ne by (by apply slot_ne).
  unfold slot. replace j with (Z.of_nat (Z.to_nat j)) by lia. apply zero_words_zero. lia.
Qed.

Lemma linked_entry h m f i g p :
  PhysFrame.wf PAGE_SIZE g -> entry_ok p (read64 (linked h m f i g) (slot h f i)) (Some g).
Proof.
  intros Hg. unfold linked. rewrite read_write_eq. cbn.
  unfold PageTableEntry.is_present, PageTableEntry.is_huge.
  rewrite entry_new_flags, entry_new_addr by (done || apply table_flags_ok). by vm_compute.
Qed.

Section link.
Context (h : Z) (m : mem) (root : Z) (T : gmap (list Z) Z) (p : list Z) (f i g : Z).
Context (Hw : pt_wf h m root T) (Hp : T !! p = Some f) (Hl : (length p < 3)%nat) (Hi : 0 <= i < 512).
Context (Hn : T !! (p ++ [i]) = None).
Context (Hg : PhysFrame.wf PAGE_SIZE g /\ 0 < g + h /\ g + h + PAGE_SIZE <= W64).
Context (Hfresh : forall q, T !! q <> Some g).

Lemma link_old_slot q f' j :
  T !! q = Some f' -> 0 <= j < 512 -> (q <> p \/ j <> i) ->
  read64 (linked h m f i g) (slot h f' j) = read64 m (slot h f' j).
Proof using Hw Hp Hi Hg Hfresh.
  intros Hq Hj Hne. destruct (pt_frames Hw _ _ Hp) as [Hfw _]. destruct (pt_frames Hw _ _ Hq) as [Hfw' _].
  assert (f' <> g) by (intros ->; by apply (Hfresh q)). destruct Hg as [Hgw _].
  apply linked_other.
  - intros Hin. apply (in_frame_disjoint h f' g (slot h f' j)); try done; [apply Hfw'|apply Hgw|by apply slot_in_frame].
  - destruct (decide (f' = f)) as [->|]; [|by apply slot_ne].
    intros E%slot_inj. assert (q = p) by (by eapply (pt_inj Hw)). tauto.
Qed.

(** Linking an empty table puts nothing huge in the way. *)
Lemma link_table_huge q : forall p0 f0,
  T !! p0 = Some f0 -> (length p0 + length q <= 3)%nat -> (forall j, j ∈ q -> 0 <= j < 512) ->
  PageTableEntry.is_present (read64 m (slot h f i)) = false ->
  huge_along h (linked h m f i g) f0 q = huge_along h m f0 q.
Proof using Hw Hp Hl Hi Hn Hg Hfresh.
  induction q as [|j q IH]; intros p0 f0 H0 Hlen Hq Hpr; cbn [huge_along]; [done|].
  cbn in Hlen. assert (Hj : 0 <= j < 512) by (apply Hq; left).
  destruct (decide (p0 = p /\ j = i)) as [[-> ->]|Hne].
  - assert (f0 = f) as -> by congruence. rewrite Hpr. destruct Hg as [Hgw _].
    destruct (linked_entry h m f i g p Hgw) as (-> & -> & ->). cbn. destruct q as [|x q]; [done|]. cbn [huge_along].
    destruct (pt_frames Hw _ _ Hp) as [Hfw _].
    rewrite linked_zero; [done|done|done| |done|apply Hq; right; left]. intros ->. by apply (Hfresh p).
  - rewrite (link_old_slot p0) by (done || (destruct (decide (p0 = p)); [right; naive_solver|by left])).
    pose proof (pt_entry Hw p0 f0 j H0 ltac:(lia) Hj) as He. destruct (T !! (p0 ++ [j])) as [g0|] eqn:Hg0.
    + destruct He as (_ & _ & ->). do 2 f_equal. apply (IH (p0 ++ [j])); try done; [rewrite length_app; cbn; lia|].
      intros x Hx. apply Hq. by right.
    + destruct He as [->|(_ & -> & ->)]; done.
Qed.

Lemma link_table_wf : pt_wf h (linked h m f i g) root (<[p ++ [i] := g]> T).
Proof using Hw Hp Hl Hi Hn Hg Hfresh.
  destruct (pt_frames Hw _ _ Hp) as [Hfw _].
  assert (Hfg : f <> g) by (intros ->; by apply (Hfresh p)).
  split.
  - rewrite lookup_insert_ne; [apply Hw|]. by destruct p.
  - intros q1 q2 x. rewrite !lookup_insert_Some.
    intros [[Hq1 Hx]|[? H1]] [[Hq2 Hy]|[? H2]]; try congruence.
    by eapply (pt_inj Hw).
  - intros q x. rewrite lookup_insert_Some. intros [[<- <-]|[? H1]]; [done|by eapply (pt_frames Hw)].
  - intros q j Hs. destruct (decide (p ++ [i] = q)) as [<-|]; [rewrite lookup_insert_eq; by eexists|].
    rewrite (lookup_insert_ne _ (p ++ [i]) q) by done.
    destruct (decide (p ++ [i] = q ++ [j])) as [E|].
    + apply app_inj_tail in E as [<- <-]. by eexists.
    + rewrite lookup_insert_ne in Hs by done. by eapply (pt_closed Hw).
  - intros q x j Hq Hlq Hj. destruct (decide (p ++ [i] = q)) as [<-|Hne].
    + rewrite lookup_insert_eq in Hq. injection Hq as <-. rewrite linked_zero by (done || apply Hg).
      rewrite lookup_insert_ne by (intros E; apply (f_equal length) in E; rewrite !length_app in E; cbn in E; lia).
      rewrite (pt_closed_none _ _ _ _ _ _ _ Hw Hn). by left.
    + rewrite lookup_insert_ne in Hq by done. destruct (decide (p ++ [i] = q ++ [j])) as [E|Hne2].
      * apply app_inj_tail in E as [<- <-]. rewrite lookup_insert_eq.
        assert (x = f) as -> by congruence. apply linked_entry, Hg.
      * rewrite lookup_insert_ne by done. rewrite (link_old_slot q); [by apply (pt_entry Hw)|done|done|].
        destruct (decide (q = p)) as [->|]; [right; by intros ->|by left].
Qed.

Lemma link_table_lookup v : lookup h (linked h m f i g) (<[p ++ [i] := g]> T) v = lookup h m T v.
Proof using Hw Hp Hl Hi Hn Hg Hfresh.
  destruct (pt_frames Hw _ _ Hp) as [Hfw _].
  assert (Hfg : f <> g) by (intros ->; by apply (Hfresh p)).
  unfold lookup. destruct (decide (p ++ [i] = path v)) as [E|Hne].
  - rewrite <- E, lookup_insert_eq, Hn. rewrite linked_zero by (done || apply Hg || apply index_of_bound). done.
  - rewrite lookup_insert_ne by done. destruct (T !! path v) as [f'|] eqn:Hf'; [|done].
    rewrite (link_old_slot (path v)); [done|done|apply index_of_bound|]. left. intros <-. cbn in Hl. lia.
Qed.

End link.

End hierarchy.

(** ** The operations *)
Section operations.
Import PageTableLevel PageTableMapper.
Context {A : Type} `{FrameAllocatorSpec A}.
Implicit Types (w : world A) (mp : t) (T : gmap (list Z) Z) (free live : gset Z).

(** The allocator and the page tables in one memory: no table is free. *)
Record mapper_inv w mp T free live : Prop := {
  mi_mm : mm_state w free live;
  mi_pt : pt_wf (hhdm mp) (memory w) (pml4 mp) T;
  mi_hhdm : hhdm mp = hhdm_offset w;
  mi_tables : forall p f, T !! p = Some f -> f ∉ free;
}.
#[local] Arguments mi_mm {w mp T free live} _.
#[local] Arguments mi_pt {w mp T free live} _.
#[local] Arguments mi_hhdm {w mp T free live} _.
#[local] Arguments mi_tables {w mp T free live} _.

(** Same translations in both worlds. *)
Definition same_leaves (h : Z) w T w' T' : Prop :=
  forall v, lookup h (memory w') T' v = lookup h (memory w) T v.

(** Memory outside page tables and free frames is untouched, the flush log too. *)
Definition tables_only (h : Z) w T free w' : Prop :=
  same_outside (fun x => exists f, (f ∈ free \/ exists p, T !! p = Some f) /\ in_frame h f x)
    (memory w) (memory w') /\ flushed w' = flushed w.

(** What creating tables may do: take frames from the allocator and nothing
    else that is visible. *)
Record creates (h : Z) (n : nat) w T free live w' T' free' live' : Prop := {
  cr_leaves : same_leaves h w T w' T';
  cr_only : tables_only h w T free w';
  cr_free : free' ⊆ free;
  cr_size : (size free <= size free' + n)%nat;
  cr_live : live' = live ∪ free ∖ free';
  cr_tables : forall p f, T' !! p = Some f -> T !! p = Some f \/ f ∈ free;
  cr_old : forall p f, T !! p = Some f -> T' !! p = Some f;
  cr_used : forall f, f ∈ free -> f ∉ free' -> exists p, T' !! p = Some f;
  cr_huge : forall root v, T !! [] = Some root ->
    huge_along h (memory w') root (path v) = huge_along h (memory w) root (path v);
}.

Lemma difference_chain (l f1 f2 f3 : gset Z) :
  f2 ⊆ f1 -> f3 ⊆ f2 -> l ∪ f1 ∖ f2 ∪ f2 ∖ f3 = l ∪ f1 ∖ f3.
Proof.
  intros H1 H2. apply leibniz_equiv. intros x. rewrite !elem_of_union, !elem_of_difference.
  specialize (H1 x). specialize (H2 x). destruct (decide (x ∈ f2)), (decide (x ∈ f3)); naive_solver.
Qed.

Lemma creates_refl h n w T free live : creates h n w T free live w T free live.
Proof.
  split; [done|split; [apply same_outside_refl|done]|done|lia| |by left|done|done|done].
  rewrite difference_diag_L. set_solver.
Qed.

Lemma creates_trans h n1 n2 w1 T1 f1 l1 w2 T2 f2 l2 w3 T3 f3 l3 :
  creates h n1 w1 T1 f1 l1 w2 T2 f2 l2 -> creates h n2 w2 T2 f2 l2 w3 T3 f3 l3 ->
  creates h (n1 + n2) w1 T1 f1 l1 w3 T3 f3 l3.
Proof.
  intros C1 C2. destruct C1 as [L1 [O1 F1] S1 N1 V1 B1 K1 U1 G1], C2 as [L2 [O2 F2] S2 N2 V2 B2 K2 U2 G2]. split.
  - intros v. by rewrite L2, L1.
  - split; [|congruence]. eapply same_outside_trans; [exact O1|exact O2|].
    intros x [Hx|(f & [Hf|(p & Hp)] & Hx)]; [done|exists f; split; [|done]; left; set_solver|].
    destruct (B1 _ _ Hp) as [Ho|Ho]; exists f; split; try done; [right; eauto|by left].
  - set_solver.
  - lia.
  - rewrite V2, V1. by apply difference_chain.
  - intros p f Hp. destruct (B2 _ _ Hp) as [Ho|Ho]; [by apply B1|right; set_solver].
  - auto.
  - intros f Hf Hn. destruct (decide (f ∈ f2)); [by apply U2|]. destruct (U1 f) as [p Hp]; [done|done|]. eauto.
  - intros root v Hr. rewrite G2 by auto. by apply G1.
Qed.

(** One step down an existing table. *)
Lemma next_table_existing w mp T free live p f i g alloc :
  mapper_inv w mp T free live -> T !! p = Some f -> (length p < 3)%nat -> 0 <= i < 512 ->
  T !! (p ++ [i]) = Some g ->
  next_table w (hhdm mp) (slot (hhdm mp) f i) alloc = Ret (Ok (g + hhdm mp), w).
Proof.
  intros Hm Hp Hl Hi Hg. pose proof (pt_entry (mi_pt Hm) p f i Hp Hl Hi) as He. rewrite Hg in He.
  destruct He as (Hpr & Hh & Hfr). unfold next_table. rewrite Hpr. cbn [negb rbind obind].
  rewrite Hh, entry_frame_eq, Hpr. cbn [obind]. rewrite Hfr.
  destruct (pt_frames (mi_pt Hm) _ _ Hg) as (_ & _ & ?).
  unfold table_at_frame, phys_to_virt. by rewrite add_Ret by klia.
Qed.

(** A huge page in the way. *)
Lemma next_table_huge w mp T free live p f i alloc :
  mapper_inv w mp T free live -> PageTableEntry.is_present (read64 (memory w) (slot (hhdm mp) f i)) = true ->
  PageTableEntry.is_huge (read64 (memory w) (slot (hhdm mp) f i)) = true -> T !! p = Some f ->
  next_table w (hhdm mp) (slot (hhdm mp) f i) alloc = Ret (Err AlreadyMapped, w).
Proof. intros Hm Hpr Hh _. unfold next_table. rewrite Hpr. cbn [negb rbind obind]. by rewrite Hh. Qed.

(** A missing table is allocated, zeroed and linked. *)
Lemma next_table_create w mp T free live p f i :
  mapper_inv w mp T free live -> T !! p = Some f -> (length p < 3)%nat -> 0 <= i < 512 ->
  T !! (p ++ [i]) = None -> PageTableEntry.is_present (read64 (memory w) (slot (hhdm mp) f i)) = false ->
  free <> ∅ ->
  exists g w' free' live', next_table w (hhdm mp) (slot (hhdm mp) f i) true = Ret (Ok (g + hhdm mp), w') /\
    mapper_inv w' mp (<[p ++ [i] := g]> T) free' live' /\
    creates (hhdm mp) 1 w T free live w' (<[p ++ [i] := g]> T) free' live'.
Proof.
  intros Hm Hp Hl Hi Hn Hpr Hne. destruct (mm_allocate_some _ _ _ (mi_mm Hm) Hne)
    as (g & w1 & Ea & Hg & Hm1 & Hmem & Hhh & Hflu).
  assert (Hgw := mm_state_wf _ _ _ g (mi_mm Hm) (elem_of_union_l _ _ _ Hg)). rewrite <- (mi_hhdm Hm) in Hgw.
  assert (Hfresh : forall q, T !! q <> Some g) by (intros q Hq; by apply (mi_tables Hm) in Hq).
  assert (Ho : forall x f', f' ∈ free -> f' <> g -> in_frame (hhdm mp) f' x ->
    read64 (linked (hhdm mp) (memory w) f i g) x = read64 (memory w) x).
  { intros x f' Hf' Hfg Hx. destruct (mm_state_wf _ _ _ f' (mi_mm Hm)) as [[_ Hf'm] _]; [by apply elem_of_union_l|].
    apply linked_other; [apply (in_frame_disjoint _ f' g); done || apply Hgw|]. intros ->.
    destruct (pt_frames (mi_pt Hm) _ _ Hp) as [[_ Hfm] _].
    apply (in_frame_disjoint (hhdm mp) f' f (slot (hhdm mp) f i)); try done; [|by apply slot_in_frame].
    intros ->. by apply (mi_tables Hm p f). }
  exists g, (with_memory w1 (linked (hhdm mp) (memory w) f i g)), (free ∖ {[g]}), ({[g]} ∪ live).
  split; [|split].
  - unfold next_table. rewrite Hpr. cbn [negb]. rewrite Ea. cbn [obind]. unfold phys_to_virt at 1.
    rewrite add_Ret by klia. cbn [obind rbind]. rewrite Hmem. fold table_flags. fold (linked (hhdm mp) (memory w) f i g).
    cbn [with_memory memory].
    destruct (linked_entry (hhdm mp) (memory w) f i g []) as (Ep & Eh & Ef); [apply Hgw|].
    rewrite Eh, entry_frame_eq, Ep. cbn [obind]. rewrite Ef.
    unfold table_at_frame, phys_to_virt. by rewrite add_Ret by klia.
  - split.
    + apply mm_state_write; [done|]. intros f' x Hf' Hx. rewrite Hmem. rewrite Hhh, <- (mi_hhdm Hm) in Hx.
      apply (Ho x f'); set_solver.
    + cbn. by apply link_table_wf; [apply (mi_pt Hm)|..].
    + cbn. by rewrite Hhh, (mi_hhdm Hm).
    + intros q x. rewrite lookup_insert_Some. intros [[_ <-]|[_ Hq]]; [set_solver|].
      apply (mi_tables Hm) in Hq. set_solver.
  - split.
    + intros v. cbn. by apply (link_table_lookup _ _ (pml4 mp)); [apply (mi_pt Hm)|..].
    + split; [|done]. intros x Hx. cbn. apply linked_other.
      * intros Hin. apply Hx. exists g. auto.
      * intros ->. apply Hx. exists f. split; [right; eauto|by apply slot_in_frame].
    + set_solver.
    + rewrite size_difference by set_solver. rewrite size_singleton. lia.
    + apply leibniz_equiv. intros x. destruct (decide (x = g)); set_solver.
    + intros q x. rewrite lookup_insert_Some. intros [[_ <-]|[_ Hq]]; auto.
    + intros q x Hq. rewrite lookup_insert_ne; [done|]. intros <-. congruence.
    + intros x Hx Hn'. exists (p ++ [i]). rewrite lookup_insert_Some. left. split; [done|].
      destruct (decide (x = g)); [done|]. exfalso. apply Hn', elem_of_difference. split; [done|]. by intros ->%elem_of_singleton.
    + intros root v Hr. cbn [with_memory memory].
      apply (link_table_huge _ _ (pml4 mp) T p f i g (mi_pt Hm) Hp Hl Hi Hn Hgw Hfresh _ []); try done. apply path_bounds.
Qed.

(** Without [alloc] nothing is created. *)
Lemma next_table_missing w h e :
  PageTableEntry.is_present (read64 (memory w) e) = false ->
  next_table w h e false = Ret (Err FrameAllocationFailed, w).
Proof. intros Hpr. unfold next_table. by rewrite Hpr. Qed.

(** One step of the descent with creation allowed. *)
Lemma next_table_cases w mp T free live p f i :
  mapper_inv w mp T free live -> T !! p = Some f -> (length p < 3)%nat -> 0 <= i < 512 -> free <> ∅ ->
  (next_table w (hhdm mp) (slot (hhdm mp) f i) true = Ret (Err AlreadyMapped, w) /\ T !! (p ++ [i]) = None /\
     PageTableEntry.is_present (read64 (memory w) (slot (hhdm mp) f i)) = true /\
     PageTableEntry.is_huge (read64 (memory w) (slot (hhdm mp) f i)) = true) \/
  exists g w' T' free' live', next_table w (hhdm mp) (slot (hhdm mp) f i) true = Ret (Ok (g + hhdm mp), w') /\
    T' !! (p ++ [i]) = Some g /\ mapper_inv w' mp T' free' live' /\
    creates (hhdm mp) 1 w T free live w' T' free' live'.
Proof.
  intros Hm Hp Hl Hi Hne. destruct (T !! (p ++ [i])) as [g|] eqn:Hg.
  - right. exists g, w, T, free, live. split_and!; try done; [by eapply next_table_existing|apply creates_refl].
  - pose proof (pt_entry (mi_pt Hm) p f i Hp Hl Hi) as He. rewrite Hg in He.
    destruct He as [Hpr|(_ & Hpr & Hh)]; [right|left; split; [by eapply next_table_huge|done]].
    destruct (next_table_create _ _ _ _ _ _ _ _ Hm Hp Hl Hi Hg Hpr Hne) as (g & w' & free' & live' & E & Hm' & Hc).
    exists g, w', (<[p ++ [i] := g]> T), free', live'. split_and!; try done. apply lookup_insert_eq.
Qed.

(** The walk to [v] runs into a huge page. *)
Definition under_huge w mp (v : Z) : bool := huge_along (hhdm mp) (memory w) (pml4 mp) (path v).

(** ... because of entry [i] of the table at [p]. *)
Lemma under_huge_at w mp T free live v p i k f :
  mapper_inv w mp T free live -> path v = p ++ i :: k -> T !! p = Some f ->
  PageTableEntry.is_present (read64 (memory w) (slot (hhdm mp) f i)) = true ->
  PageTableEntry.is_huge (read64 (memory w) (slot (hhdm mp) f i)) = true -> under_huge w mp v = true.
Proof.
  intros Hm Hv Hp Hpr Hh. unfold under_huge. rewrite Hv.
  apply (huge_along_at _ _ _ _ p i k [] (pml4 mp) f (mi_pt Hm)); try done; [apply (pt_root (mi_pt Hm))| |].
  - apply (f_equal length) in Hv. rewrite length_app in Hv. cbn in *. lia.
  - intros j Hj. apply (path_bounds v). rewrite Hv. apply elem_of_app. by left.
Qed.

Lemma nonempty_of_size (X : gset Z) n : (S n <= size X)%nat -> X <> ∅.
Proof. intros Hs ->. rewrite size_empty in Hs. lia. Qed.

Lemma creates_weaken h n n' w T free live w' T' free' live' :
  (n <= n')%nat -> creates h n w T free live w' T' free' live' -> creates h n' w T free live w' T' free' live'.
Proof. intros Hn [? ? ? ? ? ? ? ? ?]. split; try done. lia. Qed.

Lemma prefix_none h m root T v p i :
  pt_wf h m root T -> (p ++ [i]) `prefix_of` path v -> T !! (p ++ [i]) = None -> T !! path v = None.
Proof.
  intros Hw [k ->] Hn. induction k as [|j k IH] using rev_ind; [by rewrite app_nil_r|].
  destruct (T !! ((p ++ [i]) ++ k ++ [j])) eqn:E; [|done]. rewrite app_assoc in E.
  destruct (pt_closed Hw ((p ++ [i]) ++ k) j) as [g Hg]; [by eexists|]. congruence.
Qed.

(** [walk_or_create] with creation reaches the leaf entry or a huge page. *)
Lemma walk_or_create_ok w mp T free live v :
  mapper_inv w mp T free live -> (3 <= size free)%nat ->
  exists r w' T' free' live', walk_or_create w mp v true = Ret (r, w') /\
    mapper_inv w' mp T' free' live' /\ creates (hhdm mp) 3 w T free live w' T' free' live' /\
    match r with
    | Ok a => exists f, T' !! path v = Some f /\ a = slot (hhdm mp) f (index_of One v)
    | Err e => e = AlreadyMapped /\ T' !! path v = None /\ under_huge w mp v = true
    end.
Proof.
  intros Hm Hs. unfold walk_or_create.
  rewrite (entry_at_eq _ _ _ _ _ _ _ _ (mi_pt Hm) (pt_root (mi_pt Hm))). cbn [obind].
  destruct (next_table_cases w mp T free live [] (pml4 mp) (index_of Four v) Hm (pt_root (mi_pt Hm))
    ltac:(cbn; lia) (index_of_bound Four v) (nonempty_of_size _ _ Hs))
    as [(-> & Hn & Hp & Hh)|(g3 & w1 & T1 & fr1 & lv1 & -> & Hg3 & Hm1 & C1)].
  { exists (Err AlreadyMapped), w, T, free, live. split_and!; try done; [apply creates_refl|..].
    - eapply prefix_none; [apply (mi_pt Hm)| |exact Hn]. by apply prefix_cons, prefix_nil.
    - eapply (under_huge_at _ _ _ _ _ v [] (index_of Four v)); [exact Hm|done|apply (pt_root (mi_pt Hm))|done|done]. }
  unfold rbind at 1. cbn [obind]. rewrite entry_addr_eq. cbn [obind]. fold (slot (hhdm mp) g3 (index_of Three v)).
  cbn [app] in Hg3. pose proof (cr_size _ _ _ _ _ _ _ _ _ _ C1).
  destruct (next_table_cases w1 mp T1 fr1 lv1 [index_of Four v] g3 (index_of Three v) Hm1 Hg3
    ltac:(cbn; lia) (index_of_bound Three v) (nonempty_of_size fr1 1 ltac:(lia)))
    as [(-> & Hn & Hp & Hh)|(g2 & w2 & T2 & fr2 & lv2 & -> & Hg2 & Hm2 & C2)].
  { exists (Err AlreadyMapped), w1, T1, fr1, lv1. split_and!; try done; [by eapply creates_weaken; [|exact C1]; lia|..].
    - eapply prefix_none; [apply (mi_pt Hm1)| |exact Hn]. by do 2 apply prefix_cons; apply prefix_nil.
    - unfold under_huge. rewrite <- (cr_huge _ _ _ _ _ _ _ _ _ _ C1) by apply (pt_root (mi_pt Hm)).
      by eapply (under_huge_at _ _ _ _ _ v [index_of Four v] (index_of Three v)); [exact Hm1|..]. }
  unfold rbind at 1. cbn [obind]. rewrite entry_addr_eq. cbn [obind]. fold (slot (hhdm mp) g2 (index_of Two v)).
  cbn [app] in Hg2. pose proof (cr_size _ _ _ _ _ _ _ _ _ _ C2). pose proof (creates_trans _ _ _ _ _ _ _ _ _ _ _ _ _ _ _ C1 C2) as C12.
  destruct (next_table_cases w2 mp T2 fr2 lv2 [index_of Four v; index_of Three v] g2 (index_of Two v) Hm2 Hg2
    ltac:(cbn; lia) (index_of_bound Two v) (nonempty_of_size fr2 0 ltac:(lia)))
    as [(-> & Hn & Hp & Hh)|(g1 & w3 & T3 & fr3 & lv3 & -> & Hg1 & Hm3 & C3)].
  { exists (Err AlreadyMapped), w2, T2, fr2, lv2. split_and!; try done; [by eapply creates_weaken; [|exact C12]; lia|].
    unfold under_huge. rewrite <- (cr_huge _ _ _ _ _ _ _ _ _ _ C12) by apply (pt_root (mi_pt Hm)).
    by eapply (under_huge_at _ _ _ _ _ v [index_of Four v; index_of Three v] (index_of Two v)); [exact Hm2|..]. }
  unfold rbind at 1. cbn [obind]. rewrite entry_addr_eq. cbn [obind].
  eexists _, w3, T3, fr3, lv3. split; [reflexivity|]. split_and!; try done.
  - exact (creates_trans _ _ _ _ _ _ _ _ _ _ _ _ _ _ _ C12 C3).
  - by exists g1.
Qed.

(** Without creation the walk changes nothing. *)
Lemma next_table_find w mp T free live p f i :
  mapper_inv w mp T free live -> T !! p = Some f -> (length p < 3)%nat -> 0 <= i < 512 ->
  match T !! (p ++ [i]) with
  | Some g => next_table w (hhdm mp) (slot (hhdm mp) f i) false = Ret (Ok (g + hhdm mp), w)
  | None => exists e, next_table w (hhdm mp) (slot (hhdm mp) f i) false = Ret (Err e, w)
  end.
Proof.
  intros Hm Hp Hl Hi. destruct (T !! (p ++ [i])) as [g|] eqn:Hg; [by eapply next_table_existing|].
  pose proof (pt_entry (mi_pt Hm) p f i Hp Hl Hi) as He. rewrite Hg in He.
  destruct He as [Hpr|(_ & Hpr & Hh)]; eexists; [by apply next_table_missing|by eapply next_table_huge].
Qed.

Lemma walk_find_ok w mp T free live v :
  mapper_inv w mp T free live ->
  exists r, walk_or_create w mp v false = Ret (r, w) /\
    match T !! path v with
    | Some f => r = Ok (slot (hhdm mp) f (index_of One v))
    | None => exists e, r = Err e
    end.
Proof.
  intros Hm. unfold walk_or_create. pose proof (mi_pt Hm) as Hw.
  rewrite (entry_at_eq _ _ _ _ _ _ _ _ Hw (pt_root Hw)). cbn [obind].
  pose proof (next_table_find w mp T free live [] _ (index_of Four v) Hm (pt_root Hw) ltac:(cbn; lia) (index_of_bound _ v)) as E4.
  cbn [app] in E4. destruct (T !! [index_of Four v]) as [g3|] eqn:H3.
  2: { rewrite (prefix_none _ _ _ _ v [] (index_of Four v) Hw); [|by apply prefix_cons, prefix_nil|done].
       destruct E4 as [e ->]. eexists. by split; [|eexists]. }
  rewrite E4. unfold rbind at 1. cbn [obind]. rewrite entry_addr_eq. cbn [obind].
  pose proof (next_table_find w mp T free live _ _ (index_of Three v) Hm H3 ltac:(cbn; lia) (index_of_bound _ v)) as E3.
  unfold slot in E3. cbn [app] in E3. destruct (T !! [index_of Four v; index_of Three v]) as [g2|] eqn:H2.
  2: { rewrite (prefix_none _ _ _ _ v [index_of Four v] (index_of Three v) Hw); [|by do 2 apply prefix_cons; apply prefix_nil|done].
       destruct E3 as [e ->]. eexists. by split; [|eexists]. }
  rewrite E3. unfold rbind at 1. cbn [obind]. rewrite entry_addr_eq. cbn [obind].
  pose proof (next_table_find w mp T free live _ _ (index_of Two v) Hm H2 ltac:(cbn; lia) (index_of_bound _ v)) as E2.
  unfold slot in E2. cbn [app] in E2. unfold path.
  destruct (T !! [index_of Four v; index_of Three v; index_of Two v]) as [g1|] eqn:H1.
  - rewrite E2. unfold rbind. cbn [obind]. rewrite entry_addr_eq. by eexists.
  - destruct E2 as [e ->]. eexists. by split; [|eexists].
Qed.

(** [unmap]'s own descent. *)
Lemma unmap_level_ok w mp T free live p f lvl v chk :
  mapper_inv w mp T free live -> T !! p = Some f -> (length p < 3)%nat -> (chk = true \/ p = []) ->
  match T !! (p ++ [index_of lvl v]) with
  | Some g => unmap_level (memory w) (hhdm mp) f lvl v chk = Ret (Ok g)
  | None => exists e, unmap_level (memory w) (hhdm mp) f lvl v chk = Ret (Err e)
  end.
Proof.
  intros Hm Hp Hl Hchk. unfold unmap_level. rewrite (entry_at_eq _ _ _ _ _ _ _ _ (mi_pt Hm) Hp). cbn [obind].
  pose proof (pt_entry (mi_pt Hm) p f (index_of lvl v) Hp Hl (index_of_bound lvl v)) as He.
  destruct (T !! (p ++ [index_of lvl v])) as [g|].
  - destruct He as (Hpr & Hh & Hfr). rewrite Hpr, Hh, entry_frame_eq, Hpr, andb_false_r. cbn. by rewrite Hfr.
  - destruct He as [->|(Hpn & -> & ->)]; [by eexists|]. destruct Hchk as [->|?]; [by eexists|done].
Qed.

(** [unmap] is the deletion of the leaf entry. *)
Lemma unmap_ok w mp T free live v :
  mapper_inv w mp T free live -> v mod PAGE_SIZE = 0 ->
  match lookup (hhdm mp) (memory w) T v with
  | None => exists e, unmap w mp v = Ret (Err e, w)
  | Some e => exists f, T !! path v = Some f /\
      unmap w mp v = Ret (Ok (Z.land e PHYS_MASK, v),
                          with_memory w (write64 (memory w) (slot (hhdm mp) f (index_of One v)) 0))
  end.
Proof.
  intros Hm Hv. unfold unmap. rewrite VirtAddr_is_aligned_eq, Hv by (reflexivity || klia). cbn [obind Z.eqb negb].
  pose proof (mi_pt Hm) as Hw. unfold lookup.
  pose proof (unmap_level_ok w mp T free live [] _ Four v false Hm (pt_root Hw) ltac:(cbn; lia) ltac:(by right)) as E4.
  cbn [app] in E4. destruct (T !! [index_of Four v]) as [g3|] eqn:H3.
  2: { rewrite (prefix_none _ _ _ _ v [] (index_of Four v) Hw); [|by apply prefix_cons, prefix_nil|done].
       destruct E4 as [e ->]. by eexists. }
  rewrite E4. cbn [obind].
  pose proof (unmap_level_ok w mp T free live _ _ Three v true Hm H3 ltac:(cbn; lia) ltac:(by left)) as E3.
  cbn [app] in E3. destruct (T !! [index_of Four v; index_of Three v]) as [g2|] eqn:H2.
  2: { rewrite (prefix_none _ _ _ _ v [index_of Four v] (index_of Three v) Hw); [|by do 2 apply prefix_cons; apply prefix_nil|done].
       destruct E3 as [e ->]. by eexists. }
  rewrite E3. cbn [obind].
  pose proof (unmap_level_ok w mp T free live _ _ Two v true Hm H2 ltac:(cbn; lia) ltac:(by left)) as E2.
  cbn [app] in E2. unfold path. destruct (T !! [index_of Four v; index_of Three v; index_of Two v]) as [g1|] eqn:H1.
  2: { destruct E2 as [e ->]. by eexists. }
  rewrite E2. cbn [obind]. rewrite (entry_at_eq _ _ _ _ _ _ _ _ Hw H1). cbn [obind].
  destruct (PageTableEntry.is_present _) eqn:Hpr; [|by eexists].
  exists g1. split; [done|]. cbn [negb]. by rewrite entry_frame_eq, Hpr.
Qed.

(** Writing a leaf entry keeps the invariant. *)
Lemma set_leaf_inv w mp T free live v f e :
  mapper_inv w mp T free live -> T !! path v = Some f ->
  mapper_inv (with_memory w (write64 (memory w) (slot (hhdm mp) f (index_of One v)) e)) mp T free live.
Proof.
  intros Hm Hf. split; [|cbn; by apply set_leaf_wf; [apply (mi_pt Hm)|]|apply (mi_hhdm Hm)|apply (mi_tables Hm)].
  apply mm_state_write; [apply (mi_mm Hm)|]. intros g x Hg Hx. apply read_write_ne. intros <-.
  destruct (pt_frames (mi_pt Hm) _ _ Hf) as [[_ ?] _].
  destruct (mm_state_wf _ _ _ g (mi_mm Hm)) as [[_ ?] _]; [by apply elem_of_union_l|].
  rewrite <- (mi_hhdm Hm) in Hx. revert Hx. apply (in_frame_disjoint _ f g); try done.
  - intros ->. by apply (mi_tables Hm _ _ Hf).
  - apply slot_in_frame, index_of_bound.
Qed.

(** A fresh mapper: one zeroed table. *)
Lemma create_mapper_ok w free live root :
  mm_state w free live -> root ∈ live ->
  exists mp w', create_mapper w root = Ret (mp, w') /\
    mapper_inv w' mp {[ [] := root ]} free live /\ pml4 mp = root /\
    flushed w' = flushed w /\ same_outside (in_frame (hhdm_offset w) root) (memory w) (memory w').
Proof.
  intros Hm Hr. assert (Hw := mm_state_wf _ _ _ root Hm (elem_of_union_r _ _ _ Hr)).
  unfold create_mapper. rewrite add_Ret by klia. cbn [obind].
  assert (Hsame : same_outside (in_frame (hhdm_offset w) root) (memory w)
                    (zero_words (memory w) (root + hhdm_offset w) 512)).
  { intros x Hx. apply zero_words_other. intros j Hj ->. apply Hx. unfold in_frame. klia. }
  assert (Hzero : forall i, 0 <= i < 512 ->
    read64 (zero_words (memory w) (root + hhdm_offset w) 512) (slot (hhdm_offset w) root i) = 0).
  { intros i Hi. unfold slot. replace i with (Z.of_nat (Z.to_nat i)) by lia. apply zero_words_zero. lia. }
  revert Hsame Hzero. generalize (zero_words (memory w) (root + hhdm_offset w) 512). intros m' Hsame Hzero.
  eexists _, _. split; [reflexivity|]. split_and!; try done. split; cbn.
  - apply mm_state_write; [done|]. intros f x Hf Hx. apply Hsame.
    destruct (mm_state_wf _ _ _ f Hm) as [[_ ?] _]; [by apply elem_of_union_l|]. destruct Hw as [[_ ?] _].
    apply (in_frame_disjoint _ f root); try done. intros ->. by apply (mm_state_disjoint _ _ _ Hm root).
  - split; cbn.
    + apply lookup_singleton_eq.
    + intros p q f [<- _]%lookup_singleton_Some [<- _]%lookup_singleton_Some. done.
    + intros p f [_ <-]%lookup_singleton_Some. done.
    + intros p i [x [E _]%lookup_singleton_Some]. by destruct p.
    + intros p f i [<- <-]%lookup_singleton_Some _ Hi. cbn [app]. rewrite lookup_singleton_ne by done.
      left. by rewrite Hzero.
  - done.
  - intros p f [_ <-]%lookup_singleton_Some Hf. by apply (mm_state_disjoint _ _ _ Hm root).
Qed.

(** ** Properties *)

(** A hierarchy made by [create_mapper] from an owned frame translates no
    address, and only that frame's memory is written. *)
Theorem create_mapper_empty w free live root :
  mm_state w free live -> root ∈ live ->
  exists mp w', create_mapper w root = Ret (mp, w') /\ mapper_inv w' mp {[ [] := root ]} free live /\
    (forall v, translate (memory w') mp v = Ret None) /\
    same_outside (in_frame (hhdm_offset w) root) (memory w) (memory w').
Proof.
  intros Hm Hr. destruct (create_mapper_ok w free live root Hm Hr) as (mp & w' & E & Hi & _ & _ & Hs).
  exists mp, w'. split_and!; try done. intros v. rewrite (translate_ok _ _ _ _ (mi_pt Hi)).
  unfold lookup. by rewrite lookup_singleton_ne by done.
Qed.

Lemma translate_same w mp T free live w' T' free' live' v :
  mapper_inv w mp T free live -> mapper_inv w' mp T' free' live' ->
  lookup (hhdm mp) (memory w') T' v = lookup (hhdm mp) (memory w) T v ->
  translate (memory w') mp v = translate (memory w) mp v.
Proof. intros Hm Hm' E. by rewrite (translate_ok _ _ _ _ (mi_pt Hm)), (translate_ok _ _ _ _ (mi_pt Hm')), E. Qed.

(** The leaf entry that [map] and [remap] write translates the whole page. *)
Lemma translate_leaf m mp T v f frame pf off :
  pt_wf (hhdm mp) m (pml4 mp) T -> T !! path v = Some f -> v mod PAGE_SIZE = 0 -> 0 <= off < PAGE_SIZE ->
  PhysFrame.wf PAGE_SIZE frame -> PageFlags.valid pf ->
  translate (write64 m (slot (hhdm mp) f (index_of One v))
               (PageTableEntry.new frame (entry_flags_from_page_flags pf))) mp (v + off) =
    Ret (Some (frame + off, PageFlags.or pf PageFlags.READ)).
Proof.
  intros Hw Hf Hv Hoff Hfr Hpf.
  rewrite (translate_ok _ _ _ _ (set_leaf_wf _ _ _ _ v f _ Hw Hf)).
  destruct (entry_flags_ok pf) as (Hfw & Hp & _).
  rewrite (set_leaf_lookup _ _ _ _ _ _ _ _ Hw Hf), decide_True.
  2: { unfold page_of. f_equal. klia. }
  unfold PageTableEntry.is_present. rewrite entry_new_flags, Hp by done. cbn. unfold target.
  rewrite entry_new_addr, entry_new_flags by done.
  assert ((v + off) mod PAGE_SIZE = off) as -> by klia. do 3 f_equal.
  by apply page_flags_convert.
Qed.

(** [map] creates tables, then inserts the leaf entry unless one is present. *)
Lemma map_ok w mp T free live v frame pf :
  mapper_inv w mp T free live -> (3 <= size free)%nat ->
  v mod PAGE_SIZE = 0 -> VirtAddr.is_canonical v = true ->
  exists w1 T' free' live', mapper_inv w1 mp T' free' live' /\
    creates (hhdm mp) 3 w T free live w1 T' free' live' /\
    ((map w mp v frame pf = Ret (Err (frame, AlreadyMapped), w1) /\
      ((exists e, lookup (hhdm mp) (memory w) T v = Some e) \/ under_huge w mp v = true)) \/
     (lookup (hhdm mp) (memory w) T v = None /\ exists f, T' !! path v = Some f /\
      map w mp v frame pf =
        Ret (Ok v, with_memory w1 (write64 (memory w1) (slot (hhdm mp) f (index_of One v))
                                     (PageTableEntry.new frame (entry_flags_from_page_flags pf)))))).
Proof.
  intros Hm Hs Hv Hcan. unfold map, VirtAddr.is_canonical_addr.
  rewrite VirtAddr_is_aligned_eq, Hv, Hcan by (reflexivity || klia). cbn [obind Z.eqb negb].
  destruct (walk_or_create_ok w mp T free live v Hm Hs) as (r & w1 & T' & fr & lv & -> & Hm1 & Hc & Hr). cbn [obind].
  exists w1, T', fr, lv. split; [done|]. split; [done|]. destruct r as [a|e].
  - destruct Hr as (f & Hf & ->). rewrite <- (cr_leaves _ _ _ _ _ _ _ _ _ _ Hc v). unfold lookup. rewrite Hf.
    destruct (PageTableEntry.is_present _); [left|right]; [by split; [|left; eexists]|by split; [|exists f]].
  - destruct Hr as (-> & _ & Hh). left. by split; [|right].
Qed.

(** C3: [map] of a page-aligned canonical address, with three frames to spare
    for tables, never panics.  On success the address was not translated before,
    every address of the page now translates to the given frame with the given
    flags (and [READ]), and the flush token names the page.  It fails only with
    [AlreadyMapped], giving the frame back, when the page is translated or lies
    under a huge page.  In every case the translation of all other pages is
    unchanged and the tables' frames come out of the allocator's free set. *)
Theorem mapper_map_correct w mp T free live v frame pf :
  mapper_inv w mp T free live -> (3 <= size free)%nat ->
  v mod PAGE_SIZE = 0 -> VirtAddr.is_canonical v = true ->
  PhysFrame.wf PAGE_SIZE frame -> PageFlags.valid pf ->
  exists res w' T' free' live', map w mp v frame pf = Ret (res, w') /\
    mapper_inv w' mp T' free' live' /\ free' ⊆ free /\ live' = live ∪ free ∖ free' /\
    (forall v', page_of v' <> page_of v -> translate (memory w') mp v' = translate (memory w) mp v') /\
    match res with
    | Ok token => token = v /\ translate (memory w) mp v = Ret None /\
        forall off, 0 <= off < PAGE_SIZE ->
          translate (memory w') mp (v + off) = Ret (Some (frame + off, PageFlags.or pf PageFlags.READ))
    | Err (f, e) => f = frame /\ e = AlreadyMapped /\
        translate (memory w') mp v = translate (memory w) mp v /\
        ((exists r, translate (memory w) mp v = Ret (Some r)) \/ under_huge w mp v = true)
    end.
Proof.
  intros Hm Hs Hv Hcan Hfr Hpf.
  destruct (map_ok w mp T free live v frame pf Hm Hs Hv Hcan) as (w1 & T' & fr & lv & Hm' & Hc & Hr).
  pose proof (fun v' => translate_same _ _ _ _ _ _ _ _ _ v' Hm Hm' (cr_leaves _ _ _ _ _ _ _ _ _ _ Hc v')) as Hsame.
  pose proof (translate_ok _ _ _ v (mi_pt Hm)) as Htr.
  destruct Hr as [(E & Hr)|(Hn & f & Hf & E)].
  - exists (Err (frame, AlreadyMapped)), w1, T', fr, lv. split_and!; try done; try apply Hc; auto.
    destruct Hr as [(e & He)|Hh]; [|by right]. left. rewrite He in Htr. by eexists.
  - eexists _, _, T', fr, lv. split; [exact E|]. split_and!; try apply Hc; try done.
    + by apply set_leaf_inv.
    + intros v' Hne. rewrite <- Hsame.
      eapply translate_same; [exact Hm'|by apply set_leaf_inv|].
      cbn [with_memory memory]. by rewrite (set_leaf_lookup _ _ _ _ _ _ _ _ (mi_pt Hm') Hf), decide_False by done.
    + by rewrite Htr, Hn.
    + intros off Hoff. cbn [with_memory memory]. by apply (translate_leaf _ _ T'); [apply (mi_pt Hm')|..].
Qed.

(** C9: [unmap] of a page-aligned address returns exactly the frame the page
    was translated to, together with a flush token for the page; afterwards no
    address of the page is translated and every other page is unchanged.  When the
    page is not translated it returns an error and changes nothing. *)
Theorem mapper_unmap_correct w mp T free live v :
  mapper_inv w mp T free live -> v mod PAGE_SIZE = 0 ->
  match translate (memory w) mp v with
  | Ret (Some (frame, _)) => exists w', unmap w mp v = Ret (Ok (frame, v), w') /\
      mapper_inv w' mp T free live /\
      (forall v', translate (memory w') mp v' =
         if decide (page_of v' = page_of v) then Ret None else translate (memory w) mp v')
  | Ret None => exists e, unmap w mp v = Ret (Err e, w)
  | _ => False
  end.
Proof.
  intros Hm Hv. rewrite (translate_ok _ _ _ _ (mi_pt Hm)). pose proof (unmap_ok w mp T free live v Hm Hv) as Hu.
  destruct (lookup (hhdm mp) (memory w) T v) as [e|]; cbn; [|done].
  destruct Hu as (f & Hf & ->). rewrite Hv, Z.add_0_r. eexists. split; [reflexivity|].
  pose proof (set_leaf_inv _ _ _ _ _ _ _ 0 Hm Hf) as Hm'. split; [done|]. intros v'.
  rewrite (translate_ok _ _ _ _ (mi_pt Hm')), (translate_ok _ _ _ _ (mi_pt Hm)). cbn [with_memory memory].
  rewrite (set_leaf_lookup _ _ _ _ _ _ _ _ (mi_pt Hm) Hf). by case_decide.
Qed.


(** When the first table on the way is missing and no frame is free, [map]
    panics inside [mm::allocate] instead of returning the documented
    [FrameAllocationFailed]. *)
Theorem mapper_map_exhausted_panics w mp T live v frame pf :
  mapper_inv w mp T ∅ live -> v mod PAGE_SIZE = 0 -> VirtAddr.is_canonical v = true ->
  T !! [index_of Four v] = None ->
  map w mp v frame pf = Panic "out of physical memory".
Proof.
  intros Hm Hv Hcan Hn. unfold map, VirtAddr.is_canonical_addr.
  rewrite VirtAddr_is_aligned_eq, Hv, Hcan by (reflexivity || klia). cbn [obind Z.eqb negb].
  unfold walk_or_create. rewrite (entry_at_eq _ _ _ _ _ _ _ _ (mi_pt Hm) (pt_root (mi_pt Hm))). cbn [obind].
  pose proof (pt_entry (mi_pt Hm) [] _ (index_of Four v) (pt_root (mi_pt Hm)) ltac:(cbn; lia) (index_of_bound Four v)) as He.
  cbn [app] in He. rewrite Hn in He. destruct He as [Hpr|(? & _)]; [|done].
  unfold next_table at 1. rewrite Hpr. cbn [negb]. by rewrite (mm_allocate_none _ _ (mi_mm Hm)).
Qed.

End operations.

(** ** Witnesses: a hierarchy over the bitmap allocator *)
Module MapperDemo.
Import PageTableMapper.

Definition hhdm0 : Z := 0xffff800000000000.

(** Sixteen frames, of which [n] are given to the allocator. *)
Definition boot_world (n : Z) : world BitmapAllocator.t :=
  match BitmapAllocator.new [0; 0] hhdm0 0x10000 with
  | Ret a =>
      match BitmapAllocator.add_region ∅ a 0x1000 (n * 0x1000) with
      | Ret (m, a) => mk_world m false (Some a) hhdm0 []
      | _ => mk_world ∅ true None hhdm0 []
      end
  | _ => mk_world ∅ true None hhdm0 []
  end.

Lemma boot_state n :
  0 <= n <= 8 -> exists free, mm_state (boot_world n) free ∅ /\ size free = Z.to_nat n.
Proof.
  intros Hn. destruct (bitmap_new_ok [0; 0] hhdm0 0x10000 ∅) as (a & Ea & Hi & Ht & Hh).
  { set_solver. } { rewrite PhysAddr_MAX_val. lia. } { by vm_compute. }
  assert (Hcount : region_count 0x1000 (n * 0x1000) = Z.to_nat n).
  { unfold region_count. change (region_first 0x1000) with 0x1000. f_equal. klia. }
  assert (Hfr : forall g, g ∈ frames_from (region_first 0x1000) (region_count 0x1000 (n * 0x1000)) ->
    BitmapInv.managed a g).
  { intros g (i & Hi' & ->)%elem_of_frames_from. rewrite Hcount in Hi'. change (region_first 0x1000) with 0x1000.
    unfold BitmapInv.managed, PhysFrame.wf, PhysAddr.valid, PhysFrame.index. rewrite Ht, Hh, PhysAddr_MAX_val.
    unfold hhdm0. klia. }
  destruct (bitmap_add_region_ok ∅ a [] ∅ 0x1000 (n * 0x1000) Hi) as (m' & a' & Er & Hi' & _ & Hh' & _);
    [lia|by vm_compute|lia|rewrite PhysAddr_MAX_val; lia|intros g Hg; split_and!; [by apply Hfr|set_solver|set_solver]|].
  unfold boot_world. rewrite Ea, Er.
  exists (list_to_set (reverse (frames_from (region_first 0x1000) (region_count 0x1000 (n * 0x1000))) ++ [])). split.
  - split; [done|]. exists a'. split; [done|]. eexists. split_and!; [exact Hi'|reflexivity|].
    cbn [hhdm_offset]. by rewrite Hh', Hh.
  - rewrite size_list_to_set by apply Hi'. rewrite length_app, length_reverse, Nat.add_0_r, Hcount.
    generalize (region_first 0x1000). clear. induction (Z.to_nat n) as [|k IH]; intros b; cbn [frames_from length]; [done|].
    by rewrite IH.
Qed.

Definition root_alloc (n : Z) : Z * world BitmapAllocator.t :=
  match mm_allocate (boot_world n) with Ret r => r | _ => (0, boot_world n) end.

Lemma root_state n :
  0 < n <= 8 ->
  exists free live, mm_state (root_alloc n).2 free live /\ (root_alloc n).1 ∈ live /\ size free = (Z.to_nat n - 1)%nat.
Proof.
  intros Hn. destruct (boot_state n) as (free & Hm & Hs); [lia|].
  destruct (mm_allocate_some _ _ _ Hm) as (f & w & E & Hf & Hm' & _).
  { intros ->. rewrite size_empty in Hs. lia. }
  unfold root_alloc. rewrite E. exists (free ∖ {[f]}), ({[f]} ∪ ∅). split; [exact Hm'|].
  split; [by apply elem_of_union_l, elem_of_singleton|].
  rewrite size_difference by (by apply singleton_subseteq_l). by rewrite size_singleton, Hs.
Qed.

Definition made (n : Z) : t * world BitmapAllocator.t :=
  match create_mapper (root_alloc n).2 (root_alloc n).1 with Ret r => r | _ => (mk 0 0, boot_world n) end.

Definition tables (n : Z) : gmap (list Z) Z := {[ [] := (root_alloc n).1 ]}.

Lemma made_inv n :
  0 < n <= 8 ->
  exists free live, mapper_inv (made n).2 (made n).1 (tables n) free live /\ size free = (Z.to_nat n - 1)%nat.
Proof.
  intros Hn. destruct (root_state n Hn) as (free & live & Hm & Hr & Hs).
  destruct (create_mapper_ok _ _ _ _ Hm Hr) as (mp & w' & E & Hi & _).
  unfold made. rewrite E. exists free, live. split; [exact Hi|exact Hs].
Qed.

(** [map] evaluated on the small hierarchy. *)
Lemma map_evaluates :
  match map (made 8).2 (made 8).1 0x5000 0x9000 PageFlags.kernel_data with
  | Ret (Ok token, _) => token = 0x5000
  | _ => False
  end.
Proof. vm_compute. reflexivity. Qed.

End MapperDemo.
Import MapperDemo.

Lemma create_mapper_empty_witness :
  exists mp w', PageTableMapper.create_mapper (root_alloc 8).2 (root_alloc 8).1 = Ret (mp, w') /\
    PageTableMapper.translate (memory w') mp 0x5000 = Ret None.
Proof.
  destruct (root_state 8 ltac:(lia)) as (free & live & Hm & Hr & _).
  destruct (create_mapper_empty (root_alloc 8).2 free live (root_alloc 8).1 Hm Hr) as (mp & w' & E & _ & Ht & _).
  exists mp, w'. split; [exact E|apply Ht].
Defined.

Lemma mapper_map_correct_witness :
  exists w', PageTableMapper.map (made 8).2 (made 8).1 0x5000 0x9000 PageFlags.kernel_data = Ret (Ok 0x5000, w') /\
    PageTableMapper.translate (memory w') (made 8).1 (0x5000 + 0x123) = Ret (Some (0x9000 + 0x123, PageFlags.kernel_data)).
Proof.
  destruct (made_inv 8 ltac:(lia)) as (free & live & Hm & Hs).
  destruct (mapper_map_correct (made 8).2 (made 8).1 (tables 8) free live 0x5000 0x9000 PageFlags.kernel_data Hm)
    as (res & w' & T' & fr & lv & E & _ & _ & _ & _ & Hr);
    [rewrite Hs; lia|reflexivity|reflexivity|by vm_compute|by vm_compute|].
  pose proof map_evaluates as Hev. rewrite E in Hev. destruct res as [token|]; [subst token|destruct Hev].
  exists w'. split; [exact E|]. apply Hr. unfold PAGE_SIZE. lia.
Defined.

Lemma mapper_unmap_correct_witness :
  exists e, PageTableMapper.unmap (made 8).2 (made 8).1 0x5000 = Ret (Err e, (made 8).2).
Proof.
  destruct (made_inv 8 ltac:(lia)) as (free & live & Hm & _).
  pose proof (mapper_unmap_correct (made 8).2 (made 8).1 (tables 8) free live 0x5000 Hm eq_refl) as Hu.
  rewrite (translate_ok _ _ _ _ (mi_pt _ _ _ _ _ Hm)) in Hu. exact Hu.
Defined.


Lemma mapper_map_exhausted_panics_witness :
  PageTableMapper.map (made 1).2 (made 1).1 0x5000 0x9000 PageFlags.kernel_data = Panic "out of physical memory".
Proof.
  destruct (made_inv 1 ltac:(lia)) as (free & live & Hm & Hs).
  assert (free = ∅) as -> by (by apply leibniz_equiv, size_empty_iff).
  apply (mapper_map_exhausted_panics (made 1).2 (made 1).1 (tables 1) live 0x5000 0x9000 PageFlags.kernel_data Hm);
    [reflexivity|reflexivity|]. by apply lookup_singleton_ne.
Defined.
