(* ===== verification/MapperClass.v ===== *)
(** * The mapper interface (the trait [Mapper] of eira/src/mm/paging/mod.rs)

    [Mapper] is the trait; its methods may take frames for tables from the global
    allocator, so they thread the [world].  [MapperSpec] states what an address
    space relies on, in terms of the translation function [tr] (the result of
    [translate] for every address), the set [tabs] of frames used as tables and
    the allocator's free and live frames.  The x86_64 page-table mapper is an
    instance. *)

From S2P Require Import Prelude Addr Frame Memory FrameAllocator Bitmap Paging World Mapper.

Class Mapper (A M : Type) := {
  mp_map : world A -> M -> Z -> Z -> Z -> outcome (result Z (Z * MapError) * world A);
  mp_unmap : world A -> M -> Z -> outcome (result (Z * Z) UnmapError * world A);
  mp_translate : world A -> M -> Z -> outcome (option (Z * Z));
  mp_remap : world A -> M -> Z -> Z -> outcome (result Z UnmapError * world A);
}.

Abbreviation translation := (Z -> option (Z * Z)).

(** [tr] with the page of [v] mapped to a frame with some flags, or unmapped. *)
Definition tr_set (tr : translation) (v frame flags : Z) : translation :=
  fun x => if decide (page_of x = page_of v) then Some (frame + x mod PAGE_SIZE, flags) else tr x.
Definition tr_del (tr : translation) (v : Z) : translation :=
  fun x => if decide (page_of x = page_of v) then None else tr x.

Definition tr_eq (tr1 tr2 : translation) : Prop := forall x, tr1 x = tr2 x.
#[export] Instance tr_eq_equivalence : Equivalence tr_eq.
Proof. split; repeat intro; unfold tr_eq in *; congruence. Qed.

#[export] Instance tr_set_proper : Proper (tr_eq ==> eq ==> eq ==> eq ==> tr_eq) tr_set.
Proof. intros tr1 tr2 E v ? <- f ? <- fl ? <- x. unfold tr_set. by case_decide. Qed.
#[export] Instance tr_del_proper : Proper (tr_eq ==> eq ==> tr_eq) tr_del.
Proof. intros tr1 tr2 E v ? <- x. unfold tr_del. by case_decide. Qed.

Lemma tr_del_set tr v frame flags : (forall x, page_of x = page_of v -> tr x = None) ->
  tr_eq (tr_del (tr_set tr v frame flags) v) tr.
Proof. intros Hn x. unfold tr_del, tr_set. case_decide; [by rewrite Hn|done]. Qed.

Lemma tr_del_set_comm tr v v' frame flags : page_of v <> page_of v' ->
  tr_eq (tr_del (tr_set tr v frame flags) v') (tr_set (tr_del tr v') v frame flags).
Proof. intros Hne x. unfold tr_del, tr_set. repeat case_decide; congruence. Qed.

Class MapperSpec (A M : Type) `{FrameAllocatorSpec A} `{Mapper A M} := {
  ms_state : world A -> M -> translation -> gset Z -> gset Z -> gset Z -> Prop;

  (** No larger page covers the address. *)
  ms_open : world A -> M -> Z -> Prop;

  ms_mm w mp tr tabs free live : ms_state w mp tr tabs free live -> mm_state w free live;

  ms_tabs w mp tr tabs free live : ms_state w mp tr tabs free live -> tabs ## free;

  ms_tabs_wf w mp tr tabs free live f :
    ms_state w mp tr tabs free live -> f ∈ tabs -> PhysFrame.wf PAGE_SIZE f;

  ms_ext w mp tr tr' tabs free live :
    ms_state w mp tr tabs free live -> tr_eq tr tr' -> ms_state w mp tr' tabs free live;

  ms_translate w mp tr tabs free live v :
    ms_state w mp tr tabs free live -> mp_translate w mp v = Ret (tr v);

  (** All addresses of a page are translated alike. *)
  ms_page w mp tr tabs free live v x :
    ms_state w mp tr tabs free live -> page_of x = page_of v -> tr v = None -> tr x = None;

  (** With three frames for tables, [map] inserts or reports [AlreadyMapped], the
      latter when the page is translated or covered. *)
  ms_map w mp tr tabs free live v frame pf :
    ms_state w mp tr tabs free live -> (3 <= size free)%nat ->
    v mod PAGE_SIZE = 0 -> VirtAddr.is_canonical v = true ->
    PhysFrame.wf PAGE_SIZE frame -> PageFlags.valid pf ->
    exists res w' tabs' free' live', mp_map w mp v frame pf = Ret (res, w') /\
      tabs ⊆ tabs' /\ tabs' ⊆ tabs ∪ free ∖ free' /\ free ∖ free' ⊆ tabs' /\ free' ⊆ free /\ (size free <= size free' + 3)%nat /\
      live' = live ∪ free ∖ free' /\ hhdm_offset w' = hhdm_offset w /\ flushed w' = flushed w /\
      (forall x, ms_open w mp x -> ms_open w' mp x) /\
      match res with
      | Ok token => token = v /\ tr v = None /\
          ms_state w' mp (tr_set tr v frame (PageFlags.or pf PageFlags.READ)) tabs' free' live'
      | Err (f, e) => f = frame /\ e = AlreadyMapped /\ ms_state w' mp tr tabs' free' live' /\
          (tr v <> None \/ ~ ms_open w mp v)
      end;

  ms_unmap w mp tr tabs free live v :
    ms_state w mp tr tabs free live -> v mod PAGE_SIZE = 0 ->
    match tr v with
    | Some (frame, _) => exists w', mp_unmap w mp v = Ret (Ok (frame, v), w') /\
        ms_state w' mp (tr_del tr v) tabs free live /\ (forall x, ms_open w mp x -> ms_open w' mp x) /\
        hhdm_offset w' = hhdm_offset w /\ flushed w' = flushed w
    | None => exists e, mp_unmap w mp v = Ret (Err e, w)
    end;

  (** [unmap] does not use the allocator: it neither needs nor takes its lock. *)
  ms_unmap_lock w mp v r w' b :
    mp_unmap w mp v = Ret (r, w') ->
    mp_unmap (with_lock w b) mp v = Ret (r, with_lock w' b) /\ locked w' = locked w;

  (** Only the tables' memory matters. *)
  ms_frame w w' mp tr tabs free live free' live' :
    ms_state w mp tr tabs free live -> mm_state w' free' live' -> hhdm_offset w' = hhdm_offset w ->
    tabs ## free' ->
    (forall f x, f ∈ tabs -> in_frame (hhdm_offset w) f x -> read64 (memory w') x = read64 (memory w) x) ->
    ms_state w' mp tr tabs free' live' /\ (forall x, ms_open w mp x -> ms_open w' mp x);
}.

(** ** The x86_64 mapper implements the interface *)
#[export] Instance page_table_mapper {A} `{FrameAllocator A} : Mapper A PageTableMapper.t := {
  mp_map := PageTableMapper.map;
  mp_unmap := PageTableMapper.unmap;
  mp_translate w mp v := PageTableMapper.translate (memory w) mp v;
  mp_remap := PageTableMapper.remap;
}.

Section page_table_spec.
Import PageTableMapper.
Context {A : Type} `{FrameAllocatorSpec A}.
Implicit Types (w : world A) (mp : t).

Definition pt_state w mp (tr : translation) (tabs free live : gset Z) : Prop :=
  exists T, mapper_inv w mp T free live /\
    (forall v, tr v = target v <$> MapperInv.lookup (hhdm mp) (memory w) T v) /\
    (forall f, f ∈ tabs <-> exists p, T !! p = Some f).

Definition pt_open w mp (v : Z) : Prop := under_huge w mp v = false.

Lemma pt_state_mm w mp tr tabs free live : pt_state w mp tr tabs free live -> mm_state w free live.
Proof. intros (T & Hm & _). apply (mi_mm _ _ _ _ _ Hm). Qed.

Lemma pt_state_tabs w mp tr tabs free live : pt_state w mp tr tabs free live -> tabs ## free.
Proof. intros (T & Hm & _ & Ht) f [p Hp]%Ht. by eapply (mi_tables _ _ _ _ _ Hm). Qed.

Lemma pt_state_tabs_wf w mp tr tabs free live f :
  pt_state w mp tr tabs free live -> f ∈ tabs -> PhysFrame.wf PAGE_SIZE f.
Proof. intros (T & Hm & _ & Ht) [p Hp]%Ht. by apply (MapperInv.pt_frames (mi_pt _ _ _ _ _ Hm) p). Qed.

Lemma pt_state_ext w mp tr tr' tabs free live :
  pt_state w mp tr tabs free live -> tr_eq tr tr' -> pt_state w mp tr' tabs free live.
Proof. intros (T & Hm & Htr & Ht) E. exists T. split_and!; try done. intros v. by rewrite <- E. Qed.

Lemma pt_state_translate w mp tr tabs free live v :
  pt_state w mp tr tabs free live -> translate (memory w) mp v = Ret (tr v).
Proof. intros (T & Hm & Htr & _). by rewrite (translate_ok _ _ _ _ (mi_pt _ _ _ _ _ Hm)), Htr. Qed.

Lemma lookup_page h m T v x :
  page_of x = page_of v -> MapperInv.lookup h m T x = MapperInv.lookup h m T v.
Proof. intros E. unfold MapperInv.lookup. by rewrite (page_of_path _ _ E), (indices_of_page _ _ _ E). Qed.

Lemma pt_state_page w mp tr tabs free live v x :
  pt_state w mp tr tabs free live -> page_of x = page_of v -> tr v = None -> tr x = None.
Proof.
  intros (T & Hm & Htr & _) E. rewrite !Htr, (lookup_page _ _ _ _ _ E).
  by destruct (MapperInv.lookup _ _ _ _).
Qed.

Lemma target_new x frame pf :
  PhysFrame.wf PAGE_SIZE frame -> PageFlags.valid pf ->
  target x (PageTableEntry.new frame (entry_flags_from_page_flags pf)) =
    (frame + x mod PAGE_SIZE, PageFlags.or pf PageFlags.READ).
Proof.
  intros Hf Hp. destruct (entry_flags_ok pf) as (Hw & _). unfold target.
  by rewrite entry_new_addr, entry_new_flags, page_flags_convert by done.
Qed.

Lemma pt_state_map w mp tr tabs free live v frame pf :
  pt_state w mp tr tabs free live -> (3 <= size free)%nat ->
  v mod PAGE_SIZE = 0 -> VirtAddr.is_canonical v = true ->
  PhysFrame.wf PAGE_SIZE frame -> PageFlags.valid pf ->
  exists res w' tabs' free' live', map w mp v frame pf = Ret (res, w') /\
    tabs ⊆ tabs' /\ tabs' ⊆ tabs ∪ free ∖ free' /\ free ∖ free' ⊆ tabs' /\ free' ⊆ free /\ (size free <= size free' + 3)%nat /\
    live' = live ∪ free ∖ free' /\ hhdm_offset w' = hhdm_offset w /\ flushed w' = flushed w /\
    (forall x, pt_open w mp x -> pt_open w' mp x) /\
    match res with
    | Ok token => token = v /\ tr v = None /\
        pt_state w' mp (tr_set tr v frame (PageFlags.or pf PageFlags.READ)) tabs' free' live'
    | Err (f, e) => f = frame /\ e = AlreadyMapped /\ pt_state w' mp tr tabs' free' live' /\
        (tr v <> None \/ ~ pt_open w mp v)
    end.
Proof.
  intros (T & Hm & Htr & Ht) Hs Hv Hcan Hfr Hpf.
  destruct (map_ok w mp T free live v frame pf Hm Hs Hv Hcan) as (w1 & T' & fr & lv & Hm' & Hc & Hr).
  assert (Hh : hhdm_offset w1 = hhdm_offset w)
    by (rewrite <- (mi_hhdm _ _ _ _ _ Hm), <- (mi_hhdm _ _ _ _ _ Hm'); done).
  destruct Hc as [Hlv [_ Hfl] Hsub Hsz Hlive Htab Hold Hused Hhuge].
  assert (Hopen : forall x, under_huge w1 mp x = under_huge w mp x)
    by (intros x; apply Hhuge, (MapperInv.pt_root (mi_pt _ _ _ _ _ Hm))).
  set (tabs' := list_to_set (map_to_list T').*2 : gset Z).
  assert (Ht' : forall f, f ∈ tabs' <-> exists p, T' !! p = Some f).
  { intros f. unfold tabs'. rewrite elem_of_list_to_set, list_elem_of_fmap. split.
    - intros ([p g] & -> & Hp%elem_of_map_to_list). by exists p.
    - intros (p & Hp). exists (p, f). split; [done|]. by apply elem_of_map_to_list. }
  assert (H1 : tabs ⊆ tabs') by (intros f (p & Hp)%Ht; apply Ht'; eauto).
  assert (H2 : tabs' ⊆ tabs ∪ free ∖ fr).
  { intros f (p & Hp)%Ht'. apply elem_of_union. destruct (Htab p f Hp) as [Ho|Ho]; [left; apply Ht; eauto|right].
    apply elem_of_difference. split; [done|]. by eapply (mi_tables _ _ _ _ _ Hm'). }
  assert (H3 : free ∖ fr ⊆ tabs') by (intros f [? ?]%elem_of_difference; apply Ht'; by apply Hused).
  destruct Hr as [(E & Hwhy)|(Hn & f & Hf & E)].
  - exists (Err (frame, AlreadyMapped)), w1, tabs', fr, lv. split_and!; try done.
    + intros x. unfold pt_open. by rewrite Hopen.
    + exists T'. split_and!; try done. intros x. by rewrite Htr, Hlv.
    + destruct Hwhy as [[e He]|Hhg]; [left; by rewrite Htr, He|right]. unfold pt_open. by rewrite Hhg.
  - eexists (Ok v), _, tabs', fr, lv. split; [exact E|]. split_and!; try done.
    1: { intros x Hx. unfold pt_open, under_huge. cbn [with_memory memory].
         rewrite (set_leaf_huge _ _ _ _ _ _ _ _ (mi_pt _ _ _ _ _ Hm') Hf). unfold pt_open in Hx. by rewrite <- Hopen in Hx. }
    1: by rewrite Htr, Hn.
    exists T'. split_and!; [by apply set_leaf_inv| |done]. intros x. cbn [with_memory memory].
    rewrite (set_leaf_lookup _ _ _ _ _ _ _ _ (mi_pt _ _ _ _ _ Hm') Hf). unfold tr_set.
    case_decide; [|by rewrite Htr, Hlv]. destruct (entry_flags_ok pf) as (Hw & Hp & _).
    unfold PageTableEntry.is_present. rewrite entry_new_flags, Hp by done. cbn. by rewrite target_new.
Qed.

Lemma pt_state_unmap w mp tr tabs free live v :
  pt_state w mp tr tabs free live -> v mod PAGE_SIZE = 0 ->
  match tr v with
  | Some (frame, _) => exists w', unmap w mp v = Ret (Ok (frame, v), w') /\
      pt_state w' mp (tr_del tr v) tabs free live /\ (forall x, pt_open w mp x -> pt_open w' mp x) /\
      hhdm_offset w' = hhdm_offset w /\ flushed w' = flushed w
  | None => exists e, unmap w mp v = Ret (Err e, w)
  end.
Proof.
  intros (T & Hm & Htr & Ht) Hv. rewrite Htr. pose proof (unmap_ok w mp T free live v Hm Hv) as Hu.
  destruct (MapperInv.lookup (hhdm mp) (memory w) T v) as [e|]; cbn; [|done].
  destruct Hu as (f & Hf & ->). rewrite Hv, Z.add_0_r. eexists. split; [reflexivity|]. split_and!; try done.
  2: { intros x. unfold pt_open, under_huge. cbn [with_memory memory].
       by rewrite (set_leaf_huge _ _ _ _ _ _ _ _ (mi_pt _ _ _ _ _ Hm) Hf). }
  exists T. split_and!; [by apply set_leaf_inv| |done]. intros x. cbn [with_memory memory].
  rewrite (set_leaf_lookup _ _ _ _ _ _ _ _ (mi_pt _ _ _ _ _ Hm) Hf). unfold tr_del.
  case_decide; [done|apply Htr].
Qed.

Lemma pt_unmap_lock w mp v r w' b :
  unmap w mp v = Ret (r, w') ->
  unmap (with_lock w b) mp v = Ret (r, with_lock w' b) /\ locked w' = locked w.
Proof.
  unfold unmap. cbn [memory with_lock]. intros E.
  repeat (first [ progress ret_inv | progress cbn [obind] in *
                | match goal with
                  | E : ?x = Ret ?y |- context [obind ?x _] => rewrite E; cbn [obind]
                  | H : context [if ?c then _ else _] |- _ => destruct c eqn:?
                  | H : context [match ?c with _ => _ end] |- _ => is_var c; destruct c
                  end ]); simplify_eq; done.
Qed.

Lemma pt_state_frame w w' mp tr tabs free live free' live' :
  pt_state w mp tr tabs free live -> mm_state w' free' live' -> hhdm_offset w' = hhdm_offset w ->
  tabs ## free' ->
  (forall f x, f ∈ tabs -> in_frame (hhdm_offset w) f x -> read64 (memory w') x = read64 (memory w) x) ->
  pt_state w' mp tr tabs free' live' /\ (forall x, pt_open w mp x -> pt_open w' mp x).
Proof.
  intros (T & Hm & Htr & Ht) Hmm Hh Hd Hs.
  assert (Hsl : forall p f i, T !! p = Some f -> 0 <= i < 512 ->
    read64 (memory w') (MapperInv.slot (hhdm mp) f i) = read64 (memory w) (MapperInv.slot (hhdm mp) f i)).
  { intros p f i Hp Hi. apply (Hs f); [apply Ht; eauto|]. rewrite <- (mi_hhdm _ _ _ _ _ Hm). by apply slot_in_frame. }
  split.
  2: { intros x. unfold pt_open, under_huge. rewrite (huge_along_same _ (memory w) (memory w') (pml4 mp) T _ []); try done.
       - apply (mi_pt _ _ _ _ _ Hm).
       - apply (MapperInv.pt_root (mi_pt _ _ _ _ _ Hm)).
       - apply path_bounds.
       - intros p f i Hp _ Hi. by apply (Hsl p). }
  exists T. split_and!; try done.
  - split; [done| |by rewrite Hh; apply (mi_hhdm _ _ _ _ _ Hm)|].
    + pose proof (mi_pt _ _ _ _ _ Hm) as Hw. split; try apply Hw. intros p f i Hp Hl Hi.
      rewrite (Hsl p) by done. by apply (MapperInv.pt_entry Hw).
    + intros p f Hp Hf. apply (Hd f); [apply Ht; eauto|done].
  - intros v. rewrite Htr. f_equal. unfold MapperInv.lookup.
    destruct (T !! MapperInv.path v) as [f|] eqn:Hf; [|done].
    rewrite (Hsl _ f _ Hf); [done|]. apply index_of_bound.
Qed.

#[export] Instance page_table_mapper_spec : MapperSpec A t := {
  ms_state := pt_state;
  ms_open := pt_open;
  ms_mm := pt_state_mm;
  ms_tabs := pt_state_tabs;
  ms_tabs_wf := pt_state_tabs_wf;
  ms_ext := pt_state_ext;
  ms_translate := pt_state_translate;
  ms_page := pt_state_page;
  ms_map := pt_state_map;
  ms_unmap := pt_state_unmap;
  ms_unmap_lock := pt_unmap_lock;
  ms_frame := pt_state_frame;
}.

End page_table_spec.
