(* ===== verification/AddressSpace.v ===== *)
(** * Address spaces (eira/src/mm/address_space.rs)

    An address space is a mapper and two pools of virtual regions.  The
    operations thread the [world] (memory, frame allocator with its lock, TLB
    flush log) and the address space itself.  [for i in 0..n] loops are
    recursions on the number of iterations left.

    In [alloc_and_map] the guard of [FRAME_ALLOCATOR.lock()] is a temporary of
    the [match] that examines the allocation: it is alive in both arms and is
    dropped at the end of the [let] statement. *)

From S2P Require Import Prelude Addr Frame Memory FrameAllocator Bitmap Intervals Region Paging World Mapper MapperClass.

Inductive AddressSpaceError :=
| ErrRegion (e : RegionError)
| ErrMap (e : MapError)
| ErrUnmap (e : UnmapError)
| OutOfPhysicalMemory.

Inductive AllocKind := KindHeap | KindKernelVm.

#[export] Instance AllocKind_eq_dec : EqDecision AllocKind.
Proof. solve_decision. Defined.

(** [Result::expect] *)
Definition expect_ok {B E : Type} (r : result B E) (why : string) : outcome B :=
  match r with Ok b => Ret b | Err _ => Panic why end.

Record MapRequest := mk_request { req_virt : Z; req_frame : Z; req_flags : Z }.

Module AddressSpace.

Record t (M : Type) := mk {
  root : option Z;
  mapper : M;
  heap_va : RegionAllocator.t;
  kernel_vm_va : RegionAllocator.t;
}.
Arguments mk {M} _ _ _ _.
Arguments root {M} _.
Arguments mapper {M} _.
Arguments heap_va {M} _.
Arguments kernel_vm_va {M} _.

Section operations.
Context {A M : Type} `{FrameAllocator A} `{Mapper A M}.
Implicit Types (w : world A) (self : t M).

Definition from_mapper (mp : M) : outcome (t M) :=
  let! hv := heap_region_allocator in
  let! kv := kernel_vm_region_allocator in
  Ret (mk None mp hv kv).

Definition map w self (req : MapRequest) : outcome (result Z (Z * AddressSpaceError) * world A) :=
  let! '(r, w) := mp_map w (mapper self) (req_virt req) (req_frame req) (req_flags req) in
  Ret (match r with Ok f => Ok f | Err (frame, e) => Err (frame, ErrMap e) end, w).

Definition unmap w self (virt : Z) : outcome (result (Z * Z) AddressSpaceError * world A) :=
  let! '(r, w) := mp_unmap w (mapper self) virt in
  Ret (match r with Ok x => Ok x | Err e => Err (ErrUnmap e) end, w).

Definition remap w self (virt new_flags : Z) : outcome (result Z AddressSpaceError * world A) :=
  let! '(r, w) := mp_remap w (mapper self) virt new_flags in
  Ret (match r with Ok x => Ok x | Err e => Err (ErrUnmap e) end, w).

Definition translate w self (virt : Z) : outcome (option (Z * Z)) := mp_translate w (mapper self) virt.

Definition region_allocator_for self (kind : AllocKind) : RegionAllocator.t :=
  match kind with KindHeap => heap_va self | KindKernelVm => kernel_vm_va self end.

(** Write back through the [&mut] that [region_allocator_for] returns. *)
Definition set_region_allocator self (kind : AllocKind) (ra : RegionAllocator.t) : t M :=
  match kind with
  | KindHeap => mk (root self) (mapper self) ra (kernel_vm_va self)
  | KindKernelVm => mk (root self) (mapper self) (heap_va self) ra
  end.

Definition alloc_virt self (size align : Z) (kind : AllocKind)
  : outcome (result Region.t AddressSpaceError * t M) :=
  let! '(r, ra) := RegionAllocator.alloc (region_allocator_for self kind) size align in
  Ret (match r with Ok x => Ok x | Err e => Err (ErrRegion e) end, set_region_allocator self kind ra).

Definition free_virt self (region : Region.t) (kind : AllocKind)
  : outcome (result unit AddressSpaceError * t M) :=
  let! '(r, ra) := RegionAllocator.free (region_allocator_for self kind) region in
  Ret (match r with Ok x => Ok x | Err e => Err (ErrRegion e) end, set_region_allocator self kind ra).

Definition heap_free_bytes self : outcome Z := RegionAllocator.free_bytes (heap_va self).
Definition kernel_vm_free_bytes self : outcome Z := RegionAllocator.free_bytes (kernel_vm_va self).

(** [VirtAddr::new_unchecked(base_raw + i * PAGE_SIZE)] *)
Definition page_addr (base i : Z) : outcome Z :=
  let! o := mul_ i PAGE_SIZE in
  let! v := add_ base o in
  Ret (VirtAddr.new_unchecked v).

Fixpoint flush_loop (n : nat) (i : Z) w (base : Z) : outcome (world A) :=
  match n with
  | O => Ret w
  | S n =>
      let! virt := page_addr base i in
      flush_loop n (i + 1) (flush_tlb_page w virt) base
  end.

Definition flush_range w (base count : Z) : outcome (world A) := flush_loop (Z.to_nat count) 0 w base.

Fixpoint rollback_loop (n : nat) (i : Z) w self (base : Z) : outcome (world A) :=
  match n with
  | O => Ret w
  | S n =>
      let! virt := page_addr base i in
      let! '(r, w) := mp_unmap w (mapper self) virt in
      let! '(frame, _) := expect_ok r "rollback unmap must succeed for a page we just mapped" in
      let! w := lock_and_deallocate w frame in
      rollback_loop n (i + 1) w self base
  end.

Definition rollback_range w self (base count : Z) : outcome (world A) :=
  rollback_loop (Z.to_nat count) 0 w self base.

(** The loop of [alloc_and_map]; [n] pages are left, page [i] is next. *)
Fixpoint alloc_map_loop (n : nat) (i : Z) w self (region : Region.t) (flags : Z) (kind : AllocKind)
  : outcome (result unit AddressSpaceError * t M * world A) :=
  match n with
  | O => Ret (Ok tt, self, w)
  | S n =>
      let! virt := page_addr (Region.base region) i in
      let! '(o, w) := lock_and_allocate w in
      match o with
      | None =>
          let! w := rollback_range w self (Region.base region) i in
          let! '(r, self) := free_virt self region kind in
          let! _ := expect_ok r "VA region free during rollback cannot fail" in
          Ret (Err OutOfPhysicalMemory, self, unlock w)
      | Some frame =>
          let w := unlock w in
          let! '(r, w) := map w self (mk_request virt frame flags) in
          match r with
          | Ok _ => alloc_map_loop n (i + 1) w self region flags kind
          | Err (frame, e) =>
              let! w := lock_and_deallocate w frame in
              let! w := rollback_range w self (Region.base region) i in
              let! '(r, self) := free_virt self region kind in
              let! _ := expect_ok r "VA region free during rollback cannot fail" in
              Ret (Err e, self, w)
          end
      end
  end.

Definition alloc_and_map w self (size align flags : Z) (kind : AllocKind)
  : outcome (result Region.t AddressSpaceError * t M * world A) :=
  let! '(r, self) := alloc_virt self size align kind in
  match r with
  | Err e => Ret (Err e, self, w)
  | Ok region =>
      let num_pages := size / PAGE_SIZE in
      let! '(r, self, w) := alloc_map_loop (Z.to_nat num_pages) 0 w self region flags kind in
      match r with
      | Err e => Ret (Err e, self, w)
      | Ok _ =>
          let! w := flush_range w (Region.base region) num_pages in
          Ret (Ok region, self, w)
      end
  end.

Fixpoint unmap_loop (n : nat) (i : Z) w self (base : Z) (first_err : option AddressSpaceError)
  : outcome (option AddressSpaceError * world A) :=
  match n with
  | O => Ret (first_err, w)
  | S n =>
      let! virt := page_addr base i in
      let! '(r, w) := mp_unmap w (mapper self) virt in
      match r with
      | Ok (frame, _) =>
          let! w := lock_and_deallocate w frame in
          unmap_loop n (i + 1) w self base first_err
      | Err e =>
          let first_err := match first_err with None => Some (ErrUnmap e) | Some _ => first_err end in
          unmap_loop n (i + 1) w self base first_err
      end
  end.

Definition unmap_and_dealloc w self (region : Region.t) (kind : AllocKind)
  : outcome (result unit AddressSpaceError * t M * world A) :=
  let num_pages := Region.size region / PAGE_SIZE in
  let! '(first_err, w) := unmap_loop (Z.to_nat num_pages) 0 w self (Region.base region) None in
  let! '(r, self) := free_virt self region kind in
  let! _ := expect_ok r "VA region free cannot fail for a previously-allocated region" in
  let! w := flush_range w (Region.base region) num_pages in
  Ret (match first_err with Some e => Err e | None => Ok tt end, self, w).

(** The frames an [ExactSizeIterator] yields; [drop_rest] is what dropping the
    iterator does with the frames it has not yielded yet. *)
Context (drop_rest : list Z -> outcome unit).

Fixpoint map_frames_loop (frames : list Z) (i : Z) w self (region : Region.t) (flags : Z) (kind : AllocKind)
  : outcome (result unit AddressSpaceError * t M * world A) :=
  match frames with
  | [] => Ret (Ok tt, self, w)
  | frame :: frames =>
      let! virt := page_addr (Region.base region) i in
      let! '(r, w) := map w self (mk_request virt frame flags) in
      match r with
      | Ok _ => map_frames_loop frames (i + 1) w self region flags kind
      | Err (frame, e) =>
          let! w := lock_and_deallocate w frame in
          let! w := rollback_range w self (Region.base region) i in
          let! '(r, self) := free_virt self region kind in
          let! _ := expect_ok r "va region free during rollback cannot fail" in
          let! _ := drop_rest frames in
          Ret (Err e, self, w)
      end
  end.

Definition map_physical_range w self (frames : list Z) (align flags : Z) (kind : AllocKind)
  : outcome (result Region.t AddressSpaceError * t M * world A) :=
  let count := Z.of_nat (length frames) in
  let! _ := assert_ (0 <? count) "map_physical_range: frame iterator is empty" in
  let! size := expect (checked_mul count PAGE_SIZE) "frame count overflows address space" in
  let! '(r, self) := alloc_virt self size align kind in
  match r with
  | Err e => let! _ := drop_rest frames in Ret (Err e, self, w)
  | Ok region =>
      let! '(r, self, w) := map_frames_loop frames 0 w self region flags kind in
      match r with
      | Err e => Ret (Err e, self, w)
      | Ok _ =>
          let! w := flush_range w (Region.base region) count in
          Ret (Ok region, self, w)
      end
  end.

End operations.

(** The constructors use the platform's mapper. *)
Section platform.
Context {A : Type} `{FrameAllocator A}.

Definition new_kernel (w : world A) : outcome (t PageTableMapper.t * world A) :=
  let! '(frame, w) := mm_allocate w in
  let! '(mp, w) := PageTableMapper.create_mapper w frame in
  let! s := from_mapper mp in
  Ret (s, w).

Definition from_active (w : world A) (root_phys : Z) : outcome (t PageTableMapper.t) :=
  let! mp := PageTableMapper.mapper_from_active w root_phys in
  from_mapper mp.

End platform.

End AddressSpace.

(** ** Translations of a run of pages *)
Section runs.
Implicit Types (tr : translation) (fs : list Z).

Definition page (base i : Z) : Z := base + i * PAGE_SIZE.

(** [tr] with the pages [i], [i + 1], ... of [base] mapped to the frames [fs]. *)
Fixpoint tr_map tr (base i : Z) fs (fl : Z) : translation :=
  match fs with
  | [] => tr
  | f :: fs => tr_map (tr_set tr (page base i) f fl) base (i + 1) fs fl
  end.

#[export] Instance tr_map_proper base i fs fl : Proper (tr_eq ==> tr_eq) (fun tr => tr_map tr base i fs fl).
Proof.
  revert i; induction fs as [|f fs IH]; intros i tr1 tr2 E; cbn; [done|]. apply IH. by rewrite E.
Qed.

Lemma tr_map_snoc tr base i fs f fl :
  tr_map tr base i (fs ++ [f]) fl =
    tr_set (tr_map tr base i fs fl) (page base (i + Z.of_nat (length fs))) f fl.
Proof.
  revert tr i; induction fs as [|g fs IH]; intros tr i; cbn [app tr_map length].
  - by rewrite Z.add_0_r.
  - rewrite IH. do 2 f_equal. lia.
Qed.

(** Pages of a run shorter than [2^36] pages are different. *)
Lemma page_inj base i j :
  base mod PAGE_SIZE = 0 -> 0 <= i < 2 ^ 36 -> 0 <= j < 2 ^ 36 ->
  page_of (page base i) = page_of (page base j) -> i = j.
Proof. unfold page_of, page. change (2 ^ 36) with 68719476736. intros. klia. Qed.

Lemma page_mod base i : base mod PAGE_SIZE = 0 -> page base i mod PAGE_SIZE = 0.
Proof. unfold page. intros. klia. Qed.

Lemma page_of_off base i off :
  base mod PAGE_SIZE = 0 -> 0 <= off < PAGE_SIZE ->
  page_of (page base i + off) = page_of (page base i) /\ (page base i + off) mod PAGE_SIZE = off.
Proof. unfold page_of, page. change (2 ^ 36) with 68719476736. intros. split; klia. Qed.

Lemma tr_map_other tr base i fs fl x :
  (forall j, i <= j < i + Z.of_nat (length fs) -> page_of x <> page_of (page base j)) ->
  tr_map tr base i fs fl x = tr x.
Proof.
  revert tr i; induction fs as [|f fs IH]; intros tr i Hx; cbn [tr_map]; [done|].
  rewrite IH by (intros j Hj; apply Hx; cbn; lia). unfold tr_set.
  rewrite decide_False; [done|]. apply Hx. cbn. lia.
Qed.

Lemma tr_map_at tr base i fs fl k f x :
  base mod PAGE_SIZE = 0 -> 0 <= i -> i + Z.of_nat (length fs) <= 2 ^ 36 ->
  fs !! k = Some f -> page_of x = page_of (page base (i + Z.of_nat k)) ->
  tr_map tr base i fs fl x = Some (f + x mod PAGE_SIZE, fl).
Proof.
  revert tr i k; induction fs as [|g fs IH]; intros tr i k Hb Hi Hlen Hk Hx; [done|].
  cbn [tr_map length] in *. destruct k as [|k]; cbn in Hk.
  - injection Hk as ->. rewrite Z.add_0_r in Hx. rewrite tr_map_other.
    + unfold tr_set. by rewrite decide_True.
    + intros j Hj. rewrite Hx. intros E%page_inj; try done; lia.
  - apply (IH _ _ k); try done; try lia. rewrite Hx. do 2 f_equal. lia.
Qed.

(** Unmapping the first page of a run. *)
Lemma tr_del_run tr base i f fs fl :
  base mod PAGE_SIZE = 0 -> 0 <= i -> i + Z.of_nat (S (length fs)) <= 2 ^ 36 ->
  (forall x, page_of x = page_of (page base i) -> tr x = None) ->
  tr_eq (tr_del (tr_map tr base i (f :: fs) fl) (page base i)) (tr_map tr base (i + 1) fs fl).
Proof.
  intros Hb Hi Hlen Hn x. cbn [tr_map]. unfold tr_del. case_decide as E.
  - rewrite tr_map_other; [by rewrite Hn|]. intros j Hj. rewrite E. intros E'%page_inj; try done; lia.
  - assert (Hx : forall tr', tr' x = tr x -> forall k gs, tr_map tr' base k gs fl x = tr_map tr base k gs fl x).
    { clear. intros tr' H k gs. revert tr tr' H k. induction gs as [|g gs IH]; intros tr tr' H k; cbn; [done|].
      apply IH. unfold tr_set. by case_decide. }
    apply Hx. unfold tr_set. by rewrite decide_False.
Qed.

End runs.

Lemma canonical_high v : 0xffff800000000000 <= v < W64 -> VirtAddr.is_canonical v = true.
Proof.
  intros Hv. unfold VirtAddr.is_canonical. rewrite Z.shiftr_div_pow2 by lia.
  change (2 ^ 47) with 140737488355328. apply orb_true_iff. right. apply Z.eqb_eq.
  change (Z.shiftl 1 17 - 1) with 131071. zlia.
Qed.

Section operations.
Import AddressSpace.
Context {A M : Type} `{MapperSpec A M}.
Implicit Types (w : world A) (self : t M) (tr : translation) (tabs free live : gset Z).

Lemma page_addr_ok base i : 0 <= i -> 0 <= base -> page base i < W64 -> page_addr base i = Ret (page base i).
Proof.
  unfold page, page_addr. intros. rewrite mul_Ret by klia. cbn [obind]. rewrite add_Ret by done. done.
Qed.

Lemma flush_loop_ok n : forall i w base,
  0 <= i -> 0 <= base -> base + (i + Z.of_nat n) * PAGE_SIZE <= W64 ->
  exists w', flush_loop n i w base = Ret w' /\ memory w' = memory w /\ locked w' = locked w /\
    frame_allocator w' = frame_allocator w /\ hhdm_offset w' = hhdm_offset w /\
    flushed w' = flushed w ++ ((fun k => page base (i + Z.of_nat k)) <$> seq 0 n).
Proof.
  induction n as [|n IH]; intros i w base Hi Hb Hlen; cbn [flush_loop].
  - exists w. cbn. by rewrite app_nil_r.
  - rewrite page_addr_ok by (unfold page; klia). cbn [obind].
    destruct (IH (i + 1) (flush_tlb_page w (page base i)) base) as (w' & -> & ? & ? & ? & ? & Hf); try lia.
    exists w'. split_and!; try done. rewrite Hf. cbn [flush_tlb_page flushed]. rewrite <- app_assoc. f_equal.
    cbn. rewrite Z.add_0_r. f_equal. rewrite <- fmap_S_seq, <- list_fmap_compose. apply list_fmap_ext.
    intros k x _. cbn. f_equal. lia.
Qed.

(** Nothing new covers an address. *)
Definition opens w w' mp : Prop := forall x, ms_open w mp x -> ms_open w' mp x.

(** A deallocated frame that is not a table leaves the mapper alone. *)
Lemma dealloc_step w mp tr tabs free live f :
  ms_state w mp tr tabs free live -> f ∈ live -> f ∉ tabs ->
  exists w', lock_and_deallocate w f = Ret w' /\
    (ms_state w' mp tr tabs ({[f]} ∪ free) (live ∖ {[f]}) /\ opens w w' mp) /\
    hhdm_offset w' = hhdm_offset w /\ flushed w' = flushed w.
Proof.
  intros Hm Hf Hnt. pose proof (ms_mm _ _ _ _ _ _ Hm) as Hmm.
  destruct (lock_and_deallocate_ok _ _ _ _ Hmm Hf) as (w' & E & Hmm' & Hs & Hh & Hfl).
  exists w'. split; [done|]. split; [|by split]. eapply ms_frame; [exact Hm|exact Hmm'|done|..].
  - pose proof (ms_tabs _ _ _ _ _ _ Hm). set_solver.
  - intros g x Hg Hx. apply Hs. intros Hx'.
    destruct (mm_state_wf _ _ _ f Hmm) as [[_ ?] _]; [by apply elem_of_union_r|].
    destruct (ms_tabs_wf _ _ _ _ _ _ g Hm Hg) as [_ ?].
    revert Hx'. apply (in_frame_disjoint _ g f); try done. by intros ->.
Qed.

(** Rolling back (or unmapping) a run of pages. *)
Lemma rollback_loop_ok fs : forall i w self tr tabs free live base fl,
  ms_state w (mapper self) (tr_map tr base i fs fl) tabs free live ->
  (forall f, f ∈ fs -> f ∈ live /\ (f ∉ tabs)) -> NoDup fs ->
  base mod PAGE_SIZE = 0 -> 0 <= base -> 0 <= i -> i + Z.of_nat (length fs) <= 2 ^ 36 ->
  base + (i + Z.of_nat (length fs)) * PAGE_SIZE <= W64 ->
  (forall j x, i <= j < i + Z.of_nat (length fs) -> page_of x = page_of (page base j) -> tr x = None) ->
  exists w', rollback_loop (length fs) i w self base = Ret w' /\
    (ms_state w' (mapper self) tr tabs (list_to_set fs ∪ free) (live ∖ list_to_set fs) /\ opens w w' (mapper self)) /\
    hhdm_offset w' = hhdm_offset w /\ flushed w' = flushed w.
Proof.
  induction fs as [|f fs IH]; intros i w self tr tabs free live base fl Hm Hfs Hnd Hb Hb0 Hi Hlen Hend Hn.
  { exists w. split_and!; try done; [|by intros x]. replace (list_to_set [] ∪ free) with free by set_solver.
    by replace (live ∖ list_to_set []) with live by set_solver. }
  cbn [length] in Hlen, Hend, Hn. cbn [length rollback_loop]. rewrite page_addr_ok by (unfold page; klia). cbn [obind].
  pose proof (ms_unmap _ _ _ _ _ _ (page base i) Hm (page_mod _ _ Hb)) as Hu.
  rewrite (tr_map_at _ _ _ _ _ 0 f) in Hu; try done; [|by rewrite Z.add_0_r].
  rewrite page_mod, Z.add_0_r in Hu by done.
  destruct Hu as (w1 & -> & Hm1 & Ho1 & Hh1 & Hf1). cbn [obind expect_ok].
  assert (Hni : forall x, page_of x = page_of (page base i) -> tr x = None) by (intros x; apply Hn; lia).
  assert (Hm1' := ms_ext _ _ _ _ _ _ _ Hm1 (tr_del_run _ _ _ _ _ _ Hb Hi Hlen Hni)).
  destruct (Hfs f) as [Hfl Hft]; [left|]. apply NoDup_cons in Hnd as [Hnf Hnd].
  destruct (dealloc_step _ _ _ _ _ _ _ Hm1' Hfl Hft) as (w2 & -> & [Hm2 Ho2] & Hh2 & Hf2). cbn [obind].
  destruct (IH (i + 1) w2 self tr tabs ({[f]} ∪ free) (live ∖ {[f]}) base fl) as (w3 & -> & [Hm3 Ho3] & Hh3 & Hf3);
    try done; try lia.
  - intros g Hg. destruct (Hfs g) as [? ?]; [by right|]. split; [|done]. apply elem_of_difference. split; [done|].
    intros ->%elem_of_singleton. done.
  - intros j x Hj. apply Hn. lia.
  - exists w3. split_and!; [done| |intros x Hx; by apply Ho3, Ho2, Ho1|congruence|congruence]. rewrite list_to_set_cons.
    replace ({[f]} ∪ list_to_set fs ∪ free) with (list_to_set fs ∪ ({[f]} ∪ free)) by (clear; set_solver).
    by replace (live ∖ ({[f]} ∪ list_to_set fs)) with (live ∖ {[f]} ∖ list_to_set fs) by (clear; set_solver).
Qed.

(** The state after the pages [fs] of a run have been mapped: where the frames
    taken from the free set [free0] have gone. *)
Record run (w0 : world A) (mp : M) tr (base fl : Z) (tabs0 free0 live0 : gset Z)
    (fs : list Z) w tabs free live : Prop := {
  run_ms : ms_state w mp (tr_map tr base 0 fs fl) tabs free live;
  run_frames : forall f, f ∈ fs -> f ∈ free0 /\ (f ∉ free) /\ (f ∉ tabs);
  run_nodup : NoDup fs;
  run_tabs : tabs0 ⊆ tabs /\ tabs ⊆ tabs0 ∪ free0 ∖ free;
  run_free : free ⊆ free0;
  run_used : forall f, f ∈ free0 -> f ∉ free -> f ∈ fs \/ f ∈ tabs;
  run_live : live = live0 ∪ free0 ∖ free;
  run_fresh : forall j x, 0 <= j < Z.of_nat (length fs) -> page_of x = page_of (page base j) -> tr x = None;
  run_world : (hhdm_offset w = hhdm_offset w0 /\ flushed w = flushed w0) /\ opens w0 w mp;
}.

Lemma run_start w mp tr base fl tabs free live :
  ms_state w mp tr tabs free live -> run w mp tr base fl tabs free live [] w tabs free live.
Proof.
  intros Hm. split; try done.
  - by intros f []%elem_of_nil.
  - constructor.
  - split; [done|]. intros f Hf. by apply elem_of_union_l.
  - rewrite difference_diag_L. by rewrite union_empty_r_L.
  - cbn. lia.
  - split; [done|]. by intros x.
Qed.

Lemma take_union (free live : gset Z) f free' :
  f ∈ free -> free' ⊆ free ∖ {[f]} -> {[f]} ∪ live ∪ (free ∖ {[f]}) ∖ free' = live ∪ free ∖ free'.
Proof.
  intros Hf Hs. apply leibniz_equiv. intros x. rewrite !elem_of_union, !elem_of_difference, elem_of_singleton.
  specialize (Hs x). rewrite elem_of_difference, elem_of_singleton in Hs. destruct (decide (x = f)); naive_solver.
Qed.

Lemma put_union (free free' : gset Z) f :
  f ∈ free -> free' ⊆ free ∖ {[f]} -> {[f]} ∪ free' ⊆ free.
Proof. intros Hf Hs x [->%elem_of_singleton|Hx]%elem_of_union; [done|]. apply Hs in Hx. set_solver. Qed.

(** One page of [alloc_and_map]: a frame is allocated and mapped, or given back
    when the page is already mapped. *)
Lemma map_page_ok w0 self tr base fl pf tabs0 free0 live0 fs w tabs free live (i := Z.of_nat (length fs)) :
  run w0 (mapper self) tr base fl tabs0 free0 live0 fs w tabs free live ->
  tabs0 ## free0 -> (4 <= size free)%nat -> PageFlags.valid pf -> fl = PageFlags.or pf PageFlags.READ ->
  base mod PAGE_SIZE = 0 -> i < 2 ^ 36 -> 0xffff800000000000 <= base -> page base i < W64 ->
  exists f w1 r w2, lock_and_allocate w = Ret (Some f, w1) /\
    map (unlock w1) self (mk_request (page base i) f pf) = Ret (r, w2) /\
    match r with
    | Ok _ => exists tabs' free' live', (size free <= size free' + 4)%nat /\
        run w0 (mapper self) tr base fl tabs0 free0 live0 (fs ++ [f]) w2 tabs' free' live'
    | Err (f', e) => f' = f /\ e = ErrMap AlreadyMapped /\
        (tr (page base i) <> None \/ ~ ms_open w0 (mapper self) (page base i)) /\
        exists w3 tabs' free' live', lock_and_deallocate w2 f = Ret w3 /\
          run w0 (mapper self) tr base fl tabs0 free0 live0 fs w3 tabs' free' live'
    end.
Proof.
  intros [Hm Hfr Hnd [Ht1 Ht2] Hfree Hused Hlive Hfresh [[Hh Hfl] Hop]] Hd H4 Hpf -> Hb Hi Hlo Hhi.
  pose proof (ms_mm _ _ _ _ _ _ Hm) as Hmm. pose proof (ms_tabs _ _ _ _ _ _ Hm) as Htd.
  destruct (lock_and_allocate_some _ _ _ Hmm) as (f & w1 & E1 & _ & Hf & Hmm1 & Hmem1 & Hh1 & Hfl1).
  { intros ->. rewrite size_empty in H4. lia. }
  destruct (mm_state_wf _ _ _ f Hmm) as [Hfw _]; [by apply elem_of_union_l|].
  assert (Hm1 : ms_state (unlock w1) (mapper self) (tr_map tr base 0 fs (PageFlags.or pf PageFlags.READ)) tabs
                  (free ∖ {[f]}) ({[f]} ∪ live) /\ opens w (unlock w1) (mapper self)).
  { eapply ms_frame; [exact Hm|exact Hmm1|done|set_solver|]. intros g x _ _. cbn. by rewrite Hmem1. }
  destruct Hm1 as [Hm1 Hop1].
  destruct (ms_map _ _ _ _ _ _ (page base i) f pf Hm1) as
    (res & w2 & tabs' & free' & live' & E2 & Ht3 & Ht4 & Hu & Hsub & Hsz2 & Hlive2 & Hh2 & Hfl2 & Hop2 & Hr); try done.
  { rewrite size_difference by (by apply singleton_subseteq_l). rewrite size_singleton. lia. }
  { by apply page_mod. }
  { apply canonical_high. unfold page in *. klia. }
  rewrite size_difference, size_singleton in Hsz2 by (by apply singleton_subseteq_l).
  rewrite take_union in Hlive2 by done. cbn [unlock with_lock hhdm_offset flushed] in Hh2, Hfl2.
  assert (Hft : f ∉ tabs') by (intros Hx%Ht4; set_solver).
  assert (Hfr' : forall g, g ∈ fs -> g ∈ free0 /\ (g ∉ free') /\ (g ∉ tabs')).
  { intros g Hg. destruct (Hfr g Hg) as (? & ? & ?). split_and!; [done|set_solver|]. intros Hx%Ht4. set_solver. }
  assert (Hlive' : live' = live0 ∪ free0 ∖ free').
  { rewrite Hlive2, Hlive. apply difference_chain; [done|set_solver]. }
  assert (Hfs : f ∉ fs) by (intros Hx; destruct (Hfr f Hx) as (_ & ? & _); done).
  assert (Hop' : opens w0 w2 (mapper self)) by (intros x Hx; by apply Hop2, Hop1, Hop).
  exists f, w1. unfold map. cbn [req_virt req_frame req_flags]. rewrite E2. cbn [obind].
  destruct res as [token|[f' e]].
  - eexists _, w2. split_and!; [done|reflexivity|]. destruct Hr as (-> & Hnone & Hm2).
    exists tabs', free', live'. split; [lia|]. split; try done.
    + by rewrite tr_map_snoc.
    + intros g [Hg| ->%list_elem_of_singleton]%elem_of_app; [by apply Hfr'|]. split_and!; [by apply Hfree|set_solver|done].
    + apply NoDup_app. split_and!; [done| |apply NoDup_singleton]. by intros g Hg ->%list_elem_of_singleton.
    + split; [set_solver|]. intros g Hg%Ht4. set_solver.
    + set_solver.
    + intros g Hg Hng. destruct (decide (g ∈ free)); [|destruct (Hused g); [done|done|left; set_solver|right; set_solver]].
      destruct (decide (g = f)) as [->|]; [left; set_solver|right]. apply Hu. set_solver.
    + intros j x Hj. rewrite length_app in Hj. cbn in Hj. destruct (decide (j = i)) as [->|]; [|apply Hfresh; lia].
      intros Hx. pose proof (ms_page _ _ _ _ _ _ (page base i) x Hm1 Hx Hnone) as Hxn.
      rewrite tr_map_other in Hxn; [done|]. intros k Hk. rewrite Hx. intros E%page_inj; try done; lia.
    + split; [split; congruence|done].
  - eexists _, w2. split_and!; [done|reflexivity|]. destruct Hr as (-> & -> & Hm2 & Hwhy). split_and!; try done.
    { destruct Hwhy as [Hw|Hw]; [left|right; intros Hx; by apply Hw, Hop1, Hop].
      intros Hx. apply Hw. rewrite tr_map_other; [done|]. intros k Hk E%page_inj; try done; lia. }
    destruct (dealloc_step w2 (mapper self) _ tabs' free' live' f Hm2) as (w3 & E3 & [Hm3 Hop3] & Hh3 & Hfl3); [|done|].
    { rewrite Hlive'. apply elem_of_union_r, elem_of_difference. split; [by apply Hfree|]. intros Hx%Hsub. set_solver. }
    exists w3, tabs', ({[f]} ∪ free'), (live' ∖ {[f]}). split; [done|]. split; try done.
    + intros g Hg. destruct (Hfr' g Hg) as (? & ? & ?). split_and!; [done| |done].
      intros [->%elem_of_singleton|]%elem_of_union; done.
    + split; [set_solver|]. intros g Hg%Ht4. set_solver.
    + intros x Hx. apply Hfree. by apply (put_union free free' f).
    + intros g Hg Hng. destruct (decide (g ∈ free)); [|destruct (Hused g); [done|done|by left|right; set_solver]].
      right. apply Hu. set_solver.
    + rewrite Hlive'. clear -Hf Hfree Hlive Hmm. pose proof (mm_state_disjoint _ _ _ Hmm f Hf) as Hnl.
      apply leibniz_equiv. intros x. rewrite Hlive in Hnl. specialize (Hfree f Hf). set_solver.
    + split; [split; congruence|]. intros x Hx. by apply Hop3, Hop'.
Qed.

(** Rolling a run back gives the frames of its pages back to the allocator;
    only the tables stay. *)
Lemma run_rollback w0 self tr base fl tabs0 free0 live0 fs w tabs free live :
  run w0 (mapper self) tr base fl tabs0 free0 live0 fs w tabs free live ->
  free0 ## live0 -> base mod PAGE_SIZE = 0 -> 0 <= base -> Z.of_nat (length fs) <= 2 ^ 36 ->
  base + Z.of_nat (length fs) * PAGE_SIZE <= W64 ->
  exists w' free' live', rollback_range w self base (Z.of_nat (length fs)) = Ret w' /\
    run w0 (mapper self) tr base fl tabs0 free0 live0 [] w' tabs free' live'.
Proof.
  intros [Hm Hfr Hnd [Ht1 Ht2] Hfree Hused Hlive Hfresh [[Hh Hfl] Hop]] Hd Hb Hb0 Hlen Hend.
  assert (Hfl' : forall f, f ∈ fs -> f ∈ live /\ (f ∉ tabs)).
  { intros f Hf. destruct (Hfr f Hf) as (? & ? & ?). split; [|done]. rewrite Hlive. apply elem_of_union_r, elem_of_difference. done. }
  destruct (rollback_loop_ok fs 0 w self tr tabs free live base fl) as (w' & E & [Hm' Ho'] & Hh' & Hf'); try done.
  exists w', (list_to_set fs ∪ free), (live ∖ list_to_set fs).
  unfold rollback_range. rewrite Nat2Z.id. split; [done|]. split; try done.
  - by intros f []%elem_of_nil.
  - constructor.
  - split; [done|]. intros g Hg. destruct (decide (g ∈ fs)) as [Hx|Hx]; [by destruct (Hfr g Hx) as (_ & _ & ?)|].
    apply Ht2 in Hg. rewrite elem_of_union, elem_of_difference in *. destruct Hg as [?|[? ?]]; [by left|right].
    split; [done|]. rewrite elem_of_union, elem_of_list_to_set. tauto.
  - intros g [Hg%elem_of_list_to_set|Hg]%elem_of_union; [by apply Hfr|by apply Hfree].
  - intros g Hg [Hn1 Hn2]%not_elem_of_union. rewrite elem_of_list_to_set in Hn1. right.
    destruct (Hused g Hg Hn2); done.
  - rewrite Hlive. apply leibniz_equiv. intros x. specialize (Hd x). specialize (Hfr x).
    rewrite elem_of_difference, !elem_of_union, !elem_of_difference, elem_of_union, elem_of_list_to_set. naive_solver.
  - cbn. lia.
  - split; [split; congruence|]. intros x Hx. by apply Ho', Hop.
Qed.

(** Why a page could not be mapped. *)
Definition taken w0 mp tr (base n : Z) : Prop :=
  exists j, 0 <= j < n /\ (tr (page base j) <> None \/ ~ ms_open w0 mp (page base j)).

Section loop.
Context (w0 : world A) (tr : translation) (base fl pf : Z) (tabs0 free0 live0 : gset Z).
Context (Hpf : PageFlags.valid pf) (Hfl : fl = PageFlags.or pf PageFlags.READ).
Context (Hb : base mod PAGE_SIZE = 0) (Hlo : 0xffff800000000000 <= base).
Context (Htd : tabs0 ## free0) (Hfd : free0 ## live0).

Lemma alloc_map_loop_ok self self' region kind n : forall fs w tabs free live,
  Region.base region = base -> free_virt self region kind = Ret (Ok tt, self') ->
  run w0 (mapper self) tr base fl tabs0 free0 live0 fs w tabs free live ->
  (4 * n <= size free)%nat ->
  Z.of_nat (length fs + n) <= 2 ^ 36 -> base + Z.of_nat (length fs + n) * PAGE_SIZE <= W64 ->
  exists r s' w' fs' tabs' free' live',
    alloc_map_loop n (Z.of_nat (length fs)) w self region pf kind = Ret (r, s', w') /\
    run w0 (mapper self) tr base fl tabs0 free0 live0 fs' w' tabs' free' live' /\
    match r with
    | Ok _ => s' = self /\ length fs' = (length fs + n)%nat
    | Err e => e = ErrMap AlreadyMapped /\ s' = self' /\ fs' = [] /\
        taken w0 (mapper self) tr base (Z.of_nat (length fs + n))
    end.
Proof using Hpf Hfl Hb Hlo Htd Hfd.
  induction n as [|n IH]; intros fs w tabs free live Hbase Hfv Hrun Hsz Hlen Hend; cbn [alloc_map_loop].
  { exists (Ok tt), self, w, fs, tabs, free, live. split_and!; done || lia. }
  rewrite Hbase, page_addr_ok by (unfold page; klia). cbn [obind].
  destruct (map_page_ok w0 self tr base fl pf tabs0 free0 live0 fs w tabs free live Hrun)
    as (f & w1 & r & w2 & -> & Em & Hr); try done; [lia|lia|unfold page; klia|].
  cbn [obind]. rewrite Em. cbn [obind]. destruct r as [token|[f' e]].
  - destruct Hr as (tabs' & free' & live' & Hs' & Hrun').
    destruct (IH (fs ++ [f]) w2 tabs' free' live') as (r & s' & w' & fs' & tabs2 & fr2 & lv2 & E & Hrun2 & Hr2);
      try done; rewrite ?length_app; cbn [length]; try lia.
    exists r, s', w', fs', tabs2, fr2, lv2. rewrite length_app in E. cbn [length] in E.
    replace (Z.of_nat (length fs) + 1) with (Z.of_nat (length fs + 1)) by lia. split_and!; try done.
    destruct r; cycle 1.
    { destruct Hr2 as (? & ? & ? & Ht). split_and!; try done. rewrite length_app in Ht. cbn in Ht.
      by replace (length fs + S n)%nat with (length fs + 1 + n)%nat by lia. }
    destruct Hr2 as [? Hl2]. split; [done|]. rewrite Hl2, length_app. cbn. lia.
  - destruct Hr as (-> & -> & Hwhy & w3 & tabs' & free' & live' & -> & Hrun'). cbn [obind].
    destruct (run_rollback _ _ _ _ _ _ _ _ _ _ _ _ _ Hrun') as (w4 & fr4 & lv4 & -> & Hrun4); try done; try klia.
    cbn [obind]. rewrite Hfv. cbn [obind expect_ok].
    exists (Err (ErrMap AlreadyMapped)), self', w4, [], tabs', fr4, lv4. split_and!; try done.
    exists (Z.of_nat (length fs)). split; [lia|done].
Qed.

End loop.

(** The pool of a kind has the free regions [l], all in the kernel's range. *)
Definition pool self (kind : AllocKind) (l : list Region.t) : Prop :=
  RegionInv.inv (region_allocator_for self kind) l /\
  forall x, covers l x -> HEAP_START <= x < KERNEL_VM_END.

(** A request [alloc_and_map] can serve: a slot for each fragment, and a frame
    for each page and its tables. *)
Definition serviceable (l : list Region.t) free (size align pf : Z) : Prop :=
  good_request size align /\ (length l + 1 < CAPACITY)%nat /\ PageFlags.valid pf /\
  (4 * Z.to_nat (size / PAGE_SIZE) <= base.size free)%nat.

Lemma set_get self kind ra : region_allocator_for (set_region_allocator self kind ra) kind = ra.
Proof. by destruct kind. Qed.

Lemma set_mapper self kind ra : mapper (set_region_allocator self kind ra) = mapper self.
Proof. by destruct kind. Qed.

(** [alloc_virt] and the [free_virt] that undoes it. *)
Lemma alloc_virt_ok self kind l size align :
  pool self kind l -> good_request size align -> (length l + 1 < CAPACITY)%nat ->
  exists r s1, alloc_virt self size align kind = Ret (r, s1) /\ mapper s1 = mapper self /\
    match r with
    | Ok region => region.2 = size /\ free_range l size align region.1 /\
        HEAP_START <= region.1 /\ region.1 + size <= KERNEL_VM_END /\ region.1 mod PAGE_SIZE = 0 /\
        (exists l1, pool s1 kind l1 /\
           forall x, covers l1 x <-> covers l x /\ ~ in_ival region x) /\
        exists s2, free_virt s1 region kind = Ret (Ok tt, s2) /\ mapper s2 = mapper self /\ pool s2 kind l
    | Err e => e = ErrRegion OutOfVirtualMemory /\ pool s1 kind l /\ forall a, ~ free_range l size align a
    end.
Proof.
  intros [Hi Hrange] Hq Hcap. pose proof Hq as (Hs & Hsm & Hp & Hu & Hm).
  destruct (alloc_spec _ l size align Hi Hq) as (res & ra' & E & Hr); [lia|].
  unfold alloc_virt. rewrite E. cbn [obind].
  eexists _, _. split; [reflexivity|]. split; [apply set_mapper|]. destruct res as [r|e].
  - destruct Hr as (Hfree & Hr2 & _ & l' & Hi' & _ & Hc). pose proof Hfree as [Hmod Hcov].
    assert (HEAP_START <= r.1 < KERNEL_VM_END) by (apply Hrange, Hcov; lia).
    assert (HEAP_START <= r.1 + size - 1 < KERNEL_VM_END) by (apply Hrange, Hcov; lia).
    pose proof (power_of_two_pos _ Hp).
    split_and!; try done; try lia.
    + apply Z.mod_divide in Hmod; [|lia]. apply Z.mod_divide in Hm; [|klia].
      apply Z.mod_divide; [klia|]. by etrans.
    + exists l'. split; [|done]. split; [by rewrite set_get|]. intros x [? _]%Hc. by apply Hrange.
    + destruct (alloc_free_restore _ l size align r ra' Hi Hq Hcap E) as (ra2 & E2 & Hi2).
      unfold free_virt. rewrite set_get, E2. cbn [obind]. eexists. split; [reflexivity|].
      rewrite !set_mapper. split; [done|]. split; [by rewrite set_get|done].
  - destruct Hr as (-> & -> & Hn). split_and!; try done. split; [by rewrite set_get|done].
Qed.

Lemma alloc_and_map_ok w self kind l tr tabs free live size align pf :
  ms_state w (mapper self) tr tabs free live -> pool self kind l -> serviceable l free size align pf ->
  exists res s' w' fs tabs' free' live',
    alloc_and_map w self size align pf kind = Ret (res, s', w') /\ mapper s' = mapper self /\
    match res with
    | Ok r => r.2 = size /\ free_range l size align r.1 /\
        HEAP_START <= r.1 /\ r.1 + size <= KERNEL_VM_END /\ r.1 mod PAGE_SIZE = 0 /\
        length fs = Z.to_nat (size / PAGE_SIZE) /\
        (exists w1, run w (mapper self) tr r.1 (PageFlags.or pf PageFlags.READ) tabs free live fs w1 tabs' free' live' /\
           memory w' = memory w1 /\ mm_state w' free' live' /\ hhdm_offset w' = hhdm_offset w1 /\
           flushed w' = flushed w ++ ((fun k => page r.1 (Z.of_nat k)) <$> seq 0 (length fs))) /\
        (exists l1, pool s' kind l1 /\ forall x, covers l1 x <-> covers l x /\ ~ in_ival r x) /\
        exists s2, free_virt s' r kind = Ret (Ok tt, s2) /\ mapper s2 = mapper self /\ pool s2 kind l
    | Err e => pool s' kind l /\ fs = [] /\
        run w (mapper self) tr 0 0 tabs free live [] w' tabs' free' live' /\
        ((e = ErrRegion OutOfVirtualMemory /\ w' = w /\ forall a, ~ free_range l size align a) \/
         (e = ErrMap AlreadyMapped /\ exists a, free_range l size align a /\ a mod PAGE_SIZE = 0 /\
            taken w (mapper self) tr a (size / PAGE_SIZE)))
    end.
Proof.
  intros Hm Hpool (Hq & Hcap & Hpf & Hsz). unfold alloc_and_map.
  destruct (alloc_virt_ok self kind l size align Hpool Hq Hcap) as (r & s1 & -> & Hmp & Hr). cbn [obind].
  destruct r as [r|e]; cycle 1.
  { destruct Hr as (-> & Hp1 & Hn). eexists _, s1, w, [], tabs, free, live. split; [reflexivity|].
    split_and!; try done; [by apply run_start|]. by left. }
  destruct Hr as (Hr2 & Hfree & Hlo & Hhi & Hmod & Hl1 & s2 & Hfv & Hmp2 & Hp2).
  destruct Hq as (Hs & Hsm & _). pose proof (ms_mm _ _ _ _ _ _ Hm) as Hmm.
  rewrite <- Hmp in Hm. assert (Hn : Z.of_nat (Z.to_nat (size / PAGE_SIZE)) = size / PAGE_SIZE) by klia.
  destruct (alloc_map_loop_ok w tr r.1 (PageFlags.or pf PageFlags.READ) pf tabs free live Hpf eq_refl Hmod
    ltac:(klia) (ms_tabs _ _ _ _ _ _ Hm) (mm_state_disjoint _ _ _ Hmm) s1 s2 r kind (Z.to_nat (size / PAGE_SIZE))
    [] w tabs free live eq_refl Hfv (run_start _ _ _ _ _ _ _ _ Hm) Hsz)
    as (res & s' & w' & fs & tabs' & free' & live' & E & Hrun & Hres); cbn [length Nat.add]; [klia|klia|].
  change (Z.of_nat (length [])) with 0 in E. rewrite E. cbn [obind]. destruct res as [u|e].
  - destruct Hres as [-> Hlen]. cbn [length Nat.add] in Hlen. unfold flush_range.
    destruct (flush_loop_ok (Z.to_nat (size / PAGE_SIZE)) 0 w' (Region.base r)) as (w2 & E2 & Hm2 & Hk2 & Ha2 & Hh2 & Hf2);
      [lia|unfold Region.base; klia|unfold Region.base; klia|].
    rewrite E2. cbn [obind]. eexists _, s1, w2, fs, tabs', free', live'. split; [reflexivity|].
    rewrite Hmp in Hrun. split_and!; try done; [|eauto].
    exists w'. split_and!; try done.
    + destruct (ms_mm _ _ _ _ _ _ (run_ms _ _ _ _ _ _ _ _ _ _ _ _ _ Hrun)) as (? & a & ? & ?).
      split; [congruence|]. exists a. split; [congruence|]. by rewrite Hh2, Hm2.
    + rewrite Hf2, Hlen. f_equal. apply (run_world _ _ _ _ _ _ _ _ _ _ _ _ _ Hrun).
  - destruct Hres as (-> & -> & -> & Ht). rewrite Hmp in Hrun, Ht. cbn [length Nat.add] in Ht.
    rewrite Hn in Ht. eexists _, s2, w', [], tabs', free', live'.
    split; [reflexivity|]. split_and!; try done; [|right; split; [done|]; exists r.1; by split_and!].
    destruct Hrun as [? ? ? ? ? ? ? ? ?]. split; try done. cbn. lia.
Qed.

(** Flushing the TLB does not change the mapper's state. *)
Lemma ms_flushed w w' mp tr tabs free live :
  ms_state w mp tr tabs free live -> memory w' = memory w -> locked w' = locked w ->
  frame_allocator w' = frame_allocator w -> hhdm_offset w' = hhdm_offset w -> ms_state w' mp tr tabs free live.
Proof.
  intros Hm Hmem Hk Ha Hh. destruct (ms_mm _ _ _ _ _ _ Hm) as (Hk1 & a & Ha1 & Hst).
  eapply ms_frame; [exact Hm|..|done|by eapply ms_tabs|].
  - split; [congruence|]. exists a. split; [congruence|]. by rewrite Hh, Hmem.
  - intros f x _ _. by rewrite Hmem.
Qed.

Lemma run_flushed w0 mp tr base fl tabs0 free0 live0 fs w1 tabs free live w' :
  run w0 mp tr base fl tabs0 free0 live0 fs w1 tabs free live ->
  memory w' = memory w1 -> mm_state w' free live -> hhdm_offset w' = hhdm_offset w1 ->
  ms_state w' mp (tr_map tr base 0 fs fl) tabs free live.
Proof.
  intros Hrun Hmem Hmm Hh. pose proof (run_ms _ _ _ _ _ _ _ _ _ _ _ _ _ Hrun) as Hm.
  eapply ms_frame; [exact Hm|done|done|by eapply ms_tabs|]. intros f x _ _. by rewrite Hmem.
Qed.

(** What a run of mapped pages translates to. *)
Lemma run_translates w self tr base fs fl tabs free live :
  ms_state w (mapper self) (tr_map tr base 0 fs fl) tabs free live ->
  base mod PAGE_SIZE = 0 -> Z.of_nat (length fs) <= 2 ^ 36 ->
  (forall k f off, fs !! k = Some f -> 0 <= off < PAGE_SIZE ->
     translate w self (page base (Z.of_nat k) + off) = Ret (Some (f + off, fl))) /\
  (forall x, (forall k, 0 <= k < Z.of_nat (length fs) -> page_of x <> page_of (page base k)) ->
     translate w self x = Ret (tr x)).
Proof.
  intros Hm Hb Hlen. unfold translate. split.
  - intros k f off Hk Hoff. rewrite (ms_translate _ _ _ _ _ _ _ Hm).
    destruct (page_of_off base (Z.of_nat k) off Hb Hoff) as [Hpg Hofm].
    rewrite (tr_map_at _ _ _ _ _ k f) by (done || klia). by rewrite Hofm.
  - intros x Hx. rewrite (ms_translate _ _ _ _ _ _ _ Hm). f_equal. apply tr_map_other. intros j Hj. by apply Hx.
Qed.

(** [unmap_and_dealloc]'s loop is the rollback loop when no page fails. *)
Lemma unmap_loop_all n : forall i w self base fe w',
  rollback_loop n i w self base = Ret w' -> unmap_loop n i w self base fe = Ret (fe, w').
Proof.
  induction n as [|n IH]; intros i w self base fe w' E; cbn in *; [by injection E as ->|].
  ret_inv. rewrite E0. cbn [obind]. destruct v0 as [r w1]. ret_inv. rewrite E1. cbn [obind].
  destruct r as [[f tok]|e]; cbn in *; [|discriminate]. ret_inv. destruct v0 as [f' tok'].
  injection E2 as -> ->. ret_inv. rewrite E2. cbn [obind]. by apply IH.
Qed.

(** C5: [alloc_and_map] is all or nothing.  Provided the pool has at most 62 free
    ranges, so that two of its 64 slots are unused (with all slots in use the
    region allocator can panic), and the frame allocator has four frames for every
    page, itself and its tables, a well-formed request returns.  On success the region has the requested size and
    alignment and was free in the pool, each of its pages translates to a frame of
    its own, taken from the allocator, with the requested flags, every page is
    flushed once, other pages are translated as before, and the region has left
    the pool.  Under these conditions it fails only when the pool has no free range for the request, or
    when a page of a free range is translated or covered by a larger page; then
    every page mapped on the way has been unmapped, the translations and the pool are what
    they were, and every frame is back with the allocator except those that now
    hold page tables. *)
Theorem alloc_and_map_atomic w self kind l tr tabs free live size align pf :
  ms_state w (mapper self) tr tabs free live -> pool self kind l -> serviceable l free size align pf ->
  exists res s' w' tr' tabs' free' live',
    alloc_and_map w self size align pf kind = Ret (res, s', w') /\
    ms_state w' (mapper s') tr' tabs' free' live' /\
    match res with
    | Ok r => r.2 = size /\ free_range l size align r.1 /\
        (exists fs, length fs = Z.to_nat (size / PAGE_SIZE) /\ NoDup fs /\
           (forall f, f ∈ fs -> f ∈ free /\ (f ∉ free') /\ (f ∉ tabs')) /\
           (forall k f off, fs !! k = Some f -> 0 <= off < PAGE_SIZE ->
              translate w' s' (page r.1 (Z.of_nat k) + off) = Ret (Some (f + off, PageFlags.or pf PageFlags.READ))) /\
           flushed w' = flushed w ++ ((fun k => page r.1 (Z.of_nat k)) <$> seq 0 (length fs))) /\
        (forall x, (forall k, 0 <= k < size / PAGE_SIZE -> page_of x <> page_of (page r.1 k)) ->
           translate w' s' x = translate w self x) /\
        exists l', pool s' kind l' /\ forall x, covers l' x <-> covers l x /\ ~ in_ival r x
    | Err e => tr_eq tr' tr /\ pool s' kind l /\ flushed w' = flushed w /\
        (forall f, f ∈ free -> f ∉ free' -> f ∈ tabs') /\
        ((e = ErrRegion OutOfVirtualMemory /\ forall a, ~ free_range l size align a) \/
         (e = ErrMap AlreadyMapped /\ exists a, free_range l size align a /\
            taken w (mapper self) tr a (size / PAGE_SIZE)))
    end.
Proof.
  intros Hm Hpool Hserv.
  destruct (alloc_and_map_ok w self kind l tr tabs free live size align pf Hm Hpool Hserv)
    as (res & s' & w' & fs & tabs' & free' & live' & E & Hmp & Hr).
  exists res, s', w'. destruct res as [r|e].
  - destruct Hr as (Hr2 & Hfree & Hlo & Hhi & Hmod & Hlen & (w1 & Hrun & Hmem & Hmm & Hh & Hfl) & Hl1 & _).
    pose proof (run_flushed _ _ _ _ _ _ _ _ _ _ _ _ _ _ Hrun Hmem Hmm Hh) as Hm'.
    exists (tr_map tr r.1 0 fs (PageFlags.or pf PageFlags.READ)), tabs', free', live'.
    destruct Hserv as ((Hs & _) & _). rewrite <- Hmp in Hm'.
    destruct (run_translates _ _ _ _ _ _ _ _ _ Hm' Hmod) as [Htr Hot]; [klia|]. split_and!; try done.
    + exists fs. split_and!; try done; [apply (run_nodup _ _ _ _ _ _ _ _ _ _ _ _ _ Hrun)|
        apply (run_frames _ _ _ _ _ _ _ _ _ _ _ _ _ Hrun)].
    + intros x Hx. rewrite Hot by (intros k Hk; apply Hx; klia). unfold translate.
      by rewrite (ms_translate _ _ _ _ _ _ _ Hm).
  - destruct Hr as (Hp & -> & Hrun & He). exists tr, tabs', free', live'. rewrite Hmp.
    pose proof (run_ms _ _ _ _ _ _ _ _ _ _ _ _ _ Hrun) as Hm'. cbn in Hm'. split_and!; try done.
    + apply (run_world _ _ _ _ _ _ _ _ _ _ _ _ _ Hrun).
    + intros f Hf Hn. destruct (run_used _ _ _ _ _ _ _ _ _ _ _ _ _ Hrun f Hf Hn) as [Hx|]; [by apply elem_of_nil in Hx|done].
    + destruct He as [(-> & _ & ?)|(-> & a & ? & _ & ?)]; [by left|right; split; [done|]; by exists a].
Qed.

(** C10: [unmap_and_dealloc] undoes [alloc_and_map], if before the allocation the
    pool had at most 62 free ranges (so that the fragments that the allocation
    leaves cannot fill the 64 slots, in which case [free] returns an error) and
    the frame allocator four frames for every page: it succeeds, every translation and the region pool are what they were before, and the frames are
    back with the allocator, except those that now hold page tables. *)
Theorem map_unmap_roundtrip w self kind l tr tabs free live size align pf r s1 w1 :
  ms_state w (mapper self) tr tabs free live -> pool self kind l -> serviceable l free size align pf ->
  alloc_and_map w self size align pf kind = Ret (Ok r, s1, w1) ->
  exists s2 w2 tabs' free' live', unmap_and_dealloc w1 s1 r kind = Ret (Ok tt, s2, w2) /\
    ms_state w2 (mapper self) tr tabs' free' live' /\ pool s2 kind l /\
    (forall f, f ∈ free -> f ∈ free' \/ f ∈ tabs').
Proof.
  intros Hm Hpool Hserv Ea.
  destruct (alloc_and_map_ok w self kind l tr tabs free live size align pf Hm Hpool Hserv)
    as (res & s' & w' & fs & tabs' & free' & live' & E & Hmp & Hr).
  rewrite E in Ea. injection Ea as -> -> ->.
  destruct Hr as (Hr2 & _ & Hlo & Hhi & Hmod & Hlen & (w3 & Hrun & Hmem & Hmm & Hh & Hfl) & _ & s2 & Hfv & Hmp2 & Hp2).
  destruct Hserv as ((Hs & Hsm & _) & _).
  assert (Hrun' : run w1 (mapper s1) tr r.1 (PageFlags.or pf PageFlags.READ) tabs free live fs w1 tabs' free' live').
  { pose proof (run_flushed _ _ _ _ _ _ _ _ _ _ _ _ _ _ Hrun Hmem Hmm Hh) as Hm'. rewrite Hmp.
    destruct Hrun. split; try done. split; [done|]. by intros x. }
  pose proof (mm_state_disjoint _ _ _ (ms_mm _ _ _ _ _ _ Hm)) as Hd.
  destruct (run_rollback _ _ _ _ _ _ _ _ _ _ _ _ _ Hrun' Hd Hmod) as (w4 & free4 & live4 & Erb & Hrun4); [klia|klia|klia|].
  unfold unmap_and_dealloc, Region.size, Region.base. rewrite Hr2.
  replace (Z.to_nat (size / PAGE_SIZE)) with (length fs) by done.
  unfold rollback_range in Erb. rewrite Nat2Z.id in Erb. rewrite (unmap_loop_all _ _ _ _ _ None _ Erb). cbn [obind].
  rewrite Hfv. cbn [obind expect_ok]. unfold flush_range.
  destruct (flush_loop_ok (Z.to_nat (size / PAGE_SIZE)) 0 w4 r.1) as (w5 & -> & Hm5 & Hk5 & Ha5 & Hh5 & _); [lia|klia|klia|].
  cbn [obind]. pose proof (run_ms _ _ _ _ _ _ _ _ _ _ _ _ _ Hrun4) as Hm4. rewrite Hmp in Hm4. cbn in Hm4.
  exists s2, w5, tabs', free4, live4. split_and!; try done.
  - eapply ms_frame; [exact Hm4| |done|by eapply ms_tabs|intros f x _ _; by rewrite Hm5].
    destruct (ms_mm _ _ _ _ _ _ Hm4) as (? & a & ? & ?).
    split; [congruence|]. exists a. split; [congruence|]. by rewrite Hh5, Hm5.
  - intros f Hf. destruct (decide (f ∈ free4)); [by left|right].
    destruct (run_used _ _ _ _ _ _ _ _ _ _ _ _ _ Hrun4 f) as [Hx|]; [done|done|by apply elem_of_nil in Hx|done].
Qed.

(** ** Running out of frames *)
Lemma lock_and_allocate_locked w o w' : lock_and_allocate w = Ret (o, w') -> locked w' = true.
Proof.
  unfold lock_and_allocate, lock. destruct (locked w); [discriminate|]. cbn.
  destruct (frame_allocator w); [|by intros [= <- <-]]. intros E. ret_inv. destruct v as [o' a'].
  injection E as <- <-. done.
Qed.

(** The error of each layer keeps its kind. *)
Lemma map_err w self req f e w' :
  map w self req = Ret (Err (f, e), w') -> exists e', e = ErrMap e'.
Proof.
  unfold map. intros E. apply obind_Ret_inv in E as ([[?|[? ?]] ?] & _ & E); simplify_eq. eauto.
Qed.

Lemma alloc_virt_err self size align kind e s' :
  alloc_virt self size align kind = Ret (Err e, s') -> exists e', e = ErrRegion e'.
Proof.
  unfold alloc_virt. intros E. apply obind_Ret_inv in E as ([[?|?] ?] & _ & E); simplify_eq. eauto.
Qed.

(** Rolling back a page needs the lock. *)
Lemma rollback_locked w self base n w' :
  locked w = true -> rollback_range w self base (Z.of_nat (S n)) <> Ret w'.
Proof.
  intros Hl E. unfold rollback_range in E. rewrite Nat2Z.id in E. cbn [rollback_loop] in E. ret_inv.
  destruct v0 as [r w1]. destruct (ms_unmap_lock _ _ _ _ _ true E1) as [_ Hl1].
  ret_inv. destruct v0 as [f tok]. ret_inv. unfold lock_and_deallocate, lock in *.
  rewrite Hl1, Hl in *. discriminate.
Qed.

Lemma alloc_map_loop_not_oom n : forall i w self region pf kind s' w',
  0 < i -> alloc_map_loop n i w self region pf kind <> Ret (Err OutOfPhysicalMemory, s', w').
Proof.
  induction n as [|n IH]; intros i w self region pf kind s' w' Hi E; cbn [alloc_map_loop] in E; [discriminate|].
  ret_inv. destruct v0 as [[f|] w1]; ret_inv.
  - destruct v0 as [[tok|[f' e]] w2]; [by eapply IH; [|exact E]; lia|]. ret_inv. destruct v2 as [r s2]. ret_inv.
    simplify_eq. apply map_err in E2 as [? ?]. congruence.
  - apply lock_and_allocate_locked in E1. replace i with (Z.of_nat (S (Z.to_nat i - 1))) in E2 by lia.
    by apply rollback_locked in E2.
Qed.

(** [alloc_and_map] never returns [OutOfPhysicalMemory] when at least one
    frame is free, whatever the size of the request: the error is reported only
    when not even the first page could be given a frame.  If frames run out
    later, the code rolls back while it still holds the allocator's lock. *)
Theorem alloc_and_map_oom_unreachable w self kind free live size align pf s' w' :
  mm_state w free live -> free <> ∅ ->
  alloc_and_map w self size align pf kind <> Ret (Err OutOfPhysicalMemory, s', w').
Proof.
  intros Hmm Hne E. unfold alloc_and_map in E. ret_inv. destruct v as [[r|e] s1].
  - ret_inv. destruct v as [[res s2] w2]. destruct (Z.to_nat (size / PAGE_SIZE)) as [|n].
    + cbn in E1. simplify_eq. ret_inv. simplify_eq.
    + destruct res as [u|e]; [ret_inv; simplify_eq|]. simplify_eq.
      cbn [alloc_map_loop] in E1. ret_inv.
      destruct (lock_and_allocate_some _ _ _ Hmm Hne) as (f & w3 & E3 & _). rewrite E3 in E2. simplify_eq.
      ret_inv. destruct v0 as [[tok|[f' e]] w4]; [by apply alloc_map_loop_not_oom in E1|]. ret_inv.
      destruct v2 as [r' s3]. ret_inv. simplify_eq. apply map_err in E2 as [? ?]. congruence.
  - simplify_eq. apply alloc_virt_err in E0 as [? ?]. discriminate.
Qed.

(** If the frames run out after the first page of a request of several
    pages has been mapped, [alloc_and_map] deadlocks: it rolls the page back while
    the guard of the failed allocation is alive, and spins on the same lock. *)
Theorem alloc_and_map_deadlock w self kind size align pf r s1 f w1 tok w2 tr tabs live x :
  alloc_virt self size align kind = Ret (Ok r, s1) -> 2 <= size / PAGE_SIZE ->
  0 <= r.1 -> r.1 mod PAGE_SIZE = 0 -> r.1 + 2 * PAGE_SIZE <= W64 ->
  lock_and_allocate w = Ret (Some f, w1) ->
  map (unlock w1) s1 (mk_request r.1 f pf) = Ret (Ok tok, w2) ->
  ms_state w2 (mapper s1) tr tabs ∅ live -> tr r.1 = Some x ->
  alloc_and_map w self size align pf kind = Hang.
Proof.
  intros Ev Hn Hb Hmod Hend Ea Em Hm Htr. unfold alloc_and_map. rewrite Ev. cbn [obind].
  replace (Z.to_nat (size / PAGE_SIZE)) with (S (S (Z.to_nat (size / PAGE_SIZE) - 2))) by lia.
  cbn [alloc_map_loop]. unfold Region.base.
  assert (Hp0 : page_addr r.1 0 = Ret r.1) by (rewrite page_addr_ok by (unfold page; klia); f_equal; unfold page; lia).
  rewrite Hp0. cbn [obind]. rewrite Ea. cbn [obind]. rewrite Em. cbn [obind].
  rewrite page_addr_ok by (unfold page; klia). cbn [obind].
  destruct (lock_and_allocate_none _ _ (ms_mm _ _ _ _ _ _ Hm)) as (w3 & E3 & Hl3 & Hmm3 & Hmem3 & Hh3 & _).
  rewrite E3. cbn [obind]. unfold rollback_range. change (Z.to_nat (0 + 1)) with 1%nat. cbn [rollback_loop].
  rewrite Hp0. cbn [obind].
  assert (Hm3 : ms_state (unlock w3) (mapper s1) tr tabs ∅ live).
  { eapply ms_frame; [exact Hm|exact Hmm3|done|set_solver|]. intros g y _ _. cbn. by rewrite Hmem3. }
  pose proof (ms_unmap _ _ _ _ _ _ r.1 Hm3 Hmod) as Hu. rewrite Htr in Hu. destruct x as [fr fl].
  destruct Hu as (w4 & Eu & _). destruct (ms_unmap_lock _ _ _ _ _ true Eu) as [Eu' _].
  assert (Hw3 : with_lock (unlock w3) true = w3) by (destruct w3; cbn in Hl3; by subst).
  rewrite Hw3 in Eu'. rewrite Eu'. cbn [obind expect_ok]. done.
Qed.

End operations.

(** ** Witnesses: a kernel address space over the small hierarchies *)
Module SpaceDemo.
Import AddressSpace MapperDemo.

Definition heap_regions : list Region.t := [(HEAP_START, HEAP_END - HEAP_START)].

Definition space (n : Z) : t PageTableMapper.t :=
  match from_mapper (made n).1 with
  | Ret s => s
  | _ => mk None (made n).1 RegionAllocator.new RegionAllocator.new
  end.

Lemma space_mapper n : mapper (space n) = (made n).1.
Proof. done. Qed.

Lemma space_heap n : heap_va (space n) = RegionDemo.of_list heap_regions.
Proof. vm_compute. reflexivity. Qed.

Lemma space_pool n : pool (space n) KindHeap heap_regions.
Proof.
  split; [cbn [region_allocator_for]; rewrite space_heap|].
  - apply RegionDemo.of_list_inv; [unfold CAPACITY; cbn; lia|by vm_compute|]. repeat constructor.
  - intros x [Hx|[]]. unfold in_ival, iend in Hx. cbn [fst snd] in Hx. klia.
Qed.

Lemma space_state n :
  0 < n <= 8 -> exists tr tabs free live,
    ms_state (made n).2 (mapper (space n)) tr tabs free live /\ size free = (Z.to_nat n - 1)%nat.
Proof.
  intros Hn. destruct (made_inv n Hn) as (free & live & Hm & Hs). rewrite space_mapper.
  eexists (fun v => target v <$> MapperInv.lookup _ _ (tables n) v), {[ (root_alloc n).1 ]}, free, live.
  split; [|done]. exists (tables n). split_and!; [exact Hm|done|].
  intros f. rewrite elem_of_singleton. unfold tables. split.
  - intros ->. exists []. apply lookup_singleton_eq.
  - by intros (p & [_ <-]%lookup_singleton_Some).
Qed.

Lemma demo_serviceable (free : gset Z) :
  size free = 7%nat -> serviceable heap_regions free 0x1000 0x1000 PageFlags.kernel_data.
Proof.
  intros Hs. unfold serviceable, good_request, is_u64. rewrite Hs.
  split_and!; try (by vm_compute); try lia; [unfold CAPACITY; cbn; lia|]. change (0x1000 / PAGE_SIZE) with 1. lia.
Qed.

(** [alloc_and_map] evaluated with seven free frames. *)
Lemma space_evaluates :
  match alloc_and_map (made 8).2 (space 8) 0x1000 0x1000 PageFlags.kernel_data KindHeap with
  | Ret (Ok r, _, _) => r = (HEAP_START, 0x1000)
  | _ => False
  end.
Proof. vm_compute. reflexivity. Qed.

(** With four free frames the first of two pages uses them all. *)
Lemma exhausts_evaluates :
  match alloc_virt (space 5) 0x2000 0x1000 KindHeap, lock_and_allocate (made 5).2 with
  | Ret (Ok r, s1), Ret (Some f, w1) =>
      r = (HEAP_START, 0x2000) /\
      match map (unlock w1) s1 (mk_request HEAP_START f PageFlags.kernel_data) with
      | Ret (Ok _, w2) => free_frames <$> frame_allocator w2 = Some 0
      | _ => False
      end
  | _, _ => False
  end.
Proof. vm_compute. done. Qed.

(** The first page of the two, for any world and space in which it succeeds. *)
Lemma first_page_exhausts (w : world BitmapAllocator.t) (s : t PageTableMapper.t) tr tabs free live :
  ms_state w (mapper s) tr tabs free live -> size free = 4%nat -> pool s KindHeap heap_regions ->
  match alloc_virt s 0x2000 0x1000 KindHeap, lock_and_allocate w with
  | Ret (Ok r, s1), Ret (Some f, w1) =>
      r = (HEAP_START, 0x2000) /\
      match map (unlock w1) s1 (mk_request HEAP_START f PageFlags.kernel_data) with
      | Ret (Ok _, w2) => free_frames <$> frame_allocator w2 = Some 0
      | _ => False
      end
  | _, _ => False
  end ->
  exists s1 f w1 tok w2 tr tabs live x,
    alloc_virt s 0x2000 0x1000 KindHeap = Ret (Ok (HEAP_START, 0x2000), s1) /\
    lock_and_allocate w = Ret (Some f, w1) /\
    map (unlock w1) s1 (mk_request HEAP_START f PageFlags.kernel_data) = Ret (Ok tok, w2) /\
    ms_state w2 (mapper s1) tr tabs ∅ live /\ tr HEAP_START = Some x.
Proof.
  intros Hm Hs Hp Hev.
  destruct (alloc_virt_ok s KindHeap heap_regions 0x2000 0x1000 Hp) as (rv & s1 & Ev & Hmp & _);
    [unfold good_request, is_u64; split_and!; reflexivity || lia|unfold CAPACITY; cbn; lia|].
  rewrite <- Hmp in Hm.
  pose proof (run_start w (mapper s1) tr HEAP_START (PageFlags.or PageFlags.kernel_data PageFlags.READ)
                tabs free live Hm) as Hrun0.
  destruct (map_page_ok w s1 tr HEAP_START _ PageFlags.kernel_data tabs free live [] w tabs free live Hrun0
    (ms_tabs _ _ _ _ _ _ Hm)) as (f & w1 & rm & w2 & Ea & Em & Hr);
    [rewrite Hs; lia|by vm_compute|reflexivity|reflexivity|reflexivity|by vm_compute|reflexivity|].
  change (page HEAP_START (Z.of_nat (length []))) with HEAP_START in Em.
  rewrite Ev, Ea in Hev. destruct rv as [r|]; [|destruct Hev].
  destruct Hev as [-> Hev]. rewrite Em in Hev. destruct rm as [tok|]; [|destruct Hev].
  destruct Hr as (tabs' & free' & live' & _ & Hrun). pose proof (run_ms _ _ _ _ _ _ _ _ _ _ _ _ _ Hrun) as Hm2.
  assert (free' = ∅) as ->.
  { destruct (ms_mm _ _ _ _ _ _ Hm2) as (_ & a & Ha & Hst). rewrite Ha in Hev. injection Hev as Hev.
    pose proof (fa_free_frames _ _ _ _ _ Hst) as Hff. apply leibniz_equiv, size_empty_iff.
    assert (Z.of_nat (size free') = 0) by (rewrite <- Hff; exact Hev). lia. }
  eexists s1, f, w1, tok, w2, _, tabs', live', _. split_and!; [exact Ev|exact Ea|exact Em|exact Hm2|].
  cbn [app tr_map]. unfold tr_set. by rewrite decide_True.
Qed.

End SpaceDemo.
Import SpaceDemo.

Lemma alloc_and_map_atomic_witness :
  exists s' w', AddressSpace.alloc_and_map (MapperDemo.made 8).2 (space 8) 0x1000 0x1000 PageFlags.kernel_data KindHeap
    = Ret (Ok (HEAP_START, 0x1000), s', w') /\ flushed w' = flushed (MapperDemo.made 8).2 ++ [HEAP_START].
Proof.
  destruct (space_state 8 ltac:(lia)) as (tr & tabs & free & live & Hm & Hs).
  destruct (alloc_and_map_atomic _ _ KindHeap _ _ _ _ _ _ _ _ Hm (space_pool 8) (demo_serviceable free Hs))
    as (res & s' & w' & tr' & tabs' & free' & live' & E & _ & Hr).
  pose proof space_evaluates as Hev. rewrite E in Hev. destruct res as [r|]; [subst r|destruct Hev].
  exists s', w'. split; [exact E|]. destruct Hr as (_ & _ & (fs & Hlen & _ & _ & _ & Hfl) & _).
  rewrite Hfl, Hlen. reflexivity.
Defined.

Lemma map_unmap_roundtrip_witness :
  exists s1 w1 s2 w2,
    AddressSpace.alloc_and_map (MapperDemo.made 8).2 (space 8) 0x1000 0x1000 PageFlags.kernel_data KindHeap
      = Ret (Ok (HEAP_START, 0x1000), s1, w1) /\
    AddressSpace.unmap_and_dealloc w1 s1 (HEAP_START, 0x1000) KindHeap = Ret (Ok tt, s2, w2) /\
    pool s2 KindHeap heap_regions.
Proof.
  destruct (space_state 8 ltac:(lia)) as (tr & tabs & free & live & Hm & Hs).
  pose proof space_evaluates as Hev.
  destruct (AddressSpace.alloc_and_map _ _ _ _ _ _) as [[[[r|e] s1] w1]| |] eqn:E in Hev;
    [subst r|destruct Hev|destruct Hev|destruct Hev].
  destruct (map_unmap_roundtrip _ _ KindHeap _ _ _ _ _ _ _ _ _ s1 w1 Hm (space_pool 8) (demo_serviceable free Hs) E)
    as (s2 & w2 & tabs' & free' & live' & E2 & _ & Hp & _).
  exists s1, w1, s2, w2. split; [exact E|]. split; [exact E2|exact Hp].
Defined.

Lemma alloc_and_map_oom_unreachable_witness :
  ~ exists s' w',
    AddressSpace.alloc_and_map (MapperDemo.made 5).2 (space 5) 0x2000 0x1000 PageFlags.kernel_data KindHeap
      = Ret (Err OutOfPhysicalMemory, s', w').
Proof.
  intros (s' & w' & E). destruct (space_state 5 ltac:(lia)) as (tr & tabs & free & live & Hm & Hs).
  apply (alloc_and_map_oom_unreachable _ _ _ free live _ _ _ s' w' (ms_mm _ _ _ _ _ _ Hm)) in E; [exact E|].
  intros ->. rewrite size_empty in Hs. discriminate.
Defined.

Lemma alloc_and_map_deadlock_witness :
  AddressSpace.alloc_and_map (MapperDemo.made 5).2 (space 5) 0x2000 0x1000 PageFlags.kernel_data KindHeap = Hang.
Proof.
  destruct (space_state 5 ltac:(lia)) as (tr & tabs & free & live & Hm & Hs).
  destruct (first_page_exhausts _ _ tr tabs free live Hm Hs (space_pool 5) exhausts_evaluates)
    as (s1 & f & w1 & tok & w2 & tr2 & tabs2 & live2 & x & Ev & Ea & Em & Hm2 & Hx).
  apply (alloc_and_map_deadlock (MapperDemo.made 5).2 (space 5) KindHeap 0x2000 0x1000 PageFlags.kernel_data
    (HEAP_START, 0x2000) s1 f w1 tok w2 tr2 tabs2 live2 x Ev);
    [by vm_compute|by vm_compute|reflexivity|by vm_compute|exact Ea|exact Em|exact Hm2|exact Hx].
Defined.
