(* ===== verification/PhysicalRange.v ===== *)
(** * Mapping given frames (AddressSpace::map_physical_range)

    What [AddressSpace.map_physical_range] promises to a caller that owns the
    frames: on success they are mapped in order, and when a page of the region
    cannot be mapped everything done so far is undone.  The iterator is the list
    of the frames it yields; [drop_rest] drops what is left of it. *)

From S2P Require Import Prelude Addr Frame Memory FrameAllocator Bitmap Intervals Region Paging World Mapper MapperClass AddressSpace.

Section physical_range.
Import AddressSpace.
Context {A M : Type} `{MapperSpec A M}.
Implicit Types (w : world A) (self : t M) (tr : translation) (tabs free live : gset Z).

Section loop.
Context (w0 : world A) (tr : translation) (base fl pf : Z) (tabs0 free0 live0 : gset Z) (frames : list Z).
Context (Hpf : PageFlags.valid pf) (Hfl : fl = PageFlags.or pf PageFlags.READ).
Context (Hb : base mod PAGE_SIZE = 0) (Hlo : 0xffff800000000000 <= base).
Context (Htd : tabs0 ## free0) (Hfd : free0 ## live0).
Context (Hnd : NoDup frames) (Hown : forall f, f ∈ frames -> f ∈ live0 /\ (f ∉ tabs0)).
Context (Hlen : Z.of_nat (length frames) <= 2 ^ 36) (Hend : base + Z.of_nat (length frames) * PAGE_SIZE <= W64).

(** The state after the first [n] frames have been mapped: frames have been
    taken only for tables. *)
Record placed (mp : M) (n : nat) w tabs free live : Prop := {
  pl_ms : ms_state w mp (tr_map tr base 0 (take n frames) fl) tabs free live;
  pl_tabs : tabs0 ⊆ tabs /\ tabs ⊆ tabs0 ∪ free0 ∖ free;
  pl_free : free ⊆ free0;
  pl_used : free0 ∖ free ⊆ tabs;
  pl_live : live = live0 ∪ free0 ∖ free;
  pl_fresh : forall j x, 0 <= j < Z.of_nat n -> page_of x = page_of (page base j) -> tr x = None;
  pl_world : (hhdm_offset w = hhdm_offset w0 /\ flushed w = flushed w0) /\ opens w0 w mp;
}.

(** The state after page [n] could not be mapped: the frames up to it are back
    with the allocator, the others still belong to the caller. *)
Record undone (mp : M) (n : nat) w tabs free live : Prop := {
  un_ms : ms_state w mp tr tabs free live;
  un_back : forall f, f ∈ take (S n) frames -> f ∈ free;
  un_kept : forall f, f ∈ drop (S n) frames -> f ∈ live;
  un_used : forall f, f ∈ free0 -> (f ∉ free) -> f ∈ tabs;
  un_flushed : flushed w = flushed w0;
  un_why : tr (page base (Z.of_nat n)) <> None \/ ~ ms_open w0 mp (page base (Z.of_nat n));
}.

Lemma placed_owned mp n w tabs free live f :
  placed mp n w tabs free live -> f ∈ frames -> f ∈ live /\ (f ∉ tabs) /\ (f ∉ free0).
Proof using Hfd Hown.
  clear Hpf Hfl Hb Hlo Htd Hnd Hlen Hend. intros [_ [_ Ht] Hfree _ Hlive _ _] [Hl Hnt]%Hown. assert (f ∉ free0) by set_solver.
  split_and!; [set_solver| |done]. intros [?|?]%Ht%elem_of_union; [done|set_solver].
Qed.

(** One page. *)
Lemma place_ok self n w tabs free live f (i := Z.of_nat n) :
  placed (mapper self) n w tabs free live -> frames !! n = Some f -> (3 <= size free)%nat ->
  exists r w' tabs' free' live', map w self (mk_request (page base i) f pf) = Ret (r, w') /\
    (size free <= size free' + 3)%nat /\
    match r with
    | Ok _ => placed (mapper self) (S n) w' tabs' free' live'
    | Err (f', e) => f' = f /\ e = ErrMap AlreadyMapped /\ placed (mapper self) n w' tabs' free' live' /\
        (tr (page base i) <> None \/ ~ ms_open w0 (mapper self) (page base i))
    end.
Proof.
  intros Hp Hf H3. pose proof (list_elem_of_lookup_2 _ _ _ Hf) as Hin. apply lookup_lt_Some in Hf as Hn.
  destruct (placed_owned _ _ _ _ _ _ _ Hp Hin) as (Hfl0 & Hft & Hf0).
  destruct Hp as [Hm [Ht1 Ht2] Hfree Hused Hlive Hfresh [[Hh Hflu] Hop]].
  destruct (mm_state_wf _ _ _ f (ms_mm _ _ _ _ _ _ Hm)) as [Hfw _]; [by apply elem_of_union_r|].
  destruct (ms_map _ _ _ _ _ _ (page base i) f pf Hm H3) as
    (res & w' & tabs' & free' & live' & E & Ht3 & Ht4 & Hu & Hsub & Hsz & Hlive' & Hh' & Hfl' & Hop' & Hr); try done.
  { by apply page_mod. }
  { apply canonical_high. unfold page in *. klia. }
  assert (Hl' : live' = live0 ∪ free0 ∖ free') by (rewrite Hlive', Hlive; by apply difference_chain).
  assert (Hw : (hhdm_offset w' = hhdm_offset w0 /\ flushed w' = flushed w0) /\ opens w0 w' (mapper self)).
  { split; [split; congruence|]. intros x Hx. by apply Hop', Hop. }
  assert (Ht : tabs0 ⊆ tabs' /\ tabs' ⊆ tabs0 ∪ free0 ∖ free').
  { split; [by etrans|]. intros g [[Hg|Hg]%Ht2%elem_of_union|Hg]%Ht4%elem_of_union; clear -Hg Hfree Hsub; set_solver. }
  assert (Hu' : free0 ∖ free' ⊆ tabs').
  { intros g [Hg Hng]%elem_of_difference. destruct (decide (g ∈ free)); [apply Hu|apply Ht3, Hused]; set_solver. }
  assert (Htn : length (take n frames) = n) by (apply length_take_le; lia).
  unfold map. cbn [req_virt req_frame req_flags]. rewrite E. cbn [obind].
  destruct res as [token|[f' e]]; eexists _, w', tabs', free', live'; (split; [reflexivity|]); (split; [done|]).
  - destruct Hr as (_ & Hnone & Hm'). split; try done; [| |].
    + rewrite (take_S_r _ _ _ Hf), tr_map_snoc, Htn, Z.add_0_l. by rewrite <- Hfl in Hm'.
    + set_solver.
    + intros j x Hj. destruct (decide (j = i)) as [->|]; [|apply Hfresh; lia]. intros Hx.
      pose proof (ms_page _ _ _ _ _ _ (page base i) x Hm Hx Hnone) as Hxn.
      rewrite tr_map_other in Hxn; [done|]. rewrite Htn. intros k Hk. rewrite Hx. intros E'%page_inj; try done; lia.
  - destruct Hr as (-> & -> & Hm' & Hwhy). split_and!; try done.
    + split; try done. set_solver.
    + destruct Hwhy as [Hx|Hx]; [left|right; intros Ho; by apply Hx, Hop].
      intros Hx'. apply Hx. rewrite tr_map_other; [done|]. rewrite Htn. intros k Hk E'%page_inj; try done; lia.
Qed.

(** Undoing the first [n] pages after page [n] was refused. *)
Lemma undo_ok self n w tabs free live f :
  placed (mapper self) n w tabs free live -> frames !! n = Some f ->
  (tr (page base (Z.of_nat n)) <> None \/ ~ ms_open w0 (mapper self) (page base (Z.of_nat n))) ->
  exists w1 w2 free' live', lock_and_deallocate w f = Ret w1 /\
    rollback_range w1 self base (Z.of_nat n) = Ret w2 /\ undone (mapper self) n w2 tabs free' live'.
Proof.
  intros Hp Hf Hwhy. pose proof (list_elem_of_lookup_2 _ _ _ Hf) as Hin. apply lookup_lt_Some in Hf as Hn.
  destruct (placed_owned _ _ _ _ _ _ _ Hp Hin) as (Hfl1 & Hft & Hf0).
  assert (Hall : forall g, g ∈ frames -> g ∈ live /\ (g ∉ tabs)) by (intros g Hg; by edestruct placed_owned as (? & ? & _)).
  destruct Hp as [Hm [Ht1 Ht2] Hfree Hused Hlive Hfresh [[Hh Hflu] Hop]].
  destruct (dealloc_step _ _ _ _ _ _ _ Hm Hfl1 Hft) as (w1 & E1 & [Hm1 _] & _ & Hflu1).
  assert (Htn : length (take n frames) = n) by (apply length_take_le; lia).
  assert (Hsplit : frames = take n frames ++ f :: drop (S n) frames) by (by rewrite take_drop_middle).
  assert (Hfr : (f ∉ take n frames) /\ (f ∉ drop (S n) frames) /\ forall g, g ∈ take n frames -> (g ∉ drop (S n) frames)).
  { rewrite Hsplit in Hnd. apply NoDup_app in Hnd as (_ & Hd & [Hfd' _]%NoDup_cons). split_and!; [|done|].
    - intros Hx. apply (Hd _ Hx). left.
    - intros g Hg Hg'. apply (Hd _ Hg). by right. }
  destruct Hfr as (Hf1 & Hf2 & Hf3).
  destruct (rollback_loop_ok (take n frames) 0 w1 self tr tabs ({[f]} ∪ free) (live ∖ {[f]}) base fl)
    as (w2 & E2 & [Hm2 _] & _ & Hflu2); rewrite ?Htn; try done; try klia.
  - intros g Hg. destruct (Hall g) as [? ?]; [by eapply elem_of_take in Hg as (? & ? & _); eapply list_elem_of_lookup_2|].
    split; [|done]. apply elem_of_difference. split; [done|]. by intros ->%elem_of_singleton.
  - rewrite Hsplit in Hnd. by apply NoDup_app in Hnd as (? & _).
  - exists w1, w2, (list_to_set (take n frames) ∪ ({[f]} ∪ free)), (live ∖ {[f]} ∖ list_to_set (take n frames)).
    rewrite Htn in E2. unfold rollback_range. rewrite Nat2Z.id. split_and!; try done. split; try done.
    + intros g. rewrite (take_S_r _ _ _ Hf), elem_of_app, list_elem_of_singleton, !elem_of_union, elem_of_list_to_set, elem_of_singleton.
      tauto.
    + intros g Hg. assert (g ∈ frames) by (rewrite Hsplit; apply elem_of_app; right; by right).
      destruct (Hall g) as [? _]; [done|]. rewrite !elem_of_difference, elem_of_singleton, elem_of_list_to_set.
      split_and!; [done|by intros ->|]. intros Hx. by apply (Hf3 g).
    + intros g Hg Hng. apply Hused. set_solver.
    + congruence.
Qed.

Lemma placed_start mp : ms_state w0 mp tr tabs0 free0 live0 -> placed mp 0 w0 tabs0 free0 live0.
Proof using Type.
  clear Hpf Hfl Hb Hlo Htd Hfd Hnd Hown Hlen Hend. intros Hm. split; try done.
  - split; [done|]. intros f Hf. by apply elem_of_union_l.
  - set_solver.
  - by rewrite difference_diag_L, union_empty_r_L.
  - lia.
  - split; [done|]. by intros x.
Qed.

Context (drop_rest : list Z -> outcome unit).

(** The loop, from frame [n] on. *)
Lemma map_frames_loop_ok self self' region kind rest : forall n w tabs free live,
  Region.base region = base -> free_virt self region kind = Ret (Ok tt, self') ->
  rest = drop n frames -> (n <= length frames)%nat -> placed (mapper self) n w tabs free live ->
  (3 * length rest <= size free)%nat ->
  (exists w' tabs' free' live',
     map_frames_loop drop_rest rest (Z.of_nat n) w self region pf kind = Ret (Ok tt, self, w') /\
     placed (mapper self) (length frames) w' tabs' free' live') \/
  (exists k w' tabs' free' live', (k < length frames)%nat /\
     map_frames_loop drop_rest rest (Z.of_nat n) w self region pf kind =
       (let! _ := drop_rest (drop (S k) frames) in Ret (Err (ErrMap AlreadyMapped), self', w')) /\
     undone (mapper self) k w' tabs' free' live').
Proof using Hpf Hfl Hb Hlo Htd Hfd Hnd Hown Hlen Hend.
  induction rest as [|f rest IH]; intros n w tabs free live Hbase Hfv Hrest Hn Hp Hsz; cbn [map_frames_loop].
  { left. eexists w, tabs, free, live. split; [done|]. assert (length frames - n = 0)%nat.
    { by rewrite <- length_drop, <- Hrest. }
    by replace (length frames) with n by lia. }
  cbn [length] in Hsz. assert (Hf : frames !! n = Some f).
  { by rewrite <- (Nat.add_0_r n), <- lookup_drop, <- Hrest. }
  assert (Hrest' : rest = drop (S n) frames).
  { rewrite <- Nat.add_1_r, <- drop_drop, <- Hrest. done. }
  apply lookup_lt_Some in Hf as Hn'. rewrite Hbase, page_addr_ok by (unfold page; klia). cbn [obind].
  destruct (place_ok self n w tabs free live f Hp Hf) as (r & w1 & tabs1 & free1 & live1 & -> & Hs1 & Hr); [lia|].
  cbn [obind]. destruct r as [tok|[f' e]].
  - replace (Z.of_nat n + 1) with (Z.of_nat (S n)) by lia. apply (IH _ _ tabs1 free1 live1); try done; lia.
  - destruct Hr as (-> & -> & Hp1 & Hwhy).
    destruct (undo_ok _ _ _ _ _ _ _ Hp1 Hf Hwhy) as (w2 & w3 & free3 & live3 & E2 & E3 & Hu).
    right. exists n, w3, tabs1, free3, live3. split; [done|]. split; [|done].
    rewrite E2. cbn [obind]. rewrite E3. cbn [obind]. rewrite Hfv. cbn [obind expect_ok]. by rewrite Hrest'.
Qed.

End loop.

Context (drop_rest : list Z -> outcome unit).

(** C34: [map_physical_range] maps exactly the frames it is given, or nothing.
    For a well-formed request over distinct frames that the caller owns and that are no tables, with at
    most 62 of the pool's 64 slots in use (with all in use the region allocator can
    panic) and three free frames per page for tables, there are three outcomes.  On success the region was free in the pool,
    its pages translate to the given frames in order with the requested flags,
    each page is flushed once, other pages are translated as before, and frames
    were taken from the allocator only for tables.  With no free range for the
    request nothing changes and the iterator is dropped.  When page [k] of a free
    range is already translated or covered, the first [k + 1] frames go back to
    the allocator, translations and pool are what they were, and the rest of the
    iterator is dropped. *)
Theorem map_physical_range_all_or_nothing w self kind l tr tabs free live frames align pf
    (size := Z.of_nat (length frames) * PAGE_SIZE) :
  ms_state w (mapper self) tr tabs free live -> pool self kind l -> good_request size align ->
  (length l + 1 < CAPACITY)%nat -> PageFlags.valid pf -> NoDup frames ->
  (forall f, f ∈ frames -> f ∈ live /\ (f ∉ tabs)) -> (3 * length frames <= base.size free)%nat ->
  (exists r s' w' tr' tabs' free' live',
     map_physical_range drop_rest w self frames align pf kind = Ret (Ok r, s', w') /\
     ms_state w' (mapper s') tr' tabs' free' live' /\ r.2 = size /\ free_range l size align r.1 /\
     (forall k f off, frames !! k = Some f -> 0 <= off < PAGE_SIZE ->
        translate w' s' (page r.1 (Z.of_nat k) + off) = Ret (Some (f + off, PageFlags.or pf PageFlags.READ))) /\
     (forall x, (forall k, 0 <= k < Z.of_nat (length frames) -> page_of x <> page_of (page r.1 k)) ->
        translate w' s' x = translate w self x) /\
     flushed w' = flushed w ++ ((fun k => page r.1 (Z.of_nat k)) <$> seq 0 (length frames)) /\
     (forall f, f ∈ frames -> f ∈ live' /\ (f ∉ tabs')) /\ (forall f, f ∈ free -> (f ∉ free') -> f ∈ tabs') /\
     exists l', pool s' kind l' /\ forall x, covers l' x <-> covers l x /\ ~ in_ival r x) \/
  (exists s', map_physical_range drop_rest w self frames align pf kind =
       (let! _ := drop_rest frames in Ret (Err (ErrRegion OutOfVirtualMemory), s', w)) /\
     mapper s' = mapper self /\ pool s' kind l /\ forall a, ~ free_range l size align a) \/
  (exists k a s' w' tabs' free' live', (k < length frames)%nat /\
     map_physical_range drop_rest w self frames align pf kind =
       (let! _ := drop_rest (drop (S k) frames) in Ret (Err (ErrMap AlreadyMapped), s', w')) /\
     free_range l size align a /\
     (tr (page a (Z.of_nat k)) <> None \/ ~ ms_open w (mapper self) (page a (Z.of_nat k))) /\
     ms_state w' (mapper s') tr tabs' free' live' /\ pool s' kind l /\ flushed w' = flushed w /\
     (forall f, f ∈ take (S k) frames -> f ∈ free') /\ (forall f, f ∈ drop (S k) frames -> f ∈ live') /\
     (forall f, f ∈ free -> (f ∉ free') -> f ∈ tabs')).
Proof.
  intros Hm Hpool Hq Hcap Hpf Hnd Hown H3. unfold map_physical_range.
  assert (Hpos : 0 < Z.of_nat (length frames)) by (destruct Hq; unfold size in *; klia).
  rewrite (proj2 (Z.ltb_lt _ _) Hpos), assert_true. cbn [obind].
  rewrite (proj2 (checked_mul_Some _ _ size) (conj eq_refl (proj2 (proj1 Hq)))). cbn [expect obind].
  destruct (alloc_virt_ok self kind l size align Hpool Hq Hcap) as (r & s1 & -> & Hmp & Hr). cbn [obind].
  destruct r as [r|e]; [|right; left; destruct Hr as (-> & Hp1 & Hn); by exists s1].
  destruct Hr as (Hr2 & Hfree & Hlo & Hhi & Hmod & Hl1 & s2 & Hfv & Hmp2 & Hp2).
  pose proof (mm_state_disjoint _ _ _ (ms_mm _ _ _ _ _ _ Hm)) as Hfd. pose proof (ms_tabs _ _ _ _ _ _ Hm) as Htd.
  assert (Hend : r.1 + Z.of_nat (length frames) * PAGE_SIZE <= W64) by (fold size; klia).
  assert (Hlen : Z.of_nat (length frames) <= 2 ^ 36) by klia.
  destruct (map_frames_loop_ok w tr r.1 (PageFlags.or pf PageFlags.READ) pf tabs free live frames Hpf eq_refl Hmod
    ltac:(klia) Htd Hfd Hnd Hown Hlen Hend drop_rest s1 s2 r kind frames 0 w tabs free live eq_refl Hfv eq_refl ltac:(lia)
    ltac:(rewrite Hmp; by apply placed_start) H3) as [(w1 & tabs' & free' & live' & E & Hp)|(k & w1 & tabs' & free' & live' & Hk & E & Hu)];
    change (Z.of_nat 0) with 0 in E; rewrite E.
  - left. cbn [obind]. unfold flush_range.
    destruct (flush_loop_ok (Z.to_nat (Z.of_nat (length frames))) 0 w1 (Region.base r)) as (w2 & -> & Hm2 & Hk2 & Ha2 & Hh2 & Hf2);
      [lia|unfold Region.base; klia|unfold Region.base; klia|]. cbn [obind]. rewrite Nat2Z.id in Hf2.
    pose proof (fun f => placed_owned _ _ _ _ _ _ _ _ Hfd Hown _ _ _ _ _ _ f Hp) as Hkeep.
    destruct Hp as [Hms _ _ Hused _ _ [[_ Hfw] _]]. rewrite take_ge in Hms by lia.
    apply (ms_flushed _ w2) in Hms; try done.
    destruct (run_translates _ _ _ _ _ _ _ _ _ Hms Hmod Hlen) as [Htr Hot].
    exists r, s1, w2, (tr_map tr r.1 0 frames (PageFlags.or pf PageFlags.READ)), tabs', free', live'. split_and!; try done.
    + intros x Hx. rewrite Hot by done. unfold translate. by rewrite (ms_translate _ _ _ _ _ _ _ Hm).
    + by rewrite Hf2, Hfw.
    + intros f Hf. by destruct (Hkeep f Hf) as (? & ? & _).
    + intros f Hf Hn. apply Hused. by apply elem_of_difference.
  - right. right. exists k, r.1, s2, w1, tabs', free', live'. rewrite Hmp in Hu. destruct Hu as [Hms Hback Hkept Hused Hfl Hwhy].
    rewrite Hmp2. split_and!; try done.
    by destruct (drop_rest (drop (S k) frames)).
Qed.


End physical_range.

(** An iterator that owns its frames: dropping an [OwnedFrame] panics. *)
Definition drop_owned (frames : list Z) : outcome unit :=
  match frames with
  | [] => Ret tt
  | _ :: _ => Panic "owned frame dropped without being freed"
  end.

Module PhysicalRangeDemo.
Import AddressSpace MapperDemo SpaceDemo.

(** A frame of the caller, and the world after it was allocated. *)
Definition given : Z * world BitmapAllocator.t :=
  match mm_allocate (made 8).2 with
  | Ret x => x
  | _ => (0, (made 8).2)
  end.

Lemma given_state : exists tr tabs free live,
  ms_state given.2 (mapper (space 8)) tr tabs free live /\ given.1 ∈ live /\ (given.1 ∉ tabs) /\ (3 <= size free)%nat.
Proof.
  destruct (space_state 8 ltac:(lia)) as (tr & tabs & free & live & Hm & Hs).
  pose proof (ms_tabs _ _ _ _ _ _ Hm) as Htd. unfold given.
  destruct (mm_allocate_some _ _ _ (ms_mm _ _ _ _ _ _ Hm)) as (f & w & -> & Hf & Hmm & Hmem & Hh & _).
  { intros ->. by rewrite size_empty in Hs. }
  exists tr, tabs, (free ∖ {[f]}), ({[f]} ∪ live). cbn [fst snd]. split_and!.
  - eapply ms_frame; [exact Hm|exact Hmm|done|clear -Htd; set_solver|]. intros. by rewrite Hmem.
  - by apply elem_of_union_l, elem_of_singleton.
  - clear -Htd Hf. set_solver.
  - rewrite size_difference, size_singleton, Hs by (by apply singleton_subseteq_l). lia.
Qed.

Lemma range_evaluates :
  match map_physical_range drop_owned given.2 (space 8) [given.1] 0x1000 PageFlags.kernel_data KindHeap with
  | Ret (Ok r, _, _) => r = (HEAP_START, 0x1000)
  | _ => False
  end.
Proof. vm_compute. reflexivity. Qed.

End PhysicalRangeDemo.
Import PhysicalRangeDemo.

Lemma map_physical_range_all_or_nothing_witness : exists s' w',
  AddressSpace.map_physical_range drop_owned given.2 (SpaceDemo.space 8) [given.1] 0x1000 PageFlags.kernel_data KindHeap
    = Ret (Ok (HEAP_START, 0x1000), s', w') /\
  AddressSpace.translate w' s' (HEAP_START + 5) = Ret (Some (given.1 + 5, PageFlags.or PageFlags.kernel_data PageFlags.READ)).
Proof.
  destruct given_state as (tr & tabs & free & live & Hm & Hl & Ht & Hs).
  destruct (map_physical_range_all_or_nothing drop_owned given.2 (SpaceDemo.space 8) KindHeap SpaceDemo.heap_regions
    tr tabs free live [given.1] 0x1000 PageFlags.kernel_data Hm (SpaceDemo.space_pool 8))
    as [(r & s' & w' & tr' & tabs' & free' & live' & E & _ & _ & _ & Htr & _)|[(s' & E & _)|(k & a & s' & w' & _ & _ & _ & _ & E & _)]].
  - unfold good_request, is_u64. split_and!; reflexivity || lia.
  - unfold CAPACITY. cbn. lia.
  - by vm_compute.
  - apply NoDup_singleton.
  - by intros f ->%list_elem_of_singleton.
  - exact Hs.
  - pose proof range_evaluates as Hev. rewrite E in Hev. subst r. exists s', w'. split; [exact E|].
    specialize (Htr 0%nat _ 5 eq_refl ltac:(klia)). cbn [fst] in Htr. unfold page in Htr.
    change (Z.of_nat 0 * PAGE_SIZE) with 0 in Htr. rewrite Z.add_0_r in Htr. exact Htr.
  - pose proof range_evaluates as Hev. rewrite E in Hev. cbn [drop_owned obind] in Hev. destruct Hev.
  - pose proof range_evaluates as Hev. rewrite E in Hev. destruct (drop_owned _); cbn [obind] in Hev; destruct Hev.
Defined.
