(* ===== verification/Context.v ===== *)
(** * Kernel stacks and the x86_64 context switch
    (eira/src/task/stack.rs, eira/src/arch/x86_64/context.rs)

    A kernel stack is a zeroed buffer of the kernel heap.  A suspended task is
    nothing but a stack pointer: its callee-saved registers and its return
    address are on its own stack.  [switch_to_asm] is translated instruction by
    instruction on a register file and the machine memory; both context
    pointers are addresses of memory words, so the case in which they are the
    same pointer needs no special treatment.

    [resumes m sp c] says that loading the stack pointer [sp] continues a task
    in the register state [c]; it is the abstract meaning of a saved context. *)

From S2P Require Import Prelude Fmt Log Addr Memory Intervals Heap.
Import HeapInv.

Definition DEFAULT_STACK_SIZE : Z := 64 * 1024.
Definition STACK_ALIGN : Z := 16.
#[export] Hint Unfold DEFAULT_STACK_SIZE STACK_ALIGN : kconst.

(** The allocating half of [Box::new] and [vec!]: a null pointer is reported by
    [handle_alloc_error], which panics. *)
Definition global_alloc (m : mem) (heap : LockedHeap.t) (size align : Z)
  : outcome (Z * mem * LockedHeap.t) :=
  let! '(p, m, heap) := LockedHeap.alloc m heap size align in
  let! _ := assert_ (negb (p =? 0)) "memory allocation failed" in
  Ret (p, m, heap).

Module KernelStack.

(** [Box<[u8]>]: the address and the length of the buffer. *)
Record t := mk { buf : Z; len : Z }.

(** The buffer is zeroed word by word; the bytes after its last whole word are
    not represented. *)
Definition new (m : mem) (heap : LockedHeap.t) (size : Z) : outcome (t * mem * LockedHeap.t) :=
  let! _ := assert_ (STACK_ALIGN <=? size) "stack size must be at least STACK_ALIGN" in
  let! _ := assert_ (size <? 2 ^ 63) "capacity overflow" in
  let! '(p, m, heap) := global_alloc m heap size 1 in
  Ret (mk p size, zero_words m p (Z.to_nat (size / 8)), heap).

Definition new_default (m : mem) (heap : LockedHeap.t) := new m heap DEFAULT_STACK_SIZE.

Definition size (self : t) : Z := len self.
Definition base (self : t) : Z := buf self.

Definition top (self : t) : outcome Z :=
  let! end_ := add_ (buf self) (len self) in
  Ret (Z.land end_ (not64 (STACK_ALIGN - 1))).

(** Dropping the [Box<[u8]>]. *)
Definition drop (m : mem) (heap : LockedHeap.t) (self : t) : outcome (mem * LockedHeap.t) :=
  LockedHeap.dealloc m heap (buf self) (len self) 1.

End KernelStack.

(** The registers a context switch touches. *)
Record cpu := mk_cpu { rip : Z; rsp : Z; rbx : Z; rbp : Z; r12 : Z; r13 : Z; r14 : Z; r15 : Z }.

Module Asm.

(** A register file and the memory. *)
Definition machine : Type := cpu * mem.

Definition set_rsp (c : cpu) (v : Z) : cpu := mk_cpu (rip c) v (rbx c) (rbp c) (r12 c) (r13 c) (r14 c) (r15 c).
Definition set_rip (c : cpu) (v : Z) : cpu := mk_cpu v (rsp c) (rbx c) (rbp c) (r12 c) (r13 c) (r14 c) (r15 c).
Definition set_rbx (c : cpu) (v : Z) : cpu := mk_cpu (rip c) (rsp c) v (rbp c) (r12 c) (r13 c) (r14 c) (r15 c).
Definition set_rbp (c : cpu) (v : Z) : cpu := mk_cpu (rip c) (rsp c) (rbx c) v (r12 c) (r13 c) (r14 c) (r15 c).
Definition set_r12 (c : cpu) (v : Z) : cpu := mk_cpu (rip c) (rsp c) (rbx c) (rbp c) v (r13 c) (r14 c) (r15 c).
Definition set_r13 (c : cpu) (v : Z) : cpu := mk_cpu (rip c) (rsp c) (rbx c) (rbp c) (r12 c) v (r14 c) (r15 c).
Definition set_r14 (c : cpu) (v : Z) : cpu := mk_cpu (rip c) (rsp c) (rbx c) (rbp c) (r12 c) (r13 c) v (r15 c).
Definition set_r15 (c : cpu) (v : Z) : cpu := mk_cpu (rip c) (rsp c) (rbx c) (rbp c) (r12 c) (r13 c) (r14 c) v.

(** [push r]: the stack pointer wraps like every register. *)
Definition push (r : cpu -> Z) (s : machine) : machine :=
  let '(c, m) := s in
  let sp := (rsp c - 8) mod W64 in
  (set_rsp c sp, write64 m sp (r c)).

Definition pop (set : cpu -> Z -> cpu) (s : machine) : machine :=
  let '(c, m) := s in
  (set_rsp (set c (read64 m (rsp c))) ((rsp c + 8) mod W64), m).

(** [ret] pops the instruction pointer. *)
Definition ret (s : machine) : machine := pop set_rip s.

(** [mov [rdi + off], rsp] and [mov rsp, [rsi + off]] *)
Definition store_rsp (addr : Z) (s : machine) : machine := (s.1, write64 s.2 addr (rsp s.1)).
Definition load_rsp (addr : Z) (s : machine) : machine := (set_rsp s.1 (read64 s.2 addr), s.2).

End Asm.

Module offset.
Definition RSP : Z := 0.
End offset.

Module X86_64Context.
Import Asm.

Record t := mk { saved_rsp : Z }.

(** [sp = sp.sub(1); sp.write(v)] *)
Definition push_word (v : Z) (s : mem * Z) : mem * Z := (write64 s.1 (s.2 - 8) v, s.2 - 8).

Definition new (m : mem) (entry stack_top : Z) : mem * t :=
  let s := (m, stack_top) in
  let s := push_word 0 s in
  let s := push_word entry s in
  let s := push_word 0 s in
  let s := push_word 0 s in
  let s := push_word 0 s in
  let s := push_word 0 s in
  let s := push_word 0 s in
  let s := push_word 0 s in
  (s.1, mk s.2).

(** What [new] prints of the frame it has built at [rsp_val]. *)
Definition new_output (m : mem) (entry rsp_val : Z) : list output :=
  Printed <$>
  [line (Fmt.bytes "new_task: entry=" ++ hex_short entry ++ Fmt.bytes " rsp=" ++ hex_short rsp_val);
   line (Fmt.bytes "  [rsp+0]=" ++ hex_short (read64 m rsp_val) ++ Fmt.bytes "  (should be r15=0)");
   line (Fmt.bytes "  [rsp+8]=" ++ hex_short (read64 m (rsp_val + 8)) ++ Fmt.bytes "  (should be r14=0)");
   line (Fmt.bytes "  [rsp+16]=" ++ hex_short (read64 m (rsp_val + 16)) ++ Fmt.bytes " (should be r13=0)");
   line (Fmt.bytes "  [rsp+24]=" ++ hex_short (read64 m (rsp_val + 24)) ++ Fmt.bytes " (should be r12=0)");
   line (Fmt.bytes "  [rsp+32]=" ++ hex_short (read64 m (rsp_val + 32)) ++ Fmt.bytes " (should be rbp=0)");
   line (Fmt.bytes "  [rsp+40]=" ++ hex_short (read64 m (rsp_val + 40)) ++ Fmt.bytes " (should be rbx=0)");
   line (Fmt.bytes "  [rsp+48]=" ++ hex_short (read64 m (rsp_val + 48)) ++ Fmt.bytes " (should be entry)")].

Definition switch_to_asm (current next : Z) (s : machine) : machine :=
  let s := push rbx s in
  let s := push rbp s in
  let s := push r12 s in
  let s := push r13 s in
  let s := push r14 s in
  let s := push r15 s in
  let s := store_rsp (current + offset.RSP) s in
  let s := load_rsp (next + offset.RSP) s in
  let s := pop set_r15 s in
  let s := pop set_r14 s in
  let s := pop set_r13 s in
  let s := pop set_r12 s in
  let s := pop set_rbp s in
  let s := pop set_rbx s in
  ret s.

(** The call pushes the return address, here the instruction pointer of the
    calling state. *)
Definition switch_to (current next : Z) (s : machine) : machine :=
  switch_to_asm current next (push rip s).

End X86_64Context.

(** ** What a saved context means *)
Module Saved.

(** The seven words of the frame at [sp] restore [c]. *)
Record resumes (m : mem) (sp : Z) (c : cpu) : Prop := {
  resumes_r15 : read64 m sp = r15 c;
  resumes_r14 : read64 m (sp + 8) = r14 c;
  resumes_r13 : read64 m (sp + 16) = r13 c;
  resumes_r12 : read64 m (sp + 24) = r12 c;
  resumes_rbp : read64 m (sp + 32) = rbp c;
  resumes_rbx : read64 m (sp + 40) = rbx c;
  resumes_rip : read64 m (sp + 48) = rip c;
  resumes_rsp : rsp c = sp + 56;
  resumes_range : 0 <= sp /\ sp + 56 < W64;
}.

(** A word that overlaps the frame at [sp]. *)
Definition in_saved (sp w : Z) : Prop := sp - 8 < w < sp + 56.

(** The frame is in place and the context word points to it. *)
Definition suspended (m : mem) (ctx : Z) (c : cpu) : Prop :=
  resumes m (read64 m ctx) c /\ ~ in_saved (read64 m ctx) ctx.

End Saved.
Import Saved.

Section switch.
Import Asm X86_64Context.
Implicit Types (m : mem) (c : cpu).

Lemma resumes_frame m m' sp c :
  resumes m sp c -> (forall w, in_saved sp w -> read64 m' w = read64 m w) -> resumes m' sp c.
Proof.
  intros [] H. split; try done; rewrite H; try done; unfold in_saved; lia.
Qed.

Lemma suspended_frame m m' ctx c :
  suspended m ctx c ->
  (forall w, w = ctx \/ in_saved (read64 m ctx) w -> read64 m' w = read64 m w) ->
  suspended m' ctx c.
Proof.
  intros [Hr Hn] H. unfold suspended. rewrite (H ctx) by auto. split; [|done].
  eapply resumes_frame; [done|]. eauto.
Qed.

Lemma push_small r c m :
  8 <= rsp c < W64 + 8 -> push r (c, m) = (set_rsp c (rsp c - 8), write64 m (rsp c - 8) (r c)).
Proof. intros. unfold push. by rewrite Z.mod_small by lia. Qed.

Lemma pop_small set c m :
  0 <= rsp c + 8 < W64 ->
  pop set (c, m) = (set_rsp (set c (read64 m (rsp c))) (rsp c + 8), m).
Proof. intros. unfold pop. by rewrite Z.mod_small by lia. Qed.

(** The seven pushes leave the frame of the calling state. *)
Lemma push_frame c m :
  56 <= rsp c < W64 ->
  exists m', push r15 (push r14 (push r13 (push r12 (push rbp (push rbx (push rip (c, m)))))))
             = (set_rsp c (rsp c - 56), m') /\
    resumes m' (rsp c - 56) c /\ same_outside (in_saved (rsp c - 56)) m m'.
Proof.
  destruct c as [ip sp bx bp c12 c13 c14 c15]. cbn [rsp]. intros Hsp.
  do 7 (rewrite push_small by (cbn [rsp]; lia); unfold set_rsp;
        cbn [rip rsp rbx rbp r12 r13 r14 r15]).
  replace (sp - 8 - 8) with (sp - 16) by lia. replace (sp - 16 - 8) with (sp - 24) by lia.
  replace (sp - 24 - 8) with (sp - 32) by lia. replace (sp - 32 - 8) with (sp - 40) by lia.
  replace (sp - 40 - 8) with (sp - 48) by lia. replace (sp - 48 - 8) with (sp - 56) by lia.
  eexists. split_and!; [reflexivity|..].
  - split; cbn -[Z.sub Z.add]; try lia; rewrite !read_write; repeat case_decide; done || lia.
  - intros w Hw. unfold in_saved in Hw. rewrite !read_write. repeat case_decide; done || lia.
Qed.

(** The pops and [ret] restore a frame. *)
Lemma pop_frame c0 m sp c :
  resumes m sp c ->
  ret (pop set_rbx (pop set_rbp (pop set_r12 (pop set_r13 (pop set_r14 (pop set_r15 (set_rsp c0 sp, m)))))))
  = (c, m).
Proof.
  intros [E15 E14 E13 E12 Ebp Ebx Eip Esp Hr]. unfold ret.
  do 7 (rewrite pop_small by (cbn [set_rsp rsp]; lia);
        unfold set_rsp, set_rip, set_rbx, set_rbp, set_r12, set_r13, set_r14, set_r15;
        cbn [rip rsp rbx rbp r12 r13 r14 r15]).
  replace (sp + 8 + 8) with (sp + 16) by lia. replace (sp + 16 + 8) with (sp + 24) by lia.
  replace (sp + 24 + 8) with (sp + 32) by lia. replace (sp + 32 + 8) with (sp + 40) by lia.
  replace (sp + 40 + 8) with (sp + 48) by lia. replace (sp + 48 + 8) with (sp + 56) by lia.
  rewrite E15, E14, E13, E12, Ebp, Ebx, Eip, <- Esp. by destruct c.
Qed.

(** Room for the caller's frame, away from its context word. *)
Definition can_suspend c (ctx : Z) : Prop :=
  56 <= rsp c < W64 /\ ~ in_saved (rsp c - 56) ctx.

(** A switch between two different contexts. *)
Lemma switch_to_ok c m current next c' :
  can_suspend c current -> suspended m next c' -> current <> next ->
  (forall w, w = next \/ in_saved (read64 m next) w -> w <> current /\ ~ in_saved (rsp c - 56) w) ->
  exists m', switch_to current next (c, m) = (c', m') /\
    suspended m' current c /\ suspended m' next c' /\
    read64 m' current = rsp c - 56 /\
    same_outside (fun w => w = current \/ in_saved (rsp c - 56) w) m m'.
Proof.
  intros [Hsp Hout] Hs Hne Hdis. unfold switch_to, switch_to_asm.
  destruct (push_frame c m Hsp) as (m1 & -> & Hr1 & Hs1).
  unfold store_rsp, load_rsp, offset.RSP. cbn [fst snd]. rewrite !Z.add_0_r.
  set (m2 := write64 m1 current _).
  assert (Hs2 : same_outside (fun w => w = current \/ in_saved (rsp c - 56) w) m m2).
  { intros w Hw. subst m2. rewrite read_write_ne by naive_solver. apply Hs1. naive_solver. }
  assert (Hcur : read64 m2 current = rsp c - 56) by (subst m2; apply read_write_eq).
  assert (Hnext : suspended m2 next c').
  { eapply suspended_frame; [exact Hs|]. intros w Hw. apply Hs2. specialize (Hdis w Hw). tauto. }
  assert (Er : read64 m2 next = read64 m next).
  { apply Hs2. specialize (Hdis next). tauto. }
  exists m2. split_and!; try done.
  - by rewrite (pop_frame _ _ _ c') by apply Hnext.
  - unfold suspended. rewrite Hcur. split; [|done].
    eapply resumes_frame; [exact Hr1|]. intros w Hw. subst m2. apply read_write_ne. by intros <-.
Qed.

(** A switch from a context to itself returns at once. *)
Lemma switch_to_self c m ctx :
  can_suspend c ctx ->
  exists m', switch_to ctx ctx (c, m) = (c, m') /\ suspended m' ctx c /\
    read64 m' ctx = rsp c - 56 /\
    same_outside (fun w => w = ctx \/ in_saved (rsp c - 56) w) m m'.
Proof.
  intros [Hsp Hout]. unfold switch_to, switch_to_asm.
  destruct (push_frame c m Hsp) as (m1 & -> & Hr1 & Hs1).
  unfold store_rsp, load_rsp, offset.RSP. cbn [fst snd]. rewrite !Z.add_0_r.
  set (m2 := write64 m1 ctx _).
  assert (Hcur : read64 m2 ctx = rsp c - 56) by (subst m2; apply read_write_eq).
  assert (Hr2 : resumes m2 (rsp c - 56) c).
  { eapply resumes_frame; [exact Hr1|]. intros w Hw. subst m2. apply read_write_ne. by intros <-. }
  exists m2. split_and!; try done.
  - rewrite Hcur. by rewrite (pop_frame _ _ _ c) by done.
  - unfold suspended. by rewrite Hcur.
  - intros w Hw. subst m2. rewrite read_write_ne by naive_solver. apply Hs1. naive_solver.
Qed.

(** The state in which a new task starts. *)
Definition start_state (entry stack_top : Z) : cpu := mk_cpu entry (stack_top - 8) 0 0 0 0 0 0.

(** The frame of a new context holds what its diagnostics say it should. *)
Definition fresh_lines (entry rsp_val : Z) : list (list Z) :=
  [line (Fmt.bytes "new_task: entry=" ++ hex_short entry ++ Fmt.bytes " rsp=" ++ hex_short rsp_val);
   line (Fmt.bytes "  [rsp+0]=0x0  (should be r15=0)"); line (Fmt.bytes "  [rsp+8]=0x0  (should be r14=0)");
   line (Fmt.bytes "  [rsp+16]=0x0 (should be r13=0)"); line (Fmt.bytes "  [rsp+24]=0x0 (should be r12=0)");
   line (Fmt.bytes "  [rsp+32]=0x0 (should be rbp=0)"); line (Fmt.bytes "  [rsp+40]=0x0 (should be rbx=0)");
   line (Fmt.bytes "  [rsp+48]=" ++ hex_short entry ++ Fmt.bytes " (should be entry)")].

Lemma new_output_fresh m entry top (r := new m entry top) :
  new_output r.1 entry (saved_rsp r.2) = Printed <$> fresh_lines entry (top - 64).
Proof.
  subst r. unfold new, push_word. cbn [fst snd saved_rsp].
  unfold new_output. replace (top - 8 - 8 - 8 - 8 - 8 - 8 - 8 - 8) with (top - 64) by lia.
  repeat (rewrite read_write; first [rewrite decide_True by lia | rewrite decide_False by lia]). done.
Qed.

Lemma new_ok m entry stack_top :
  64 <= stack_top < W64 ->
  exists m', new m entry stack_top = (m', mk (stack_top - 64)) /\
    resumes m' (stack_top - 64) (start_state entry stack_top) /\
    read64 m' (stack_top - 8) = 0 /\
    same_outside (fun w => stack_top - 64 <= w < stack_top) m m'.
Proof.
  intros Ht. unfold new, push_word. cbn [fst snd].
  replace (stack_top - 8 - 8) with (stack_top - 16) by lia. replace (stack_top - 16 - 8) with (stack_top - 24) by lia.
  replace (stack_top - 24 - 8) with (stack_top - 32) by lia. replace (stack_top - 32 - 8) with (stack_top - 40) by lia.
  replace (stack_top - 40 - 8) with (stack_top - 48) by lia. replace (stack_top - 48 - 8) with (stack_top - 56) by lia.
  replace (stack_top - 56 - 8) with (stack_top - 64) by lia.
  eexists. split; [reflexivity|]. split_and!.
  - split; cbn; try lia; rewrite !read_write; repeat case_decide; done || lia.
  - rewrite !read_write; repeat case_decide; done || lia.
  - intros w Hw. rewrite !read_write. repeat case_decide; done || lia.
Qed.

End switch.

(** ** Stacks come from the heap *)
Section stacks.
Implicit Types (m : mem) (h : HeapAllocator.t) (l : list ival) (H : LockedHeap.t).

(** The unlocked heap with the free blocks [l], none of them in the last bytes
    of the address space, and a statistics counter that does not overflow in
    the next [k] allocations. *)
Record heap_ok m H l (k : Z) : Prop := {
  heap_unlocked : H.1 = false;
  heap_inv : inv m H.2 l;
  heap_below : forall x, covers l x -> x + 16 < W64;
  heap_count : HeapStats.alloc_count (HeapAllocator.stats H.2) + k < W64;
}.

(** Some free block has [r] bytes. *)
Definition room l (r : Z) : Prop := exists i, i ∈ l /\ r <= i.2.

(** The buffer [p, p + n) was free and is now used; nothing else of memory or
    of the heap is taken or written, and only the served bytes of a block go. *)
Record allocated m l m' H' l' (k p n : Z) : Prop := {
  allocated_ok : heap_ok m' H' l' k;
  allocated_pos : 0 < p;
  allocated_aligned : p mod 16 = 0;
  allocated_end : p + n < W64;
  allocated_was_free : forall x, p <= x < p + n -> covers l x;
  allocated_now_used : forall x, p <= x < p + n -> ~ covers l' x;
  allocated_shrinks : forall x, covers l' x -> covers l x;
  allocated_same : same_outside (covers l) m m';
  allocated_room : forall r, room l r -> served_size n < r -> room l' (r - served_size n);
}.

(** Blocks start at multiples of 16, so an alignment up to that costs nothing. *)
Lemma fits_aligned n i : i.1 mod 16 = 0 -> fits n 16 i <-> n <= i.2.
Proof. intros Hi. unfold fits. rewrite round_up_id by done. unfold iend. lia. Qed.

Lemma carve_room l1 i l2 n r :
  0 < n -> i.1 mod 16 = 0 -> n <= i.2 -> room (l1 ++ i :: l2) r -> n < r ->
  room (l1 ++ carve i (round_up i.1 16) n ++ l2) (r - n).
Proof.
  intros Hn Hi Hf (j & Hj & Hr) Hlt. rewrite round_up_id by done. unfold room. setoid_rewrite elem_of_app.
  setoid_rewrite elem_of_app. apply elem_of_app in Hj as [Hj|[->|Hj]%elem_of_cons].
  - exists j. split; [by left|lia].
  - exists (i.1 + n, i.2 - n). split; [|cbn; lia]. right. left. unfold carve, piece.
    rewrite Z.sub_diag. cbn [Z.ltb Z.compare app]. unfold iend.
    replace (i.1 + i.2 - (i.1 + n)) with (i.2 - n) by lia. rewrite (proj2 (Z.ltb_lt _ _)) by lia. left.
  - exists j. split; [by right; right|lia].
Qed.

Lemma global_alloc_ok m H l k n align :
  heap_ok m H l (k + 1) -> 0 <= k -> 0 < n < 2 ^ 63 -> is_power_of_two align = true -> align <= 16 ->
  (global_alloc m H n align = Panic "memory allocation failed" /\ ~ room l (served_size n)) \/
  exists p m' H' l', global_alloc m H n align = Ret (p, m', H') /\ allocated m l m' H' l' k p n.
Proof.
  destruct H as [b h]. intros [Hl Hi Hb Hc] Hk Hn Hp Ha. cbn in Hl, Hi, Hc. subst b.
  pose proof (power_of_two_pos _ Hp).
  assert (Hu : is_u64 align) by (unfold is_u64; lia).
  assert (Hsa : served_align align = 16) by (unfold served_align, BLOCK_ALIGN; lia).
  destruct (served_size_spec n) as (Hs16 & _ & Hsn & _); [lia|].
  assert (Hbase : forall i, i ∈ l -> i.1 mod 16 = 0) by (intros i Hin; apply (inv_ok Hi i Hin)).
  unfold global_alloc, LockedHeap.alloc, LockedHeap.lock. cbn [fst snd obind].
  destruct (alloc_cases m h l n align Hi) as
    [[-> Hno]|(l1 & i & l2 & m' & h' & -> & Hf & _ & Hge & _ & Hm & -> & Hi' & Hsame & Hst)];
    [by split|lia| | |].
  { intros i Hin. rewrite Hsa. destruct (wf_above_lt _ _ _ (inv_wf Hi) Hin) as (? & ? & _).
    apply Hb, covers_elem. exists i. split; [done|]. unfold in_ival, iend. lia. }
  { left. split; [done|]. intros (i & Hin & Hr). apply (Hno i Hin). rewrite Hsa. by apply fits_aligned; [apply Hbase|]. }
  right. assert (Hib : i.1 mod 16 = 0) by (apply Hbase; set_solver).
  assert (Hfi : served_size n <= i.2) by (apply fits_aligned; [done|]; by rewrite <- Hsa).
  set (p := round_up i.1 _) in *. unfold fits in Hf. fold p in Hf.
  destruct (carve_spec 0 l1 i l2 p (served_size n)) as (_ & _ & Hcov); [apply (inv_wf Hi)|lia|done|done|].
  destruct (wf_above_elem _ _ _ _ (inv_wf Hi)) as [Hpos _].
  assert (Hin : forall x, p <= x < p + n -> covers (l1 ++ i :: l2) x).
  { intros x Hx. apply covers_app. right. left. unfold in_ival. lia. }
  cbn [obind]. rewrite (proj2 (Z.eqb_neq p 0)) by lia. cbn [negb assert_ obind].
  exists p, m', (false, h'), (l1 ++ carve i p (served_size n) ++ l2).
  split; [reflexivity|]. split; try done; try lia.
  - split; [done|exact Hi'| |cbn; rewrite Hst; cbn; lia]. intros x [Hx _]%Hcov. by apply Hb.
  - assert (p + n - 1 + 16 < W64) by (apply Hb, Hin; lia). lia.
  - intros x Hx [_ Hc']%Hcov. apply Hc'. lia.
  - by intros x [? _]%Hcov.
  - intros r Hr Hlt. subst p. rewrite Hsa. by apply carve_room; [lia|..].
Qed.

(** The context words fit into every stack of at least 64 bytes. *)
Definition stack_top (s : KernelStack.t) : Z :=
  KernelStack.buf s + (KernelStack.len s - KernelStack.len s mod 16).

Lemma top_ok p n : 0 < p -> p mod 16 = 0 -> 0 <= n -> p + n < W64 ->
  KernelStack.top (KernelStack.mk p n) = Ret (stack_top (KernelStack.mk p n)).
Proof.
  intros. unfold KernelStack.top. cbn [KernelStack.buf KernelStack.len].
  rewrite add_Ret by done. cbn [obind]. unfold STACK_ALIGN.
  rewrite land_align_not_mask by (reflexivity || (unfold is_u64; lia)).
  unfold stack_top. cbn. f_equal. zlia.
Qed.

Lemma stack_new_ok m H l k n :
  heap_ok m H l (k + 1) -> 0 <= k -> 16 <= n < 2 ^ 63 ->
  (KernelStack.new m H n = Panic "memory allocation failed" /\ ~ room l (served_size n)) \/
  exists p m' H' l', KernelStack.new m H n = Ret (KernelStack.mk p n, m', H') /\
    allocated m l m' H' l' k p n /\
    (forall i, 0 <= i < n / 8 -> read64 m' (p + 8 * i) = 0).
Proof.
  intros Ho Hk Hn. unfold KernelStack.new, STACK_ALIGN.
  rewrite (proj2 (Z.leb_le _ _)), (proj2 (Z.ltb_lt _ _)) by lia. cbn [assert_ obind].
  destruct (global_alloc_ok m H l k n 1 Ho Hk) as [[-> ?]|(p & m1 & H1 & l1 & -> & Ha)];
    [lia|done|lia|by left|right].
  cbn [obind]. eexists p, _, H1, l1. split; [reflexivity|].
  destruct Ha as [[? Hi ? ?] ? ? ? Hf Hu ? Hs ?].
  assert (Hz : forall w, ~ (p <= w < p + n) -> read64 (zero_words m1 p (Z.to_nat (n / 8))) w = read64 m1 w).
  { intros w Hw. apply zero_words_other. intros i Hi'. zlia. }
  split.
  - split; try done.
    + split; try done. eapply inv_frame; [exact Hi|]. intros w Hw. apply Hz. intros Hx. by apply (Hu w).
    + intros w Hw. rewrite Hz by (intros Hx; by apply Hw, Hf). by apply Hs.
  - intros i Hi'. replace i with (Z.of_nat (Z.to_nat i)) by lia. apply zero_words_zero. lia.
Qed.

End stacks.

Section properties.
Import Asm X86_64Context.

(** C11: switching away and back is invisible to a task.  If a task in state
    [c] calls [switch_to(current, next)], and later, whatever has run in
    between, its context word and the 56 bytes below its stack pointer are as
    the switch left them, then the next [switch_to] that names its context as
    the target continues it in exactly the state [c]: same return address, same
    stack pointer, same callee-saved registers. *)
Theorem context_switch_roundtrip c m current next m1 c1 m2 c2 other :
  can_suspend c current -> current <> next ->
  switch_to current next (c, m) = (c1, m1) ->
  (exists c', suspended m next c' /\
     forall w, w = next \/ in_saved (read64 m next) w -> w <> current /\ ~ in_saved (rsp c - 56) w) ->
  (forall w, w = current \/ in_saved (rsp c - 56) w -> read64 m2 w = read64 m1 w) ->
  can_suspend c2 other -> other <> current ->
  (forall w, w = current \/ in_saved (rsp c - 56) w -> w <> other /\ ~ in_saved (rsp c2 - 56) w) ->
  exists m3, switch_to other current (c2, m2) = (c, m3).
Proof.
  intros Hc Hne E (c' & Hs & Hd) Hm Hc2 Hne2 Hd2.
  destruct (switch_to_ok c m current next c' Hc Hs Hne Hd) as (m1' & E' & Hs1 & _ & Hr & _).
  rewrite E in E'. simplify_eq.
  assert (Hs2 : suspended m2 current c).
  { eapply suspended_frame; [exact Hs1|]. rewrite Hr. exact Hm. }
  destruct (switch_to_ok c2 m2 other current c Hc2 Hs2 Hne2) as (m3 & -> & _); [|by exists m3].
  rewrite (Hm current), Hr by auto. exact Hd2.
Qed.

(** A fresh stack of [n >= 64] bytes with the context built on it starts
    the task correctly.  Unless no free block has room (a panic), [KernelStack::new]
    returns a zeroed, 16-byte aligned buffer that was free before;
    [KernelContext::new] at its [top] writes only inside the buffer; and loading
    the saved stack pointer enters [entry] with the callee-saved registers zero,
    a null return address, and the stack pointer congruent to 8 modulo 16, as
    the calling convention requires at a function's first instruction. *)
Theorem fresh_stack_starts_task m H l n entry :
  heap_ok m H l 1 -> 64 <= n < 2 ^ 63 ->
  (KernelStack.new m H n = Panic "memory allocation failed" /\ ~ room l (served_size n)) \/
  exists s m1 H1 l1 top m2 ctx c,
    KernelStack.new m H n = Ret (s, m1, H1) /\ KernelStack.size s = n /\
    allocated m l m1 H1 l1 0 (KernelStack.base s) n /\
    (forall i, 0 <= i < n / 8 -> read64 m1 (KernelStack.base s + 8 * i) = 0) /\
    KernelStack.top s = Ret top /\ new m1 entry top = (m2, ctx) /\
    same_outside (fun w => KernelStack.base s <= w < KernelStack.base s + n) m1 m2 /\
    resumes m2 (saved_rsp ctx) c /\
    rip c = entry /\ rsp c mod 16 = 8 /\ read64 m2 (rsp c) = 0 /\
    KernelStack.base s <= saved_rsp ctx /\ rsp c < KernelStack.base s + n /\
    rbx c = 0 /\ rbp c = 0 /\ r12 c = 0 /\ r13 c = 0 /\ r14 c = 0 /\ r15 c = 0.
Proof.
  intros Ho Hn. destruct (stack_new_ok m H l 0 n Ho) as [[-> ?]|(p & m1 & H1 & l1 & E & Ha & Hz)];
    [lia|lia|by left|right]. pose proof Ha as [_ Hp Hpa Hpe _ _ _ _ _].
  pose proof (top_ok p n Hp Hpa) as Ht. unfold stack_top in Ht. cbn in Ht.
  destruct (new_ok m1 entry (p + (n - n mod 16))) as (m2 & E2 & Hr & H0 & Hs); [zlia|].
  eexists _, m1, H1, l1, _, m2, _, _. split_and!; [exact E|done|exact Ha|exact Hz| |exact E2| |exact Hr|..];
    cbn; try done; try zlia.
  - apply Ht; lia.
  - eapply same_outside_weaken; [exact Hs|]. cbn. intros w Hw. zlia.
Qed.

End properties.

(** ** Witnesses *)
Module ContextDemo.
Import HeapDemo.

Definition heap : LockedHeap.t := (false, booted.2).

Lemma heap_ready : heap_ok booted.1 heap free1 1.
Proof.
  split; [done|apply booted_inv| |by vm_compute].
  intros x [[Hx1 Hx2]|[]]. change (iend (base, 0x1000)) with 0xffffc00000001000 in Hx2. lia.
Qed.

Definition returns {A} (o : outcome A) : bool := match o with Ret _ => true | _ => false end.

Lemma fits : returns (KernelStack.new booted.1 heap 256) = true.
Proof. vm_compute. reflexivity. Qed.

(** Two stacks: a running task at 0x5000 and a fresh one with top 0x9000. *)
Definition running : cpu := mk_cpu 0x1234 0x5000 1 2 3 4 5 6.
Definition other : cpu := mk_cpu 0x777 0x8000 9 9 9 9 9 9.
Definition m0 : mem := write64 (X86_64Context.new ∅ 0xabc 0x9000).1 0x200 (0x9000 - 64).
Definition after := X86_64Context.switch_to 0x100 0x200 (running, m0).

Lemma m0_suspended : suspended m0 0x200 (start_state 0xabc 0x9000).
Proof. split; [split; by vm_compute|]. vm_compute. by intros [H _]. Qed.

End ContextDemo.

Lemma context_switch_roundtrip_witness :
  exists m3, X86_64Context.switch_to 0x200 0x100 (ContextDemo.other, ContextDemo.after.2)
             = (ContextDemo.running, m3).
Proof.
  apply (context_switch_roundtrip ContextDemo.running ContextDemo.m0 0x100 0x200
           ContextDemo.after.2 ContextDemo.after.1 ContextDemo.after.2 ContextDemo.other 0x200).
  - split; cbn; unfold in_saved; lia.
  - lia.
  - by destruct ContextDemo.after eqn:?.
  - exists (start_state 0xabc 0x9000). split; [apply ContextDemo.m0_suspended|].
    change (read64 ContextDemo.m0 0x200) with (0x9000 - 64). intros w Hw. cbn in *. unfold in_saved in *. lia.
  - done.
  - split; cbn; unfold in_saved; lia.
  - lia.
  - intros w Hw. cbn in *. unfold in_saved in *. lia.
Defined.

Lemma fresh_stack_starts_task_witness :
  exists s m1 H1 l1, KernelStack.new HeapDemo.booted.1 ContextDemo.heap 256 = Ret (s, m1, H1) /\
    allocated HeapDemo.booted.1 HeapDemo.free1 m1 H1 l1 0 (KernelStack.base s) 256.
Proof.
  destruct (fresh_stack_starts_task HeapDemo.booted.1 ContextDemo.heap HeapDemo.free1 256 0xabc
              ContextDemo.heap_ready) as [[E _]|(s & m1 & H1 & l1 & _ & _ & _ & _ & E & _ & Ha & _)].
  - lia.
  - pose proof ContextDemo.fits as Hf. rewrite E in Hf. discriminate Hf.
  - exists s, m1, H1, l1. split; [exact E|exact Ha].
Defined.
