(* ===== verification/Task.v ===== *)
(** * Tasks (eira/src/task/task.rs)

    A task by value carries its context; once it is boxed it does not move any
    more and its context is the memory word at a fixed address, because that is
    how the context switch reaches it.  The record [Task C] is the same
    structure in both situations: [C] is [X86_64Context.t] before and the address
    [Z] after [Box::new].  The other fields are only reached through Rust
    references and stay in the record.

    The size of [Task] and the place of its [context] field are chosen by the
    compiler; they are the parameters of [TaskLayout].  An [Arc] of an address
    space is represented by the address of the shared object. *)

From S2P Require Import Prelude Fmt Log Addr Memory Intervals Heap Context.

Module TaskId.

Definition IDLE : Z := 0.

(** [COUNTER.fetch_add(1)], which wraps. *)
Definition next (counter : Z) : Z * Z := (counter, (counter + 1) mod W64).

Definition as_u64 (self : Z) : Z := self.

End TaskId.

(** [Display] *)
Definition TaskId_Display (self : Z) : list Z := Fmt.bytes "task#" ++ decimal self.

Inductive BlockReason := IpcReply | Sleep | Io | PageFault | Other.

Inductive TaskState := Created | Ready | Running | Blocked (reason : BlockReason) | Dead.

#[export] Instance BlockReason_eq_dec : EqDecision BlockReason.
Proof. solve_decision. Defined.
#[export] Instance TaskState_eq_dec : EqDecision TaskState.
Proof. solve_decision. Defined.

(** A priority is a [u8]. *)
Module Priority.

Definition IDLE : Z := 0.
Definition NORMAL : Z := 128.
Definition HIGH : Z := 200.
Definition MAX : Z := 255.

Definition new (value : Z) : Z := value.
Definition as_u8 (self : Z) : Z := self.
Definition default : Z := NORMAL.

End Priority.

Record Task (C : Type) := mk_task {
  id : Z;
  state : TaskState;
  priority : Z;
  context : C;
  stack : KernelStack.t;
  address_space : Z;
}.
Arguments mk_task {C} _ _ _ _ _ _.
Arguments id {C} _.
Arguments state {C} _.
Arguments priority {C} _.
Arguments context {C} _.
Arguments stack {C} _.
Arguments address_space {C} _.

Class TaskLayout := {
  task_size : Z;
  task_align : Z;
  context_offset : Z;
  task_align_ok : is_power_of_two task_align = true /\ task_align <= 16;
  context_in_task : 0 <= context_offset /\ context_offset + 8 <= task_size;
  context_aligned : context_offset mod 8 = 0;
  task_size_ok : task_size < 2 ^ 63;
}.

Definition set_state {C} (self : Task C) (s : TaskState) : Task C :=
  mk_task (id self) s (priority self) (context self) (stack self) (address_space self).

Definition is_runnable {C} (self : Task C) : bool :=
  match state self with Ready => true | _ => false end.

Definition mark_ready {C} (self : Task C) : outcome (Task C) :=
  let! _ := assert_ (negb (match state self with Running | Dead => true | _ => false end))
              "mark_ready called on a running or dead task" in
  Ret (set_state self Ready).

Definition Task_block {C} (self : Task C) (reason : BlockReason) : outcome (Task C) :=
  let! _ := assert_ (bool_decide (state self = Running)) "block() called on non-running task" in
  Ret (set_state self (Blocked reason)).

Definition kill {C} (self : Task C) : Task C := set_state self Dead.

(** [Task::new]; the last components of the result are the id counter and what
    [X86_64Context::new] prints. *)
Definition Task_new (m : mem) (heap : LockedHeap.t) (counter entry priority stack_size address_space : Z)
  : outcome (Task X86_64Context.t * mem * LockedHeap.t * Z * list output) :=
  let! '(stack, m, heap) := KernelStack.new m heap stack_size in
  let! top := KernelStack.top stack in
  let '(m, context) := X86_64Context.new m entry top in
  let out := X86_64Context.new_output m entry (X86_64Context.saved_rsp context) in
  let '(id, counter) := TaskId.next counter in
  Ret (mk_task id Created priority context stack address_space, m, heap, counter, out).

Definition new_kernel (m : mem) (heap : LockedHeap.t) (counter entry address_space : Z) :=
  Task_new m heap counter entry Priority.NORMAL DEFAULT_STACK_SIZE address_space.

Section boxed.
Context `{TaskLayout}.

(** [Box::new(task)]: of the words of the box only the context is represented. *)
Definition Box_new (m : mem) (heap : LockedHeap.t) (task : Task X86_64Context.t)
  : outcome (Task Z * mem * LockedHeap.t) :=
  let! '(p, m, heap) := global_alloc m heap task_size task_align in
  let ctx := p + context_offset in
  Ret (mk_task (id task) (state task) (priority task) ctx (stack task) (address_space task),
       write64 m ctx (X86_64Context.saved_rsp (context task)), heap).

(** The address of the box a boxed task lives in. *)
Definition box_addr (task : Task Z) : Z := context task - context_offset.

(** Dropping a [Box<Task>]: the stack is freed with the fields, then the box. *)
Definition drop_task (m : mem) (heap : LockedHeap.t) (task : Task Z) : outcome (mem * LockedHeap.t) :=
  let! '(m, heap) := KernelStack.drop m heap (stack task) in
  LockedHeap.dealloc m heap (box_addr task) task_size task_align.

End boxed.
