(* ===== verification/Scheduler.v ===== *)
(** * The cooperative scheduler (eira/src/task/scheduler.rs)

    [kernel] is the state the scheduler acts on: the machine memory, the heap,
    the task-id counter, the static [SCHEDULER] with its lock, and the CPU.  An
    operation that ends in a context switch returns the state right after the
    [ret] of [switch_to_asm], that is, in the task switched to; the rest of the
    caller runs when its context is switched to again.

    The storage of the [VecDeque]s is not represented. *)

From S2P Require Import Prelude Fmt Log Addr Memory Intervals Heap Context Task.
Import HeapInv Saved.

Module Scheduler.

Record t := mk {
  run_queue : list (Task Z);
  current : option (Task Z);
  idle : Task Z;
  dead : list (Task Z);
}.

Definition new (idle : Task Z) : t := mk [] None idle [].

Definition enqueue (self : t) (task : Task Z) : outcome t :=
  let! task := mark_ready task in
  Ret (mk (run_queue self ++ [task]) (current self) (idle self) (dead self)).

(** The scan of [pick_next] from index [i] on. *)
Fixpoint best (q : list (Task Z)) (i : nat) (best_idx : option nat) (best_priority : Z) : option nat :=
  match q with
  | [] => best_idx
  | task :: q =>
      if is_runnable task && (best_priority <? Priority.as_u8 (priority task))
      then best q (S i) (Some i) (Priority.as_u8 (priority task))
      else best q (S i) best_idx best_priority
  end.

(** [VecDeque::remove] *)
Definition remove (q : list (Task Z)) (i : nat) : option (Task Z) * list (Task Z) := (q !! i, delete i q).

Definition pick_next (self : t) : option (Task Z) * t :=
  match best (run_queue self) 0 None 0 with
  | None => (None, self)
  | Some i =>
      let '(task, q) := remove (run_queue self) i in
      (task, mk q (current self) (idle self) (dead self))
  end.

Section drops.
Context `{TaskLayout}.

(** Dropping the elements of a [VecDeque], front to back. *)
Fixpoint drop_all (m : mem) (heap : LockedHeap.t) (q : list (Task Z)) : outcome (mem * LockedHeap.t) :=
  match q with
  | [] => Ret (m, heap)
  | task :: q => let! '(m, heap) := drop_task m heap task in drop_all m heap q
  end.

Definition reap (m : mem) (heap : LockedHeap.t) (self : t) : outcome (mem * LockedHeap.t * t) :=
  let! '(m, heap) := drop_all m heap (dead self) in
  Ret (m, heap, mk (run_queue self) (current self) (idle self) []).

End drops.

Definition task_count (self : t) : Z :=
  Z.of_nat (length (run_queue self)) + (match current self with Some _ => 1 | None => 0 end) + Z.of_nat (length (dead self)).

End Scheduler.
Import Scheduler.

Record kernel := mk_kernel {
  k_mem : mem;
  k_heap : LockedHeap.t;
  k_counter : Z;
  k_locked : bool;
  k_sched : option Scheduler.t;
  k_cpu : cpu;
  k_out : list output;
}.

Section operations.
Context `{TaskLayout}.
(** The address of [idle_task]. *)
Context (idle_task : Z).
Implicit Types (k : kernel) (s : Scheduler.t).

Definition sched_lock k : outcome kernel :=
  if k_locked k then Hang
  else Ret (mk_kernel (k_mem k) (k_heap k) (k_counter k) true (k_sched k) (k_cpu k) (k_out k)).

Definition with_scheduler {R} k (f : Scheduler.t -> outcome (R * Scheduler.t)) : outcome (R * kernel) :=
  let! k := sched_lock k in
  let! s := expect (k_sched k) "scheduler not initialised" in
  let! '(r, s) := f s in
  Ret (r, mk_kernel (k_mem k) (k_heap k) (k_counter k) false (Some s) (k_cpu k) (k_out k)).

Definition say k (r : log_record) : kernel :=
  mk_kernel (k_mem k) (k_heap k) (k_counter k) (k_locked k) (k_sched k) (k_cpu k) (k_out k ++ [Logged r]).

(** [Box::new(Task::new(..))] *)
Definition boxed_task k (entry priority stack_size address_space : Z) : outcome (Task Z * kernel) :=
  let! '(task, m, heap, counter, out) :=
    Task_new (k_mem k) (k_heap k) (k_counter k) entry priority stack_size address_space in
  let! '(task, m, heap) := Box_new m heap task in
  Ret (task, mk_kernel m heap counter (k_locked k) (k_sched k) (k_cpu k) (k_out k ++ out)).

Definition started : log_record := debug "eira::task::scheduler" (Fmt.bytes "scheduler initialised").

Definition init k (kernel_address_space : Z) : outcome kernel :=
  let! k := sched_lock k in
  let! _ := assert_ (match k_sched k with None => true | Some _ => false end)
              "scheduler::init() called more than once" in
  let! '(idle, k) := boxed_task k idle_task Priority.IDLE DEFAULT_STACK_SIZE kernel_address_space in
  let k := say k started in
  Ret (mk_kernel (k_mem k) (k_heap k) (k_counter k) false (Some (new idle)) (k_cpu k) (k_out k)).

Definition spawned (id priority : Z) : log_record :=
  debug "eira::task::scheduler" (Fmt.bytes "spawned " ++ TaskId_Display id ++ Fmt.bytes " (priority=" ++ decimal priority ++ Fmt.bytes ")").

Definition spawn k (entry priority address_space : Z) : outcome (Z * kernel) :=
  let! '(task, k) := boxed_task k entry priority DEFAULT_STACK_SIZE address_space in
  let! '(_, k) := with_scheduler k (fun s => let! s := enqueue s task in Ret (tt, s)) in
  Ret (id task, say k (spawned (id task) priority)).

(** [s.current.take()] and what becomes of the task: its context is where the
    switch will save. *)
Definition suspend_current s (block_reason : option BlockReason) : outcome (Scheduler.t * Z) :=
  match current s with
  | Some cur =>
      let! cur :=
        match block_reason with
        | Some reason => Task_block cur reason
        | None => Ret (set_state cur Ready)
        end in
      Ret (mk (run_queue s ++ [cur]) None (idle s) (dead s), context cur)
  | None => Ret (mk (run_queue s) None (idle s) (dead s), context (idle s))
  end.

(** The task to run next; its context is what the switch will load. *)
Definition select_next s : Scheduler.t * Z :=
  match pick_next s with
  | (Some next, s) =>
      let next := set_state next Running in
      (mk (run_queue s) (Some next) (idle s) (dead s), context next)
  | (None, s) =>
      let idle := set_state (idle s) Running in
      (mk (run_queue s) (current s) idle (dead s), context idle)
  end.

Definition schedule k (block_reason : option BlockReason) : outcome kernel :=
  let! k := sched_lock k in
  let! s := expect (k_sched k) "scheduler not initialised" in
  let! '(m, heap, s) := reap (k_mem k) (k_heap k) s in
  let! '(s, current_ctx_ptr) := suspend_current s block_reason in
  let '(s, next_ctx_ptr) := select_next s in
  let '(c, m) := X86_64Context.switch_to current_ctx_ptr next_ctx_ptr (k_cpu k, m) in
  Ret (mk_kernel m heap (k_counter k) false (Some s) c (k_out k)).

Definition yield_now k : outcome kernel := schedule k None.
Definition block k (reason : BlockReason) : outcome kernel := schedule k (Some reason).

(** [iter_mut().find(..)] followed by [mark_ready] on what it finds. *)
Fixpoint ready_in_queue (q : list (Task Z)) (task_id : Z) : option (outcome (list (Task Z))) :=
  match q with
  | [] => None
  | task :: q =>
      if id task =? task_id
      then Some (let! task := mark_ready task in Ret (task :: q))
      else (fun o => let! q := o in Ret (task :: q)) <$> ready_in_queue q task_id
  end.

Definition task_is_dead (id : Z) : log_record :=
  warn "eira::task::scheduler" (Fmt.bytes "unblock(" ++ TaskId_Display id ++ Fmt.bytes "): task is dead, ignoring").

Definition unblock k (task_id : Z) : outcome kernel :=
  let! '(warning, k) := with_scheduler k (fun s =>
    match ready_in_queue (run_queue s) task_id with
    | Some o => let! q := o in Ret (None, mk q (current s) (idle s) (dead s))
    | None =>
        if existsb (fun task => id task =? task_id) (dead s)
        then Ret (Some (task_is_dead task_id), s)
        else Panic "unblock: task not found"
    end) in
  Ret (match warning with Some r => say k r | None => k end).

(** The [unreachable!] after [schedule] is what the exiting task would run if
    it were ever switched to again. *)
Definition exit k : outcome kernel :=
  let! '(_, k) := with_scheduler k (fun s =>
    match current s with
    | Some task => Ret (tt, mk (run_queue s) None (idle s) (dead s ++ [kill task]))
    | None => Ret (tt, s)
    end) in
  schedule k None.

End operations.

(** ** Selection *)
Section selection.
Implicit Types (q : list (Task Z)) (s : Scheduler.t) (t u : Task Z).

(** [t] stands first among the runnable tasks of the highest priority. *)
Definition first_best q1 t q2 : Prop :=
  is_runnable t = true /\
  (forall u, u ∈ q1 -> is_runnable u = true -> priority u < priority t) /\
  (forall u, u ∈ q2 -> is_runnable u = true -> priority u <= priority t).

Lemma best_spec q i bi bp :
  (best q i bi bp = bi /\ forall t, t ∈ q -> is_runnable t = true -> priority t <= bp) \/
  exists q1 t q2, q = q1 ++ t :: q2 /\ best q i bi bp = Some (i + length q1)%nat /\
    bp < priority t /\ first_best q1 t q2.
Proof.
  revert i bi bp. induction q as [|t q IH]; intros i bi bp; cbn.
  { left. split; [done|]. by intros t ?%elem_of_nil. }
  unfold Priority.as_u8. destruct (is_runnable t) eqn:Er; cbn [andb].
  - destruct (Z.ltb_spec bp (priority t)) as [Hlt|Hge].
    + right. destruct (IH (S i) (Some i) (priority t)) as [[-> Hle]|(q1 & u & q2 & -> & -> & Hb & Hr & H1 & H2)].
      * exists [], t, q. cbn. split_and!; try done; [f_equal; lia|]. split_and!; [done| |done].
        by intros u ?%elem_of_nil.
      * exists (t :: q1), u, q2. cbn. split_and!; try done; [f_equal; lia|lia|]. split_and!; [done| |done].
        intros v [->|Hv]%elem_of_cons; auto.
    + destruct (IH (S i) bi bp) as [[-> Hle]|(q1 & u & q2 & -> & -> & Hb & Hr & H1 & H2)].
      * left. split; [done|]. intros v [->|Hv]%elem_of_cons; auto.
      * right. exists (t :: q1), u, q2. cbn. split_and!; try done; [f_equal; lia|]. split_and!; [done| |done].
        intros v [->|Hv]%elem_of_cons; auto. intros _. lia.
  - destruct (IH (S i) bi bp) as [[-> Hle]|(q1 & u & q2 & -> & -> & Hb & Hr & H1 & H2)].
    + left. split; [done|]. intros v [->|Hv]%elem_of_cons; [congruence|auto].
    + right. exists (t :: q1), u, q2. cbn. split_and!; try done; [f_equal; lia|]. split_and!; [done| |done].
      intros v [->|Hv]%elem_of_cons; [congruence|auto].
Qed.

Lemma pick_next_spec s :
  (pick_next s = (None, s) /\ forall t, t ∈ run_queue s -> is_runnable t = true -> priority t <= 0) \/
  exists q1 t q2, run_queue s = q1 ++ t :: q2 /\ 0 < priority t /\ first_best q1 t q2 /\
    pick_next s = (Some t, mk (q1 ++ q2) (current s) (idle s) (dead s)).
Proof.
  unfold pick_next. destruct (best_spec (run_queue s) 0 None 0) as [[-> Hle]|(q1 & t & q2 & Eq & -> & Hp & Hb)].
  { by left. }
  right. exists q1, t, q2. split_and!; try done. unfold remove. rewrite Eq. cbn [Nat.add].
  rewrite list_lookup_middle, delete_middle by done. done.
Qed.

(** What [select_next] does to the scheduler, by the outcome of the scan. *)
Lemma select_next_spec s :
  (select_next s = (mk (run_queue s) (current s) (set_state (idle s) Running) (dead s), context (idle s)) /\
   forall t, t ∈ run_queue s -> is_runnable t = true -> priority t <= 0) \/
  exists q1 t q2, run_queue s = q1 ++ t :: q2 /\ 0 < priority t /\ first_best q1 t q2 /\
    select_next s = (mk (q1 ++ q2) (Some (set_state t Running)) (idle s) (dead s), context t).
Proof.
  unfold select_next. destruct (pick_next_spec s) as [[-> Hle]|(q1 & t & q2 & Eq & Hp & Hb & ->)].
  - by left.
  - right. by exists q1, t, q2.
Qed.

(** C20: [pick_next] implements priority-aware FIFO selection.  When it picks a
    task, the task is runnable, no runnable task of the queue has a higher
    priority, every runnable task ahead of it has a strictly lower one (the
    oldest of the best wins), and the queue loses exactly that task, keeping its
    order.  When it picks nothing the scheduler is unchanged and no runnable
    task has a priority above zero. *)
Theorem pick_next_correct s :
  match pick_next s with
  | (Some t, s') => exists q1 q2,
      run_queue s = q1 ++ t :: q2 /\ s' = mk (q1 ++ q2) (current s) (idle s) (dead s) /\
      is_runnable t = true /\
      (forall u, u ∈ run_queue s -> is_runnable u = true -> priority u <= priority t) /\
      (forall u, u ∈ q1 -> is_runnable u = true -> priority u < priority t)
  | (None, s') => s' = s /\ forall u, u ∈ run_queue s -> is_runnable u = true -> priority u <= 0
  end.
Proof.
  destruct (pick_next_spec s) as [[-> Hle]|(q1 & t & q2 & Eq & Hp & (Hr & H1 & H2) & ->)]; [done|].
  exists q1, q2. split_and!; try done. intros u. rewrite Eq, elem_of_app, elem_of_cons.
  intros [Hu|[->|Hu]] Hru; [|done|by apply H2]. specialize (H1 u Hu Hru). lia.
Qed.

End selection.

(** ** One scheduling decision *)
#[local] Arguments X86_64Context.switch_to : simpl never.
#[local] Opaque X86_64Context.switch_to.

Section decision.
Context `{TaskLayout}.
Implicit Types (k : kernel) (s : Scheduler.t) (t u : Task Z) (r : option BlockReason).

(** The state a suspended task is left in. *)
Definition parked_state r : TaskState := match r with Some b => Blocked b | None => Ready end.

(** The queue once the current task has been put back. *)
Definition parked s r : list (Task Z) :=
  run_queue s ++ match current s with Some t => [set_state t (parked_state r)] | None => [] end.

(** The context of the executing task; with no current task it is the boot
    thread or an exiting task, and the idle task's context is used. *)
Definition running_ctx s : Z := match current s with Some t => context t | None => context (idle s) end.

Definition may_suspend s r : bool :=
  match current s, r with Some t, Some _ => bool_decide (state t = Running) | _, _ => true end.

Lemma schedule_eq k s r :
  k_sched k = Some s -> k_locked k = false ->
  schedule k r =
    let! '(m, heap) := drop_all (k_mem k) (k_heap k) (dead s) in
    let! _ := assert_ (may_suspend s r) "block() called on non-running task" in
    let '(s', next) := select_next (mk (parked s r) None (idle s) []) in
    let '(c, m) := X86_64Context.switch_to (running_ctx s) next (k_cpu k, m) in
    Ret (mk_kernel m heap (k_counter k) false (Some s') c (k_out k)).
Proof.
  intros Es El. unfold schedule, sched_lock. rewrite El. cbn [obind k_sched]. rewrite Es. cbn [expect obind].
  unfold reap, suspend_current, parked, running_ctx, may_suspend, Task_block. cbn [k_mem k_heap k_counter k_cpu].
  destruct (drop_all _ _ _) as [[m h]| |]; cbn [obind]; try reflexivity. cbn [current run_queue idle dead].
  destruct (current s) as [t|]; [|by rewrite app_nil_r]. destruct r as [b|]; [|done].
  by destruct (assert_ _ _).
Qed.

Lemma schedule_inv k r k' :
  schedule k r = Ret k' ->
  exists s m s' next c' m',
    k_sched k = Some s /\ k_locked k = false /\
    drop_all (k_mem k) (k_heap k) (dead s) = Ret (m, k_heap k') /\ may_suspend s r = true /\
    select_next (mk (parked s r) None (idle s) []) = (s', next) /\
    X86_64Context.switch_to (running_ctx s) next (k_cpu k, m) = (c', m') /\
    k' = mk_kernel m' (k_heap k') (k_counter k) false (Some s') c' (k_out k).
Proof.
  intros E. destruct (k_locked k) eqn:El; [by unfold schedule, sched_lock in E; rewrite El in E|].
  destruct (k_sched k) as [s|] eqn:Es.
  2:{ unfold schedule, sched_lock in E. rewrite El in E. cbn in E. by rewrite Es in E. }
  rewrite (schedule_eq k s r Es El) in E. ret_inv. destruct v as [m h]. ret_inv.
  destruct (select_next _) as [s' next] eqn:Esel. destruct (X86_64Context.switch_to _ _ _) as [c' m'] eqn:Esw.
  ret_inv. subst k'. exists s, m, s', next, c', m'. by split_and!.
Qed.

(** The tasks the scheduler owns. *)
Definition all_tasks s : list (Task Z) :=
  run_queue s ++ option_list (current s) ++ [idle s] ++ dead s.

Lemma select_next_ids s s' next :
  select_next s = (s', next) -> current s = None -> id <$> all_tasks s' ≡ₚ id <$> all_tasks s.
Proof.
  unfold all_tasks. intros E Hc.
  destruct (select_next_spec s) as [[Es _]|(q1 & t & q2 & Eq & _ & _ & Es)]; rewrite Es in E; simplify_eq; cbn.
  - by rewrite !fmap_app.
  - rewrite Eq, Hc. cbn. rewrite !fmap_app. cbn. solve_Permutation.
Qed.

Lemma idle_in_all s : idle s ∈ all_tasks s.
Proof. unfold all_tasks. rewrite !elem_of_app. right. right. left. apply list_elem_of_singleton. done. Qed.

Lemma parked_ids s r :
  id <$> all_tasks (mk (parked s r) None (idle s) []) ++ dead s ≡ₚ id <$> all_tasks s.
Proof. unfold all_tasks, parked. cbn. destruct (current s); cbn; rewrite !fmap_app; cbn; solve_Permutation. Qed.

End decision.

(** ** Runs of the scheduler *)
Section runs.
Context `{TaskLayout} (idle_task : Z).
Implicit Types (k : kernel) (s : Scheduler.t) (t u : Task Z) (r : option BlockReason).

(** The calls a task can make. *)
Inductive op :=
| OpSpawn (entry priority address_space : Z)
| OpYield
| OpBlock (reason : BlockReason)
| OpUnblock (task_id : Z)
| OpExit.

Definition run_op k (o : op) : outcome kernel :=
  match o with
  | OpSpawn entry priority address_space => let! '(_, k) := spawn k entry priority address_space in Ret k
  | OpYield => yield_now k
  | OpBlock reason => block k reason
  | OpUnblock task_id => unblock k task_id
  | OpExit => exit k
  end.

(** Task code running: it changes memory, heap and registers, and reaches the
    scheduler only through its operations. *)
Definition ran k k' : Prop :=
  k_sched k' = k_sched k /\ k_counter k' = k_counter k /\ k_locked k' = k_locked k.

(** The ids last: fewer than 2^64 tasks are ever created. *)
Inductive step (allowed : op -> Prop) : kernel -> kernel -> Prop :=
| step_op k o k' : allowed o -> k_counter k + 1 < W64 -> run_op k o = Ret k' -> step allowed k k'
| step_run k k' : ran k k' -> step allowed k k'.

(** States of the tasks by the place they are in, and unique ids. *)
Record policy s (n : Z) : Prop := {
  policy_ids : NoDup (id <$> all_tasks s);
  policy_fresh : forall t, t ∈ all_tasks s -> 1 <= id t < n;
  policy_current : forall t, current s = Some t -> state t = Running;
  policy_queue : forall t, t ∈ run_queue s -> state t = Ready \/ exists b, state t = Blocked b;
  policy_idle : state (idle s) = Created \/ state (idle s) = Running;
}.

Definition policy_ok k : Prop :=
  k_locked k = false /\ exists s, k_sched k = Some s /\ dead s = [] /\ policy s (k_counter k).

Lemma fresh_ids (l : list (Task Z)) n :
  (forall t, t ∈ l -> 1 <= id t < n) <-> (forall i, i ∈ id <$> l -> 1 <= i < n).
Proof. setoid_rewrite list_elem_of_fmap. naive_solver. Qed.

Lemma policy_select s r n s' next :
  policy s n -> select_next (mk (parked s r) None (idle s) []) = (s', next) ->
  policy s' n /\ dead s' = [].
Proof.
  intros [Hid Hf Hc Hq Hi] E.
  pose proof (select_next_ids _ _ _ E eq_refl) as Hperm. pose proof (parked_ids s r) as Hp2.
  rewrite fmap_app in Hp2.
  assert (Hpq : forall t, t ∈ parked s r -> state t = Ready \/ exists b, state t = Blocked b).
  { unfold parked. intros t [Ht|Ht]%elem_of_app; [by apply Hq|]. destruct (current s); [|by apply elem_of_nil in Ht].
    apply list_elem_of_singleton in Ht as ->. destruct r; cbn; eauto. }
  assert (Hids : NoDup (id <$> all_tasks s') /\ forall t, t ∈ all_tasks s' -> 1 <= id t < n).
  { rewrite fresh_ids, Hperm. rewrite fresh_ids in Hf. setoid_rewrite Hperm. rewrite <- Hp2 in Hid.
    apply NoDup_app in Hid as [Hid _]. split; [done|]. intros i Hi'. apply Hf. rewrite <- Hp2. apply elem_of_app. by left. }
  destruct Hids. destruct (select_next_spec (mk (parked s r) None (idle s) []))
    as [[Es _]|(q1 & t & q2 & Eq & _ & _ & Es)]; rewrite Es in E; simplify_eq; cbn in *.
  - split; [|done]. split; cbn; try done. by right.
  - split; [|done]. split; cbn; try done; [by intros u [= <-]|].
    intros u Hu. apply Hpq. rewrite Eq. set_solver.
Qed.

Lemma policy_schedule k r k' s :
  k_sched k = Some s -> policy s (k_counter k) -> schedule k r = Ret k' -> policy_ok k'.
Proof.
  intros Es Hp E. destruct (schedule_inv _ _ _ E) as (s0 & m & s' & nx & c' & m' & Es0 & _ & _ & _ & Esel & _ & ->).
  rewrite Es in Es0. injection Es0 as <-. split; [done|]. exists s'.
  destruct (policy_select _ _ _ _ _ Hp Esel). by split_and!.
Qed.

Lemma boxed_task_inv k entry prio size asp t k' :
  boxed_task k entry prio size asp = Ret (t, k') ->
  id t = k_counter k /\ state t = Created /\ priority t = prio /\
  k_counter k' = (k_counter k + 1) mod W64 /\ k_locked k' = k_locked k /\ k_sched k' = k_sched k /\
  k_cpu k' = k_cpu k.
Proof.
  unfold boxed_task. intros E. ret_inv. destruct v as [[[[t0 m0] h0] n0] o0]. ret_inv.
  destruct v as [[t1 m1] h1]. ret_inv. simplify_eq. unfold Task_new in E0. ret_inv.
  destruct v as [[st m2] h2]. ret_inv. destruct (X86_64Context.new _ _ _). cbn in E0. simplify_eq.
  clear v E2. unfold Box_new in E1. ret_inv. destruct v as [[p m3] h3]. ret_inv. simplify_eq. done.
Qed.

Lemma with_scheduler_inv {R} k (f : Scheduler.t -> outcome (R * Scheduler.t)) v k' :
  with_scheduler k f = Ret (v, k') ->
  exists s s', k_locked k = false /\ k_sched k = Some s /\ f s = Ret (v, s') /\
    k' = mk_kernel (k_mem k) (k_heap k) (k_counter k) false (Some s') (k_cpu k) (k_out k).
Proof.
  unfold with_scheduler, sched_lock. destruct (k_locked k); cbn; [done|]. intros E. ret_inv.
  destruct v1 as [r s']. ret_inv. simplify_eq. exists v0, s'. done.
Qed.

Lemma spawn_inv k entry prio asp i k' :
  spawn k entry prio asp = Ret (i, k') ->
  exists s t, k_locked k = false /\ k_sched k = Some s /\ i = k_counter k /\ id t = i /\ state t = Ready /\
    priority t = prio /\
    k_sched k' = Some (mk (run_queue s ++ [t]) (current s) (idle s) (dead s)) /\
    k_counter k' = (k_counter k + 1) mod W64 /\ k_locked k' = false /\ k_cpu k' = k_cpu k.
Proof.
  unfold spawn. intros E. ret_inv. destruct v as [t k1]. ret_inv. destruct v as [[] k2]. ret_inv. simplify_eq.
  apply with_scheduler_inv in E1 as (s & s' & Hl & Hs & Ef & ->).
  apply boxed_task_inv in E0 as (Hi & Hst & Hpr & Hn & Hl1 & Hs1 & Hc).
  unfold enqueue, mark_ready in Ef. rewrite Hst in Ef. cbn in Ef. simplify_eq.
  exists s, (set_state t Ready). cbn. rewrite <- Hl1, <- Hs1. by split_and!.
Qed.

Lemma ready_in_queue_inv q i o :
  ready_in_queue q i = Some o ->
  exists q1 t q2, q = q1 ++ t :: q2 /\ id t = i /\ (forall u, u ∈ q1 -> id u <> i) /\
    o = (let! t := mark_ready t in Ret (q1 ++ t :: q2)).
Proof.
  revert o. induction q as [|t q IH]; intros o; cbn; [done|].
  destruct (Z.eqb_spec (id t) i) as [Hi|Hne].
  - intros [= <-]. exists [], t, q. split_and!; try done. by intros u ?%elem_of_nil.
  - destruct (ready_in_queue q i) as [o'|] eqn:E; [|done]. cbn. intros [= <-].
    destruct (IH o' eq_refl) as (q1 & u & q2 & -> & Hu & Hq1 & ->).
    exists (t :: q1), u, q2. split_and!; try done.
    + intros v [->|Hv]%elem_of_cons; auto.
    + unfold mark_ready. by destruct (assert_ _ _).
Qed.

Lemma unblock_inv k i k' :
  unblock k i = Ret k' ->
  exists s, k_locked k = false /\ k_sched k = Some s /\
    ((exists q1 t q2, run_queue s = q1 ++ t :: q2 /\ id t = i /\ state t <> Running /\ state t <> Dead /\
        (forall u, u ∈ q1 -> id u <> i) /\
        k' = mk_kernel (k_mem k) (k_heap k) (k_counter k) false
               (Some (mk (q1 ++ set_state t Ready :: q2) (current s) (idle s) (dead s))) (k_cpu k) (k_out k)) \/
     ((exists t, t ∈ dead s /\ id t = i) /\
        k' = say (mk_kernel (k_mem k) (k_heap k) (k_counter k) false (Some s) (k_cpu k) (k_out k)) (task_is_dead i))).
Proof.
  unfold unblock. intros E. ret_inv. destruct v as [v k1]. ret_inv. subst k'.
  apply with_scheduler_inv in E0 as (s & s' & Hl & Hs & Ef & ->). exists s. split_and!; try done.
  destruct (ready_in_queue _ _) as [o|] eqn:Eq.
  - left. apply ready_in_queue_inv in Eq as (q1 & t & q2 & Eq & Hi & Hq1 & ->). ret_inv. simplify_eq.
    unfold mark_ready in *. ret_inv. subst. exists q1, t, q2. split_and!; try done; intros Hst; by rewrite Hst in *.
  - right. destruct (existsb _ _) eqn:Ex; [|done]. simplify_eq. split; [|done].
    apply existsb_exists in Ex as (t & Ht & Hi%Z.eqb_eq). exists t. by rewrite list_elem_of_In.
Qed.

Lemma policy_step allowed k k' : step allowed k k' -> policy_ok k -> policy_ok k'.
Proof.
  intros [k0 o k1 _ Hn E|k0 k1 (Es & En & El)] (Hl & s & Hs & Hd & Hp).
  2:{ split; [by rewrite El|]. exists s. rewrite Es, En. by split_and!. }
  destruct o as [entry prio asp| |b|i|]; cbn in E.
  - ret_inv. destruct v as [i k2]. ret_inv. subst k2.
    apply spawn_inv in E0 as (s0 & t & _ & Hs0 & -> & Hi & Hst & _ & Hs' & Hn' & Hl' & _).
    rewrite Hs in Hs0. injection Hs0 as <-.
    destruct Hp as [Hid Hf Hc Hq Hidle].
    assert (Hpos : 1 <= k_counter k0). { specialize (Hf _ (idle_in_all s)). lia. }
    assert (Hperm : all_tasks (mk (run_queue s ++ [t]) (current s) (idle s) (dead s)) ≡ₚ t :: all_tasks s)
      by (unfold all_tasks; cbn; rewrite <- app_assoc; cbn; symmetry; apply Permutation_middle).
    split; [done|]. eexists. split_and!; [exact Hs'|done|]. rewrite Hn', Z.mod_small by lia. split; cbn.
    + rewrite Hperm. cbn. apply NoDup_cons. split; [|done]. rewrite Hi.
      intros (u & Hu & Hu')%list_elem_of_fmap. specialize (Hf u Hu'). lia.
    + intros u. rewrite Hperm. intros [->|Hu]%elem_of_cons; [lia|]. specialize (Hf u Hu). lia.
    + done.
    + intros u [Hu| ->%list_elem_of_singleton]%elem_of_app; auto.
    + done.
  - by eapply policy_schedule.
  - by eapply policy_schedule.
  - apply unblock_inv in E as (s0 & _ & Hs0 & [(q1 & t & q2 & Eq & Hi & _ & _ & _ & ->)|[_ ->]]);
      rewrite Hs in Hs0; injection Hs0 as <-; (split; [done|]); eexists; (split_and!; [done|done|]); [|done].
    destruct Hp as [Hid Hf Hc Hq Hidle].
    assert (Hsame : id <$> all_tasks (mk (q1 ++ set_state t Ready :: q2) (current s) (idle s) (dead s)) = id <$> all_tasks s).
    { unfold all_tasks. cbn. rewrite Eq. by rewrite !fmap_app, !fmap_cons. }
    split; try done.
    + by rewrite Hsame.
    + apply fresh_ids. rewrite Hsame. by apply fresh_ids.
    + cbn. rewrite Eq in Hq. intros u [Hu|[->|Hu]%elem_of_cons]%elem_of_app; [|by left|]; apply Hq; set_solver.
  - unfold exit in E. ret_inv. destruct v as [[] k2].
    apply with_scheduler_inv in E0 as (s0 & s1 & _ & Hs0 & Ef & ->). rewrite Hs in Hs0. injection Hs0 as <-.
    eapply (policy_schedule _ _ _ s1); [|  |exact E]; [reflexivity|]. cbn [k_counter]. destruct (current s) as [t|] eqn:Hc; simplify_eq; [|done].
    destruct Hp as [Hid Hf Hc' Hq Hidle].
    assert (Hperm : id <$> all_tasks (mk (run_queue s) None (idle s) (dead s ++ [kill t])) ≡ₚ id <$> all_tasks s).
    { unfold all_tasks. rewrite Hc. cbn. rewrite !fmap_app. cbn. rewrite !fmap_app. cbn. solve_Permutation. }
    split; try done.
    + by rewrite Hperm.
    + apply fresh_ids. setoid_rewrite Hperm. by apply fresh_ids.
Qed.

Lemma policy_steps allowed k k' : rtc (step allowed) k k' -> policy_ok k -> policy_ok k'.
Proof. induction 1; eauto using policy_step. Qed.

Lemma policy_init k asp k' :
  k_sched k = None -> 1 <= k_counter k -> k_counter k + 1 < W64 -> init idle_task k asp = Ret k' ->
  policy_ok k' /\ exists t, k_sched k' = Some (new t) /\ id t = k_counter k.
Proof.
  unfold init, sched_lock. intros Hs Hn Hn' E. destruct (k_locked k) eqn:El; cbn in E; [done|]. rewrite Hs in E. cbn in E.
  ret_inv. destruct v as [t k1]. ret_inv. subst k'.
  apply boxed_task_inv in E0 as (Hi & Hst & _ & Hc & _ & _). cbn in Hc.
  split; [|by exists t]. split; [done|]. exists (new t). split_and!; [done|done|]. cbn. rewrite Hc, Z.mod_small by lia.
  split; cbn; try done.
  - apply NoDup_singleton.
  - intros u ->%list_elem_of_singleton. cbn in Hi. lia.
  - by intros u ?%elem_of_nil.
  - by left.
Qed.

End runs.

(** ** Waiting *)
Section waiting.
Context `{TaskLayout}.
Implicit Types (k : kernel) (s : Scheduler.t) (t u : Task Z).

Lemma select_keeps s s' next t :
  select_next s = (s', next) -> t ∈ run_queue s -> ~ (is_runnable t = true /\ 0 < priority t) -> t ∈ run_queue s'.
Proof.
  intros E Ht Hw. destruct (select_next_spec s) as [[Es _]|(q1 & u & q2 & Eq & Hp & Hb & Es)];
    rewrite Es in E; injection E as <- _; cbn [run_queue]; [done|].
  rewrite Eq in Ht. rewrite elem_of_app, elem_of_cons in Ht. rewrite elem_of_app.
  destruct Ht as [?|[->|?]]; auto. destruct Hw. split; [apply Hb|done].
Qed.

Lemma schedule_keeps k r k' s t :
  schedule k r = Ret k' -> k_sched k = Some s -> t ∈ run_queue s ->
  ~ (is_runnable t = true /\ 0 < priority t) ->
  exists s', k_sched k' = Some s' /\ t ∈ run_queue s'.
Proof.
  intros E Es Ht Hw.
  destruct (schedule_inv _ _ _ E) as (s0 & m & s' & nx & c' & m' & Es0 & _ & _ & _ & Esel & _ & ->).
  rewrite Es in Es0. injection Es0 as <-. exists s'. split; [done|].
  eapply select_keeps; [exact Esel| |done]. cbn. unfold parked. apply elem_of_app. by left.
Qed.

(** A queued task that cannot be picked leaves its place only by [unblock]. *)
Lemma waits_step allowed k k' s t :
  step allowed k k' -> k_sched k = Some s -> t ∈ run_queue s -> ~ (is_runnable t = true /\ 0 < priority t) ->
  exists s', k_sched k' = Some s' /\
    (t ∈ run_queue s' \/ (allowed (OpUnblock (id t)) /\ set_state t Ready ∈ run_queue s')).
Proof.
  intros [k0 o k1 Ho _ E|k0 k1 (Es & _)] Hs Ht Hw; [|exists s; rewrite Es; auto].
  destruct o as [entry prio asp| |b|i|]; cbn in E.
  - ret_inv. destruct v as [i k2]. ret_inv. subst k2.
    apply spawn_inv in E0 as (s0 & u & _ & Hs0 & _ & _ & _ & _ & Hs' & _). rewrite Hs in Hs0. injection Hs0 as <-.
    eexists. split; [exact Hs'|]. left. cbn. apply elem_of_app. by left.
  - destruct (schedule_keeps _ _ _ _ _ E Hs Ht Hw) as (s' & ? & ?). eauto.
  - destruct (schedule_keeps _ _ _ _ _ E Hs Ht Hw) as (s' & ? & ?). eauto.
  - apply unblock_inv in E as (s0 & _ & Hs0 & [(q1 & u & q2 & Eq & Hi & _ & _ & _ & ->)|[_ ->]]);
      rewrite Hs in Hs0; injection Hs0 as <-; [|exists s; auto].
    eexists. split; [reflexivity|]. cbn. rewrite Eq in Ht. rewrite !elem_of_app, !elem_of_cons in *.
    destruct Ht as [?|[->|?]]; auto. right. rewrite Hi. auto.
  - unfold exit in E. ret_inv. destruct v as [[] k2].
    apply with_scheduler_inv in E0 as (s0 & s1 & _ & Hs0 & Ef & ->). rewrite Hs in Hs0. injection Hs0 as <-.
    assert (run_queue s1 = run_queue s) as Hq by (destruct (current s); by simplify_eq).
    destruct (schedule_keeps _ _ _ s1 t E) as (s' & ? & ?); [done|by rewrite Hq|done|]. eauto.
Qed.

(** ** Rotation *)

(** The runnable tasks of priority [p], in queue order. *)
Definition level (p : Z) s : list (Task Z) :=
  filter (fun t => is_runnable t = true /\ priority t = p) (run_queue s).

(** A task of priority [p] runs and no runnable task has a higher one. *)
Record top_level (p : Z) k (c : Task Z) (ts : list (Task Z)) : Prop := {
  top_unlocked : k_locked k = false;
  top_sched : exists s, k_sched k = Some s /\ dead s = [] /\ current s = Some c /\ level p s = ts /\
                forall u, u ∈ run_queue s -> is_runnable u = true -> priority u <= p;
  top_priority : priority c = p;
}.

(** A task runs for a while and then yields. *)
Definition turn k k' : Prop := exists k1, ran k k1 /\ yield_now k1 = Ret k'.

Lemma level_first p q1 t q2 :
  priority t = p -> first_best q1 t q2 ->
  filter (fun t => is_runnable t = true /\ priority t = p) (q1 ++ t :: q2)
  = t :: filter (fun t => is_runnable t = true /\ priority t = p) (q1 ++ q2).
Proof.
  intros Hp (Hr & H1 & _). rewrite !filter_app, filter_cons_True by done.
  assert (E : filter (fun t => is_runnable t = true /\ priority t = p) q1 = []); [|by rewrite E].
  apply elem_of_nil_inv. intros u [[Hru Hpu] Hu]%list_elem_of_filter. specialize (H1 u Hu Hru). lia.
Qed.

Lemma yield_rotates p k c ts :
  0 < p -> top_level p k c ts ->
  exists h rest k', ts ++ [set_state c Ready] = h :: rest /\
    yield_now k = Ret k' /\ top_level p k' (set_state h Running) rest.
Proof.
  intros Hp [Hl (s & Hs & Hd & Hc & Hlev & Hle) Hpc].
  unfold yield_now. rewrite (schedule_eq k s None Hs Hl), Hd. cbn [drop_all obind].
  unfold may_suspend. rewrite Hc. cbn [assert_ obind].
  set (s1 := mk (parked s None) None (idle s) []).
  assert (Eq : run_queue s1 = run_queue s ++ [set_state c Ready]) by (cbn; unfold parked; by rewrite Hc).
  assert (Hle1 : forall u, u ∈ run_queue s1 -> is_runnable u = true -> priority u <= p).
  { rewrite Eq. intros u [Hu| ->%list_elem_of_singleton]%elem_of_app; [by apply Hle|]. cbn. lia. }
  assert (Hin : set_state c Ready ∈ run_queue s1) by (rewrite Eq; apply elem_of_app; right; by apply list_elem_of_singleton).
  assert (Hlev1 : level p s1 = ts ++ [set_state c Ready]).
  { unfold level. rewrite Eq, filter_app. f_equal; [done|]. by rewrite filter_cons_True. }
  destruct (select_next_spec s1) as [[_ Hno]|(q1 & t & q2 & Eq1 & Ht & Hb & ->)].
  { specialize (Hno _ Hin eq_refl). cbn in Hno. lia. }
  assert (Hpt : priority t = p).
  { pose proof Hb as (Hr & H1 & H2). apply Z.le_antisymm; [apply Hle1; [rewrite Eq1; set_solver|done]|].
    rewrite Eq1 in Hin. apply elem_of_app in Hin as [Hin|[Heq|Hin]%elem_of_cons].
    - specialize (H1 _ Hin eq_refl). cbn in H1. lia.
    - rewrite <- Heq. cbn. lia.
    - specialize (H2 _ Hin eq_refl). cbn in H2. lia. }
  destruct (X86_64Context.switch_to _ _ _) as [c' m'].
  eexists t, _, _. split_and!; [|reflexivity|].
  - rewrite <- Hlev1. unfold level. rewrite Eq1. by apply level_first.
  - split; [done| |done]. eexists. split_and!; try reflexivity. cbn.
    intros u Hu. apply Hle1. rewrite Eq1. set_solver.
Qed.

Lemma top_level_ran p k k' c ts : top_level p k c ts -> ran k k' -> top_level p k' c ts.
Proof. intros [Hl Hs Hc] (Es & _ & El). split; [congruence|by rewrite Es|done]. Qed.

Lemma turn_rotates p k c ts k' :
  0 < p -> top_level p k c ts -> turn k k' ->
  exists h rest, ts ++ [set_state c Ready] = h :: rest /\ top_level p k' (set_state h Running) rest.
Proof.
  intros Hp Ht (k1 & Hr & E). destruct (yield_rotates p k1 c ts Hp) as (h & rest & k2 & ? & E' & ?);
    [by eapply top_level_ran|]. rewrite E in E'. simplify_eq. eauto.
Qed.

(** ** Waiting in the queue, whatever the tasks call *)

Definition switches (o : op) : bool := match o with OpYield | OpBlock _ | OpExit => true | OpSpawn _ _ _ | OpUnblock _ => false end.

(** Any activity of a task, up to and with the call that gives the CPU away; no
    task of a priority above [p] gets it. *)
Definition busy_turn (p : Z) k k' : Prop := exists k1 o,
  rtc (step (fun o => switches o = false)) k k1 /\ switches o = true /\ run_op k1 o = Ret k' /\
  forall s' u, k_sched k' = Some s' -> current s' = Some u -> priority u <= p.

(** Nothing but a switch moves a ready task from its place. *)
Lemma place_step k k' s i t :
  step (fun o => switches o = false) k k' -> k_sched k = Some s -> run_queue s !! i = Some t -> state t = Ready ->
  exists s', k_sched k' = Some s' /\ run_queue s' !! i = Some t.
Proof.
  intros [k0 o k1 Ho _ E|k0 k1 (Es & _)] Hs Ht Hst; [|exists s; by rewrite Es].
  destruct o as [entry prio asp| | |i'|]; try done; cbn in E.
  - ret_inv. destruct v as [j k2]. ret_inv. subst k2.
    apply spawn_inv in E0 as (s0 & u & _ & Hs0 & _ & _ & _ & _ & Hs' & _). rewrite Hs in Hs0. injection Hs0 as <-.
    eexists. split; [exact Hs'|]. cbn. by apply lookup_app_l_Some.
  - apply unblock_inv in E as (s0 & _ & Hs0 & [(q1 & u & q2 & Eq & _ & _ & _ & _ & ->)|[_ ->]]);
      rewrite Hs in Hs0; injection Hs0 as <-; [|by exists s].
    eexists. split; [reflexivity|]. cbn. rewrite Eq in Ht.
    destruct (Nat.lt_trichotomy i (length q1)) as [Hi|[->|Hi]].
    + rewrite lookup_app_l in Ht by done. by rewrite lookup_app_l.
    + rewrite list_lookup_middle in Ht by done. injection Ht as ->. rewrite list_lookup_middle by done. rewrite <- Hst. by destruct t.
    + rewrite lookup_app_r in Ht by lia. rewrite lookup_app_r by lia. destruct (i - length q1)%nat eqn:Ei; [lia|]. done.
Qed.

(** A switch picks the task or brings it forward. *)
Lemma place_select s s' next i t :
  select_next s = (s', next) -> run_queue s !! i = Some t -> is_runnable t = true -> 0 < priority t ->
  (forall u, current s' = Some u -> priority u <= priority t) ->
  current s' = Some (set_state t Running) \/ exists j, (j < i)%nat /\ run_queue s' !! j = Some t.
Proof.
  intros E Ht Hr Hp Hle. destruct (select_next_spec s) as [[_ Hno]|(q1 & u & q2 & Eq & _ & (_ & H1 & _) & Es)].
  { specialize (Hno t ltac:(by eapply list_elem_of_lookup_2) Hr). lia. }
  rewrite Es in E. injection E as <- _. cbn [current run_queue] in *. specialize (Hle _ eq_refl). cbn in Hle. rewrite Eq in Ht.
  destruct (Nat.lt_trichotomy i (length q1)) as [Hi|[->|Hi]].
  - rewrite lookup_app_l in Ht by done. specialize (H1 t ltac:(by eapply list_elem_of_lookup_2) Hr). lia.
  - rewrite list_lookup_middle in Ht by done. injection Ht as ->. by left.
  - right. exists (i - 1)%nat. split; [lia|]. rewrite lookup_app_r in Ht by lia. rewrite lookup_app_r by lia.
    replace (i - length q1)%nat with (S (i - 1 - length q1)) in Ht by lia. done.
Qed.

Lemma place_schedule k r k' s i t :
  schedule k r = Ret k' -> k_sched k = Some s -> run_queue s !! i = Some t -> is_runnable t = true -> 0 < priority t ->
  (forall s' u, k_sched k' = Some s' -> current s' = Some u -> priority u <= priority t) ->
  exists s', k_sched k' = Some s' /\
    (current s' = Some (set_state t Running) \/ exists j, (j < i)%nat /\ run_queue s' !! j = Some t).
Proof.
  intros E Es Ht Hr Hp Hle. destruct (schedule_inv _ _ _ E) as (s0 & m & s' & nx & c' & m' & Es0 & _ & _ & _ & Esel & _ & Ek).
  rewrite Es in Es0. injection Es0 as <-. exists s'. split; [by rewrite Ek|].
  apply (place_select _ _ _ i t Esel); [|done|done|intros u Hu; apply (Hle s' u); [by rewrite Ek|exact Hu]].
  cbn. unfold parked. by apply lookup_app_l_Some.
Qed.

Lemma place_turn p k k' s i t :
  busy_turn p k k' -> k_sched k = Some s -> run_queue s !! i = Some t -> state t = Ready -> priority t = p -> 0 < p ->
  exists s', k_sched k' = Some s' /\
    (current s' = Some (set_state t Running) \/ exists j, (j < i)%nat /\ run_queue s' !! j = Some t).
Proof.
  intros (k1 & o & Hr & Ho & E & Hle) Hs Ht Hst <- Hp.
  assert (Hr1 : is_runnable t = true) by (unfold is_runnable; by rewrite Hst).
  assert (Hk1 : exists s1, k_sched k1 = Some s1 /\ run_queue s1 !! i = Some t).
  { clear E. revert s Hs Ht. induction Hr as [k|k k2 k1 Hstep _ IH]; intros s Hs Ht; [eauto|].
    destruct (place_step _ _ _ _ _ Hstep Hs Ht Hst) as (s2 & Hs2 & Ht2). eauto. }
  destruct Hk1 as (s1 & Hs1 & Ht1). destruct o as [| |b| |]; try done; cbn in E.
  - by eapply place_schedule.
  - by eapply place_schedule.
  - unfold exit in E. ret_inv. destruct v as [[] k2].
    apply with_scheduler_inv in E0 as (s0 & s2 & _ & Hs0 & Ef & ->). rewrite Hs1 in Hs0. injection Hs0 as <-.
    assert (run_queue s2 = run_queue s1) as Hq by (destruct (current s1); by simplify_eq).
    eapply place_schedule; [exact E|reflexivity|by rewrite Hq|done..].
Qed.

(** The [i]th task of the queue runs within [i + 1] switches. *)
Lemma bounded_waiting p i k s t k' :
  0 < p -> k_sched k = Some s -> run_queue s !! i = Some t -> state t = Ready -> priority t = p ->
  nsteps (busy_turn p) (S i) k k' ->
  exists n k1 s1, (1 <= n <= S i)%nat /\ nsteps (busy_turn p) n k k1 /\ nsteps (busy_turn p) (S i - n) k1 k' /\
    k_sched k1 = Some s1 /\ current s1 = Some (set_state t Running).
Proof.
  intros Hp. revert k s k'. induction (lt_wf i) as [i _ IH]. intros k s k' Hs Ht Hst Hpt Hn.
  inversion Hn as [|? ? k1 ? Hk Hrest]; subst.
  destruct (place_turn _ _ _ _ _ _ Hk Hs Ht Hst eq_refl Hp) as (s1 & Hs1 & [Hc|(j & Hj & Ht1)]).
  - exists 1%nat, k1, s1. split_and!; [lia|lia|by apply nsteps_once|by replace (S i - 1)%nat with i by lia|done|done].
  - replace i with (S j + (i - S j))%nat in Hrest by lia. apply nsteps_add_inv in Hrest as (k2 & H12 & H2).
    destruct (IH j Hj k1 s1 k2 Hs1 Ht1 Hst eq_refl H12) as (n & k3 & s3 & Hn3 & H13 & H32 & Hs3 & Hc3).
    exists (S n), k3, s3. split_and!; [lia|lia|by eapply nsteps_l| |done|done].
    replace (S i - S n)%nat with ((S j - n) + (i - S j))%nat by lia. by eapply nsteps_trans.
Qed.

End waiting.

(** ** Virtual CPUs

    [V] gives every task the registers it has, or will have when it runs next.
    The relation [vcpus] says that the machine implements [V]: the CPU holds the
    registers of the executing task, every other context is a saved frame that
    restores its registers, and the memory that holds all this is separate and
    not free. *)
Section vcpus.
Context `{TaskLayout}.
Implicit Types (k : kernel) (s : Scheduler.t) (t u : Task Z) (V : Z -> cpu) (l : list ival).

Definition ctxs s : list Z := context <$> run_queue s ++ option_list (current s) ++ [idle s].

(** The words a task's saved state occupies or will occupy. *)
Definition foot V (ctx w : Z) : Prop := w = ctx \/ in_saved (rsp (V ctx) - 56) w.

Record vcpus k s l (n : Z) V : Prop := {
  vc_sched : k_sched k = Some s;
  vc_unlocked : k_locked k = false;
  vc_dead : dead s = [];
  vc_heap : heap_ok (k_mem k) (k_heap k) l n;
  vc_running : V (running_ctx s) = k_cpu k;
  vc_saved : forall ctx, ctx ∈ ctxs s -> ctx <> running_ctx s -> suspended (k_mem k) ctx (V ctx);
  vc_room : forall ctx, ctx ∈ ctxs s -> can_suspend (V ctx) ctx;
  vc_separate : forall ctx ctx' w, ctx ∈ ctxs s -> ctx' ∈ ctxs s -> ctx <> ctx' -> foot V ctx w -> ~ foot V ctx' w;
  vc_used : forall ctx w, ctx ∈ ctxs s -> foot V ctx w -> ~ covers l w;
  vc_nodup : NoDup (ctxs s);
}.

(** The words of a task's stack, and a task whose stack is nobody else's. *)
Definition in_stack t (w : Z) : Prop :=
  KernelStack.buf (stack t) <= w < KernelStack.buf (stack t) + DEFAULT_STACK_SIZE.

Record home s l V t : Prop := {
  home_free : forall w, in_stack t w -> ~ covers l w;
  home_ctx : ~ in_stack t (context t);
  home_feet : forall ctx w, ctx ∈ ctxs s -> ctx <> context t -> foot V ctx w -> ~ in_stack t w;
  home_range : 0 < KernelStack.buf (stack t) /\ KernelStack.buf (stack t) + DEFAULT_STACK_SIZE < W64;
}.

Lemma running_in_ctxs s : running_ctx s ∈ ctxs s.
Proof.
  unfold running_ctx, ctxs. apply list_elem_of_fmap. destruct (current s) as [t|].
  - exists t. split; [done|]. set_solver.
  - exists (idle s). split; [done|]. set_solver.
Qed.

Lemma home_same s s' l V t st : ctxs s' ≡ₚ ctxs s -> home s l V t -> home s' l V (set_state t st).
Proof. intros Hp [Hf Hc Hft Hr]. split; try done. intros ctx w Hx. apply Hft. by rewrite <- Hp. Qed.

Lemma ctxs_snoc s t : ctxs (mk (run_queue s ++ [t]) (current s) (idle s) []) ≡ₚ context t :: ctxs s.
Proof.
  unfold ctxs. cbn. rewrite <- app_assoc, fmap_app. cbn. rewrite !fmap_app. symmetry. apply Permutation_middle.
Qed.

(** A scheduling decision permutes the contexts and designates one of them. *)
Lemma decision_ctxs s r s' next :
  select_next (mk (parked s r) None (idle s) []) = (s', next) ->
  (ctxs s' ≡ₚ ctxs s) /\ next = running_ctx s' /\ dead s' = [].
Proof.
  intros E. assert (Hp : context <$> parked s r ++ [idle s] ≡ₚ ctxs s).
  { unfold parked, ctxs. destruct (current s); cbn; rewrite !fmap_app; cbn; rewrite ?app_nil_r; by rewrite <- ?app_assoc. }
  destruct (select_next_spec (mk (parked s r) None (idle s) []))
    as [[Es _]|(q1 & t & q2 & Eq & _ & _ & Es)]; rewrite Es in E; injection E as <- <-; split_and!; try done;
    rewrite <- Hp; unfold ctxs; cbn in *; rewrite ?fmap_app; cbn; [done|].
  rewrite Eq, !fmap_app. cbn. solve_Permutation.
Qed.

Lemma suspended_sp m ctx c : suspended m ctx c -> read64 m ctx = rsp c - 56.
Proof. intros [[] _]. lia. Qed.

(** The frame left by a switch, whichever the target. *)
Lemma vcpus_switch k s l n V next :
  vcpus k s l n V -> next ∈ ctxs s ->
  exists m', X86_64Context.switch_to (running_ctx s) next (k_cpu k, k_mem k) = (V next, m') /\
    same_outside (foot V (running_ctx s)) (k_mem k) m' /\
    forall ctx, ctx ∈ ctxs s -> suspended m' ctx (V ctx).
Proof.
  intros Hv Hn. pose proof (running_in_ctxs s) as Hr. set (cur := running_ctx s) in *.
  pose proof (vc_room _ _ _ _ _ Hv _ Hr) as Hroom. rewrite <- (vc_running _ _ _ _ _ Hv). fold cur.
  assert (Hoth : forall m', suspended m' cur (V cur) -> same_outside (foot V cur) (k_mem k) m' ->
            forall ctx, ctx ∈ ctxs s -> suspended m' ctx (V ctx)).
  { intros m' Hc Hs ctx Hctx. destruct (decide (ctx = cur)) as [->|Hne]; [done|].
    pose proof (vc_saved _ _ _ _ _ Hv _ Hctx Hne) as Hsv. eapply suspended_frame; [exact Hsv|].
    rewrite (suspended_sp _ _ _ Hsv). intros w Hw. apply Hs. by eapply (vc_separate _ _ _ _ _ Hv). }
  destruct (decide (next = cur)) as [->|Hne].
  - destruct (switch_to_self (V cur) (k_mem k) cur Hroom) as (m' & E & Hs & _ & Hsame). eauto.
  - pose proof (vc_saved _ _ _ _ _ Hv _ Hn Hne) as Hsv.
    destruct (switch_to_ok (V cur) (k_mem k) cur next (V next) Hroom Hsv) as (m' & E & Hs & _ & _ & Hsame);
      [congruence| |eauto].
    rewrite (suspended_sp _ _ _ Hsv). intros w Hw.
    pose proof (vc_separate _ _ _ _ _ Hv next cur w Hn Hr Hne Hw) as Hno. unfold foot in Hno. tauto.
Qed.

Lemma vcpus_schedule k s l n V r :
  vcpus k s l n V -> may_suspend s r = true ->
  exists k' s', schedule k r = Ret k' /\ vcpus k' s' l n V /\ (ctxs s' ≡ₚ ctxs s) /\
    select_next (mk (parked s r) None (idle s) []) = (s', running_ctx s') /\
    k_counter k' = k_counter k /\ same_outside (foot V (running_ctx s)) (k_mem k) (k_mem k').
Proof.
  intros Hv Hm. pose proof Hv as [Hs Hl Hd Hh Hrun Hsv Hroom Hsep Hused Hnd].
  destruct (select_next (mk (parked s r) None (idle s) [])) as [s' next] eqn:Esel.
  destruct (decision_ctxs _ _ _ _ Esel) as (Hperm & Hnext & Hd').
  assert (Hin : next ∈ ctxs s) by (rewrite <- Hperm, Hnext; apply running_in_ctxs).
  destruct (vcpus_switch _ _ _ _ _ _ Hv Hin) as (m' & Esw & Hsame & Hsus).
  eexists (mk_kernel m' _ _ _ _ _ _), s'. split_and!; [|..|by rewrite Hnext|done|done].
  - rewrite (schedule_eq k s r Hs Hl), Hd. cbn [drop_all obind]. rewrite Hm. cbn [assert_ obind].
    rewrite Esel, Esw. reflexivity.
  - split; try done; cbn; try (setoid_rewrite Hperm; done).
    + destruct Hh as [Hu Hi Hb Hc]. split; try done. eapply inv_frame; [exact Hi|].
      intros w Hw. apply Hsame. intros Hf. by eapply (Hused _ w (running_in_ctxs s)).
    + by rewrite Hnext.
    + intros ctx Hctx _. apply Hsus. by rewrite <- Hperm.
  - done.
Qed.

End vcpus.

(** ** New tasks *)
Section creation.
Context `{TaskLayout}.
Implicit Types (k : kernel) (s : Scheduler.t) (t u : Task Z) (V : Z -> cpu) (l : list ival).

(** The virtual CPU of a task that has not run yet. *)
Definition fresh_cpu (entry : Z) t : cpu := start_state entry (stack_top (stack t)).

(** [V] with one more task. *)
Definition add_vcpu V (ctx : Z) (c : cpu) : Z -> cpu := fun x => if decide (x = ctx) then c else V x.

(** What the stack and the box of a task take from the heap. *)
Definition task_bytes : Z := served_size DEFAULT_STACK_SIZE + served_size task_size.

(** What building a boxed task leaves behind. *)
Record built k l k' l' (n entry : Z) t : Prop := {
  built_heap : heap_ok (k_mem k') (k_heap k') l' n;
  built_same : same_outside (covers l) (k_mem k) (k_mem k');
  built_shrinks : forall x, covers l' x -> covers l x;
  built_suspended : suspended (k_mem k') (context t) (fresh_cpu entry t);
  built_can : can_suspend (fresh_cpu entry t) (context t);
  built_room : forall r, room l r -> task_bytes < r -> room l' (r - task_bytes);
  built_foot : forall w, w = context t \/ in_saved (rsp (fresh_cpu entry t) - 56) w -> covers l w /\ ~ covers l' w;
  built_stack : forall w, in_stack t w -> covers l w /\ ~ covers l' w /\ w <> context t;
  built_range : 0 < KernelStack.buf (stack t) /\ KernelStack.buf (stack t) + DEFAULT_STACK_SIZE < W64;
  built_sp : rsp (fresh_cpu entry t) = KernelStack.buf (stack t) + DEFAULT_STACK_SIZE - 8;
  built_out : k_out k' = k_out k ++ (Printed <$> fresh_lines entry (rsp (fresh_cpu entry t) - 56));
}.

(** A new stack, carved from the free memory. *)
Record placed_stack l l' V t : Prop := {
  ps_stack : forall w, in_stack t w -> covers l w /\ ~ covers l' w /\ w <> context t;
  ps_foot : forall w, foot V (context t) w -> covers l w;
  ps_range : 0 < KernelStack.buf (stack t) /\ KernelStack.buf (stack t) + DEFAULT_STACK_SIZE < W64;
}.

(** Writing into a block that is in use. *)
Lemma heap_ok_frame m m' heap l n :
  heap_ok m heap l n -> (forall w, covers l w -> read64 m' w = read64 m w) -> heap_ok m' heap l n.
Proof. intros [] Hf. split; try done. by eapply inv_frame. Qed.

Lemma boxed_task_ok k l n entry prio asp :
  heap_ok (k_mem k) (k_heap k) l (n + 2) -> 0 <= n ->
  (boxed_task k entry prio DEFAULT_STACK_SIZE asp = Panic "memory allocation failed" /\ ~ room l task_bytes) \/
  exists t k' l', boxed_task k entry prio DEFAULT_STACK_SIZE asp = Ret (t, k') /\ built k l k' l' n entry t.
Proof.
  intros Hh Hn. unfold boxed_task, Task_new, Box_new. pose proof context_in_task as Hoff.
  destruct task_align_ok as [Hpow Hal]. pose proof task_size_ok as Hts.
  destruct (served_size_spec task_size) as (Htb & _); [lia|].
  replace (n + 2) with ((n + 1) + 1) in Hh by lia.
  destruct (stack_new_ok _ _ _ (n + 1) DEFAULT_STACK_SIZE Hh) as [[-> Hno]|(p & m1 & h1 & l1 & -> & Ha1 & _)];
    [lia|by unfold DEFAULT_STACK_SIZE| |].
  { left. split; [done|]. intros (i & Hin & Hr). apply Hno. exists i. split; [done|]. unfold task_bytes in Hr. lia. }
  pose proof Ha1 as [Hh1 Hp Hpa Hpe Hfree Hused Hsh Hs1 Hrm1]. cbn [obind].
  unfold task_bytes in *. set (sb := served_size DEFAULT_STACK_SIZE) in *.
  unfold DEFAULT_STACK_SIZE in *. rewrite top_ok by (done || lia). cbn [obind].
  set (st := KernelStack.mk p (64 * 1024)) in *.
  assert (Htop : stack_top st = p + 65536) by reflexivity. rewrite Htop.
  pose proof (new_output_fresh m1 entry (p + 65536)) as Hout.
  destruct (new_ok m1 entry (p + 65536)) as (m2 & En & Hr & _ & Hs2); [lia|]. rewrite En in *. cbn [TaskId.next obind].
  assert (Hh2 : heap_ok m2 h1 l1 (n + 1)).
  { eapply heap_ok_frame; [exact Hh1|]. intros w Hw. apply Hs2. intros Hx. apply (Hused w); [lia|done]. }
  destruct (global_alloc_ok m2 h1 l1 n task_size task_align Hh2) as [[-> Hno]|(b & m3 & h3 & l3 & -> & Ha3)];
    [lia|lia|done|done| |right].
  { left. split; [done|]. intros Hrr. apply Hno. replace (served_size task_size) with (sb + served_size task_size - sb) by lia.
    apply Hrm1; [done|lia]. }
  destruct Ha3 as [Hh3 Hb Hba Hbe Hbfree Hbused Hbsh Hs3 Hrm3]. cbn [obind X86_64Context.saved_rsp].
  eexists _, _, l3. split; [reflexivity|].
  set (ctx := b + context_offset). set (m4 := write64 m3 ctx _).
  assert (Hctx : covers l1 ctx /\ ~ covers l3 ctx) by (split; [apply Hbfree|apply Hbused]; subst ctx; lia).
  assert (Hst : forall w, p <= w < p + 65536 -> covers l w /\ ~ covers l1 w)
    by (intros w Hw; split; [apply Hfree|apply Hused]; lia).
  assert (Hsame34 : forall w, w <> ctx -> read64 m4 w = read64 m3 w)
    by (intros w Hw; subst m4; apply read_write_ne; congruence).
  assert (Hframe : forall w, p <= w < p + 65536 -> read64 m4 w = read64 m2 w).
  { intros w Hw. rewrite Hsame34; [apply Hs3; by apply Hst|]. intros ->. by apply (proj2 (Hst _ Hw)), Hctx. }
  assert (Hnin : ~ in_saved (p + 65536 - 64) ctx).
  { intros Hx. unfold in_saved in Hx. apply (Hst ctx); [lia|apply Hctx]. }
  split; cbn [k_mem k_heap context]; fold ctx; fold m4.
  - eapply heap_ok_frame; [exact Hh3|]. intros w Hw. apply Hsame34. intros ->. by apply Hctx.
  - intros w Hw. rewrite Hsame34 by (intros ->; by apply Hw, Hsh, Hctx). rewrite Hs3 by (intros Hx; by apply Hw, Hsh).
    rewrite Hs2 by (intros Hx; apply Hw, Hfree; lia). by apply Hs1.
  - intros x Hx. by apply Hsh, Hbsh.
  - unfold fresh_cpu. cbn [stack]. rewrite Htop. unfold suspended.
    replace (read64 m4 ctx) with (p + 65536 - 64) by (subst m4; by rewrite read_write_eq).
    split; [|done]. eapply resumes_frame; [exact Hr|]. intros w Hw. unfold in_saved in Hw. apply Hframe. lia.
  - unfold fresh_cpu, can_suspend, start_state. cbn [stack rsp]. rewrite Htop. split; [lia|].
    by replace (p + 65536 - 8 - 56) with (p + 65536 - 64) by lia.
  - intros r Hrr Hlt. unfold task_bytes, DEFAULT_STACK_SIZE in *. fold sb in Hlt |- *. replace (r - (sb + served_size task_size)) with (r - sb - served_size task_size) by lia.
    apply Hrm3; [|lia]. apply Hrm1; [done|lia].
  - unfold fresh_cpu, start_state. cbn [stack rsp]. rewrite Htop.
    intros w [->|Hw]; [split; [by apply Hsh, Hctx|apply Hctx]|].
    unfold in_saved in Hw. split; [apply Hst; lia|]. intros Hx%Hbsh. apply (Hst w); [lia|done].
  - unfold in_stack. cbn [stack KernelStack.buf st]. intros w Hw. destruct (Hst w Hw) as [Hw1 Hw2].
    split_and!; [done| |intros ->; by apply Hw2, Hctx]. by intros Hx%Hbsh.
  - cbn [stack KernelStack.buf st]. unfold DEFAULT_STACK_SIZE. lia.
  - unfold fresh_cpu, start_state. cbn [stack rsp]. rewrite Htop. reflexivity.
  - unfold fresh_cpu, start_state. cbn [stack rsp k_out]. rewrite Htop. cbn [fst snd] in Hout. cbn [X86_64Context.saved_rsp] in *. rewrite Hout.
    by replace (p + 65536 - 8 - 56) with (p + 65536 - 64) by lia.
Qed.

Lemma add_vcpu_eq V ctx c : add_vcpu V ctx c ctx = c.
Proof. unfold add_vcpu. by case_decide. Qed.

Lemma add_vcpu_ne V ctx c x : x <> ctx -> add_vcpu V ctx c x = V x.
Proof. intros. unfold add_vcpu. by case_decide. Qed.

Lemma foot_add_ne V ctx c x w : x <> ctx -> foot (add_vcpu V ctx c) x w <-> foot V x w.
Proof. intros. unfold foot. by rewrite add_vcpu_ne. Qed.

Lemma vcpus_spawn k s l n V entry prio asp :
  vcpus k s l (n + 2) V -> 0 <= n ->
  (spawn k entry prio asp = Panic "memory allocation failed" /\ ~ room l task_bytes) \/
  exists t k' l', spawn k entry prio asp = Ret (k_counter k, k') /\
    id t = k_counter k /\ state t = Ready /\ priority t = prio /\ k_counter k' = (k_counter k + 1) mod W64 /\
    (forall r, room l r -> task_bytes < r -> room l' (r - task_bytes)) /\
    same_outside (covers l) (k_mem k) (k_mem k') /\ (forall x, covers l' x -> covers l x) /\ covers l (context t) /\
    vcpus k' (mk (run_queue s ++ [t]) (current s) (idle s) []) l' n (add_vcpu V (context t) (fresh_cpu entry t)) /\
    rsp (fresh_cpu entry t) = KernelStack.buf (stack t) + DEFAULT_STACK_SIZE - 8 /\
    k_out k' = k_out k ++ (Printed <$> fresh_lines entry (rsp (fresh_cpu entry t) - 56)) ++ [Logged (spawned (k_counter k) prio)] /\
    placed_stack l l' (add_vcpu V (context t) (fresh_cpu entry t)) t.
Proof.
  intros Hv Hn. pose proof Hv as [Hs Hl Hd Hh Hrun Hsv Hroom Hsep Hused Hnd].
  unfold spawn. destruct (boxed_task_ok k l n entry prio asp Hh Hn) as [[-> Hno]|(t & k1 & l1 & E & Hb)]; [by left|right].
  rewrite E. cbn [obind]. destruct (boxed_task_inv _ _ _ _ _ _ _ E) as (Hi & Hst & Hp & Hc & Hl1 & Hs1 & Hcpu).
  unfold with_scheduler, sched_lock. rewrite Hl1, Hl. cbn [obind k_sched]. rewrite Hs1, Hs. cbn [expect obind].
  unfold enqueue, mark_ready. rewrite Hst. cbn [negb assert_ obind]. rewrite Hd, Hi.
  exists (set_state t Ready). eexists _, l1.
  split_and!; try done; [apply Hb|apply Hb|apply Hb|apply (built_foot _ _ _ _ _ _ _ Hb); by left| |apply Hb| |];
    cbn [context set_state]; cycle 1.
  { cbn [say k_out]. rewrite (built_out _ _ _ _ _ _ _ Hb), <- app_assoc. done. }
  { change (fresh_cpu entry (mk_task _ _ _ _ _ _)) with (fresh_cpu entry t). split; [apply Hb| |apply Hb].
    intros w. unfold foot. cbn [context]. rewrite add_vcpu_eq. apply (built_foot _ _ _ _ _ _ _ Hb). }
  destruct Hb as [Hbh Hbs Hbsh Hbsu Hbr Hbrm Hbf _ _ _ _].
  change (fresh_cpu entry (mk_task _ _ _ _ _ _)) with (fresh_cpu entry t).
  set (c := fresh_cpu entry t) in *. set (x := context t) in *. set (s' := mk _ _ _ _).
  pose proof (ctxs_snoc s (set_state t Ready)) as Hperm. fold s' in Hperm. cbn [context set_state] in Hperm. fold x in Hperm.
  assert (Hx : x ∉ ctxs s).
  { intros Hin. apply (Hused x x Hin); [by left|]. apply Hbf. by left. }
  assert (Hin : forall y, y ∈ ctxs s' -> y = x \/ (y ∈ ctxs s /\ y <> x)).
  { intros y. rewrite Hperm. intros [->|Hy]%elem_of_cons; [by left|]. right. split; [done|]. by intros ->. }
  assert (Hrx : running_ctx s <> x) by (intros <-; apply Hx, running_in_ctxs).
  assert (Hnew : forall w, foot (add_vcpu V x c) x w -> covers l w /\ ~ covers l1 w).
  { intros w. unfold foot. rewrite add_vcpu_eq. apply Hbf. }
  split; cbn [k_sched k_locked k_mem k_heap k_cpu]; try done.
  - change (running_ctx s') with (running_ctx s). by rewrite add_vcpu_ne, Hcpu.
  - change (running_ctx s') with (running_ctx s). intros y [->|[Hy Hne]]%Hin Hyr; [by rewrite add_vcpu_eq|].
    rewrite add_vcpu_ne by done. pose proof (Hsv _ Hy Hyr) as Hsu. eapply suspended_frame; [exact Hsu|].
    rewrite (suspended_sp _ _ _ Hsu). intros w Hw. apply Hbs. by apply (Hused y).
  - intros y [->|[Hy Hne]]%Hin; [by rewrite add_vcpu_eq|]. rewrite add_vcpu_ne by done. by apply Hroom.
  - intros y z w [->|[Hy Hne]]%Hin [->|[Hz Hne']]%Hin Hyz Hfy; try done.
    + rewrite foot_add_ne by done. intros Hfz. apply (Hused z w Hz Hfz). by apply Hnew.
    + intros Hfx%Hnew. apply foot_add_ne in Hfy; [|done]. apply (Hused y w Hy Hfy), Hfx.
    + rewrite foot_add_ne in Hfy |- * by done. by eapply (Hsep y z w).
  - intros y w [->|[Hy Hne]]%Hin Hfy; [by apply Hnew|]. rewrite foot_add_ne in Hfy by done.
    intros Hc'. by apply (Hused y w Hy Hfy), Hbsh.
  - rewrite Hperm. by apply NoDup_cons.
Qed.

(** A spawn leaves every task at home, the new one too. *)
Lemma spawn_homes k s l l' n V t c u :
  vcpus k s l n V -> placed_stack l l' (add_vcpu V (context t) c) t -> (forall x, covers l' x -> covers l x) ->
  u = t \/ home s l V u -> home (mk (run_queue s ++ [t]) (current s) (idle s) []) l' (add_vcpu V (context t) c) u.
Proof.
  intros Hv [Hst Hft Hrg] Hsh Hu.
  assert (Hin : forall x, x ∈ ctxs (mk (run_queue s ++ [t]) (current s) (idle s) []) -> x = context t \/ x ∈ ctxs s).
  { intros x. rewrite ctxs_snoc, elem_of_cons. done. }
  assert (Hnew : forall x w, x ∈ ctxs s -> x <> context t -> foot (add_vcpu V (context t) c) x w -> foot V x w /\ ~ covers l w).
  { intros x w Hx Hne Hf%foot_add_ne; [|done]. split; [done|]. by apply (vc_used _ _ _ _ _ Hv x). }
  destruct Hu as [->|[Hfree Hctx Hfeet Hrange]]; split; try done.
  - intros w Hw. by apply Hst.
  - intros Hw. by apply (Hst _ Hw).
  - intros x w [->|Hx]%Hin Hne Hf; [done|]. destruct (Hnew _ _ Hx Hne Hf) as [_ Hc]. intros Hw. by apply Hc, Hst.
  - intros w Hw Hc. by apply (Hfree w Hw), Hsh.
  - intros x w Hx Hne Hf Hw. destruct (decide (x = context t)) as [->|Hxt]; [by apply (Hfree w Hw), Hft|].
    apply Hin in Hx as [Hx|Hx]; [done|]. destruct (Hnew _ _ Hx Hxt Hf) as [Hf' _]. by apply (Hfeet x w).
Qed.

(** A task that runs on its own stack moves its virtual CPU and nobody else's. *)
Lemma vcpus_ran k s l n V t c m :
  vcpus k s l n V -> current s = Some t -> home s l V t -> same_outside (in_stack t) (k_mem k) m ->
  KernelStack.buf (stack t) + 64 <= rsp c < KernelStack.buf (stack t) + DEFAULT_STACK_SIZE ->
  vcpus (mk_kernel m (k_heap k) (k_counter k) (k_locked k) (k_sched k) c (k_out k)) s l n (add_vcpu V (context t) c).
Proof.
  intros Hv Hcur [Hfree Hctx Hfeet [Hr0 Hr1]] Hm Hsp. pose proof Hv as [Hs Hl Hd Hh Hrun Hsv Hroom Hsep Hused Hnd].
  assert (Hrc : running_ctx s = context t) by (unfold running_ctx; by rewrite Hcur).
  pose proof (running_in_ctxs s) as Hin. rewrite Hrc in *.
  assert (Hown : forall w, foot (add_vcpu V (context t) c) (context t) w -> w = context t \/ in_stack t w).
  { intros w. unfold foot, in_saved, in_stack. rewrite add_vcpu_eq. intros [?|?]; [by left|right; lia]. }
  assert (Hoff : forall x w, x ∈ ctxs s -> x <> context t -> foot V x w -> w <> context t /\ ~ in_stack t w).
  { intros x w Hx Hne Hf. split; [|by eapply Hfeet]. intros ->. apply (Hsep x (context t) (context t)); try done. by left. }
  split; cbn [k_sched k_locked k_mem k_heap k_cpu]; try done.
  - eapply heap_ok_frame; [exact Hh|]. intros w Hw. apply Hm. intros Hx. by apply (Hfree w).
  - by rewrite Hrc, add_vcpu_eq.
  - rewrite Hrc. intros x Hx Hne. rewrite add_vcpu_ne by done. pose proof (Hsv x Hx Hne) as Hsu.
    eapply suspended_frame; [exact Hsu|]. rewrite (suspended_sp _ _ _ Hsu). intros w Hw. apply Hm. by apply (Hoff x w).
  - intros x Hx. destruct (decide (x = context t)) as [->|Hne]; [|rewrite add_vcpu_ne by done; by apply Hroom].
    rewrite add_vcpu_eq. unfold can_suspend. split; [lia|]. intros Hx'. apply Hctx. unfold in_saved, in_stack in *. lia.
  - intros x y w Hx Hy Hxy. destruct (decide (x = context t)) as [->|Hne].
    + intros Hfx%Hown. rewrite foot_add_ne by congruence. intros Hfy.
      destruct (Hoff y w) as [? ?]; [done|congruence|done|]. tauto.
    + rewrite foot_add_ne by done. intros Hfx. destruct (decide (y = context t)) as [->|Hne'].
      * intros Hfy%Hown. destruct (Hoff x w) as [? ?]; try done. tauto.
      * rewrite foot_add_ne by done. by apply (Hsep x y w).
  - intros x w Hx. destruct (decide (x = context t)) as [->|Hne].
    + intros [->|Hw]%Hown; [|by apply Hfree]. apply (Hused (context t)); [done|by left].
    + rewrite foot_add_ne by done. by apply Hused.
Qed.

Lemma home_ran s l V t u c :
  home s l V u -> context t ∈ ctxs s -> (context u <> context t -> forall w, in_stack t w -> ~ in_stack u w) ->
  (context u <> context t -> ~ in_stack u (context t)) ->
  KernelStack.buf (stack t) + 64 <= rsp c < KernelStack.buf (stack t) + DEFAULT_STACK_SIZE ->
  home s l (add_vcpu V (context t) c) u.
Proof.
  intros [Hfree Hctx Hfeet Hr] Hin Hap Hct Hsp. split; try done. intros x w Hx Hne.
  destruct (decide (x = context t)) as [->|Hxt]; [|rewrite foot_add_ne by done; by apply Hfeet].
  unfold foot. rewrite add_vcpu_eq. intros [->|Hw]; [by apply Hct|]. apply Hap; [done|].
  unfold in_saved, in_stack in *. lia.
Qed.

(** [init] on the boot thread [c], which the idle task's context stands for
    from then on. *)
Lemma vcpus_init idle_task k l n asp (c := k_cpu k) :
  k_sched k = None -> k_locked k = false -> heap_ok (k_mem k) (k_heap k) l (n + 2) -> 0 <= n ->
  56 <= rsp c < W64 -> (forall w, in_saved (rsp c - 56) w -> ~ covers l w) ->
  (init idle_task k asp = Panic "memory allocation failed" /\ ~ room l task_bytes) \/
  exists t k' l', init idle_task k asp = Ret k' /\
    id t = k_counter k /\ state t = Created /\ priority t = Priority.IDLE /\
    k_counter k' = (k_counter k + 1) mod W64 /\ k_cpu k' = c /\
    (forall r, room l r -> task_bytes < r -> room l' (r - task_bytes)) /\
    same_outside (covers l) (k_mem k) (k_mem k') /\ (forall x, covers l' x -> covers l x) /\ covers l (context t) /\
    k_out k' = k_out k ++ (Printed <$> fresh_lines idle_task (rsp (fresh_cpu idle_task t) - 56)) ++ [Logged started] /\
    vcpus k' (new t) l' n (fun _ => c).
Proof.
  intros Hs Hl Hh Hn Hsp Hst. unfold init, sched_lock. rewrite Hl. cbn [obind k_sched]. rewrite Hs. cbn [assert_ obind].
  set (k0 := mk_kernel _ _ _ true _ _ _).
  destruct (boxed_task_ok k0 l n idle_task Priority.IDLE asp Hh Hn) as [[-> Hno]|(t & k1 & l1 & E & Hb)]; [by left|right].
  rewrite E. cbn [obind]. destruct (boxed_task_inv _ _ _ _ _ _ _ E) as (Hi & Hst' & Hp & Hc & _ & _ & Hcpu).
  pose proof (built_out _ _ _ _ _ _ _ Hb) as Ho.
  destruct Hb as [Hbh Hbs Hbsh _ _ Hbrm Hbf _ _ _ _]. destruct (Hbf (context t)) as [Hcl Hcl1]; [by left|].
  exists t. eexists _, l1. split_and!; try done; [cbn [say k_out]; by rewrite Ho, <- app_assoc|]. cbn [k_mem k_heap].
  assert (Hin : forall x, x ∈ ctxs (new t) -> x = context t) by (intros x Hx; by apply list_elem_of_singleton in Hx).
  split; cbn [k_sched k_locked k_mem k_heap k_cpu]; try done.
  - by intros x ->%Hin Hne.
  - intros x ->%Hin. split; [done|]. intros Hx. by apply (Hst _ Hx).
  - by intros x y w ->%Hin ->%Hin Hne.
  - intros x w ->%Hin [->|Hw]; [done|]. intros Hx. by apply (Hst w Hw), Hbsh.
  - apply NoDup_singleton.
Qed.

End creation.

(** ** Dropping a task *)
Section dropping.
Context `{TaskLayout}.
Implicit Types (m : mem) (l : list ival) (t : Task Z) (heap : LockedHeap.t).

(** A block in use: [p] was returned for a request of [n] bytes. *)
Definition in_use l (p n : Z) : Prop :=
  0 < n < 2 ^ 63 /\ 0 < p /\ block_ok (p, served_size n) /\
  forall x, in_ival (p, served_size n) x -> ~ covers l x.

Lemma locked_dealloc_ok m heap l p n align :
  heap.1 = false -> inv m heap.2 l -> in_use l p n ->
  bytes l + served_size n < W64 -> HeapStats.dealloc_count (HeapAllocator.stats heap.2) + 1 < W64 ->
  exists m' heap' l', LockedHeap.dealloc m heap p n align = Ret (m', heap') /\
    heap'.1 = false /\ inv m' heap'.2 l' /\ bytes l' = bytes l + served_size n /\
    (forall x, covers l' x <-> covers l x \/ in_ival (p, served_size n) x) /\
    HeapStats.dealloc_count (HeapAllocator.stats heap'.2) = HeapStats.dealloc_count (HeapAllocator.stats heap.2) + 1.
Proof.
  destruct heap as [b h]. cbn. intros -> Hi (Hn & Hp & Hok & Hd) Hb Hc.
  destruct (served_size_spec n) as (Hs & _); [lia|].
  destruct (dealloc_ok m h l p n align) as (l1 & l2 & m' & h' & -> & E & Hi' & Hst & H1 & H2 & _); try done.
  destruct (merge_at_spec 0 l1 (p, served_size n) l2) as (_ & Hby & Hcov); try done; [apply (inv_wf Hi)|cbn; lia|].
  unfold LockedHeap.dealloc, ptr_of. rewrite (proj2 (Z.eqb_neq _ _)) by lia. cbn [LockedHeap.lock fst snd obind].
  rewrite E. cbn [obind]. exists m', (false, h'), (merge_at l1 (p, served_size n) l2).
  split_and!; try done. cbn. by rewrite Hst.
Qed.

(** The stack and the box of a task, as separate blocks in use. *)
Record owns l t : Prop := {
  owns_stack : in_use l (KernelStack.buf (stack t)) (KernelStack.len (stack t));
  owns_box : in_use l (box_addr t) task_size;
  owns_separate : forall x, in_ival (box_addr t, served_size task_size) x ->
    ~ in_ival (KernelStack.buf (stack t), served_size (KernelStack.len (stack t))) x;
}.

Definition drop_fits l heap t : Prop :=
  bytes l + served_size (KernelStack.len (stack t)) + served_size task_size < W64 /\
  HeapStats.dealloc_count (HeapAllocator.stats heap.2) + 2 < W64.

Lemma drop_task_ok m heap l t :
  heap.1 = false -> inv m heap.2 l -> owns l t -> drop_fits l heap t ->
  exists m' heap' l', drop_task m heap t = Ret (m', heap') /\ heap'.1 = false /\ inv m' heap'.2 l' /\
    forall x, covers l' x <-> covers l x \/
      in_ival (KernelStack.buf (stack t), served_size (KernelStack.len (stack t))) x \/
      in_ival (box_addr t, served_size task_size) x.
Proof.
  intros Hl Hi [Hst Hbox Hsep] [Hb Hc]. unfold drop_task, KernelStack.drop.
  pose proof Hst as (Hsn & _). pose proof Hbox as (Hbn & Hbp & Hbok & Hbd).
  destruct (served_size_spec task_size) as (? & _); [lia|].
  destruct (locked_dealloc_ok m heap l _ _ 1 Hl Hi Hst) as (m1 & h1 & l1 & -> & Hl1 & Hi1 & Hb1 & Hc1 & Hn1); [lia|lia|].
  cbn [obind].
  destruct (locked_dealloc_ok m1 h1 l1 (box_addr t) task_size task_align Hl1 Hi1)
    as (m2 & h2 & l2 & -> & Hl2 & Hi2 & _ & Hc2 & _); [|lia|lia|].
  { split_and!; try done; try lia. intros x Hx. rewrite Hc1. intros [Hx'|Hx']; [by apply (Hbd x)|by apply (Hsep x)]. }
  exists m2, h2, l2. split_and!; try done. intros x. rewrite Hc2, Hc1. tauto.
Qed.

End dropping.

Section properties.
Context `{TaskLayout}.
Implicit Types (k : kernel) (s : Scheduler.t) (t u : Task Z) (V : Z -> cpu) (l : list ival).

(** C8: from [init] on, whatever the tasks do and call, and as long as the
    id counter does not wrap, the ids of all tasks are distinct and below the
    counter, the current task is the only one in state [Running] besides the
    idle task, every queued task is [Ready] or [Blocked], and between operations
    the dead queue is empty and the lock is free.  The idle task's id is 1. *)
Theorem scheduler_invariant idle_task k0 asp k1 k :
  k_sched k0 = None -> k_counter k0 = 1 ->
  init idle_task k0 asp = Ret k1 -> rtc (step (fun _ => True)) k1 k ->
  policy_ok k /\ exists t, k_sched k1 = Some (new t) /\ id t = 1.
Proof.
  intros Hs Hn E Hr. destruct (policy_init idle_task k0 asp k1 Hs) as [Hp Ht]; [lia|lia|done|].
  rewrite Hn in Ht. split; [|done]. by eapply policy_steps.
Qed.

(** C4: context switching implements a CPU per task.  If the machine state
    implements the virtual CPUs [V], then a yield (or a block by a running
    current task) returns, in a state that implements the same [V]: the CPU
    holds exactly the virtual registers of the task selected, and no other
    task's registers have changed.  The selection is the one of
    [select_next]. *)
Theorem schedule_virtual_cpus k s l n V r :
  vcpus k s l n V -> may_suspend s r = true ->
  exists k' s', schedule k r = Ret k' /\ vcpus k' s' l n V /\
    (ctxs s' ≡ₚ ctxs s) /\ k_cpu k' = V (running_ctx s') /\
    select_next (mk (parked s r) None (idle s) []) = (s', running_ctx s').
Proof.
  intros Hv Hm. destruct (vcpus_schedule k s l n V r Hv Hm) as (k' & s' & E & Hv' & Hp & Hsel & _).
  exists k', s'. split_and!; try done. by rewrite (vc_running _ _ _ _ _ Hv').
Qed.

(** C19: [spawn] adds a virtual CPU.  It
    panics only if no free block has room for the stack and the task; otherwise it
    returns the next id and queues one more ready task, last, whose virtual CPU
    stands at [entry] on a fresh stack; the virtual CPUs of all the other tasks
    are as before. *)
Theorem spawn_virtual_cpu k s l n V entry prio asp :
  vcpus k s l (n + 2) V -> 0 <= n ->
  (spawn k entry prio asp = Panic "memory allocation failed" /\ ~ room l task_bytes) \/
  exists t k' l', spawn k entry prio asp = Ret (k_counter k, k') /\
    id t = k_counter k /\ state t = Ready /\ priority t = prio /\ rip (fresh_cpu entry t) = entry /\
    (context t ∉ ctxs s) /\
    vcpus k' (mk (run_queue s ++ [t]) (current s) (idle s) []) l' n (add_vcpu V (context t) (fresh_cpu entry t)).
Proof.
  intros Hv Hn. destruct (vcpus_spawn k s l n V entry prio asp Hv Hn) as [E|(t & k' & l' & E & Hi & Hst & Hp & _ & _ & _ & _ & _ & Hv' & _)];
    [by left|right]. exists t, k', l'. split_and!; try done.
  pose proof (vc_nodup _ _ _ _ _ Hv') as Hnd. unfold ctxs in Hnd |- *. cbn in Hnd.
  rewrite <- app_assoc, fmap_app in Hnd. rewrite fmap_app.
  apply NoDup_app in Hnd as (_ & Hd & Hnd). cbn in Hnd. apply NoDup_cons in Hnd as [Hnd _].
  rewrite elem_of_app. intros [Hx|Hx]; [|done]. apply (Hd _ Hx). cbn. left.
Qed.

(** C22: a blocked task is not run.  Whatever happens short of an [unblock] of
    its id, it stays on the run queue, blocked for the same reason, and is not
    the current task. *)
Theorem blocked_until_unblocked k k' s t b :
  policy_ok k -> k_sched k = Some s -> t ∈ run_queue s -> state t = Blocked b ->
  rtc (step (fun o => o <> OpUnblock (id t))) k k' ->
  exists s', k_sched k' = Some s' /\ t ∈ run_queue s' /\
    forall u, current s' = Some u -> id u <> id t.
Proof.
  intros Hp Hs Ht Hb Hr. assert (Hw : ~ (is_runnable t = true /\ 0 < priority t)) by (unfold is_runnable; rewrite Hb; by intros []).
  assert (Hex : exists s', k_sched k' = Some s' /\ t ∈ run_queue s').
  { revert s Hs Ht. clear Hp. induction Hr as [k|k k1 k2 Hst _ IH]; intros s Hs Ht; [eauto|].
    destruct (waits_step _ _ _ _ _ Hst Hs Ht Hw) as (s1 & Hs1 & [Ht1|[Hno _]]); [eauto|done]. }
  destruct Hex as (s' & Hs' & Ht'). exists s'. split_and!; try done. intros u Hu Hid.
  destruct (policy_steps _ _ _ Hr Hp) as (_ & s2 & Hs2 & _ & [Hnd _ _ _ _]). rewrite Hs' in Hs2. injection Hs2 as <-.
  unfold all_tasks in Hnd. rewrite Hu, fmap_app in Hnd. apply NoDup_app in Hnd as (_ & Hd & _).
  apply (Hd (id t)); [by apply list_elem_of_fmap_2|]. rewrite <- Hid. left.
Qed.

(** The runnable tasks of the top priority take turns. *)
Lemma rotation p k c ts i t :
  0 < p -> top_level p k c ts -> (ts ++ [set_state c Ready]) !! i = Some t ->
  (exists k', nsteps turn (S i) k k') /\
  forall k', nsteps turn (S i) k k' ->
    exists s', k_sched k' = Some s' /\ current s' = Some (set_state t Running).
Proof.
  intros Hp. revert k c ts. induction i as [|i IH]; intros k c ts Htop Hi.
  - destruct (yield_rotates p k c ts Hp Htop) as (h & rest & k1 & Eq & E & _).
    rewrite Eq in Hi. cbn in Hi. simplify_eq. split.
    + exists k1. apply nsteps_once. by exists k.
    + intros k' Hk%nsteps_once_inv. destruct (turn_rotates _ _ _ _ _ Hp Htop Hk) as (h' & rest' & Eq' & [_ Hs' _]).
      rewrite Eq in Eq'. simplify_eq. destruct Hs' as (s' & Hs' & _ & Hc & _). eauto.
  - assert (Hnext : forall k1, turn k k1 -> exists h rest, top_level p k1 (set_state h Running) rest /\
              (rest ++ [set_state (set_state h Running) Ready]) !! i = Some t).
    { intros k1 Hk. destruct (turn_rotates _ _ _ _ _ Hp Htop Hk) as (h & rest & Eq & Ht1).
      exists h, rest. split; [done|]. rewrite Eq in Hi. cbn in Hi. by apply lookup_app_l_Some. }
    split.
    + destruct (yield_rotates p k c ts Hp Htop) as (h & rest & k1 & _ & E & _).
      assert (Hk : turn k k1) by by exists k. destruct (Hnext k1 Hk) as (h' & rest' & Ht1 & Hi1).
      destruct (IH _ _ _ Ht1 Hi1) as [[k2 Hk2] _]. exists k2. by apply nsteps_l with k1.
    + intros k' Hk'. inversion Hk' as [|? ? k1 ? Hk Hrest]; subst.
      destruct (Hnext k1 Hk) as (h' & rest' & Ht1 & Hi1). by apply (IH _ _ _ Ht1 Hi1).
Qed.

(** C21: round robin, and a bound on waiting.  While a task of priority [p > 0]
    runs, no runnable task has a higher priority and no dead task is left, and the
    tasks only compute between their yields, successive yields give the CPU to the runnable tasks of
    priority [p] in queue order, then to the first one again.  When the tasks also
    spawn, unblock, block and exit, which may let others go first, a ready task of
    priority [p] with [j] tasks before it in the queue still runs within [j + 1]
    switches, unless one of them goes to a task of higher priority. *)
Theorem round_robin p k c ts i t :
  0 < p -> top_level p k c ts -> (ts ++ [set_state c Ready]) !! i = Some t ->
  (exists k', nsteps turn (S i) k k') /\
  (forall k', nsteps turn (S i) k k' ->
    exists s', k_sched k' = Some s' /\ current s' = Some (set_state t Running)) /\
  forall s j u k', k_sched k = Some s -> run_queue s !! j = Some u -> state u = Ready -> priority u = p ->
    nsteps (busy_turn p) (S j) k k' ->
    exists n k1 s1, (1 <= n <= S j)%nat /\ nsteps (busy_turn p) n k k1 /\ nsteps (busy_turn p) (S j - n) k1 k' /\
      k_sched k1 = Some s1 /\ current s1 = Some (set_state u Running).
Proof.
  intros Hp Htop Hi. split; [by eapply rotation|split; [by eapply rotation|]].
  intros s j u k' Hs Hu Hst Hpu Hn. by eapply bounded_waiting.
Qed.

(** a task of priority 0 ([Priority::IDLE]) is never run.  Once on the run
    queue it stays there whatever is called, also when it is the only runnable
    task: the scan of [pick_next] starts from priority 0 and wants a strictly
    higher one. *)
Theorem idle_priority_starves k k' s t :
  policy_ok k -> k_sched k = Some s -> t ∈ run_queue s -> priority t = Priority.IDLE ->
  rtc (step (fun _ => True)) k k' ->
  exists s' t', k_sched k' = Some s' /\ t' ∈ run_queue s' /\ id t' = id t /\
    forall u, current s' = Some u -> id u <> id t.
Proof.
  intros Hp Hs Ht Hpr Hr.
  assert (Hex : exists s' t', k_sched k' = Some s' /\ t' ∈ run_queue s' /\ id t' = id t).
  { revert s t Hs Ht Hpr. clear Hp. induction Hr as [k|k k1 k2 Hst _ IH]; intros s t Hs Ht Hpr; [eauto|].
    destruct (waits_step _ _ _ _ _ Hst Hs Ht) as (s1 & Hs1 & [Ht1|[_ Ht1]]).
    - rewrite Hpr. unfold Priority.IDLE. lia.
    - by eapply IH.
    - apply (IH _ _ Hs1 Ht1 Hpr). }
  destruct Hex as (s' & t' & Hs' & Ht' & Hid'). exists s', t'. split_and!; try done. intros u Hu Hid.
  destruct (policy_steps _ _ _ Hr Hp) as (_ & s2 & Hs2 & _ & [Hnd _ _ _ _]). rewrite Hs' in Hs2. injection Hs2 as <-.
  unfold all_tasks in Hnd. rewrite Hu, fmap_app in Hnd. apply NoDup_app in Hnd as (_ & Hd & _).
  apply (Hd (id t')); [by apply list_elem_of_fmap_2|]. rewrite Hid', <- Hid. left.
Qed.

(** C40: [exit] of the last runnable task returns to it.  The dying task's
    stack is already free memory when the switch saves its frame there, its stack
    pointer is stored as the context of the idle task, and, nothing else being
    runnable, that context is loaded again at once: execution continues in the
    dead task, with all its registers, at the [unreachable!] after [schedule]. *)
Theorem exit_returns_to_dead_task k s l t :
  k_sched k = Some s -> k_locked k = false -> dead s = [] -> current s = Some t ->
  (forall u, u ∈ run_queue s -> is_runnable u = true -> priority u <= 0) ->
  heap_ok (k_mem k) (k_heap k) l 0 -> owns l t -> drop_fits l (k_heap k) t ->
  can_suspend (k_cpu k) (context (idle s)) ->
  exists k' s' m1 l', exit k = Ret k' /\ k_cpu k' = k_cpu k /\
    k_sched k' = Some s' /\ current s' = None /\ dead s' = [] /\
    drop_task (k_mem k) (k_heap k) (kill t) = Ret (m1, k_heap k') /\ inv m1 (k_heap k').2 l' /\
    (forall x, KernelStack.buf (stack t) <= x < KernelStack.buf (stack t) + KernelStack.len (stack t) -> covers l' x) /\
    read64 (k_mem k') (context (idle s)) = rsp (k_cpu k) - 56.
Proof.
  intros Hs Hl Hd Hc Hno [Hhl Hi _ _] Ho Hfit Hroom.
  destruct (drop_task_ok _ _ _ _ Hhl Hi Ho Hfit) as (m1 & h1 & l1 & Ed & _ & Hi1 & Hcov).
  change (drop_task (k_mem k) (k_heap k) t) with (drop_task (k_mem k) (k_heap k) (kill t)) in Ed.
  destruct (switch_to_self (k_cpu k) m1 (context (idle s)) Hroom) as (m' & Esw & _ & Hrd & _).
  unfold exit, with_scheduler, sched_lock. rewrite Hl. cbn [obind k_sched]. rewrite Hs. cbn [expect obind].
  rewrite Hc. cbn [obind k_mem k_heap k_counter k_cpu]. rewrite Hd. cbn [app].
  erewrite schedule_eq; [|reflexivity|reflexivity].
  cbn [k_mem k_heap dead drop_all]. rewrite Ed. cbn [obind may_suspend current assert_ k_counter k_cpu].
  match goal with |- context [select_next ?x] => destruct (select_next_spec x) as [[-> _]|(q1 & u & q2 & Eq & Hp & Hb & _)] end.
  2:{ exfalso. unfold parked in Eq. cbn in Eq. rewrite app_nil_r in Eq.
      specialize (Hno u). rewrite Eq in Hno. destruct Hb as (Hr & _). assert (priority u <= 0); [|lia].
      apply Hno; [|done]. apply elem_of_app. right. left. }
  cbn [running_ctx current idle]. rewrite Esw. eexists _, _, m1, l1.
  split_and!; [reflexivity|reflexivity|reflexivity|reflexivity|reflexivity|reflexivity|exact Hi1| |exact Hrd].
  intros x Hx. apply Hcov. right. left. destruct Ho as [(Hn & _) _ _].
  destruct (served_size_spec (KernelStack.len (stack t))) as (_ & _ & Hsz); [lia|]. unfold in_ival, iend. cbn. lia.
Qed.

End properties.

(** ** Witnesses: a running task, a ready one, the idle task *)
Module SchedulerDemo.

#[local] Instance layout : TaskLayout.
Proof. refine {| task_size := 80; task_align := 8; context_offset := 16 |}; by vm_compute. Defined.

Definition base : Z := 0xffffc00000000000.
Definition booted : mem * HeapAllocator.t :=
  match HeapAllocator.add_memory ∅ HeapAllocator.new base 0x40000 with
  | Ret r => r
  | _ => (∅, HeapAllocator.new)
  end.
Definition heap : LockedHeap.t := (false, booted.2).
Definition free1 : list ival := [(base, 0x40000)].

Definition mk_demo (i : Z) (st : TaskState) (ctx top : Z) : Task Z :=
  mk_task i st Priority.NORMAL ctx (KernelStack.mk (top - 0x1000) 0x1000) 0.
Definition idle0 : Task Z := mk_demo 1 Created 0x100 0xb000.
Definition ready : Task Z := mk_demo 2 Ready 0x200 0x9000.
Definition running : Task Z := mk_demo 3 Running 0x300 0x7000.
Definition sched : Scheduler.t := mk [ready] (Some running) idle0 [].

Definition regs : cpu := mk_cpu 0x1234 0x6f00 1 2 3 4 5 6.
Definition V : Z -> cpu := fun x =>
  if x =? 0x300 then regs else if x =? 0x200 then start_state 0xabc 0x9000 else start_state 0xdef 0xb000.

(** The saved frames of the two tasks that do not run. *)
Definition frames (m : mem) : mem :=
  let m := write64 (X86_64Context.new m 0xabc 0x9000).1 0x200 (0x9000 - 64) in
  write64 (X86_64Context.new m 0xdef 0xb000).1 0x100 (0xb000 - 64).

Definition k0 : kernel := mk_kernel (frames booted.1) heap 4 false (Some sched) regs [].

Lemma frames_high m w : 0x10000 <= w -> read64 (frames m) w = read64 m w.
Proof.
  intros Hw. unfold frames.
  destruct (new_ok m 0xabc 0x9000) as (m1 & -> & _ & _ & Hs1); [lia|]. cbn [fst].
  destruct (new_ok (write64 m1 0x200 (0x9000 - 64)) 0xdef 0xb000) as (m2 & -> & _ & _ & Hs2); [lia|]. cbn [fst].
  rewrite read_write_ne, Hs2, read_write_ne, Hs1 by lia. done.
Qed.

Lemma covers_high w : covers free1 w -> base <= w < base + 0x40000.
Proof. intros [[H1 H2]|[]]. unfold iend in H2. cbn [fst snd] in *. lia. Qed.

Lemma heap_frames : heap_ok (frames booted.1) heap free1 2.
Proof.
  split; [done| | |by vm_compute].
  - apply (inv_frame booted.1).
    + split; [by vm_compute|vm_compute; intuition congruence| |by vm_compute].
      intros i ->%list_elem_of_singleton. by vm_compute.
    + intros w Hw%covers_high. apply frames_high. unfold base in Hw. lia.
  - intros x Hx%covers_high. unfold base in Hx. lia.
Qed.

Lemma ctx_cases ctx : ctx ∈ ctxs sched -> ctx = 0x200 \/ ctx = 0x300 \/ ctx = 0x100.
Proof. change (ctxs sched) with [0x200; 0x300; 0x100]. rewrite !elem_of_cons, elem_of_nil. tauto. Qed.

Lemma V_rsp : rsp (V 0x200) = 0x8ff8 /\ rsp (V 0x300) = 0x6f00 /\ rsp (V 0x100) = 0xaff8.
Proof. by vm_compute. Qed.

(** Decide a membership question about the demo's footprints. *)
Ltac foot_lia :=
  unfold foot, in_saved in *; destruct V_rsp as (E2 & E3 & E1); rewrite ?E1, ?E2, ?E3 in *; lia.

Lemma demo_vcpus : vcpus k0 sched free1 2 V.
Proof.
  split; try reflexivity; [apply heap_frames| | | | |].
  - intros ctx [->|[->| ->]]%ctx_cases Hne; [|by destruct Hne|].
    + split; [split; by vm_compute|]. change (read64 (k_mem k0) 0x200) with (0x9000 - 64). unfold in_saved. lia.
    + split; [split; by vm_compute|]. change (read64 (k_mem k0) 0x100) with (0xb000 - 64). unfold in_saved. lia.
  - intros ctx [->|[->| ->]]%ctx_cases; unfold can_suspend; foot_lia.
  - intros ctx ctx' w [->|[->| ->]]%ctx_cases [->|[->| ->]]%ctx_cases Hne Hf Hf'; try done; foot_lia.
  - intros ctx w [->|[->| ->]]%ctx_cases Hf Hc%covers_high; unfold base in Hc; foot_lia.
  - apply (bool_decide_unpack _). vm_compute. exact I.
Qed.

(** With a blocked task and one of priority 0 on the queue. *)
Definition blocked : Task Z := mk_demo 4 (Blocked Io) 0x400 0xd000.
Definition lowest : Task Z := mk_task 5 Ready Priority.IDLE 0x500 (KernelStack.mk 0xe000 0x1000) 0.
Definition sched2 : Scheduler.t := mk [ready; blocked; lowest] (Some running) idle0 [].
Definition k2 : kernel := mk_kernel (frames booted.1) heap 6 false (Some sched2) regs [].

Lemma k2_policy : policy_ok k2.
Proof.
  split; [done|]. exists sched2. split_and!; [done|done|]. split.
  - apply (bool_decide_unpack _). vm_compute. exact I.
  - change (all_tasks sched2) with [ready; blocked; lowest; running; idle0]. intros t.
    rewrite !elem_of_cons, elem_of_nil. intros [->|[->|[->|[->|[->|[]]]]]]; cbn; lia.
  - by intros t [= <-].
  - intros t. cbn. rewrite !elem_of_cons, elem_of_nil. intros [->|[->|[->|[]]]]; cbn; eauto.
  - by left.
Qed.

Lemma k2_yields : ContextDemo.returns (yield_now k2) = true.
Proof. vm_compute. reflexivity. Qed.

Lemma k2_step allowed : allowed OpYield -> exists k', yield_now k2 = Ret k' /\ rtc (step allowed) k2 k'.
Proof.
  intros Ha. destruct (yield_now k2) as [k'| |] eqn:E; try (pose proof k2_yields as Hr; rewrite E in Hr; discriminate Hr).
  exists k'. split; [done|]. apply rtc_once. apply step_op with OpYield; [done|cbn; lia|exact E].
Qed.

(** No heap left: the running task is the last one. *)
Definition sched3 : Scheduler.t := mk [] (Some running) idle0 [].
Definition k3 : kernel := mk_kernel (frames ∅) (false, HeapAllocator.new) 4 false (Some sched3) regs [].
Definition cold : kernel := mk_kernel booted.1 heap 1 false None regs [].

Lemma cold_boots : ContextDemo.returns (init 0xdef cold 0) = true.
Proof. vm_compute. reflexivity. Qed.

Lemma k0_spawns : ContextDemo.returns (spawn k0 0x777 Priority.HIGH 0) = true.
Proof. vm_compute. reflexivity. Qed.

Lemma k3_heap : heap_ok (k_mem k3) (k_heap k3) [] 0.
Proof. split; [done| |by intros x []|done]. split; [done|done|by intros i ?%elem_of_nil|done]. Qed.

Lemma k3_owns : owns [] running.
Proof.
  split; [split_and!; [by vm_compute..|by intros x _ []]|split_and!; [by vm_compute..|by intros x _ []]|].
  intros x [Hb1 Hb2] [Hs1 Hs2]. change (iend (box_addr running, served_size task_size)) with 832 in Hb2.
  cbn in Hs1. lia.
Qed.

End SchedulerDemo.
#[local] Existing Instance SchedulerDemo.layout.

Lemma scheduler_invariant_witness : exists k1 k, init 0xdef SchedulerDemo.cold 0 = Ret k1 /\ policy_ok k.
Proof.
  destruct (init 0xdef SchedulerDemo.cold 0) as [k1| |] eqn:E;
    try (pose proof SchedulerDemo.cold_boots as Hr; rewrite E in Hr; discriminate Hr).
  exists k1, k1. split; [reflexivity|].
  apply (scheduler_invariant 0xdef SchedulerDemo.cold 0 k1 k1 eq_refl eq_refl E (rtc_refl _ _)).
Defined.

Lemma schedule_virtual_cpus_witness :
  exists k', schedule SchedulerDemo.k0 None = Ret k' /\ k_cpu k' = start_state 0xabc 0x9000.
Proof.
  destruct (schedule_virtual_cpus _ _ _ _ _ None SchedulerDemo.demo_vcpus eq_refl) as (k' & s' & E & _ & _ & Hc & Hsel).
  exists k'. split; [exact E|]. rewrite Hc.
  assert (Hn : running_ctx s' = 0x200) by (apply (f_equal snd) in Hsel; cbn [snd] in Hsel; rewrite <- Hsel; reflexivity).
  rewrite Hn. reflexivity.
Defined.

Lemma spawn_virtual_cpu_witness :
  exists t k' l', spawn SchedulerDemo.k0 0x777 Priority.HIGH 0 = Ret (4, k') /\
    vcpus k' (mk [SchedulerDemo.ready; t] (Some SchedulerDemo.running) SchedulerDemo.idle0 []) l' 0
      (add_vcpu SchedulerDemo.V (context t) (fresh_cpu 0x777 t)).
Proof.
  destruct (spawn_virtual_cpu SchedulerDemo.k0 SchedulerDemo.sched SchedulerDemo.free1 0 SchedulerDemo.V
              0x777 Priority.HIGH 0 SchedulerDemo.demo_vcpus) as [[E _]|(t & k' & l' & E & _ & _ & _ & _ & _ & Hv)];
    [lia| |exists t, k', l'; split; [exact E|exact Hv]].
  pose proof SchedulerDemo.k0_spawns as Hr. rewrite E in Hr. discriminate Hr.
Defined.

Lemma blocked_until_unblocked_witness :
  exists k' s', yield_now SchedulerDemo.k2 = Ret k' /\ k_sched k' = Some s' /\ SchedulerDemo.blocked ∈ run_queue s'.
Proof.
  destruct (SchedulerDemo.k2_step (fun o => o <> OpUnblock 4)) as (k' & E & Hr); [done|].
  destruct (blocked_until_unblocked SchedulerDemo.k2 k' SchedulerDemo.sched2 SchedulerDemo.blocked Io
              SchedulerDemo.k2_policy eq_refl) as (s' & Hs' & Hin & _).
  - right. left.
  - reflexivity.
  - exact Hr.
  - exists k', s'. split_and!; [exact E|exact Hs'|exact Hin].
Defined.

Lemma round_robin_witness :
  exists k', nsteps turn 2 SchedulerDemo.k0 k' /\
    exists s', k_sched k' = Some s' /\ current s' = Some SchedulerDemo.running.
Proof.
  destruct (round_robin 128 SchedulerDemo.k0 SchedulerDemo.running [SchedulerDemo.ready] 1
              (set_state SchedulerDemo.running Ready)) as ([k' Hk] & Hall & _).
  - lia.
  - split; [reflexivity| |reflexivity]. exists SchedulerDemo.sched. split_and!; try reflexivity.
    intros u ->%list_elem_of_singleton _. cbn. unfold Priority.NORMAL. lia.
  - reflexivity.
  - exists k'. split; [exact Hk|]. apply (Hall k' Hk).
Defined.

Lemma idle_priority_starves_witness :
  exists k' s' t', yield_now SchedulerDemo.k2 = Ret k' /\ k_sched k' = Some s' /\ t' ∈ run_queue s' /\ id t' = 5.
Proof.
  destruct (SchedulerDemo.k2_step (fun _ => True)) as (k' & E & Hr); [done|].
  destruct (idle_priority_starves SchedulerDemo.k2 k' SchedulerDemo.sched2 SchedulerDemo.lowest
              SchedulerDemo.k2_policy eq_refl) as (s' & t' & Hs' & Hin & Hid & _).
  - right. right. left.
  - reflexivity.
  - exact Hr.
  - exists k', s', t'. split_and!; [exact E|exact Hs'|exact Hin|exact Hid].
Defined.

Lemma exit_returns_to_dead_task_witness :
  exists k', exit SchedulerDemo.k3 = Ret k' /\ k_cpu k' = SchedulerDemo.regs.
Proof.
  destruct (exit_returns_to_dead_task SchedulerDemo.k3 SchedulerDemo.sched3 [] SchedulerDemo.running
              eq_refl eq_refl eq_refl eq_refl) as (k' & s' & m1 & l' & E & Hc & _).
  - by intros u ?%elem_of_nil.
  - apply SchedulerDemo.k3_heap.
  - apply SchedulerDemo.k3_owns.
  - split; by vm_compute.
  - split; cbn; unfold in_saved; lia.
  - exists k'. split; [exact E|exact Hc].
Defined.
