(* ===== verification/Init.v ===== *)
(** * Boot-time memory initialisation (eira/src/mm/init.rs, [init])

    [init] reads the bootloader's memory map, carves the allocation bitmap out
    of the first usable entry that is large enough, and hands every other whole
    usable frame to the frame allocator.  The memory map is a list of entries;
    the entry type that means "usable" is a constant of the bootloader's crate
    and a parameter here.

    The carved bytes are the allocator's [bitmap] slice, which the allocator
    model holds as a list, so filling it with zeros is a list of zeros. *)

From S2P Require Import Prelude Fmt Log Addr Frame Memory FrameAllocator Bitmap World.
Import BitmapInv.

Module Memmap.

Record entry := mk_entry { e_base : Z; e_length : Z; e_type : Z }.

End Memmap.
Import Memmap.

Section init.
(** [limine::memmap::MEMMAP_USABLE] *)
Context (MEMMAP_USABLE : Z).
Implicit Types (w : world BitmapAllocator.t) (l : list entry).

Definition usable (e : entry) : bool := e_type e =? MEMMAP_USABLE.

(** [.filter(usable).map(|e| e.base + e.length).max()] *)
Fixpoint max_end l (acc : option Z) : outcome (option Z) :=
  match l with
  | [] => Ret acc
  | e :: l =>
      if usable e then
        let! x := add_ (e_base e) (e_length e) in
        max_end l (Some (match acc with None => x | Some y => Z.max y x end))
      else max_end l acc
  end.

(** [.find(|e| usable && e.length >= bitmap_size).map(|e| e.base)] *)
Definition find_base l (bitmap_size : Z) : option Z :=
  e_base <$> head (filter (fun e => usable e = true /\ bitmap_size <= e_length e) l).

(** [if let Some(base) = PhysAddr::new(start) { allocator.add_region(base, len) }] *)
Definition add_part (m : mem) (a : BitmapAllocator.t) (start len : Z) : outcome (mem * BitmapAllocator.t) :=
  if 0 <? len then
    match PhysAddr.new start with
    | Some base => BitmapAllocator.add_region m a base len
    | None => Ret (m, a)
    end
  else Ret (m, a).

(** The body of the loop over the usable entries. *)
Definition add_entry (m : mem) (a : BitmapAllocator.t) (bitmap_phys bitmap_end : Z) (e : entry)
  : outcome (mem * BitmapAllocator.t) :=
  let region_base := e_base e in
  let! region_end := add_ region_base (e_length e) in
  let! '(m, a) :=
    if region_base <? bitmap_phys then
      let! len := sub_ (Z.min bitmap_phys region_end) region_base in
      add_part m a region_base len
    else Ret (m, a) in
  if bitmap_end <? region_end then
    let start := Z.max bitmap_end region_base in
    let! len := sub_ region_end start in
    add_part m a start len
  else Ret (m, a).

Fixpoint add_entries (m : mem) (a : BitmapAllocator.t) (bitmap_phys bitmap_end : Z) l
  : outcome (mem * BitmapAllocator.t) :=
  match l with
  | [] => Ret (m, a)
  | e :: l =>
      if usable e then
        let! '(m, a) := add_entry m a bitmap_phys bitmap_end e in
        add_entries m a bitmap_phys bitmap_end l
      else add_entries m a bitmap_phys bitmap_end l
  end.

(** [(x + y - 1) / y] *)
Definition div_ceil (x y : Z) : outcome Z :=
  let! s := add_ x y in
  let! s := sub_ s 1 in
  Ret (s / y).

(** The log records of [init]. *)
Definition memory_record (max_phys total_frames bitmap_bytes bitmap_pages : Z) : log_record :=
  debug "eira::mm::init" (bytes "physical memory: max=" ++ hex_short max_phys ++ bytes "  frames=" ++ decimal total_frames ++
    bytes "  bitmap=" ++ decimal bitmap_bytes ++ bytes " bytes (" ++ decimal bitmap_pages ++ bytes " pages)").
Definition bitmap_record (bitmap_phys bitmap_size : Z) : log_record :=
  debug "eira::mm::init" (bytes "bitmap carved at " ++ hex_short bitmap_phys ++ bytes " (" ++ decimal bitmap_size ++ bytes " bytes)").
Definition ready_record (free total free_bytes total_bytes : Z) : log_record :=
  info "eira::mm::init" (bytes "frame allocator ready: " ++ decimal free ++ bytes "/" ++ decimal total ++ bytes " frames free (" ++
    decimal (free_bytes / (1024 * 1024)) ++ bytes " MiB / " ++ decimal (total_bytes / (1024 * 1024)) ++ bytes " MiB)").

Definition mm_init w (memmap : list entry) (hhdm : Z) : outcome (world BitmapAllocator.t * list output) :=
  let! w := lock w in
  let! _ := assert_ (match frame_allocator w with None => true | Some _ => false end)
              "mm::init::init() called more than once" in
  let! o := max_end memmap None in
  let! max_phys := expect o "memory map contains no usable entries" in
  let! total_frames := div_ceil max_phys PAGE_SIZE in
  let! t7 := add_ total_frames 7 in
  let bitmap_bytes := t7 / 8 in
  let! bitmap_pages := div_ceil bitmap_bytes PAGE_SIZE in
  let! bitmap_size := mul_ bitmap_pages PAGE_SIZE in
  let out1 := Logged (memory_record max_phys total_frames bitmap_bytes bitmap_pages) in
  let! bitmap_phys := expect (find_base memmap bitmap_size)
                        "no usable region large enough for the physical memory bitmap" in
  let out2 := Logged (bitmap_record bitmap_phys bitmap_size) in
  let! _ := add_ bitmap_phys hhdm in
  let bitmap := replicate (Z.to_nat bitmap_size) 0 in
  let! allocator := BitmapAllocator.new bitmap hhdm max_phys in
  let! bitmap_end := add_ bitmap_phys bitmap_size in
  let! '(m, allocator) := add_entries (memory w) allocator bitmap_phys bitmap_end memmap in
  let free := BitmapAllocator.free_frames allocator in
  let total := BitmapAllocator.total_frames allocator in
  let! free_bytes := mul_ free PAGE_SIZE in
  let! total_bytes := mul_ total PAGE_SIZE in
  let out3 := Logged (ready_record free total free_bytes total_bytes) in
  Ret (mk_world m false (Some allocator) hhdm (flushed w), [out1; out2; out3]).

End init.

(** ** Which frames end up free *)
Section spec.
Context (MEMMAP_USABLE : Z).
Implicit Types (w : world BitmapAllocator.t) (l : list entry) (e : entry) (m : mem) (a : BitmapAllocator.t).

Abbreviation usable := (usable MEMMAP_USABLE).

Definition e_end e : Z := e_base e + e_length e.
Definition in_entry e (x : Z) : Prop := e_base e <= x < e_end e.

(** The frame lies in the entry as a whole. *)
Definition whole e (f : Z) : Prop := e_base e <= f /\ f + PAGE_SIZE <= e_end e.

(** The frame does not touch the carved bitmap. *)
Definition off_bitmap (bp be f : Z) : Prop := f + PAGE_SIZE <= bp \/ be <= f.

(** What the boot protocol guarantees of the map: usable entries do not
    overlap, lie below the last page of the 52-bit physical address space, and
    are reachable through the direct map at [hhdm]. *)
Fixpoint disjoint_entries l : Prop :=
  match l with
  | [] => True
  | e :: l =>
      (usable e = true -> forall e' x, e' ∈ l -> usable e' = true -> in_entry e x -> ~ in_entry e' x) /\
      disjoint_entries l
  end.

Definition entry_ok (hhdm : Z) e : Prop :=
  0 <= e_base e /\ 0 <= e_length e /\ e_end e <= PhysAddr.MAX + 1 - PAGE_SIZE /\ e_end e + hhdm <= W64.

Definition memmap_ok l (hhdm : Z) : Prop :=
  0 < hhdm /\ disjoint_entries l /\ forall e, e ∈ l -> usable e = true -> entry_ok hhdm e.

Lemma max_end_ok hhdm l acc :
  0 < hhdm -> (forall e, e ∈ l -> usable e = true -> entry_ok hhdm e) ->
  exists r, max_end MEMMAP_USABLE l acc = Ret r /\
    (forall y, acc = Some y -> exists M, r = Some M /\ y <= M) /\
    (forall e, e ∈ l -> usable e = true -> exists M, r = Some M /\ e_end e <= M) /\
    (forall M, r = Some M -> acc = Some M \/ exists e, e ∈ l /\ usable e = true /\ e_end e = M).
Proof.
  intros Hh. revert acc. induction l as [|e l IH]; intros acc Hok; cbn [max_end].
  { exists acc. split_and!; [done|intros y ->; eauto using Z.le_refl|by intros e ?%elem_of_nil|by left]. }
  assert (Hok' : forall e', e' ∈ l -> usable e' = true -> entry_ok hhdm e') by (intros; apply Hok; [by right|done]).
  destruct (usable e) eqn:Eu.
  - pose proof (Hok e ltac:(left) Eu) as (H1 & H2 & H3 & H4). unfold e_end in *.
    rewrite add_Ret by lia. cbn [obind].
    set (x := match acc with None => _ | Some y => _ end).
    assert (Hx : e_base e + e_length e <= x /\ (forall y, acc = Some y -> y <= x) /\
                 (x = e_base e + e_length e \/ acc = Some x)).
    { subst x. destruct acc as [y|]; split_and!; try lia; try (by left).
      - by intros z [= ->]; lia.
      - destruct (Z.max_spec y (e_base e + e_length e)) as [[_ ->]|[_ ->]]; auto.
      - done. }
    destruct Hx as (Hx1 & Hx2 & Hx3).
    destruct (IH (Some x) Hok') as (r & -> & Ha & He & Hm). destruct (Ha x eq_refl) as (M & -> & HM).
    exists (Some M). split_and!; [done|intros y Hy; exists M; split; [done|specialize (Hx2 y Hy); lia]| |].
    + intros e' [->|He']%elem_of_cons Hu; [exists M; split; [done|lia]|by apply He].
    + intros M' [= <-]. destruct (Hm M eq_refl) as [[= <-]|(e' & He' & Hu & HE)].
      * destruct Hx3 as [->|Hx3]; [right; exists e; split_and!; [left|done|done]|by left].
      * right. exists e'. split_and!; [by right|done|done].
  - destruct (IH acc Hok') as (r & -> & Ha & He & Hm). exists r. split_and!; [done|done| |].
    + intros e' [->|He']%elem_of_cons Hu; [congruence|by apply He].
    + intros M HM. destruct (Hm M HM) as [?|(e' & He' & Hu & HE)]; [by left|].
      right. exists e'. split_and!; [by right|done|done].
Qed.

Lemma exists_cons (P : entry -> Prop) e l :
  (exists x, x ∈ e :: l /\ P x) <-> P e \/ exists x, x ∈ l /\ P x.
Proof.
  split.
  - intros (x & [->|Hx]%elem_of_cons & HP); [by left|right; eauto].
  - intros [HP|(x & Hx & HP)]; [exists e; split; [left|done]|exists x; split; [by right|done]].
Qed.

Lemma or_iff_r (P A B : Prop) : (A <-> B) -> (P \/ A <-> P \/ B).
Proof. tauto. Qed.

Lemma or_false_r (P A : Prop) : ~ A -> (P <-> P \/ A).
Proof. tauto. Qed.

(** A region all of whose frames are new to the allocator. *)
Lemma add_part_ok m a fl start len :
  inv m a fl ∅ -> 0 <= start -> 0 <= len -> start + len <= PhysAddr.MAX + 1 - PAGE_SIZE ->
  (forall g, PhysFrame.wf PAGE_SIZE g -> start <= g -> g + PAGE_SIZE <= start + len -> managed a g /\ g ∉ fl) ->
  exists m' a' fl', add_part m a start len = Ret (m', a') /\ inv m' a' fl' ∅ /\
    (forall g, PhysFrame.wf PAGE_SIZE g -> g ∈ fl' <-> g ∈ fl \/ (start <= g /\ g + PAGE_SIZE <= start + len)) /\
    same_outside (fun x => exists g, g ∈ fl' /\ in_frame (BitmapAllocator.hhdm_offset a) g x) m m' /\
    BitmapAllocator.hhdm_offset a' = BitmapAllocator.hhdm_offset a /\ BitmapAllocator.total a' = BitmapAllocator.total a.
Proof.
  intros Hi Hs Hl Hmax Hg. unfold add_part. destruct (Z.ltb_spec 0 len) as [Hpos|Hz].
  2:{ exists m, a, fl. split_and!; try done; try apply same_outside_refl. intros g _. apply or_false_r. klia. }
  rewrite PhysAddr_MAX_val in Hmax.
  rewrite (proj2 (PhysAddr_new_Some start start)) by (rewrite PhysAddr_MAX_val; klia).
  destruct (round_up_spec start PAGE_SIZE) as [? _]; [klia|].
  assert (Hfirst : region_first start <= PhysAddr.MAX) by (rewrite PhysAddr_MAX_val; unfold region_first; klia).
  assert (Hend : start + len <= PhysAddr.MAX) by (rewrite PhysAddr_MAX_val; klia).
  destruct (add_region_exact m a fl ∅ start len Hi Hs Hfirst Hl Hend)
    as (m' & a' & fl' & -> & Hi' & Hfl & _ & Hout & Hh & Ht).
  { intros g Hw H1 H2. destruct (Hg g Hw H1 H2). split_and!; [done|done|set_solver]. }
  exists m', a', fl'. split_and!; try done. intros x Hx. apply Hout. intros (g & Hw & H1 & H2 & Hin).
  apply Hx. exists g. split; [|done]. apply Hfl; auto.
Qed.

(** A frame of the map that the allocator can manage. *)
Lemma entry_managed a e f :
  entry_ok (BitmapAllocator.hhdm_offset a) e -> 0 < BitmapAllocator.hhdm_offset a ->
  e_end e <= BitmapAllocator.total a * PAGE_SIZE ->
  PhysFrame.wf PAGE_SIZE f -> whole e f -> managed a f.
Proof.
  intros (H1 & H2 & H3 & H4) Hh Ht Hw [Hf1 Hf2]. split; [done|]. unfold PhysFrame.index.
  destruct Hw as [_ Hm]. split_and!; try klia.
Qed.

Lemma add_entry_ok m a fl bp be e :
  inv m a fl ∅ -> 0 <= bp <= be ->
  entry_ok (BitmapAllocator.hhdm_offset a) e -> 0 < BitmapAllocator.hhdm_offset a ->
  e_end e <= BitmapAllocator.total a * PAGE_SIZE ->
  (forall g, PhysFrame.wf PAGE_SIZE g -> whole e g -> g ∉ fl) ->
  exists m' a' fl', add_entry m a bp be e = Ret (m', a') /\ inv m' a' fl' ∅ /\
    (forall g, PhysFrame.wf PAGE_SIZE g -> g ∈ fl' <-> g ∈ fl \/ (whole e g /\ off_bitmap bp be g)) /\
    same_outside (fun x => exists g, g ∈ fl' /\ in_frame (BitmapAllocator.hhdm_offset a) g x) m m' /\
    BitmapAllocator.hhdm_offset a' = BitmapAllocator.hhdm_offset a /\ BitmapAllocator.total a' = BitmapAllocator.total a.
Proof.
  intros Hi Hb Hok Hh Ht Hnew. pose proof Hok as (H1 & H2 & H3 & H4). unfold add_entry.
  rewrite add_Ret by (unfold e_end in *; lia). cbn [obind]. fold (e_end e).
  assert (Hle : e_base e <= e_end e) by (unfold e_end; lia).
  (* the part below the bitmap *)
  set (b1 := Z.max (e_base e) (Z.min bp (e_end e))).
  assert (exists m1 a1 fl1,
    (if e_base e <? bp
     then let! len := sub_ (Z.min bp (e_end e)) (e_base e) in add_part m a (e_base e) len
     else Ret (m, a)) = Ret (m1, a1) /\ inv m1 a1 fl1 ∅ /\
    (forall g, PhysFrame.wf PAGE_SIZE g -> g ∈ fl1 <-> g ∈ fl \/ (e_base e <= g /\ g + PAGE_SIZE <= b1)) /\
    same_outside (fun x => exists g, g ∈ fl1 /\ in_frame (BitmapAllocator.hhdm_offset a) g x) m m1 /\
    BitmapAllocator.hhdm_offset a1 = BitmapAllocator.hhdm_offset a /\
    BitmapAllocator.total a1 = BitmapAllocator.total a) as (m1 & a1 & fl1 & -> & Hi1 & Hfl1 & Hs1 & Hh1 & Ht1).
  { destruct (Z.ltb_spec (e_base e) bp) as [Hlt|Hge].
    - rewrite sub_Ret by lia. cbn [obind].
      destruct (add_part_ok m a fl (e_base e) (Z.min bp (e_end e) - e_base e)) as (m1 & a1 & fl1 & E & Hi1 & Hf & Hr);
        try done; try lia.
      { intros g Hw Hg1 Hg2. assert (whole e g) by (split; lia). split; [by eapply entry_managed|by apply Hnew]. }
      exists m1, a1, fl1. split_and!; try apply Hr; try done. intros g Hw. rewrite Hf by done. apply or_iff_r. subst b1. klia.
    - exists m, a, fl. split_and!; try done. intros g Hw. apply or_false_r. subst b1. klia. }
  cbn [obind]. destruct (Z.ltb_spec be (e_end e)) as [Hlt|Hge].
  - rewrite sub_Ret by lia. cbn [obind].
    destruct (add_part_ok m1 a1 fl1 (Z.max be (e_base e)) (e_end e - Z.max be (e_base e)))
      as (m2 & a2 & fl2 & -> & Hi2 & Hfl2 & Hs2 & Hh2 & Ht2); try done; try lia.
    { intros g Hw Hg1 Hg2. assert (Hwh : whole e g) by (split; lia). split.
      - eapply entry_managed; rewrite ?Hh1, ?Ht1; done.
      - rewrite Hfl1 by done. intros [Hx|Hx]; [by apply (Hnew g)|]. subst b1. klia. }
    exists m2, a2, fl2. rewrite Hh1, Ht1 in *. split_and!; try done.
    + intros g Hw. rewrite Hfl2, Hfl1 by done. rewrite Logic.or_assoc. apply or_iff_r. unfold whole, off_bitmap. subst b1. klia.
    + eapply same_outside_trans; [exact Hs1|exact Hs2|]. intros x [(g & Hg & Hx)|Hx]; [|done].
      exists g. split; [|done]. assert (Hwg : PhysFrame.wf PAGE_SIZE g) by apply (inv_free Hi1 g Hg). apply Hfl2; auto.
  - exists m1, a1, fl1. split_and!; try done. intros g Hw. rewrite Hfl1 by done.
    apply or_iff_r. unfold whole, off_bitmap. subst b1. klia.
Qed.

Lemma add_entries_ok m a fl bp be l :
  inv m a fl ∅ -> 0 <= bp <= be -> 0 < BitmapAllocator.hhdm_offset a ->
  disjoint_entries l -> (forall e, e ∈ l -> usable e = true -> entry_ok (BitmapAllocator.hhdm_offset a) e) ->
  (forall e, e ∈ l -> usable e = true -> e_end e <= BitmapAllocator.total a * PAGE_SIZE) ->
  (forall e g, e ∈ l -> usable e = true -> PhysFrame.wf PAGE_SIZE g -> whole e g -> g ∉ fl) ->
  exists m' a' fl', add_entries MEMMAP_USABLE m a bp be l = Ret (m', a') /\ inv m' a' fl' ∅ /\
    (forall g, PhysFrame.wf PAGE_SIZE g ->
       g ∈ fl' <-> g ∈ fl \/ (off_bitmap bp be g /\ exists e, e ∈ l /\ usable e = true /\ whole e g)) /\
    same_outside (fun x => exists g, g ∈ fl' /\ in_frame (BitmapAllocator.hhdm_offset a) g x) m m' /\
    BitmapAllocator.hhdm_offset a' = BitmapAllocator.hhdm_offset a /\ BitmapAllocator.total a' = BitmapAllocator.total a.
Proof.
  intros Hi Hb Hh. revert m a fl Hi Hh. induction l as [|e l IH]; intros m a fl Hi Hh Hd Hok Ht Hnew; cbn [add_entries].
  { exists m, a, fl. split_and!; try done. intros g _. split; [auto|].
    intros [?|(_ & e & []%elem_of_nil & _)]; done. }
  destruct Hd as [Hde Hd].
  assert (Hok' : forall e', e' ∈ l -> usable e' = true -> entry_ok (BitmapAllocator.hhdm_offset a) e')
    by (intros; apply Hok; [by right|done]).
  assert (Ht' : forall e', e' ∈ l -> usable e' = true -> e_end e' <= BitmapAllocator.total a * PAGE_SIZE)
    by (intros; apply Ht; [by right|done]).
  destruct (usable e) eqn:Eu.
  - destruct (add_entry_ok m a fl bp be e) as (m1 & a1 & fl1 & -> & Hi1 & Hfl1 & Hs1 & Hh1 & Ht1); try done.
    { apply Hok; [left|done]. } { apply Ht; [left|done]. } { intros g. apply Hnew; [left|done]. }
    cbn [obind]. rewrite <- Hh1 in Hh, Hok'. rewrite <- Ht1 in Ht'.
    destruct (IH m1 a1 fl1 Hi1 Hh Hd Hok' Ht') as (m2 & a2 & fl2 & -> & Hi2 & Hfl2 & Hs2 & Hh2 & Ht2).
    { intros e' g He' Hu Hw Hwh. rewrite Hfl1 by done. intros [Hg|[[Hg1 Hg2] _]].
      - by apply (Hnew e' g); [right|..].
      - apply (Hde eq_refl e' g He' Hu); [|destruct Hwh]; unfold in_entry in *; klia. }
    rewrite Hh1, Ht1 in *. exists m2, a2, fl2. split_and!; try done.
    + intros g Hw. rewrite Hfl2, Hfl1, exists_cons by done. clear -Eu. tauto.
    + eapply same_outside_trans; [exact Hs1|exact Hs2|]. intros x [(g & Hg & Hx)|Hx]; [|done].
      exists g. split; [|done]. assert (Hwg : PhysFrame.wf PAGE_SIZE g) by apply (inv_free Hi1 g Hg). apply Hfl2; auto.
  - destruct (IH m a fl Hi Hh Hd Hok' Ht') as (m2 & a2 & fl2 & -> & Hi2 & Hfl2 & Hr).
    { intros e' g He'. apply Hnew. by right. }
    exists m2, a2, fl2. split_and!; try done; try apply Hr. intros g Hw. rewrite Hfl2, exists_cons by done.
    rewrite Eu. clear. intuition congruence.
Qed.

(** The number of bitmap bytes for physical memory up to [M], in whole pages. *)
Definition bitmap_size_of (M : Z) : Z :=
  ((((M + PAGE_SIZE - 1) / PAGE_SIZE + 7) / 8 + PAGE_SIZE - 1) / PAGE_SIZE) * PAGE_SIZE.

Lemma div_ceil_ok x y : 0 <= x -> 0 < y -> x + y < W64 -> div_ceil x y = Ret ((x + y - 1) / y).
Proof. intros. unfold div_ceil. rewrite add_Ret by lia. cbn [obind]. rewrite sub_Ret by lia. done. Qed.

Lemma find_base_spec l n bp :
  find_base MEMMAP_USABLE l n = Some bp ->
  exists e, e ∈ l /\ usable e = true /\ n <= e_length e /\ e_base e = bp.
Proof.
  unfold find_base. destruct (filter _ l) as [|e l'] eqn:E; [done|]. intros [= <-].
  assert (Hin : e ∈ filter (fun e => usable e = true /\ n <= e_length e) l) by (rewrite E; left).
  apply list_elem_of_filter in Hin as [[? ?] ?]. exists e. by split_and!.
Qed.

(** [init] on a map as the boot protocol describes it. *)
(** What [init] logs, with the number of free frames. *)
Definition memory_records (M bp nfree : Z) : list log_record :=
  let total := (M + PAGE_SIZE - 1) / PAGE_SIZE in
  let bytes := (total + 7) / 8 in
  [memory_record M total bytes ((bytes + PAGE_SIZE - 1) / PAGE_SIZE); bitmap_record bp (bitmap_size_of M);
   ready_record nfree total (nfree * PAGE_SIZE) (total * PAGE_SIZE)].

Lemma mm_init_ok w memmap hhdm M bp :
  locked w = false -> frame_allocator w = None -> memmap_ok memmap hhdm -> 0 < M ->
  (exists e, e ∈ memmap /\ usable e = true /\ e_end e = M) ->
  (forall e, e ∈ memmap -> usable e = true -> e_end e <= M) ->
  find_base MEMMAP_USABLE memmap (bitmap_size_of M) = Some bp ->
  exists w' free, mm_init MEMMAP_USABLE w memmap hhdm = Ret (w', Logged <$> memory_records M bp (Z.of_nat (size free))) /\ mm_state w' free ∅ /\
    mm_total_frames w' = Ret ((M + PAGE_SIZE - 1) / PAGE_SIZE) /\ hhdm_offset w' = hhdm /\
    (exists e, e ∈ memmap /\ usable e = true /\ e_base e = bp /\ bp + bitmap_size_of M <= e_end e) /\
    (forall f, PhysFrame.wf PAGE_SIZE f ->
       f ∈ free <-> off_bitmap bp (bp + bitmap_size_of M) f /\ exists e, e ∈ memmap /\ usable e = true /\ whole e f) /\
    same_outside (fun x => exists f, f ∈ free /\ in_frame hhdm f x) (memory w) (memory w').
Proof.
  intros Hl Hn (Hh & Hd & Hok) HMpos (eM & HeM & HuM & HM) Hmax Hf.
  destruct (find_base_spec _ _ _ Hf) as (eb & Heb & Hub & Hlb & Hbp).
  pose proof (Hok _ HeM HuM) as (HM1 & HM2 & HM3 & HM4). pose proof (Hok _ Heb Hub) as (Hb1 & Hb2 & Hb3 & Hb4).
  rewrite PhysAddr_MAX_val in HM3, Hb3. unfold e_end in HM, HM3, HM4, Hb3, Hb4.
  assert (Hsz : 0 < bitmap_size_of M /\ (M + PAGE_SIZE - 1) / PAGE_SIZE <= 8 * bitmap_size_of M /\
                bitmap_size_of M < 2 ^ 60) by (unfold bitmap_size_of; change (2 ^ 60) with 1152921504606846976; klia).
  destruct Hsz as (Hsz0 & Hsz1 & Hsz2). change (2 ^ 60) with 1152921504606846976 in Hsz2.
  unfold mm_init, lock. rewrite Hl. cbn [obind frame_allocator with_lock]. rewrite Hn. cbn [assert_ obind].
  destruct (max_end_ok hhdm memmap None Hh Hok) as (r & -> & _ & Hge & Hat). cbn [obind].
  destruct (Hge _ HeM HuM) as (M' & -> & HMM). assert (M' = M) as ->.
  { destruct (Hat M' eq_refl) as [?|(e & He & Hu & HE)]; [done|]. specialize (Hmax e He Hu). unfold e_end in *. lia. }
  cbn [expect obind]. rewrite div_ceil_ok by klia. cbn [obind]. rewrite add_Ret by klia. cbn [obind].
  rewrite div_ceil_ok by klia. cbn [obind]. rewrite mul_Ret by (fold (bitmap_size_of M); lia).
  fold (bitmap_size_of M). cbn [obind]. rewrite Hf. cbn [expect obind]. rewrite add_Ret by lia. cbn [obind].
  destruct (bitmap_new_ok (replicate (Z.to_nat (bitmap_size_of M)) 0) hhdm M (memory w)) as (a & -> & Hi & Ht & Hha).
  { intros b Hb. by apply elem_of_replicate in Hb as [-> _]. }
  { rewrite PhysAddr_MAX_val. klia. }
  { rewrite length_replicate, Z2Nat.id by lia. done. }
  cbn [obind]. rewrite add_Ret by lia. cbn [obind]. change (memory (with_lock w true)) with (memory w).
  destruct (add_entries_ok (memory w) a [] bp (bp + bitmap_size_of M) memmap Hi) as (m' & a' & fl & -> & Hi' & Hfl & Hs & Hh' & Ht');
    rewrite ?Hha, ?Ht; try done; try lia.
  { intros e He Hu. specialize (Hmax e He Hu). klia. }
  { intros. apply not_elem_of_nil. }
  cbn [obind]. rewrite Hha in *.
  assert (Hst : fa_state hhdm m' a' (list_to_set fl) ∅) by (exists fl; split_and!; [done| |by rewrite Hh']; done).
  pose proof (fa_free_frames _ _ _ _ _ Hst) as Hff. pose proof (fa_total_frames _ _ _ _ _ Hst) as Hcap.
  rewrite size_empty in Hcap. cbn [free_frames total_frames bitmap_frame_allocator] in Hff, Hcap.
  unfold BitmapAllocator.total_frames in Hcap |- *. rewrite Ht', Ht in Hcap |- *. rewrite Hff, !mul_Ret by klia. cbn [obind].
  eexists _, (list_to_set fl). split; [reflexivity|]. split_and!; try done.
  - split; [done|]. by exists a'.
  - unfold mm_total_frames, lock. cbn. unfold BitmapAllocator.total_frames. by rewrite Ht', Ht.
  - exists eb. split_and!; try done. unfold e_end. lia.
  - intros f Hw. rewrite elem_of_list_to_set, Hfl by done. rewrite elem_of_nil. tauto.
  - eapply same_outside_weaken; [exact Hs|]. cbn. intros x (g & Hg & Hx). exists g. by rewrite elem_of_list_to_set.
Qed.

(** C12: [init] hands out all usable memory except the bitmap.  With a memory
    map as the boot protocol describes it, and a usable entry large enough for
    the bitmap, it returns with the lock free and an initialised allocator that
    tracks all frames up to the highest usable address.  The bitmap lies inside
    the usable entry, and the free frames are exactly the whole frames inside
    usable entries that do not touch the bitmap; no frame is handed out twice,
    none is in use, and only free frames have been written. *)
Theorem init_frees_usable_memory w memmap hhdm M bp :
  locked w = false -> frame_allocator w = None -> memmap_ok memmap hhdm -> 0 < M ->
  (exists e, e ∈ memmap /\ usable e = true /\ e_end e = M) ->
  (forall e, e ∈ memmap -> usable e = true -> e_end e <= M) ->
  find_base MEMMAP_USABLE memmap (bitmap_size_of M) = Some bp ->
  exists w' free, mm_init MEMMAP_USABLE w memmap hhdm = Ret (w', Logged <$> memory_records M bp (Z.of_nat (size free))) /\ mm_state w' free ∅ /\
    mm_total_frames w' = Ret ((M + PAGE_SIZE - 1) / PAGE_SIZE) /\ hhdm_offset w' = hhdm /\
    (exists e, e ∈ memmap /\ usable e = true /\ e_base e = bp /\ bp + bitmap_size_of M <= e_end e) /\
    (forall f, PhysFrame.wf PAGE_SIZE f ->
       f ∈ free <-> off_bitmap bp (bp + bitmap_size_of M) f /\ exists e, e ∈ memmap /\ usable e = true /\ whole e f) /\
    same_outside (fun x => exists f, f ∈ free /\ in_frame hhdm f x) (memory w) (memory w').
Proof. apply mm_init_ok. Qed.

End spec.

(** ** Witness: two usable entries and a reserved one *)
Module InitDemo.

Definition USABLE : Z := 0.
Definition hhdm : Z := 0xffff800000000000.
Definition map0 : list entry := [mk_entry 0x1000 0x5000 0; mk_entry 0x6000 0x2000 1; mk_entry 0x8000 0x4800 0].
Definition w0 : world BitmapAllocator.t := mk_world ∅ false None 0 [].

Lemma map0_cases e : e ∈ map0 -> e = mk_entry 0x1000 0x5000 0 \/ e = mk_entry 0x6000 0x2000 1 \/ e = mk_entry 0x8000 0x4800 0.
Proof. unfold map0. rewrite !elem_of_cons, elem_of_nil. tauto. Qed.

Lemma map0_ok : memmap_ok USABLE map0 hhdm.
Proof.
  split; [done|]. split.
  - cbn -[elem_of]. split_and!; try done; intros _ e' x He' Hu; unfold in_entry, e_end;
      rewrite ?elem_of_cons, ?elem_of_nil in He'; destruct_or?; subst; cbn; try done; lia.
  - intros e [->|[->| ->]]%map0_cases Hu; try done; unfold entry_ok, e_end; rewrite PhysAddr_MAX_val;
      cbn [e_base e_length]; unfold hhdm, PAGE_SIZE; lia.
Qed.

End InitDemo.

Lemma init_frees_usable_memory_witness :
  exists w' out free, mm_init InitDemo.USABLE InitDemo.w0 InitDemo.map0 InitDemo.hhdm = Ret (w', out) /\ mm_state w' free ∅ /\
    (0x2000 ∈ free) /\ (0x1000 ∉ free) /\ 0xc000 ∉ free.
Proof.
  destruct (init_frees_usable_memory InitDemo.USABLE InitDemo.w0 InitDemo.map0 InitDemo.hhdm 0xc800 0x1000
              eq_refl eq_refl InitDemo.map0_ok ltac:(lia)) as (w' & free & E & Hm & _ & _ & _ & Hfree & _).
  - exists (mk_entry 0x8000 0x4800 0). split_and!; [|done|done]. right. right. left.
  - intros e [->|[->| ->]]%InitDemo.map0_cases _; unfold e_end; cbn; lia.
  - reflexivity.
  - exists w', (Logged <$> memory_records 0xc800 0x1000 (Z.of_nat (size free))), free. change (bitmap_size_of 0xc800) with 4096 in Hfree.
    assert (Hwf : forall f, 0 <= f < 0x100000 -> f mod PAGE_SIZE = 0 -> PhysFrame.wf PAGE_SIZE f).
    { intros f Hf Hp. split; [unfold PhysAddr.valid; rewrite PhysAddr_MAX_val; lia|done]. }
    split; [exact E|]. split; [exact Hm|]. unfold off_bitmap, whole, e_end in Hfree. split_and!.
    + apply Hfree; [apply Hwf; [lia|reflexivity]|]. split; [unfold PAGE_SIZE; lia|].
      exists (mk_entry 0x1000 0x5000 0). split_and!; [left|reflexivity|cbn; lia|cbn; unfold PAGE_SIZE; lia].
    + rewrite Hfree by (apply Hwf; [lia|reflexivity]). intros [Hoff _]. unfold PAGE_SIZE in Hoff. lia.
    + rewrite Hfree by (apply Hwf; [lia|reflexivity]). intros [_ (e & He & _ & H1 & H2)].
      apply InitDemo.map0_cases in He as [->|[->| ->]]; cbn in H1, H2; unfold PAGE_SIZE in H2; lia.
Defined.
