(* ===== verification/Io.v ===== *)
(** * Port I/O (eira/src/arch/x86_64/io.rs)

    What has been read from and written to the ports so far is a list of
    events.  A device answers a read as a function of that history: the value
    [inp h port] of the port after the history [h]. *)

From S2P Require Import Prelude.

Inductive io := In (port val : Z) | Out (port val : Z).

Definition outb (h : list io) (port val : Z) : list io := h ++ [Out port val].

Definition inb (inp : list io -> Z -> Z) (h : list io) (port : Z) : Z * list io :=
  let val := inp h port in (val, h ++ [In port val]).
