(* ===== verification/Gdt.v ===== *)
(** * Segment descriptors, the TSS and its stacks (eira/src/arch/x86_64/gdt.rs)

    Descriptors are 64-bit words built with shifts and bitwise or, as in the
    source.  The addresses of the tables and of the stack storage inside
    [CpuTables] are chosen by the compiler and are parameters of [load];
    [CpuStacks] is [repr(C)], so the stacks follow each other in its storage.

    The theorems read the descriptors back the way the processor does, with the
    bit layout that the comment in [Gdt::set_tss] gives. *)

From S2P Require Import Prelude Fmt Log.

Definition IST_STACK_SIZE : Z := 16 * 1024.
Definition IST_COUNT : nat := 7.

Definition IST_DF : Z := 1.
Definition IST_NMI : Z := 2.
Definition IST_MCE : Z := 3.
Definition IST_SS : Z := 4.
Definition IST_GP : Z := 5.
Definition IST_PF : Z := 6.
Definition IST_BP : Z := 7.

Definition KCODE_SELECTOR : Z := Z.shiftl 1 3.
Definition KDATA_SELECTOR : Z := Z.shiftl 2 3.
Definition TSS_SELECTOR : Z := Z.shiftl 3 3.

Definition PRESENT : Z := Z.shiftl 1 47.
Definition DPL0 : Z := Z.shiftl 0 45.
Definition CODE_DATA_TYPE : Z := Z.shiftl 1 44.
Definition LONG_MODE : Z := Z.shiftl 1 53.
Definition EXECUTABLE : Z := Z.shiftl 1 43.
Definition RW : Z := Z.shiftl 1 41.
Definition SYSTEM_TYPE : Z := Z.shiftl 0 44.
Definition TSS_AVAILABLE : Z := Z.shiftl 9 40.

Definition KCODE_DESC : Z :=
  Z.lor (Z.lor (Z.lor (Z.lor (Z.lor PRESENT DPL0) CODE_DATA_TYPE) EXECUTABLE) RW) LONG_MODE.
Definition KDATA_DESC : Z := Z.lor (Z.lor (Z.lor PRESENT DPL0) CODE_DATA_TYPE) RW.

Module Tss.

Record t := mk { rsp0 : Z; ist : list Z; iomap_base : Z }.

(** [repr(C, packed)]: the reserved fields count. *)
Definition size_of : Z := 4 + 8 + 8 + 8 + 8 + 8 * Z.of_nat IST_COUNT + 8 + 2 + 2.

Definition new : t := mk 0 (replicate IST_COUNT 0) size_of.

End Tss.

Module Gdt.

Record t := mk { null : Z; kcode : Z; kdata : Z; tss_low : Z; tss_high : Z }.

(** Five words, rounded up to the alignment of 16. *)
Definition size_of : Z := round_up (5 * 8) 16.

Definition new : t := mk 0 KCODE_DESC KDATA_DESC 0 0.

Definition set_tss (self : t) (base : Z) : t :=
  let limit := Tss.size_of - 1 in
  let low :=
    Z.lor (Z.lor (Z.lor (Z.lor (Z.lor (Z.lor
      (Z.land limit 0xFFFF)
      (Z.shiftl (Z.land base 0xFFFFFF) 16))
      SYSTEM_TYPE)
      TSS_AVAILABLE)
      PRESENT)
      (Z.shiftl (Z.shiftr limit 16) 48))
      (Z.shiftl (Z.land (Z.shiftr base 24) 0xFF) 56) in
  let high := Z.shiftr base 32 in
  mk (null self) (kcode self) (kdata self) low high.

(** [GdtPointer]: limit and base. *)
Definition pointer (gdt_addr : Z) : Z * Z := (size_of - 1, gdt_addr).

(** The words of the table, by index. *)
Definition words (self : t) : list Z := [null self; kcode self; kdata self; tss_low self; tss_high self].

End Gdt.

(** The segment state that [load] sets. *)
Record segments := mk_segments {
  gdtr : Z * Z; cs : Z; ds : Z; es : Z; fs : Z; gs : Z; ss : Z; tr : Z;
}.

Module CpuTables.

Record t := mk { gdt : Gdt.t; tss : Tss.t }.

Definition new : t := mk Gdt.new Tss.new.

(** [for i in 0..IST_COUNT]; [n] iterations are left. *)
Fixpoint fill_ist (n : nat) (stacks : Z) (ist : list Z) : outcome (list Z) :=
  match n with
  | O => Ret ist
  | S n =>
      let i := (IST_COUNT - S n)%nat in
      let! stack_top := add_ (stacks + Z.of_nat i * IST_STACK_SIZE) IST_STACK_SIZE in
      fill_ist n stacks (<[i := stack_top]> ist)
  end.

Definition load (self : t) (gdt_addr tss_addr stacks : Z) : outcome (t * segments * list output) :=
  let! ist := fill_ist IST_COUNT stacks (Tss.ist (tss self)) in
  let! rsp0 := add_ (stacks + Z.of_nat IST_COUNT * IST_STACK_SIZE) IST_STACK_SIZE in
  let tss := Tss.mk rsp0 ist (Tss.iomap_base (tss self)) in
  let gdt := Gdt.set_tss (gdt self) tss_addr in
  Ret (mk gdt tss,
       mk_segments (Gdt.pointer gdt_addr) KCODE_SELECTOR KDATA_SELECTOR KDATA_SELECTOR
         KDATA_SELECTOR KDATA_SELECTOR KDATA_SELECTOR TSS_SELECTOR,
       [Logged (debug "eira::arch::x86_64::gdt"
                  (bytes "gdt/tss loaded on cpu (gdt=" ++ hex gdt_addr ++ bytes ", tss=" ++ hex tss_addr ++ bytes ")"))]).

End CpuTables.

(** ** Reading descriptors back *)
Section decode.

(** Bits [lo, lo + n) of a word. *)
Definition field (x lo n : Z) : Z := x / 2 ^ lo mod 2 ^ n.

Definition desc_limit (low : Z) : Z := field low 0 16 + field low 48 4 * 2 ^ 16.
Definition desc_base (low high : Z) : Z := field low 16 24 + field low 56 8 * 2 ^ 24 + field high 0 32 * 2 ^ 32.
Definition desc_type (low : Z) : Z := field low 40 4.
Definition desc_system (low : Z) : bool := field low 44 1 =? 0.
Definition desc_dpl (low : Z) : Z := field low 45 2.
Definition desc_present (low : Z) : bool := field low 47 1 =? 1.
Definition desc_long (low : Z) : bool := field low 53 1 =? 1.
Definition desc_executable (low : Z) : bool := field low 43 1 =? 1.
Definition desc_writable (low : Z) : bool := field low 41 1 =? 1.

(** The descriptor a selector names: index in bits 3 and up. *)
Definition selected (g : Gdt.t) (selector : Z) : option Z := Gdt.words g !! Z.to_nat (selector / 8).

Lemma lor_shiftl_add a b k : 0 <= k -> 0 <= a < 2 ^ k -> Z.lor a (Z.shiftl b k) = a + b * 2 ^ k.
Proof.
  intros Hk Ha. rewrite Z.shiftl_mul_pow2 by done. rewrite <- Z.add_lor_land.
  assert (E : Z.land a (b * 2 ^ k) = 0); [|by rewrite E, Z.add_0_r].
  apply Z.bits_inj'. intros n Hn. rewrite Z.land_spec, Z.bits_0. destruct (Z.lt_ge_cases n k).
  - rewrite (Z.mul_pow2_bits_low b) by done. apply andb_false_r.
  - rewrite <- (Z.mod_small a (2 ^ k)), Z.mod_pow2_bits_high by lia. done.
Qed.

Lemma land_field x lo n : 0 <= lo -> 0 <= n -> Z.land (Z.shiftr x lo) (Z.ones n) = field x lo n.
Proof. intros. unfold field. by rewrite Z.land_ones, Z.shiftr_div_pow2. Qed.

Lemma field_bounds x lo n : 0 <= n -> 0 <= field x lo n < 2 ^ n.
Proof. intros. unfold field. apply Z.mod_pos_bound. by apply Z.pow_pos_nonneg. Qed.

(** The low word of the TSS descriptor as a sum of its fields. *)
Lemma tss_low_sum g base :
  Gdt.tss_low (Gdt.set_tss g base) =
    103 + field base 0 24 * 2 ^ 16 + 9 * 2 ^ 40 + 2 ^ 47 + field base 24 8 * 2 ^ 56.
Proof.
  cbn [Gdt.tss_low Gdt.set_tss]. change (Z.land (Tss.size_of - 1) 0xFFFF) with 103.
  change (Z.shiftl (Z.shiftr (Tss.size_of - 1) 16) 48) with 0. unfold SYSTEM_TYPE, TSS_AVAILABLE, PRESENT.
  change (Z.shiftl 0 44) with 0. rewrite !Z.lor_0_r.
  change 0xFFFFFF with (Z.ones 24). change 0xFF with (Z.ones 8).
  rewrite (land_field base 24 8) by lia.
  pose proof (field_bounds base 0 24). pose proof (field_bounds base 24 8).
  replace (Z.land base (Z.ones 24)) with (field base 0 24)
    by (unfold field; rewrite Z.land_ones, Z.pow_0_r, Z.div_1_r by lia; done).
  rewrite (lor_shiftl_add 103), (lor_shiftl_add _ 9), (lor_shiftl_add _ 1), (lor_shiftl_add _ (field base 24 8))
    by lia. lia.
Qed.

(** What the processor reads from the descriptor written by [set_tss]. *)
Lemma tss_decodes g base :
  is_u64 base ->
  let g' := Gdt.set_tss g base in
  (desc_present (Gdt.tss_low g') = true /\
   desc_base (Gdt.tss_low g') (Gdt.tss_high g') = base /\
   desc_limit (Gdt.tss_low g') = Tss.size_of - 1) /\
  desc_type (Gdt.tss_low g') = 9 /\ desc_system (Gdt.tss_low g') = true /\
  desc_dpl (Gdt.tss_low g') = 0 /\
  is_u64 (Gdt.tss_low g') /\ 0 <= Gdt.tss_high g' < 2 ^ 32.
Proof.
  intros [Hb0 Hb1] g'. pose proof (tss_low_sum g base) as E. fold g' in E. set (low := Gdt.tss_low g') in *.
  assert (Eh : Gdt.tss_high g' = base / 2 ^ 32) by (cbn; by rewrite Z.shiftr_div_pow2).
  rewrite Eh. clearbody low. change (Tss.size_of - 1) with 103.
  assert (Hf1 : field base 0 24 = base mod 2 ^ 24) by (unfold field; by rewrite Z.pow_0_r, Z.div_1_r).
  assert (Hf2 : field base 24 8 = base / 2 ^ 24 mod 2 ^ 8) by done.
  rewrite Hf1, Hf2 in E. clear Hf1 Hf2.
  unfold desc_base, desc_limit, desc_type, desc_system, desc_dpl, desc_present, field, is_u64.
  change (2 ^ 0) with 1. change (2 ^ 1) with 2. change (2 ^ 2) with 4. change (2 ^ 4) with 16.
  change (2 ^ 8) with 256 in *. change (2 ^ 16) with 65536 in *. change (2 ^ 24) with 16777216 in *.
  change (2 ^ 32) with 4294967296 in *. change (2 ^ 40) with 1099511627776 in *.
  change (2 ^ 44) with 17592186044416. change (2 ^ 45) with 35184372088832.
  change (2 ^ 47) with 140737488355328 in *. change (2 ^ 48) with 281474976710656.
  change (2 ^ 56) with 72057594037927936 in *. rewrite !Z.eqb_eq.
  split_and!; try done; zlia.
Qed.

(** The exception stacks of a loaded TSS: IST1 to IST7, then RSP0. *)
Definition stack_tops (t : Tss.t) : list Z := Tss.ist t ++ [Tss.rsp0 t].

Lemma fill_ist_ok stacks :
  stacks + 8 * IST_STACK_SIZE < W64 -> 0 <= stacks ->
  CpuTables.fill_ist IST_COUNT stacks (replicate IST_COUNT 0) =
    Ret ((fun i => stacks + Z.of_nat (S i) * IST_STACK_SIZE) <$> seq 0 7).
Proof.
  intros Hs H0. unfold IST_COUNT, IST_STACK_SIZE in *. cbn [CpuTables.fill_ist].
  do 7 (rewrite add_Ret by (unfold IST_COUNT, IST_STACK_SIZE; cbn [Nat.sub Z.of_nat]; lia); cbn [obind CpuTables.fill_ist]).
  f_equal. unfold IST_COUNT, IST_STACK_SIZE. cbn -[Z.mul Z.add Z.of_nat]. repeat (f_equal; try lia).
Qed.

(** C38: after [CpuTables::load] on fresh tables the processor state is
    coherent.  The eight exception stacks (seven IST entries and RSP0) are the
    tops of eight areas of 16 KiB that are pairwise disjoint, lie in the stack
    storage and are 16-byte aligned; the code selector names a present,
    executable 64-bit descriptor of level 0, the data selectors a present
    writable one, and the task register the descriptor of this TSS; all of them
    lie within the limit given to [lgdt]. *)
Theorem gdt_load_coherent gdt_addr tss_addr stacks :
  is_u64 tss_addr -> 0 <= stacks -> stacks mod 16 = 0 -> stacks + 8 * IST_STACK_SIZE < W64 ->
  exists t seg out, CpuTables.load CpuTables.new gdt_addr tss_addr stacks = Ret (t, seg, out) /\
    length (stack_tops (CpuTables.tss t)) = 8%nat /\
    (forall i x, stack_tops (CpuTables.tss t) !! i = Some x ->
       x mod 16 = 0 /\ stacks <= x - IST_STACK_SIZE /\ x <= stacks + 8 * IST_STACK_SIZE) /\
    (forall i j x y, stack_tops (CpuTables.tss t) !! i = Some x -> stack_tops (CpuTables.tss t) !! j = Some y ->
       (i < j)%nat -> x <= y - IST_STACK_SIZE) /\
    (exists d, selected (CpuTables.gdt t) (cs seg) = Some d /\ desc_present d = true /\ desc_system d = false /\
       desc_executable d = true /\ desc_long d = true /\ desc_dpl d = 0) /\
    (forall r, r ∈ [ds seg; es seg; fs seg; gs seg; ss seg] ->
       exists d, selected (CpuTables.gdt t) r = Some d /\ desc_present d = true /\ desc_system d = false /\
         desc_executable d = false /\ desc_writable d = true /\ desc_dpl d = 0) /\
    (exists low high, selected (CpuTables.gdt t) (tr seg) = Some low /\
       selected (CpuTables.gdt t) (tr seg + 8) = Some high /\ desc_present low = true /\
       desc_base low high = tss_addr /\ desc_limit low = Tss.size_of - 1) /\
    gdtr seg = (Gdt.size_of - 1, gdt_addr) /\ cs seg + 7 <= Gdt.size_of - 1 /\ tr seg + 15 <= Gdt.size_of - 1.
Proof.
  intros Ht H0 Hm Hs. unfold CpuTables.load. cbn [CpuTables.tss CpuTables.new Tss.ist Tss.new].
  rewrite fill_ist_ok by done. cbn [obind]. rewrite add_Ret by (unfold IST_COUNT, IST_STACK_SIZE in *; lia). cbn [obind].
  eexists _, _, _. split; [reflexivity|]. cbn [CpuTables.tss CpuTables.gdt cs ds es fs gs ss tr gdtr].
  set (tops := stack_tops _).
  assert (Etops : tops = (fun i => stacks + Z.of_nat (S i) * IST_STACK_SIZE) <$> seq 0 8).
  { subst tops. unfold stack_tops, IST_COUNT. cbn. repeat (f_equal; try (unfold IST_STACK_SIZE; lia)). }
  assert (Hlk : forall i x, tops !! i = Some x -> (i < 8)%nat /\ x = stacks + Z.of_nat (S i) * IST_STACK_SIZE).
  { intros i x Hx. rewrite Etops, list_lookup_fmap in Hx. apply fmap_Some in Hx as (j & Hj & ->).
    apply lookup_seq in Hj as [-> Hj]. done. }
  split_and!.
  - by rewrite Etops.
  - intros i x [Hi ->]%Hlk. unfold IST_STACK_SIZE in *. split_and!; zlia.
  - intros i j x y [Hi ->]%Hlk [Hj ->]%Hlk Hij. unfold IST_STACK_SIZE. lia.
  - eexists. split; [reflexivity|]. by vm_compute.
  - intros r Hr. assert (r = KDATA_SELECTOR) as -> by (rewrite !elem_of_cons, elem_of_nil in Hr; tauto).
    eexists. split; [reflexivity|]. by vm_compute.
  - eexists _, _. split; [reflexivity|]. split; [reflexivity|]. by apply tss_decodes.
  - done.
  - by vm_compute.
  - by vm_compute.
Qed.

End decode.

Lemma gdt_load_coherent_witness :
  exists t seg out, CpuTables.load CpuTables.new 0xffffffff80001000 0xffffffff80001040 0xffffffff80002000 = Ret (t, seg, out) /\
    length (stack_tops (CpuTables.tss t)) = 8%nat.
Proof.
  destruct (gdt_load_coherent 0xffffffff80001000 0xffffffff80001040 0xffffffff80002000) as (t & seg & out & E & Hl & _).
  - by vm_compute.
  - lia.
  - reflexivity.
  - unfold IST_STACK_SIZE. lia.
  - exists t, seg, out. split; [exact E|exact Hl].
Defined.
