(* ===== verification/Trap.v ===== *)
(** * Interrupts (eira/src/arch/x86_64/idt.rs, irq.rs, pic.rs)

    Three parts.  The gate descriptors and the table that [Idt::populate]
    builds.  The assembly path of an interrupt, from the stub of its vector
    through [isr_common] to [iretq], instruction by instruction on a register
    file and the machine memory; the call of [trap_handler] in its middle is a
    parameter with the calling convention as its contract.  And
    [trap_handler] itself with the registry of IRQ handlers and the
    end-of-interrupt commands, on a log of the handler calls and port writes. *)

From S2P Require Import Prelude Fmt Log Memory Io Gdt.

(** ** The table *)
Definition INTERRUPT_GATE : Z := 0x8E.

Module IdtEntry.

Record t := mk { offset_low : Z; selector : Z; ist : Z; flags : Z; offset_mid : Z; offset_high : Z }.

Definition missing : t := mk 0 0 0 0 0 0.

(** [as u16] and [as u32] keep the low bits. *)
Definition new (handler ist : Z) : t :=
  let addr := handler in
  mk (Z.land addr 0xFFFF) KCODE_SELECTOR (Z.land ist 7) INTERRUPT_GATE
     (Z.land (Z.shiftr addr 16) 0xFFFF) (Z.land (Z.shiftr addr 32) 0xFFFFFFFF).

End IdtEntry.

Module Idt.

Definition t : Type := list IdtEntry.t.

Definition new : t := replicate 256 IdtEntry.missing.

(** [entries[vector] = ..] checks the index. *)
Definition set (self : t) (vector : Z) (handler ist : Z) : outcome t :=
  let! _ := assert_ (Z.to_nat vector <? length self)%nat "index out of bounds" in
  Ret (<[Z.to_nat vector := IdtEntry.new handler ist]> self).

(** Vector and IST of the calls of [populate], in order; the handler of vector
    [n] is [isr_stub_n]. *)
Definition vectors : list (Z * Z) :=
  [(0, 0); (1, 0); (2, IST_NMI); (3, IST_BP); (4, 0); (5, 0); (6, 0); (7, 0);
   (8, IST_DF); (9, 0); (10, 0); (11, 0); (12, IST_SS); (13, IST_GP); (14, IST_PF); (15, 0);
   (16, 0); (17, 0); (18, IST_MCE); (19, 0); (20, 0); (21, 0); (22, 0); (23, 0);
   (24, 0); (25, 0); (26, 0); (27, 0); (28, 0); (29, 0); (30, 0); (31, 0); (32, 0); (33, 0)].

Fixpoint set_all (isr_stub : Z -> Z) (l : list (Z * Z)) (self : t) : outcome t :=
  match l with
  | [] => Ret self
  | (v, i) :: l => let! self := set self v (isr_stub v) i in set_all isr_stub l self
  end.

Definition populate (isr_stub : Z -> Z) (self : t) : outcome t := set_all isr_stub vectors self.

(** 256 entries of 16 bytes. *)
Definition size_of : Z := 256 * 16.

(** [load] populates the table and returns what [lidt] is given, and its log
    record, with the address in the format [{:#p}]. *)
Definition load (isr_stub : Z -> Z) (self : t) (idt_addr : Z) : outcome (t * (Z * Z) * list output) :=
  let! self := populate isr_stub self in
  let ptr := (size_of - 1, idt_addr) in
  Ret (self, ptr, [Logged (debug "eira::arch::x86_64::idt" (bytes "IDT loaded (base=" ++ hex idt_addr ++ bytes ")"))]).

End Idt.

(** ** The assembly path *)

(** The general and the SSE registers, which [enable_sse] makes available and
    the target's code generator uses; it has no use for the x87 registers. *)
Inductive reg :=
| RAX | RBX | RCX | RDX | RSI | RDI | RBP | R8 | R9 | R10 | R11 | R12 | R13 | R14 | R15
| RSP | RIP | CS | RFLAGS | SS
| XMM (i : nat) | MXCSR.

Definition simd (r : reg) : bool := match r with XMM _ | MXCSR => true | _ => false end.

#[export] Instance reg_eq_dec : EqDecision reg.
Proof. solve_decision. Defined.

Module Isr.

Definition regfile : Type := reg -> Z.
Definition machine : Type := regfile * mem.

Definition put (r : reg) (v : Z) (f : regfile) : regfile := fun x => if decide (x = r) then v else f x.

Definition push_val (v : Z) (s : machine) : machine :=
  let sp := (s.1 RSP - 8) mod W64 in
  (put RSP sp s.1, write64 s.2 sp v).
Definition push (r : reg) (s : machine) : machine := push_val (s.1 r) s.
Definition pop (r : reg) (s : machine) : machine :=
  let sp := s.1 RSP in
  (put RSP ((sp + 8) mod W64) (put r (read64 s.2 sp) s.1), s.2).
Definition mov (dst src : reg) (s : machine) : machine := (put dst (s.1 src) s.1, s.2).
Definition mov_val (dst : reg) (v : Z) (s : machine) : machine := (put dst v s.1, s.2).

Definition push_all (rs : list reg) (s : machine) : machine := foldl (fun s r => push r s) s rs.
Definition pop_all (rs : list reg) (s : machine) : machine := foldl (fun s r => pop r s) s rs.

Definition pushes : list reg := [RBP; RAX; RBX; RCX; RDX; RSI; RDI; R8; R9; R10; R11; R12; R13; R14; R15].
Definition pops : list reg := [R15; R14; R13; R12; R11; R10; R9; R8; RDI; RSI; RDX; RCX; RBX; RAX; RBP].

(** [iretq] pops these five. *)
Definition iretq (s : machine) : machine :=
  let sp := s.1 RSP in
  let at_ k := read64 s.2 ((sp + k) mod W64) in
  (put SS (at_ 32) (put RSP (at_ 24) (put RFLAGS (at_ 16) (put CS (at_ 8) (put RIP (at_ 0) s.1)))), s.2).

(** [isr_common] up to the call. *)
Definition save (cr2 cr3 : Z) (s : machine) : machine :=
  let s := push_all pushes s in
  let s := mov_val RAX cr3 s in
  let s := push RAX s in
  let s := mov_val RAX cr2 s in
  let s := push RAX s in
  let s := mov RDI RSP s in
  let s := mov RBX RSP s in
  (put RSP (Z.land (s.1 RSP) (not64 15)) s.1, s.2).

(** [isr_common] after the call. *)
Definition restore (s : machine) : machine :=
  let s := mov RSP RBX s in
  let s := pop RAX s in
  let s := pop RAX s in
  let s := pop_all pops s in
  let s := (put RSP ((s.1 RSP + 16) mod W64) s.1, s.2) in
  iretq s.

Section path.
(** [call trap_handler], with the frame pointer in [RDI]. *)
Context (call : machine -> outcome machine) (cr2 cr3 : Z).

Definition isr_common (s : machine) : outcome machine :=
  let! s := call (save cr2 cr3 s) in
  Ret (restore s).

Definition isr_no_err (vec : Z) (s : machine) : outcome machine :=
  isr_common (push_val vec (push_val 0 s)).
Definition isr_with_err (vec : Z) (s : machine) : outcome machine := isr_common (push_val vec s).

(** Which macro defines the stub of a vector. *)
Definition with_err (vec : Z) : bool :=
  match vec with
  | 8 | 10 | 11 | 12 | 13 | 14 | 17 | 21 | 29 | 30 => true
  | _ => false
  end.

Definition isr_stub (vec : Z) (s : machine) : outcome machine :=
  if with_err vec then isr_with_err vec s else isr_no_err vec s.

(** The state at the call. *)
Definition called (vec : Z) (s : machine) : machine :=
  save cr2 cr3 (if with_err vec then push_val vec s else push_val vec (push_val 0 s)).

Lemma stub_called vec s : isr_stub vec s = let! s := call (called vec s) in Ret (restore s).
Proof. unfold isr_stub, isr_with_err, isr_no_err, isr_common, called. by destruct (with_err vec). Qed.

End path.
Arguments called (cr2 cr3 vec s) : assert.

End Isr.

(** [ExceptionFrame]: the fields in memory order. *)
Module ExceptionFrame.

Record t := mk {
  cr2 : Z; cr3 : Z; r15 : Z; r14 : Z; r13 : Z; r12 : Z; r11 : Z; r10 : Z; r9 : Z; r8 : Z;
  rdi : Z; rsi : Z; rdx : Z; rcx : Z; rbx : Z; rax : Z; rbp : Z; vector : Z; error_code : Z;
  rip : Z; cs : Z; rflags : Z; rsp : Z; ss : Z;
}.

(** The structure behind a pointer ([repr(C)], all fields are words). *)
Definition read (m : mem) (p : Z) : t :=
  let w i := read64 m (p + 8 * i) in
  mk (w 0) (w 1) (w 2) (w 3) (w 4) (w 5) (w 6) (w 7) (w 8) (w 9) (w 10) (w 11) (w 12) (w 13) (w 14) (w 15)
     (w 16) (w 17) (w 18) (w 19) (w 20) (w 21) (w 22) (w 23).

End ExceptionFrame.

(** ** The dispatcher *)
Definition IRQ_BASE : Z := 32.
Definition IRQ_MAX : nat := 224.

Definition PIC1_COMMAND : Z := 0x20.
Definition PIC2_COMMAND : Z := 0xA0.

Inductive event := Called (handler : Z) | Port (e : io) | Said (o : output).

Module Irq.

(** [IRQ_HANDLERS] and what has happened so far. *)
Record t := mk { handlers : list Z; log : list event }.

Definition EMPTY : t := mk (replicate IRQ_MAX 0) [].

Definition outb (self : t) (port val : Z) : t := mk (handlers self) (log self ++ [Port (Out port val)]).

(** The log records. *)
Definition registered (irq : Z) : event :=
  Said (Logged (debug "eira::arch::x86_64::irq" (bytes "Registered IRQ handler for line " ++ decimal irq))).
Definition unhandled (irq : Z) : event :=
  Said (Logged (warn "eira::arch::x86_64::irq" (bytes "unhandled irq received: " ++ decimal irq))).

Definition register_irq (self : t) (irq handler : Z) : outcome t :=
  let! _ := assert_ (Z.to_nat irq <? IRQ_MAX)%nat "IRQ out of bounds" in
  Ret (mk (<[Z.to_nat irq := handler]> (handlers self)) (log self ++ [registered irq])).

Section dispatch.
(** What a handler function does. *)
Context (run : Z -> t -> outcome t).

Definition dispatch (self : t) (irq : Z) : outcome t :=
  if (IRQ_MAX <=? Z.to_nat irq)%nat then Ret self
  else
    let! ptr := expect (handlers self !! Z.to_nat irq) "index out of bounds" in
    if negb (ptr =? 0) then run ptr (mk (handlers self) (log self ++ [Called ptr]))
    else Ret (mk (handlers self) (log self ++ [unhandled irq])).

Definition send_eoi (self : t) (irq : Z) : t :=
  let self := if 8 <=? irq then outb self PIC2_COMMAND 0x20 else self in
  outb self PIC1_COMMAND 0x20.

(** A CPU exception prints the frame and halts for ever. *)
Definition trap_handler (self : t) (frame : ExceptionFrame.t) : outcome t :=
  let vector := Z.land (ExceptionFrame.vector frame) 0xFF in
  if vector <? IRQ_BASE then Hang
  else
    let irq_line := vector - IRQ_BASE in
    let! self := dispatch self irq_line in
    Ret (send_eoi self irq_line).

End dispatch.

End Irq.

(** ** The interrupt descriptor table *)
Section table.

(** A gate as the processor reads it. *)
Definition gate_offset (e : IdtEntry.t) : Z :=
  IdtEntry.offset_low e + IdtEntry.offset_mid e * 2 ^ 16 + IdtEntry.offset_high e * 2 ^ 32.
Definition gate_present (e : IdtEntry.t) : bool := field (IdtEntry.flags e) 7 1 =? 1.
Definition gate_dpl (e : IdtEntry.t) : Z := field (IdtEntry.flags e) 5 2.
Definition gate_type (e : IdtEntry.t) : Z := field (IdtEntry.flags e) 0 4.

Lemma gate_new handler i :
  is_u64 handler -> 0 <= i <= 7 ->
  let e := IdtEntry.new handler i in
  gate_offset e = handler /\ gate_present e = true /\ gate_dpl e = 0 /\ gate_type e = 0xE /\
  IdtEntry.selector e = KCODE_SELECTOR /\ IdtEntry.ist e = i.
Proof.
  intros [H0 H1] Hi e. unfold e, gate_offset. cbn [IdtEntry.offset_low IdtEntry.offset_mid IdtEntry.offset_high IdtEntry.new].
  change 0xFFFF with (Z.ones 16). change 0xFFFFFFFF with (Z.ones 32).
  rewrite !land_field by lia. unfold field. rewrite Z.land_ones by lia.
  change (2 ^ 16) with 65536. change (2 ^ 32) with 4294967296. split_and!; try done; [zlia|].
  cbn. change 7 with (Z.ones 3). rewrite Z.land_ones by lia. apply Z.mod_small. cbn. lia.
Qed.

Lemma set_all_ok isr_stub l idt :
  NoDup l.*1 -> (forall v i, (v, i) ∈ l -> 0 <= v < Z.of_nat (length idt)) ->
  exists idt', Idt.set_all isr_stub l idt = Ret idt' /\ length idt' = length idt /\
    (forall v i, (v, i) ∈ l -> idt' !! Z.to_nat v = Some (IdtEntry.new (isr_stub v) i)) /\
    (forall n, (forall v i, (v, i) ∈ l -> Z.to_nat v <> n) -> idt' !! n = idt !! n).
Proof.
  revert idt. induction l as [|[v i] l IH]; intros idt Hnd Hr; cbn [Idt.set_all].
  { exists idt. split_and!; try done. by intros v i ?%elem_of_nil. }
  cbn in Hnd. apply NoDup_cons in Hnd as [Hv Hnd]. destruct (Hr v i ltac:(left)) as [Hv0 Hv1].
  unfold Idt.set. rewrite (proj2 (Nat.ltb_lt _ _)) by lia. cbn [assert_ obind].
  set (idt1 := <[Z.to_nat v := IdtEntry.new (isr_stub v) i]> idt). assert (Hl1 : length idt1 = length idt) by (subst idt1; by rewrite length_insert).
  assert (Hdiff : forall v' i', (v', i') ∈ l -> Z.to_nat v' <> Z.to_nat v).
  { intros v' i' Hin Heq. apply Hv. apply list_elem_of_fmap. exists (v', i'). split; [|done]. cbn.
    destruct (Hr v' i') as [? _]; [by right|]. lia. }
  destruct (IH idt1) as (idt' & E & Hl' & Hset & Hother); [done| |].
  { intros v' i' Hin. rewrite Hl1. apply (Hr v' i'). by right. }
  exists idt'. split_and!; [exact E|congruence| |].
  - intros v' i' [[= -> ->]|Hin]%elem_of_cons; [|by apply Hset].
    rewrite Hother by (intros v' i' Hin; by eapply Hdiff). subst idt1. apply list_lookup_insert_eq. lia.
  - intros n Hn. rewrite Hother by (intros v' i' Hin; eapply Hn; by right).
    subst idt1. apply list_lookup_insert_ne. apply (Hn v i). left.
Qed.

(** The table after [populate]. *)
Lemma populate_ok isr_stub :
  exists idt, Idt.populate isr_stub Idt.new = Ret idt /\ length idt = 256%nat /\
    (forall v, 0 <= v < 34 -> exists i, (v, i) ∈ Idt.vectors /\ 0 <= i <= 7 /\
       idt !! Z.to_nat v = Some (IdtEntry.new (isr_stub v) i)) /\
    (forall n, (34 <= n < 256)%nat -> idt !! n = Some IdtEntry.missing).
Proof.
  unfold Idt.populate.
  assert (Hin : forall v i, (v, i) ∈ Idt.vectors -> 0 <= v < 34 /\ 0 <= i <= 7).
  { intros v i Hv. assert (Hall : Forall (fun p => 0 <= p.1 < 34 /\ 0 <= p.2 <= 7) Idt.vectors)
      by (apply (bool_decide_unpack _); vm_compute; exact I).
    rewrite Forall_forall in Hall. apply (Hall _ Hv). }
  destruct (set_all_ok isr_stub Idt.vectors Idt.new) as (idt & E & Hl & Hset & Hother).
  { apply (bool_decide_unpack _). vm_compute. exact I. }
  { intros v i [? _]%Hin. change (length Idt.new) with 256%nat. lia. }
  exists idt. split_and!; [done|by rewrite Hl| |].
  - intros v Hv. assert (Hex : v ∈ Idt.vectors.*1).
    { replace (Idt.vectors.*1) with (Z.of_nat <$> seq 0 34) by reflexivity. apply list_elem_of_fmap.
      exists (Z.to_nat v). rewrite elem_of_seq. lia. }
    apply list_elem_of_fmap in Hex as ([v' i] & -> & Hv'). exists i. split_and!; [done|by apply (Hin v')..|by apply Hset].
  - intros n Hn. rewrite Hother.
    + unfold Idt.new. apply lookup_replicate_2. lia.
    + intros v i [Hv _]%Hin. lia.
Qed.

(** [Idt::populate] installs every vector it should and only those.  Each
    of the vectors 0 to 33 gets a present interrupt gate of level 0 in the
    kernel code segment whose offset is the address of that vector's stub, with
    the IST of the assignment table; no two vectors share a dedicated stack; and
    the gates 34 to 255 stay absent. *)
Theorem idt_vectors_installed isr_stub :
  (forall v, is_u64 (isr_stub v)) ->
  exists idt, Idt.populate isr_stub Idt.new = Ret idt /\ length idt = 256%nat /\
    (forall v, 0 <= v < 34 -> exists i e, (v, i) ∈ Idt.vectors /\ idt !! Z.to_nat v = Some e /\
       gate_offset e = isr_stub v /\ gate_present e = true /\ gate_dpl e = 0 /\ gate_type e = 0xE /\
       IdtEntry.selector e = KCODE_SELECTOR /\ IdtEntry.ist e = i) /\
    (forall v v' i, (v, i) ∈ Idt.vectors -> (v', i) ∈ Idt.vectors -> i <> 0 -> v = v') /\
    (forall n, (34 <= n < 256)%nat -> exists e, idt !! n = Some e /\ gate_present e = false).
Proof.
  intros Hs. destruct (populate_ok isr_stub) as (idt & E & Hl & Hin & Hout). exists idt. split_and!; [done|done| | |].
  - intros v Hv. destruct (Hin v Hv) as (i & Hi & Hr & Hlk). exists i, (IdtEntry.new (isr_stub v) i).
    split_and!; [done|done|..]; apply gate_new; try apply Hs; lia.
  - intros v v' i Hv Hv' Hi.
    assert (Hall : Forall (fun p => Forall (fun q => p.2 = q.2 -> p.2 <> 0 -> p.1 = q.1) Idt.vectors) Idt.vectors)
      by (apply (bool_decide_unpack _); vm_compute; exact I).
    rewrite Forall_forall in Hall. specialize (Hall _ Hv). rewrite Forall_forall in Hall. by apply (Hall _ Hv').
  - intros n Hn. exists IdtEntry.missing. split; [by apply Hout|done].
Qed.

End table.

(** ** Saving and restoring registers *)
Section path.
Import Isr.
Implicit Types (f g : regfile) (m : mem) (rs : list reg).

Lemma put_eq r v f : put r v f r = v.
Proof. unfold put. by case_decide. Qed.
Lemma put_ne r v f x : x <> r -> put r v f x = f x.
Proof. intros. unfold put. by case_decide. Qed.

Lemma push_val_spec v f m :
  8 <= f RSP < W64 ->
  exists f', push_val v (f, m) = (f', write64 m (f RSP - 8) v) /\
    f' RSP = f RSP - 8 /\ forall r, r <> RSP -> f' r = f r.
Proof.
  intros H. unfold push_val. cbn [fst snd]. rewrite Z.mod_small by lia. eexists. split; [reflexivity|].
  split; [apply put_eq|]. intros r Hr. by apply put_ne.
Qed.

Lemma push_all_spec rs f m :
  RSP ∉ rs -> 8 * Z.of_nat (length rs) <= f RSP < W64 ->
  exists f' m', push_all rs (f, m) = (f', m') /\
    f' RSP = f RSP - 8 * Z.of_nat (length rs) /\ (forall r, r <> RSP -> f' r = f r) /\
    (forall i r, rs !! i = Some r -> read64 m' (f RSP - 8 * (Z.of_nat i + 1)) = f r) /\
    (forall w, ~ (f RSP - 8 * Z.of_nat (length rs) <= w < f RSP) -> read64 m' w = read64 m w).
Proof.
  revert f m. induction rs as [|r rs IH]; intros f m Hn Hr; cbn [length] in *.
  { exists f, m. cbn. split_and!; try done; lia. }
  apply not_elem_of_cons in Hn as [Hr1 Hn].
  destruct (push_val_spec (f r) f m) as (f1 & E1 & Hsp1 & Hf1); [lia|].
  destruct (IH f1 (write64 m (f RSP - 8) (f r)) Hn) as (f' & m' & E & Hsp & Hf & Hrd & Hout); [lia|].
  exists f', m'. split_and!.
  - change (push_all rs (push_val (f r) (f, m)) = (f', m')). by rewrite E1.
  - lia.
  - intros x Hx. rewrite Hf, Hf1 by done. done.
  - intros [|i] x Hx; cbn in Hx.
    + injection Hx as <-. replace (f RSP - 8 * (Z.of_nat 0 + 1)) with (f RSP - 8) by lia.
      rewrite Hout by lia. apply read_write_eq.
    + rewrite <- (Hf1 x) by (intros ->; apply Hn; by eapply list_elem_of_lookup_2).
      rewrite <- (Hrd i x Hx). f_equal. lia.
  - intros w Hw. rewrite Hout by lia. apply read_write_ne. lia.
Qed.

Lemma pop_all_spec rs f m :
  RSP ∉ rs -> NoDup rs -> 0 <= f RSP -> f RSP + 8 * Z.of_nat (length rs) < W64 ->
  exists f', pop_all rs (f, m) = (f', m) /\
    f' RSP = f RSP + 8 * Z.of_nat (length rs) /\
    (forall i r, rs !! i = Some r -> f' r = read64 m (f RSP + 8 * Z.of_nat i)) /\
    (forall r, r ∉ rs -> r <> RSP -> f' r = f r).
Proof.
  revert f. induction rs as [|r rs IH]; intros f Hn Hnd H0 Hr; cbn [length] in *.
  { exists f. cbn. split_and!; try done; lia. }
  apply not_elem_of_cons in Hn as [Hr1 Hn]. apply NoDup_cons in Hnd as [Hnr Hnd].
  assert (Hsp : (f RSP + 8) mod W64 = f RSP + 8) by (apply Z.mod_small; lia).
  set (f1 := put RSP (f RSP + 8) (put r (read64 m (f RSP)) f)).
  assert (E1 : pop r (f, m) = (f1, m)) by (unfold pop; cbn [fst snd]; by rewrite Hsp).
  assert (Hs1 : f1 RSP = f RSP + 8) by apply put_eq.
  destruct (IH f1 Hn Hnd) as (f' & E & Hsp' & Hrd & Hout); [lia|lia|].
  exists f'. split_and!.
  - change (pop_all rs (pop r (f, m)) = (f', m)). by rewrite E1.
  - lia.
  - intros [|i] x Hx; cbn in Hx.
    + injection Hx as <-. rewrite Hout by (done || congruence). subst f1. rewrite put_ne by congruence.
      rewrite put_eq. f_equal. lia.
    + rewrite (Hrd i x Hx), Hs1. f_equal. lia.
  - intros x Hx Hxs. apply not_elem_of_cons in Hx as [Hxr Hx]. rewrite Hout by done.
    subst f1. rewrite !put_ne by congruence. done.
Qed.

(** The five words the processor pushes, and [iretq] pops, from [base] up. *)
Record cpu_frame m (base : Z) f : Prop := {
  cf_rip : read64 m base = f RIP;
  cf_cs : read64 m (base + 8) = f CS;
  cf_rflags : read64 m (base + 16) = f RFLAGS;
  cf_rsp : read64 m (base + 24) = f RSP;
  cf_ss : read64 m (base + 32) = f SS;
}.

(** The saved general registers, from the frame pointer [fp] up. *)
Definition saved_gprs m (fp : Z) f : Prop :=
  forall i r, pops !! i = Some r -> read64 m (fp + 16 + 8 * Z.of_nat i) = f r.

Lemma pops_pushes i r : pops !! i = Some r -> (i < 15)%nat /\ pushes !! (14 - i)%nat = Some r.
Proof.
  intros Hi. assert (Hlt : (i < 15)%nat) by (change 15%nat with (length pops); by eapply lookup_lt_Some).
  split; [done|]. do 15 (destruct i as [|i]; [done|]). lia.
Qed.

Lemma save_ok cr2 cr3 f m base (fp := base - 152) :
  f RSP = base - 16 -> 152 <= base -> base < W64 ->
  exists f1 m1, save cr2 cr3 (f, m) = (f1, m1) /\ f1 RDI = fp /\ f1 RBX = fp /\ f1 RSP mod 16 = 0 /\
    read64 m1 fp = cr2 /\ read64 m1 (fp + 8) = cr3 /\ saved_gprs m1 fp f /\
    (forall w, base - 16 <= w -> read64 m1 w = read64 m w) /\ (forall r, simd r = true -> f1 r = f r).
Proof.
  intros Hsp Hlo Hhi. unfold save.
  destruct (push_all_spec pushes f m) as (f1 & m1 & -> & Hsp1 & Hf1 & Hrd & Hout);
    [apply (bool_decide_unpack _); vm_compute; exact I|cbn; lia|]. change (length pushes) with 15%nat in *.
  unfold mov_val, push. cbn [fst snd]. rewrite !put_eq.
  destruct (push_val_spec cr3 (put RAX cr3 f1) m1) as (f2 & -> & Hsp2 & Hf2); [rewrite put_ne by done; lia|].
  rewrite (put_ne RAX cr3 f1 RSP) in * by done. cbn [fst snd].
  destruct (push_val_spec cr2 (put RAX cr2 f2) (write64 m1 (f1 RSP - 8) cr3)) as (f3 & -> & Hsp3 & Hf3);
    [rewrite put_ne by done; lia|].
  rewrite (put_ne RAX cr2 f2 RSP) in * by done.
  rewrite Hsp2. unfold mov. cbn [fst snd]. eexists _, _. split; [reflexivity|].
  assert (Efp : f3 RSP = fp) by (subst fp; lia).
  rewrite !put_ne, !put_eq by done. split_and!; try done.
  - rewrite !put_ne by done. replace (not64 15) with (not64 (16 - 1)) by done.
    rewrite Efp, land_align_not_mask by (reflexivity || (unfold is_u64; lia)). zlia.
  - replace fp with (f1 RSP - 8 - 8) by lia. apply read_write_eq.
  - rewrite read_write_ne by lia. replace (fp + 8) with (f1 RSP - 8) by lia. apply read_write_eq.
  - intros i r Hi. destruct (pops_pushes i r Hi) as [Hlt Hp]. rewrite !read_write_ne by lia.
    rewrite <- (Hrd _ _ Hp). f_equal. lia.
  - intros w Hw. rewrite !read_write_ne by lia. apply Hout. lia.
  - intros r Hr. assert (Hn : forall x, simd x = false -> r <> x) by congruence.
    rewrite !put_ne, Hf3, put_ne, Hf2, put_ne by (by apply Hn). apply Hf1. by apply Hn.
Qed.

Lemma restore_ok f m base f0 (fp := base - 152) :
  f RBX = fp -> 152 <= base -> base + 40 < W64 -> saved_gprs m fp f0 -> cpu_frame m base f0 ->
  exists f', restore (f, m) = (f', m) /\ forall r, f' r = if simd r then f r else f0 r.
Proof.
  intros Hbx Hlo Hhi Hg [H1 H2 H3 H4 H5]. unfold restore, mov. cbn [fst snd]. rewrite Hbx.
  set (fa := put RSP fp f).
  destruct (pop_all_spec [RAX] fa m) as (fb & Eb & Hspb & _ & Hob);
    [apply (bool_decide_unpack _); vm_compute; exact I|by apply NoDup_singleton|unfold fa; rewrite put_eq; lia|unfold fa; rewrite put_eq; cbn; lia|].
  change (pop_all [RAX] (fa, m)) with (pop RAX (fa, m)) in Eb. rewrite Eb.
  unfold fa in Hspb. rewrite put_eq in Hspb. cbn [length] in Hspb.
  destruct (pop_all_spec [RAX] fb m) as (fc & Ec & Hspc & _ & Hoc);
    [apply (bool_decide_unpack _); vm_compute; exact I|by apply NoDup_singleton|lia|cbn; lia|].
  change (pop_all [RAX] (fb, m)) with (pop RAX (fb, m)) in Ec. rewrite Ec. cbn [length] in Hspc.
  destruct (pop_all_spec pops fc m) as (fd & -> & Hspd & Hrd & Hod);
    [apply (bool_decide_unpack _); vm_compute; exact I|apply (bool_decide_unpack _); vm_compute; exact I|lia|cbn; lia|].
  change (length pops) with 15%nat in Hspd. cbn [fst snd].
  replace ((fd RSP + 16) mod W64) with base by (rewrite Z.mod_small; lia).
  unfold iretq. cbn [fst snd]. rewrite put_eq. rewrite !Z.mod_small by lia. rewrite Z.add_0_r.
  eexists. split; [reflexivity|]. rewrite H1, H2, H3, H4, H5.
  assert (Hgpr : forall i r, pops !! i = Some r -> fd r = f0 r).
  { intros i r Hi. rewrite (Hrd i r Hi), <- (Hg i r Hi). f_equal. lia. }
  assert (Hx : forall r, simd r = true -> fd r = f r).
  { intros r Hr. assert (Hn : forall x, simd x = false -> r <> x) by congruence.
    rewrite Hod, Hoc, Hob; [subst fa; apply put_ne|..]; try (by apply Hn);
      try (apply not_elem_of_cons; split; [by apply Hn|apply not_elem_of_nil]).
    intros Hin. assert (Hall : Forall (fun x => simd x = false) pops) by (by repeat constructor).
    rewrite Forall_forall in Hall. by rewrite (Hall r Hin) in Hr. }
  intros r. destruct r; cbn [simd]; first
    [ by rewrite !put_ne by done; apply Hx
    | by rewrite ?put_eq, ?put_ne, ?put_eq by done
    | rewrite !put_ne by done; first [ by apply (Hgpr 0%nat) | by apply (Hgpr 1%nat) | by apply (Hgpr 2%nat)
      | by apply (Hgpr 3%nat) | by apply (Hgpr 4%nat) | by apply (Hgpr 5%nat) | by apply (Hgpr 6%nat)
      | by apply (Hgpr 7%nat) | by apply (Hgpr 8%nat) | by apply (Hgpr 9%nat) | by apply (Hgpr 10%nat)
      | by apply (Hgpr 11%nat) | by apply (Hgpr 12%nat) | by apply (Hgpr 13%nat) | by apply (Hgpr 14%nat) ] ].
Qed.

(** The frame [trap_handler] gets to see. *)
Definition frame_of (cr2 cr3 vec err : Z) f : ExceptionFrame.t :=
  ExceptionFrame.mk cr2 cr3 (f R15) (f R14) (f R13) (f R12) (f R11) (f R10) (f R9) (f R8)
    (f RDI) (f RSI) (f RDX) (f RCX) (f RBX) (f RAX) (f RBP) vec err (f RIP) (f CS) (f RFLAGS) (f RSP) (f SS).

Lemma read_frame m base f cr2 cr3 vec err (fp := base - 152) :
  read64 m fp = cr2 -> read64 m (fp + 8) = cr3 -> saved_gprs m fp f ->
  read64 m (base - 16) = vec -> read64 m (base - 8) = err -> cpu_frame m base f ->
  ExceptionFrame.read m fp = frame_of cr2 cr3 vec err f.
Proof.
  intros H2 H3 Hg Hv He [Hrip Hcs Hfl Hsp Hss]. unfold ExceptionFrame.read, frame_of.
  assert (E : forall k x, fp + 8 * k = x -> read64 m (fp + 8 * k) = read64 m x) by (intros k x ->; done).
  rewrite (E 0 fp), (E 1 (fp + 8)), (E 17 (base - 16)), (E 18 (base - 8)), (E 19 base), (E 20 (base + 8)),
    (E 21 (base + 16)), (E 22 (base + 24)), (E 23 (base + 32)) by (subst fp; lia).
  rewrite H2, H3, Hv, He, Hrip, Hcs, Hfl, Hsp, Hss.
  assert (G : forall i r, pops !! i = Some r -> read64 m (fp + 8 * (2 + Z.of_nat i)) = f r).
  { intros i r Hi. rewrite <- (Hg i r Hi). f_equal. lia. }
  f_equal; [apply (G 0%nat)|apply (G 1%nat)|apply (G 2%nat)|apply (G 3%nat)|apply (G 4%nat)|apply (G 5%nat)
    |apply (G 6%nat)|apply (G 7%nat)|apply (G 8%nat)|apply (G 9%nat)|apply (G 10%nat)|apply (G 11%nat)
    |apply (G 12%nat)|apply (G 13%nat)|apply (G 14%nat)]; reflexivity.
Qed.

Lemma stub_pushes vec f m base err :
  f RSP = (if with_err vec then base - 8 else base) -> 16 <= base -> base < W64 ->
  (if with_err vec then read64 m (base - 8) = err else err = 0) ->
  exists f' m', (if with_err vec then push_val vec (f, m) else push_val vec (push_val 0 (f, m))) = (f', m') /\
    f' RSP = base - 16 /\ (forall r, r <> RSP -> f' r = f r) /\
    read64 m' (base - 16) = vec /\ read64 m' (base - 8) = err /\
    (forall w, base <= w -> read64 m' w = read64 m w).
Proof.
  intros Hsp Hlo Hhi He. destruct (with_err vec).
  - destruct (push_val_spec vec f m) as (f1 & -> & Hs1 & Hf1); [lia|]. eexists _, _. split; [reflexivity|].
    rewrite Hsp. split_and!; [lia|done| | |].
    + replace (base - 16) with (base - 8 - 8) by lia. apply read_write_eq.
    + by rewrite read_write_ne by lia.
    + intros w Hw. apply read_write_ne. lia.
  - destruct (push_val_spec 0 f m) as (f1 & -> & Hs1 & Hf1); [lia|].
    destruct (push_val_spec vec f1 (write64 m (f RSP - 8) 0)) as (f2 & -> & Hs2 & Hf2); [lia|].
    eexists _, _. split; [reflexivity|]. subst err. rewrite Hs1, Hsp. split_and!; [lia| | | |].
    + intros r Hr. rewrite Hf2, Hf1; done.
    + replace (base - 16) with (base - 8 - 8) by lia. apply read_write_eq.
    + rewrite read_write_ne by lia. apply read_write_eq.
    + intros w Hw. rewrite !read_write_ne by lia. done.
Qed.

(** Up to the call the stub only pushes. *)
Lemma called_ok cr2 cr3 vec err f f0 m base (fp := base - 152) (s1 := called cr2 cr3 vec (f, m)) :
  f RSP = (if with_err vec then base - 8 else base) -> 152 <= base -> base + 40 < W64 ->
  (if with_err vec then read64 m (base - 8) = err else err = 0) ->
  cpu_frame m base f0 -> (forall r, r ∈ pops -> f r = f0 r) ->
  s1.1 RDI = fp /\ s1.1 RBX = fp /\ s1.1 RSP mod 16 = 0 /\
  ExceptionFrame.read s1.2 fp = frame_of cr2 cr3 vec err f0 /\
  saved_gprs s1.2 fp f0 /\ cpu_frame s1.2 base f0 /\ (forall r, simd r = true -> s1.1 r = f r).
Proof.
  intros Hsp Hlo Hhi He Hcf Hgpr. subst s1. unfold called.
  destruct (stub_pushes vec f m base err) as (f' & m' & Es & Hsp' & Hf' & Hv & Herr & Hm'); try done; [lia|lia|].
  rewrite Es.
  destruct (save_ok cr2 cr3 f' m' base) as (f1 & m1 & -> & Hdi & Hbx & Hal & Hc2 & Hc3 & Hg & Hm1 & Hx); [done|done|lia|].
  fold fp in Hdi, Hbx, Hc2, Hc3, Hg.
  assert (Hg0 : saved_gprs m1 fp f0).
  { intros i r Hi. assert (Hr : r ∈ pops) by (by eapply list_elem_of_lookup_2). rewrite (Hg i r Hi), Hf'; [by apply Hgpr|].
    intros ->. revert Hr. apply (bool_decide_unpack _). vm_compute. exact I. }
  assert (Hcf1 : cpu_frame m1 base f0) by (destruct Hcf; split; rewrite Hm1, Hm' by lia; done).
  cbn [fst snd]. split_and!; try done; [apply read_frame; try done; rewrite Hm1 by lia; done|].
  intros r Hr. rewrite Hx by done. apply Hf'. by intros ->.
Qed.

(** A call that keeps [rbx] and the frame returns to the interrupted state,
    with the SSE registers as the call leaves them. *)
Lemma stub_returns call cr2 cr3 vec err f f0 m base s2 (fp := base - 152) (s1 := called cr2 cr3 vec (f, m)) :
  f RSP = (if with_err vec then base - 8 else base) -> 152 <= base -> base + 40 < W64 ->
  (if with_err vec then read64 m (base - 8) = err else err = 0) ->
  cpu_frame m base f0 -> (forall r, r ∈ pops -> f r = f0 r) ->
  call s1 = Ret s2 -> s2.1 RBX = s1.1 RBX ->
  (forall w, fp <= w < base + 40 -> read64 s2.2 w = read64 s1.2 w) ->
  exists s3, isr_stub call cr2 cr3 vec (f, m) = Ret s3 /\ s3.2 = s2.2 /\
    forall r, s3.1 r = if simd r then s2.1 r else f0 r.
Proof.
  intros Hsp Hlo Hhi He Hcf Hgpr Ec Hb2 Hm2.
  destruct (called_ok cr2 cr3 vec err f f0 m base) as (_ & Hbx & _ & _ & Hg0 & [Hc1 Hc2 Hc3 Hc4 Hc5] & _); try done.
  fold s1 fp in Hbx, Hg0, Hc1, Hc2, Hc3, Hc4, Hc5. destruct s2 as [f2 m2]. cbn [fst snd] in *.
  destruct (restore_ok f2 m2 base f0) as (f3 & E3 & Hf3); [by rewrite Hb2|done|lia| | |].
  - intros i r Hi. rewrite Hm2; [by apply Hg0|]. destruct (pops_pushes i r Hi). unfold fp. lia.
  - split; rewrite Hm2 by (unfold fp; lia); done.
  - exists (f3, m2). rewrite stub_called. fold s1. rewrite Ec. cbn [obind]. split_and!; [f_equal; exact E3|done|exact Hf3].
Qed.

(** C13: an interrupt gives the general state back, and not the SSE registers.
    Let the processor have pushed the state [f0] it interrupts (and an error code
    for the vectors that have one) and entered the stub of [vec].  Then
    [trap_handler] is called on a 16-byte aligned stack with a pointer to an
    [ExceptionFrame] in which every field holds what its name says, and if it
    returns, having kept [rbx] and the frame as the calling convention and
    [&ExceptionFrame] demand, all general registers, the stack and instruction
    pointers, the flags and the segments after [iretq] are those of [f0].  The SSE
    registers reach [trap_handler] as they were and keep whatever it leaves in
    them, since no instruction saves them: the interrupt is invisible exactly if
    [trap_handler] leaves them as they were. *)
Theorem interrupt_restores_general_state call cr2 cr3 vec err f f0 m base (fp := base - 152) :
  f RSP = (if with_err vec then base - 8 else base) -> 152 <= base -> base + 40 < W64 ->
  (if with_err vec then read64 m (base - 8) = err else err = 0) ->
  cpu_frame m base f0 -> (forall r, r ∈ pops \/ simd r = true -> f r = f0 r) ->
  exists s1, s1.1 RDI = fp /\ s1.1 RSP mod 16 = 0 /\
    ExceptionFrame.read s1.2 fp = frame_of cr2 cr3 vec err f0 /\
    (forall r, simd r = true -> s1.1 r = f0 r) /\
    forall s2, call s1 = Ret s2 -> s2.1 RBX = s1.1 RBX ->
      (forall w, fp <= w < base + 40 -> read64 s2.2 w = read64 s1.2 w) ->
      exists s3, isr_stub call cr2 cr3 vec (f, m) = Ret s3 /\ s3.2 = s2.2 /\
        (forall r, simd r = false -> s3.1 r = f0 r) /\ (forall r, simd r = true -> s3.1 r = s2.1 r) /\
        ((forall r, s3.1 r = f0 r) <-> forall r, simd r = true -> s2.1 r = s1.1 r).
Proof.
  intros Hsp Hlo Hhi He Hcf Hgpr. exists (called cr2 cr3 vec (f, m)).
  destruct (called_ok cr2 cr3 vec err f f0 m base) as (Hdi & _ & Hal & Hfr & _ & _ & Hx); try done; [by auto|].
  assert (Hx0 : forall r, simd r = true -> (called cr2 cr3 vec (f, m)).1 r = f0 r) by (intros r Hr; rewrite Hx by done; auto).
  split_and!; [done|done|done|exact Hx0|]. intros s2 Ec Hb2 Hm2.
  destruct (stub_returns call cr2 cr3 vec err f f0 m base s2) as (s3 & E & Em & H3); try done; [by auto|].
  exists s3. split_and!; try done; [intros r Hr; by rewrite H3, Hr..|]. split.
  - intros Hall r Hr. rewrite Hx0 by done. rewrite <- Hall, H3. by rewrite Hr.
  - intros Hs r. rewrite H3. destruct (simd r) eqn:Hr; [|done]. by rewrite Hs, Hx0.
Qed.

End path.

(** ** Dispatch *)
Section dispatch.
Import Irq.

(** Registrations in order. *)
Fixpoint register_all (l : list (Z * Z)) (d : t) : outcome t :=
  match l with
  | [] => Ret d
  | (irq, h) :: l => let! d := register_irq d irq h in register_all l d
  end.

(** The handler registered last for a line. *)
Definition last_handler (l : list (Z * Z)) (irq : Z) : option Z :=
  snd <$> last (filter (fun p => p.1 = irq) l).

Definition eoi (irq : Z) : list event :=
  (if 8 <=? irq then [Port (Out PIC2_COMMAND 0x20)] else []) ++ [Port (Out PIC1_COMMAND 0x20)].

Lemma last_handler_cons irq h l i :
  last_handler ((irq, h) :: l) i =
    match last_handler l i with Some x => Some x | None => if decide (irq = i) then Some h else None end.
Proof.
  unfold last_handler. rewrite filter_cons. cbn [fst]. case_decide as Hd; [|by destruct (last _)].
  rewrite last_cons. by destruct (last _).
Qed.

Lemma register_all_ok l d :
  length (handlers d) = IRQ_MAX -> (forall irq h, (irq, h) ∈ l -> 0 <= irq < 224) ->
  exists d', register_all l d = Ret d' /\ log d' = log d ++ ((fun p => registered p.1) <$> l) /\ length (handlers d') = IRQ_MAX /\
    forall i, 0 <= i < 224 ->
      handlers d' !! Z.to_nat i = match last_handler l i with Some h => Some h | None => handlers d !! Z.to_nat i end.
Proof.
  revert d. induction l as [|[irq h] l IH]; intros d Hl Hr; cbn [register_all].
  { exists d. rewrite app_nil_r. by split_and!. }
  destruct (Hr irq h ltac:(left)) as [Hi0 Hi1].
  unfold register_irq. rewrite (proj2 (Nat.ltb_lt _ _)) by (unfold IRQ_MAX; lia). cbn [assert_ obind].
  set (d1 := mk _ _). destruct (IH d1) as (d' & E & Hlog & Hlen & Hlk).
  { cbn. by rewrite length_insert. }
  { intros i' h' Hin. apply (Hr i' h'). by right. }
  exists d'. split_and!; [done|by rewrite Hlog; cbn; rewrite <- app_assoc|done|]. intros i Hi. rewrite (Hlk i Hi), last_handler_cons.
  destruct (last_handler l i); [done|]. cbn [handlers d1]. case_decide as Hd.
  - subst i. apply list_lookup_insert_eq. rewrite Hl. unfold IRQ_MAX. lia.
  - apply list_lookup_insert_ne. lia.
Qed.

Lemma send_eoi_log d irq : send_eoi d irq = mk (handlers d) (log d ++ eoi irq).
Proof. destruct d as [hs lg]. unfold send_eoi, outb, eoi. destruct (8 <=? irq); cbn; [by rewrite <- app_assoc|done]. Qed.

Lemma vector_u8 v : 0 <= v < 256 -> Z.land v 0xFF = v.
Proof. intros Hv. change 0xFF with (Z.ones 8). rewrite Z.land_ones by lia. by apply Z.mod_small. Qed.

(** One interrupt, with the handler table entry [ptr] of its line. *)
Lemma trap_handler_irq run trace d irq frame ptr :
  (forall h d, run h d = Ret (mk (handlers d) (log d ++ trace h))) ->
  0 <= irq < 224 -> ExceptionFrame.vector frame = 32 + irq -> handlers d !! Z.to_nat irq = Some ptr ->
  trap_handler run d frame =
    Ret (mk (handlers d) (log d ++ (if ptr =? 0 then [unhandled irq] else Called ptr :: trace ptr) ++ eoi irq)).
Proof.
  intros Hrun Hirq Hv Hlk. unfold trap_handler. rewrite Hv, vector_u8 by lia. unfold IRQ_BASE.
  rewrite (proj2 (Z.ltb_ge _ _)) by lia. replace (32 + irq - 32) with irq by lia.
  unfold dispatch. rewrite (proj2 (Nat.leb_gt _ _)) by (unfold IRQ_MAX; lia). rewrite Hlk. cbn [expect obind].
  destruct (ptr =? 0); cbn [negb]; [|rewrite Hrun]; cbn [obind]; rewrite send_eoi_log; cbn [handlers log]; by rewrite <- !app_assoc.
Qed.

(** C31: interrupts reach the registered handler.  After any sequence of
    registrations, an interrupt on vector [32 + irq] calls exactly the handler
    registered last for that line once, or none, and then warns that the
    interrupt is unhandled; and after everything the
    handler did ([trace]) acknowledges the interrupt: the second controller first
    when the line is one of its own, and always the first; no other port is
    written.  An exception vector never
    returns to the interrupted code. *)
Theorem irq_delivery run trace l irq frame :
  (forall i h, (i, h) ∈ l -> 0 <= i < 224 /\ h <> 0) -> 0 <= irq < 224 ->
  (forall h d, run h d = Ret (mk (handlers d) (log d ++ trace h))) ->
  ExceptionFrame.vector frame = 32 + irq ->
  exists d d', register_all l EMPTY = Ret d /\ trap_handler run d frame = Ret d' /\
    handlers d' = handlers d /\
    log d' = log d ++ match last_handler l irq with Some h => Called h :: trace h | None => [unhandled irq] end ++ eoi irq /\
    forall fr, 0 <= ExceptionFrame.vector fr < 32 -> trap_handler run d fr = Hang.
Proof.
  intros Hl Hirq Hrun Hv.
  destruct (register_all_ok l EMPTY) as (d & E & Hlog & Hlen & Hlk); [done|intros i h Hin; by apply (Hl i h)|].
  specialize (Hlk irq Hirq).
  assert (Hnz : forall h, last_handler l irq = Some h -> h <> 0).
  { unfold last_handler. intros h ([i h'] & Hla & ->)%fmap_Some. apply last_Some_elem_of in Hla.
    apply list_elem_of_filter in Hla as [_ Hin]. by apply (Hl i h'). }
  assert (Hexc : forall fr, 0 <= ExceptionFrame.vector fr < 32 -> trap_handler run d fr = Hang).
  { intros fr Hfr. unfold trap_handler. rewrite vector_u8 by lia. by rewrite (proj2 (Z.ltb_lt _ _)) by (unfold IRQ_BASE; lia). }
  exists d. destruct (last_handler l irq) as [h|] eqn:El.
  - rewrite (trap_handler_irq run trace d irq frame h) by done. rewrite (proj2 (Z.eqb_neq h 0)) by (by apply Hnz).
    eexists. by split_and!.
  - rewrite (trap_handler_irq run trace d irq frame 0); try done.
    2:{ rewrite Hlk. change (handlers EMPTY) with (replicate IRQ_MAX 0). apply lookup_replicate_2. unfold IRQ_MAX. lia. }
    eexists. by split_and!.
Qed.

End dispatch.

(** ** Witnesses *)
Module TrapDemo.
Import Isr.

Definition stubs (v : Z) : Z := 0xffffffff80100000 + Z.land v 0xFF * 16.

Lemma stubs_u64 v : is_u64 (stubs v).
Proof.
  unfold stubs. change 0xFF with (Z.ones 8). rewrite Z.land_ones by lia.
  change (2 ^ 8) with 256. unfold is_u64. zlia.
Qed.

(** Registers number their names, and the frame of a timer interrupt. *)
Definition f0 : regfile := fun r =>
  match r with
  | RIP => 0x401000 | CS => 8 | RFLAGS => 0x202 | RSP => 0x7000 | SS => 16
  | RAX => 1 | RBX => 2 | RCX => 3 | RDX => 4 | _ => 9
  end.
Definition base : Z := 0x8000.
Definition m0 : mem :=
  write64 (write64 (write64 (write64 (write64 ∅ base 0x401000) (base + 8) 8) (base + 16) 0x202) (base + 24) 0x7000) (base + 32) 16.
Definition entered : regfile := put RSP base f0.

(** A handler that clobbers a general and an SSE register and returns. *)
Definition handler (s : machine) : outcome machine := Ret (put (XMM 0) 0 (put RAX 0 s.1), s.2).

(** IRQ handlers that touch no port. *)
Definition quiet (h : Z) (d : Irq.t) : outcome Irq.t := Ret (Irq.mk (Irq.handlers d) (Irq.log d ++ [])).

End TrapDemo.

Lemma idt_vectors_installed_witness :
  exists idt, Idt.populate TrapDemo.stubs Idt.new = Ret idt /\ length idt = 256%nat.
Proof.
  destruct (idt_vectors_installed TrapDemo.stubs) as (idt & E & Hl & _); [apply TrapDemo.stubs_u64|].
  exists idt. split; [exact E|exact Hl].
Defined.

Lemma interrupt_restores_general_state_witness :
  exists s3, Isr.isr_stub TrapDemo.handler 0 0x1000 32 (TrapDemo.entered, TrapDemo.m0) = Ret s3 /\
    s3.1 RAX = 1 /\ s3.1 RIP = 0x401000 /\ s3.1 RSP = 0x7000 /\ s3.1 (XMM 1) = 9 /\
    s3.1 (XMM 0) = 0 /\ TrapDemo.f0 (XMM 0) = 9.
Proof.
  destruct (interrupt_restores_general_state TrapDemo.handler 0 0x1000 32 0 TrapDemo.entered TrapDemo.f0 TrapDemo.m0 TrapDemo.base)
    as (s1 & _ & _ & _ & Hx & Hret).
  - reflexivity.
  - unfold TrapDemo.base. lia.
  - unfold TrapDemo.base. lia.
  - reflexivity.
  - split; reflexivity.
  - intros r Hr. unfold TrapDemo.entered. apply put_ne. intros ->. destruct Hr as [Hr|Hr]; [|done]. revert Hr.
    apply (bool_decide_unpack _). vm_compute. exact I.
  - destruct (Hret (Isr.put (XMM 0) 0 (Isr.put RAX 0 s1.1), s1.2)) as (s3 & E & _ & H3 & H4 & _);
      [reflexivity|by cbn [fst]; rewrite !put_ne by done|done|].
    exists s3. split; [exact E|]. rewrite !H3, !H4 by done. cbn [fst].
    split_and!; [done..| |done|done]. rewrite !put_ne by done. by rewrite Hx.
Defined.

Lemma irq_delivery_witness :
  exists d d' : Irq.t, register_all [(0, 0x100); (9, 0x200); (0, 0x300)] Irq.EMPTY = Ret d /\
    Irq.trap_handler TrapDemo.quiet d (frame_of 0 0 32 0 TrapDemo.f0) = Ret d' /\
    Irq.log d' = Irq.log d ++ [Called 0x300; Port (Out 0x20 0x20)].
Proof.
  destruct (irq_delivery TrapDemo.quiet (fun _ => []) [(0, 0x100); (9, 0x200); (0, 0x300)] 0 (frame_of 0 0 32 0 TrapDemo.f0))
    as (d & d' & E & E' & _ & Hlog & _).
  - intros i h. rewrite !elem_of_cons, elem_of_nil. intros Hin. destruct_or?; simplify_eq; lia.
  - lia.
  - reflexivity.
  - reflexivity.
  - exists d, d'. split; [exact E|]. split; [exact E'|exact Hlog].
Defined.
