(* ===== verification/Platform.v ===== *)
(** * CPU and interrupt controller set-up (eira/src/arch/x86_64/pic.rs, imp.rs)

    [pic::init], [pic::init_pit] and [pic::disable_lapic] as port writes and an
    MSR update, and [init_cpu], which runs them after loading the descriptor
    tables.  The theorem reads the port writes with the command protocol of the
    8259 controllers and of the 8253 timer (their data sheets), so that "the
    interrupts are remapped to 32-47" is a statement about the controllers'
    state and not about the bytes sent to them. *)

From S2P Require Import Prelude Fmt Log Addr Memory Io Gdt Trap.

Definition PIC1_DATA : Z := 0x21.
Definition PIC2_DATA : Z := 0xA1.
Definition ICW1_INIT : Z := 0x11.
Definition ICW4_8086 : Z := 0x01.

Module Pic.

(** [lo & !(1u32 << 11)] of the MSR 0x1B, the upper half written back as read. *)
Definition disable_lapic (msr : Z) : Z * list output :=
  let lo := Z.land msr 0xFFFFFFFF in
  let hi := Z.shiftr msr 32 in
  let lo := Z.land lo (Z.lxor 0xFFFFFFFF (Z.shiftl 1 11)) in
  (Z.lor (Z.shiftl hi 32) lo, [Logged (debug "eira::arch::x86_64::pic" (bytes "LAPIC disabled, PIC mode active"))]).

Definition init (inp : list io -> Z -> Z) (h : list io) : list io * list output :=
  let out := [Logged (info "eira::arch::x86_64::pic" (bytes "INITTING"))] in
  let h := (inb inp h PIC1_DATA).2 in
  let h := (inb inp h PIC2_DATA).2 in
  let h := outb h PIC1_COMMAND ICW1_INIT in
  let h := outb h PIC2_COMMAND ICW1_INIT in
  let h := outb h PIC1_DATA 32 in
  let h := outb h PIC2_DATA 40 in
  let h := outb h PIC1_DATA 4 in
  let h := outb h PIC2_DATA 2 in
  let h := outb h PIC1_DATA ICW4_8086 in
  let h := outb h PIC2_DATA ICW4_8086 in
  let h := outb h PIC1_DATA 0xFE in
  (outb h PIC2_DATA 0xFF, out).

Definition init_pit (h : list io) : list io :=
  let divisor := 11931 in
  let h := outb h 0x43 0x36 in
  let h := outb h 0x40 (Z.land (Z.land divisor 0xFF) 0xFF) in
  outb h 0x40 (Z.land (Z.shiftr divisor 8) 0xFF).

End Pic.

(** [BSP_TABLES], [IDT] and the processor state that [init_cpu] sets. *)
Record cpu := mk_cpu {
  tables : CpuTables.t; segs : option segments;
  idt : Idt.t; idtr : option (Z * Z);
  apic_base : Z; ports : list io;
}.

(** [enable_sse]: instructions on [ax], the low half-word of [rax]. *)
Definition set_ax (rax ax : Z) : Z := Z.lor (Z.ldiff rax 0xFFFF) (Z.land ax 0xFFFF).
Definition enable_sse (cr0 cr4 : Z) : Z * Z :=
  let rax := cr0 in
  let rax := set_ax rax (Z.land rax 0xFFFB) in
  let rax := set_ax rax (Z.lor rax 0x2) in
  let cr0 := rax in
  let rax := cr4 in
  let rax := set_ax rax (Z.lor rax (Z.shiftl 3 9)) in
  (cr0, rax).

(** The root table in CR3. *)
Definition active_page_table (cr3 : Z) : Z := PhysAddr.new_truncate (Z.land cr3 (not64 0xFFF)).

Module X86_64.

Section init.
(** The device reads, the addresses of the stubs, and where the linker put the
    tables and the exception stacks. *)
Context (inp : list io -> Z -> Z) (isr_stub : Z -> Z) (gdt_addr tss_addr stacks idt_addr : Z).

Definition init_cpu (c : cpu) : outcome (cpu * list output) :=
  let! '(tables, segs, out1) := CpuTables.load (tables c) gdt_addr tss_addr stacks in
  let! '(idt, idtr, out2) := Idt.load isr_stub (idt c) idt_addr in
  let '(apic_base, out3) := Pic.disable_lapic (apic_base c) in
  let '(ports, out4) := Pic.init inp (ports c) in
  let ports := Pic.init_pit ports in
  Ret (mk_cpu tables (Some segs) idt (Some idtr) apic_base ports, out1 ++ out2 ++ out3 ++ out4).

End init.

Definition register_irq (d : Irq.t) (irq handler : Z) : outcome Irq.t :=
  let! _ := assert_ (irq <=? 255) "x86_64 IRQ number too large" in
  Irq.register_irq d (Z.land irq 0xFF) handler.

End X86_64.

(** ** The controllers *)
Module I8259.

(** What the next write to the data port means. *)
Inductive phase := Ready | WantICW2 (single icw4 : bool) | WantICW3 (icw4 : bool) | WantICW4.

Record chip := mk { state : phase; base : Z; cascade : Z; mode : Z; mask : Z; in_service : Z }.

(** ICW1 restarts the initialisation and clears the mask and the in-service
    register; 0x20 is the non-specific end of interrupt, which clears the
    in-service bit of highest priority, the lowest one. *)
Definition command (c : chip) (v : Z) : chip :=
  if Z.testbit v 4 then mk (WantICW2 (Z.testbit v 1) (Z.testbit v 0)) 0 0 0 0 0
  else if v =? 0x20 then
    mk (state c) (base c) (cascade c) (mode c) (mask c) (Z.land (in_service c) (in_service c - 1))
  else c.

Definition data (c : chip) (v : Z) : chip :=
  match state c with
  | Ready => mk Ready (base c) (cascade c) (mode c) v (in_service c)
  | WantICW2 single icw4 =>
      mk (if single then if icw4 then WantICW4 else Ready else WantICW3 icw4)
         (Z.land v 0xF8) (cascade c) (mode c) (mask c) (in_service c)
  | WantICW3 icw4 => mk (if icw4 then WantICW4 else Ready) (base c) v (mode c) (mask c) (in_service c)
  | WantICW4 => mk Ready (base c) (cascade c) v (mask c) (in_service c)
  end.

(** The processor takes an interrupt on a line. *)
Definition acknowledge (c : chip) (line : Z) : chip :=
  mk (state c) (base c) (cascade c) (mode c) (mask c) (Z.setbit (in_service c) line).

End I8259.

Module Pit.

(** Channel 0: its mode, the low byte written so far, and the reload value. *)
Record t := mk { mode : Z; low : option Z; reload : option Z }.

(** 0x43 selects channel, access and mode; with access 3 the two bytes of the
    reload value follow at 0x40. *)
Definition control (c : t) (v : Z) : t :=
  if (Z.shiftr v 6 =? 0) && (Z.land (Z.shiftr v 4) 3 =? 3)
  then mk (Z.land (Z.shiftr v 1) 7) None None else c.

Definition counter (c : t) (v : Z) : t :=
  match low c with
  | None => mk (mode c) (Some v) (reload c)
  | Some l => mk (mode c) None (Some (l + 256 * v))
  end.

End Pit.

Section devices.
Import I8259.

Record devices := mk_devices { master : chip; slave : chip; pit : Pit.t }.

Definition write (s : devices) (e : io) : devices :=
  match e with
  | In _ _ => s
  | Out port v =>
      if port =? 0x20 then mk_devices (command (master s) v) (slave s) (pit s)
      else if port =? 0x21 then mk_devices (data (master s) v) (slave s) (pit s)
      else if port =? 0xA0 then mk_devices (master s) (command (slave s) v) (pit s)
      else if port =? 0xA1 then mk_devices (master s) (data (slave s) v) (pit s)
      else if port =? 0x43 then mk_devices (master s) (slave s) (Pit.control (pit s) v)
      else if port =? 0x40 then mk_devices (master s) (slave s) (Pit.counter (pit s) v)
      else s
  end.

Definition exec (s : devices) (l : list io) : devices := foldl write s l.

(** The vector of a line, whether it can interrupt, and the state of the
    controllers while it is being served; the slave hangs on line 2. *)
Definition vector_of (s : devices) (line : Z) : Z :=
  if line <? 8 then base (master s) + line else base (slave s) + (line - 8).

Definition enabled (s : devices) (line : Z) : bool :=
  if line <? 8 then negb (Z.testbit (mask (master s)) line)
  else negb (Z.testbit (mask (master s)) 2) && negb (Z.testbit (mask (slave s)) (line - 8)).

Definition serving (s : devices) (line : Z) : devices :=
  if line <? 8 then mk_devices (acknowledge (master s) line) (slave s) (pit s)
  else mk_devices (acknowledge (master s) 2) (acknowledge (slave s) (line - 8)) (pit s).

(** The port writes of a log of handler calls and port events. *)
Definition port_events (l : list event) : list io :=
  omap (fun e => match e with Port e => Some e | Called _ | Said _ => None end) l.

(** The controllers after [pic::init] and [pic::init_pit]. *)
Definition remapped : devices :=
  mk_devices (mk Ready 32 4 1 0xFE 0) (mk Ready 40 2 1 0xFF 0) (Pit.mk 3 None (Some 11931)).

Lemma init_devices inp h s :
  exists ops, Pic.init_pit (Pic.init inp h).1 = h ++ ops /\ exec s ops = remapped.
Proof.
  unfold Pic.init_pit, Pic.init, inb, outb. cbn [fst snd]. eexists. rewrite <- !app_assoc. split; [reflexivity|].
  by destruct s as [[[] ? ? ? ? ?] [[] ? ? ? ? ?] [? [] ?]].
Qed.

Lemma eoi_restores line : 0 <= line < 16 -> exec (serving remapped line) (port_events (eoi line)) = remapped.
Proof.
  intros Hl. assert (Hall : Forall (fun n => exec (serving remapped (Z.of_nat n)) (port_events (eoi (Z.of_nat n))) = remapped) (seq 0 16)).
  { repeat constructor. }
  rewrite Forall_forall in Hall. specialize (Hall (Z.to_nat line)). rewrite Z2Nat.id in Hall by lia.
  apply Hall. rewrite elem_of_seq. lia.
Qed.

Lemma enabled_line line : 0 <= line < 16 -> enabled remapped line = true <-> line = 0.
Proof.
  intros Hl. assert (Hall : Forall (fun n => enabled remapped (Z.of_nat n) = bool_decide (n = 0%nat)) (seq 0 16)).
  { repeat constructor. }
  rewrite Forall_forall in Hall. specialize (Hall (Z.to_nat line)). rewrite Z2Nat.id in Hall by lia.
  rewrite Hall by (rewrite elem_of_seq; lia). rewrite bool_decide_eq_true. lia.
Qed.

Lemma lapic_bits msr n :
  is_u64 msr -> 0 <= n -> Z.testbit (Pic.disable_lapic msr).1 n = if n =? 11 then false else Z.testbit msr n.
Proof.
  intros Hm Hn. unfold Pic.disable_lapic. cbn [fst]. change 0xFFFFFFFF with (Z.ones 32).
  rewrite Z.lor_spec, !Z.land_spec, Z.lxor_spec. destruct (Z.lt_ge_cases n 32) as [Hlt|Hge].
  - rewrite Z.shiftl_spec_low by done. rewrite Z.ones_spec_low by lia. cbn [orb]. rewrite andb_true_r.
    change (Z.shiftl 1 11) with (2 ^ 11). rewrite Z.pow2_bits_eqb, (Z.eqb_sym 11) by lia.
    destruct (n =? 11); cbn; [apply andb_false_r|apply andb_true_r].
  - rewrite Z.ones_spec_high by lia. rewrite !andb_false_r, andb_false_l, orb_false_r, (proj2 (Z.eqb_neq n 11)) by lia.
    rewrite Z.shiftl_spec by done. rewrite Z.shiftr_spec by lia. f_equal. lia.
Qed.

End devices.

(** ** From reset to the first served interrupt *)
Section cycle.
Context (inp : list io -> Z -> Z) (isr_stub : Z -> Z) (gdt_addr tss_addr stacks idt_addr : Z).

(** What [init_cpu] logs. *)
Definition device_records : list log_record :=
  [debug "eira::arch::x86_64::gdt" (bytes "gdt/tss loaded on cpu (gdt=" ++ hex gdt_addr ++ bytes ", tss=" ++ hex tss_addr ++ bytes ")");
   debug "eira::arch::x86_64::idt" (bytes "IDT loaded (base=" ++ hex idt_addr ++ bytes ")");
   debug "eira::arch::x86_64::pic" (bytes "LAPIC disabled, PIC mode active");
   info "eira::arch::x86_64::pic" (bytes "INITTING")].

Lemma init_cpu_ok c :
  tables c = CpuTables.new -> idt c = Idt.new -> 0 <= stacks -> stacks + 8 * IST_STACK_SIZE < W64 ->
  exists tables segs idt', X86_64.init_cpu inp isr_stub gdt_addr tss_addr stacks idt_addr c =
    Ret (mk_cpu tables (Some segs) idt' (Some (Idt.size_of - 1, idt_addr)) (Pic.disable_lapic (apic_base c)).1
           (Pic.init_pit (Pic.init inp (ports c)).1), Logged <$> device_records) /\
    forall v, 0 <= v < 34 -> exists i, (v, i) ∈ Idt.vectors /\ 0 <= i <= 7 /\
      idt' !! Z.to_nat v = Some (IdtEntry.new (isr_stub v) i).
Proof.
  intros Ht Hi Hs0 Hs1. unfold X86_64.init_cpu. rewrite Ht, Hi.
  unfold CpuTables.load. cbn [CpuTables.tss CpuTables.new Tss.ist Tss.new]. rewrite fill_ist_ok by done. cbn [obind].
  rewrite add_Ret by (unfold IST_COUNT, IST_STACK_SIZE in *; lia). cbn [obind]. unfold Idt.load.
  destruct (populate_ok isr_stub) as (idt' & -> & Hlen & Hgate & _). cbn [obind].
  eexists _, _, idt'. split; [reflexivity|]. done.
Qed.

(** C30: [init_cpu] leaves the machine ready to serve interrupts, whatever state
    the controllers were in.  The local APIC is disabled and no other bit of its
    register changes; the timer runs in mode 3 with the divisor 11931; lines 0 to
    15 are remapped to the vectors 32 to 47, and exactly line 0 is enabled; every
    enabled line has a present gate that leads to the stub of its vector; and an
    interrupt on a line with a registered handler runs that handler and takes the
    controllers back to the state they had before it, so that the next one can
    come. *)
Theorem interrupt_cycle c s :
  tables c = CpuTables.new -> idt c = Idt.new -> is_u64 (apic_base c) -> (forall v, is_u64 (isr_stub v)) ->
  0 <= stacks -> stacks + 8 * IST_STACK_SIZE < W64 ->
  exists c' ops out, X86_64.init_cpu inp isr_stub gdt_addr tss_addr stacks idt_addr c = Ret (c', out) /\
    ports c' = ports c ++ ops /\ idtr c' = Some (Idt.size_of - 1, idt_addr) /\
    (forall n, 0 <= n -> Z.testbit (apic_base c') n = if n =? 11 then false else Z.testbit (apic_base c) n) /\
    let s' := exec s ops in
    Pit.mode (pit s') = 3 /\ Pit.reload (pit s') = Some 11931 /\
    forall line, 0 <= line < 16 ->
      vector_of s' line = 32 + line /\ (enabled s' line = true <-> line = 0) /\
      (enabled s' line = true -> exists e, idt c' !! Z.to_nat (vector_of s' line) = Some e /\
         gate_present e = true /\ gate_offset e = isr_stub (vector_of s' line)) /\
      forall run trace handler frame,
        handler <> 0 -> (forall h d, run h d = Ret (Irq.mk (Irq.handlers d) (Irq.log d ++ trace h))) ->
        (forall s, exec s (port_events (trace handler)) = s) ->
        ExceptionFrame.vector frame = vector_of s' line ->
        exists d d', X86_64.register_irq Irq.EMPTY line handler = Ret d /\ Irq.trap_handler run d frame = Ret d' /\
          Irq.log d' = Irq.log d ++ Called handler :: trace handler ++ eoi line /\
          exec (serving s' line) (port_events (Irq.log d')) = s'.
Proof.
  intros Ht Hi Ha Hstub Hs0 Hs1. destruct (init_cpu_ok c Ht Hi Hs0 Hs1) as (tb & sg & idt' & -> & Hgate).
  destruct (init_devices inp (ports c) s) as (ops & Eops & Hdev). rewrite Eops.
  eexists _, ops, _. split; [reflexivity|]. cbn [ports idtr apic_base idt]. rewrite Hdev.
  split_and!; try done; [by intros n Hn; apply lapic_bits|]. intros line Hl.
  assert (Hvec : vector_of remapped line = 32 + line).
  { unfold vector_of. cbn. destruct (Z.ltb_spec line 8); lia. }
  assert (Hen : enabled remapped line = true <-> line = 0) by (by apply enabled_line).
  split_and!; [done|apply Hen..| |].
  - intros ->%Hen. destruct (Hgate 32 ltac:(lia)) as (i & _ & Hir & Hlk). eexists. split; [exact Hlk|].
    destruct (gate_new (isr_stub 32) i (Hstub 32) Hir) as (? & ? & _). by split.
  - intros run trace handler frame Hh Hrun Htr Hv. rewrite Hvec in Hv. unfold X86_64.register_irq.
    rewrite (proj2 (Z.leb_le _ _)) by lia. cbn [assert_ obind]. rewrite vector_u8 by lia. unfold Irq.register_irq.
    rewrite (proj2 (Nat.ltb_lt _ _)) by (unfold IRQ_MAX; lia). cbn [assert_ obind]. set (d := Irq.mk _ _). exists d.
    assert (Hlk : Irq.handlers d !! Z.to_nat line = Some handler).
    { apply list_lookup_insert_eq. change (length (Irq.handlers Irq.EMPTY)) with 224%nat. lia. }
    rewrite (trap_handler_irq run trace d line frame handler) by (done || lia).
    rewrite (proj2 (Z.eqb_neq handler 0)) by done. eexists. split_and!; [done|reflexivity|done|].
    cbn [Irq.log d Irq.EMPTY app]. unfold port_events. cbn [omap list_omap Irq.registered]. rewrite omap_app. fold (port_events (trace handler)).
    unfold exec. rewrite foldl_app. fold (exec (serving remapped line) (port_events (trace handler))). rewrite Htr.
    by apply eoi_restores.
Qed.

End cycle.

(** Chips in the middle of an initialisation, and a handler that prints. *)
Module PlatformDemo.

Definition cold : cpu := mk_cpu CpuTables.new None Idt.new None 0xFEE00900 [].
Definition unknown : devices :=
  mk_devices (I8259.mk I8259.WantICW4 8 0 0 0xB8 1) (I8259.mk (I8259.WantICW3 false) 0x70 0 0 0x8F 0) (Pit.mk 2 (Some 5) None).
Definition tick : list event := [Port (Out 0x2F8 116)].
Definition run (h : Z) (d : Irq.t) : outcome Irq.t := Ret (Irq.mk (Irq.handlers d) (Irq.log d ++ tick)).
Definition silent (h : list io) (port : Z) : Z := 0xFF.

End PlatformDemo.

Lemma interrupt_cycle_witness :
  exists c' out d d', X86_64.init_cpu PlatformDemo.silent TrapDemo.stubs 0xffffffff80001000 0xffffffff80001040
      0xffffffff80002000 0xffffffff80100000 PlatformDemo.cold = Ret (c', out) /\
    X86_64.register_irq Irq.EMPTY 0 0x300 = Ret d /\
    Irq.trap_handler PlatformDemo.run d (frame_of 0 0 32 0 TrapDemo.f0) = Ret d' /\
    Irq.log d' = Irq.log d ++ [Called 0x300; Port (Out 0x2F8 116); Port (Out 0x20 0x20)] /\ Z.testbit (apic_base c') 11 = false.
Proof.
  destruct (interrupt_cycle PlatformDemo.silent TrapDemo.stubs 0xffffffff80001000 0xffffffff80001040
              0xffffffff80002000 0xffffffff80100000 PlatformDemo.cold PlatformDemo.unknown)
    as (c' & ops & out & E & _ & _ & Hm & _ & _ & Hline).
  - reflexivity.
  - reflexivity.
  - by vm_compute.
  - apply TrapDemo.stubs_u64.
  - lia.
  - unfold IST_STACK_SIZE. lia.
  - destruct (Hline 0 ltac:(lia)) as (Hv & _ & _ & Hrun).
    destruct (Hrun PlatformDemo.run (fun _ => PlatformDemo.tick) 0x300 (frame_of 0 0 32 0 TrapDemo.f0)) as (d & d' & E1 & E2 & Hlog & _).
    + done.
    + reflexivity.
    + reflexivity.
    + rewrite Hv. reflexivity.
    + exists c', out, d, d'. split_and!; [exact E|exact E1|exact E2|exact Hlog|]. rewrite Hm by lia. reflexivity.
Defined.

(** ** The control registers *)
Lemma testbit_low_mask i : 0 <= i -> Z.testbit 0xFFFF i = (i <? 16).
Proof.
  intros Hi. change 0xFFFF with (Z.ones 16). destruct (Z.ltb_spec i 16); [apply Z.ones_spec_low; lia|apply Z.ones_spec_high; lia].
Qed.

Lemma set_ax_bit rax ax i : 0 <= i -> Z.testbit (set_ax rax ax) i = if i <? 16 then Z.testbit ax i else Z.testbit rax i.
Proof.
  intros Hi. unfold set_ax. rewrite Z.lor_spec, Z.ldiff_spec, Z.land_spec, testbit_low_mask by done.
  destruct (i <? 16), (Z.testbit rax i), (Z.testbit ax i); done.
Qed.

(** [enable_sse] clears CR0.EM (bit 2), sets CR0.MP (bit 1), CR4.OSFXSR (bit 9)
    and CR4.OSXMMEXCPT (bit 10), and changes no other bit. *)
Theorem enable_sse_bits cr0 cr4 i (r := enable_sse cr0 cr4) :
  0 <= i ->
  Z.testbit r.1 i = (if i =? 2 then false else if i =? 1 then true else Z.testbit cr0 i) /\
  Z.testbit r.2 i = (if (i =? 9) || (i =? 10) then true else Z.testbit cr4 i).
Proof.
  intros Hi. unfold r, enable_sse. cbn [fst snd]. rewrite !set_ax_bit, !Z.lor_spec, !set_ax_bit, !Z.land_spec by done.
  destruct (Z.ltb_spec i 16).
  - assert (Hc : i ∈ seqZ 0 16) by (apply elem_of_seqZ; lia). clear Hi H. revert i Hc. apply Forall_forall.
    repeat (constructor; [split; cbn; by rewrite ?andb_true_r, ?andb_false_r, ?orb_false_r, ?orb_true_r|]). constructor.
  - rewrite !(proj2 (Z.eqb_neq _ _)) by lia. done.
Qed.
