(* ===== verification/Arch.v ===== *)
(** * The architecture interface (eira/src/arch/mod.rs, eira/src/task/context.rs, eira/src/arch/x86_64/imp.rs)

    [TaskContext] and [Arch] are the traits; [X86_64] is the implementation of
    both.  [ArchSpec] states what the callers of [halt], [disable_interrupts]
    and [enable_interrupts] rely on: whether a core is waiting and whether it
    takes interrupts.

    A loop that only halts is a step relation: the core executes [halt], or it
    takes an interrupt, which ends the wait.  Such a loop is the body of the idle
    task and the end of the panic handler and of the exception report. *)

From S2P Require Import Prelude Log Memory FrameAllocator Bitmap World Mapper MapperClass Context Io Gdt Trap Platform.

(** [TaskContext]: [new] from an entry point and the top of a stack, and
    [switch_to] from the context behind one pointer to the one behind another;
    [S] is what a switch acts on. *)
Class TaskContext (C S : Type) := {
  tc_new : mem -> Z -> Z -> mem * C;
  tc_switch_to : Z -> Z -> S -> S;
}.

#[export] Instance x86_64_context : TaskContext X86_64Context.t Asm.machine :=
  {| tc_new := X86_64Context.new; tc_switch_to := X86_64Context.switch_to |}.

(** [Arch] with its associated types; the core, the interrupt registry and the
    descriptor tables are state of the implementation. *)
Class Arch := {
  Core : Type;
  Irqs : Type;
  Tables : Type;
  ArchMapper : Type;
  ArchContext : Type;
  Switched : Type;
  arch_mapper :: Mapper BitmapAllocator.t ArchMapper;
  arch_context :: TaskContext ArchContext Switched;
  halt : Core -> Core;
  disable_interrupts : Core -> Core;
  enable_interrupts : Core -> Core;
  register_irq : Irqs -> Z -> Z -> outcome Irqs;
  init_cpu : Tables -> outcome (Tables * list output);
  arch_flush_tlb_page : world BitmapAllocator.t -> Z -> world BitmapAllocator.t;
  create_mapper : world BitmapAllocator.t -> Z -> outcome (ArchMapper * world BitmapAllocator.t);
  mapper_from_active : world BitmapAllocator.t -> Z -> outcome ArchMapper;
  arch_active_page_table : Z -> Z;
  new_test_mapper : world BitmapAllocator.t -> outcome (ArchMapper * world BitmapAllocator.t);
}.

(** What halting and masking promise. *)
Class ArchSpec `{Arch} := {
  waiting : Core -> bool;
  interruptible : Core -> bool;
  halt_waits c : waiting (halt c) = true;
  halt_interruptible c : interruptible (halt c) = interruptible c;
  disable_ok c : interruptible (disable_interrupts c) = false;
  disable_waits c : waiting (disable_interrupts c) = waiting c;
  enable_ok c : interruptible (enable_interrupts c) = true;
  enable_waits c : waiting (enable_interrupts c) = waiting c;
}.

(** ** [loop { Platform::halt() }] *)
Section halting.
Context `{ArchSpec} {S : Type} (accept : Core * S -> Core * S -> Prop).
Implicit Types (c : Core) (s : S).

Inductive halting : Core * S -> Core * S -> Prop :=
| halting_halt c s : waiting c = false -> halting (c, s) (halt c, s)
| halting_interrupt c s st' : interruptible c = true -> accept (c, s) st' -> halting (c, s) st'.

(** With interrupts off, the loop waits for ever. *)
Lemma halting_deaf c s st : interruptible c = false -> rtc halting (c, s) st ->
  st.2 = s /\ interruptible st.1 = false /\ (forall st', halting st st' -> waiting st.1 = false /\ waiting st'.1 = true).
Proof.
  intros Hc Hr. assert (Hinv : st.2 = s /\ interruptible st.1 = false).
  { refine (rtc_ind_r (fun st => st.2 = s /\ interruptible st.1 = false) _ _ _ _ Hr); [done|].
    intros y z _ Hstep [<- Hi]. destruct Hstep as [c' s'|c' s' st' Hi']; cbn [fst snd] in *; [|congruence].
    by rewrite halt_interruptible. }
  destruct Hinv as [Hs Hi]. split_and!; [done|done|]. intros st' Hstep.
  destruct Hstep as [c' s' Hw|c' s' st' Hi']; cbn [fst snd] in *; [|congruence]. by rewrite halt_waits.
Qed.

(** What one interrupt preserves, the loop preserves. *)
Lemma halting_invariant (I : Core -> S -> Prop) c s st :
  (forall c s, I c s -> I (halt c) s) ->
  (forall c s st', I c s -> accept (c, s) st' -> I st'.1 st'.2) ->
  I c s -> rtc halting (c, s) st -> I st.1 st.2.
Proof.
  intros Hh Ha Hi Hr. refine (rtc_ind_r (fun st => I st.1 st.2) _ _ _ _ Hr); [done|].
  intros y z _ Hstep Hy. destruct Hstep; cbn [fst snd] in *; eauto.
Qed.

End halting.

(** ** x86_64 *)

(** The registers of a core, and whether it waits for an interrupt. *)
Record core := mk_core { c_regs : Isr.regfile; c_halted : bool }.

(** The interrupt flag, bit 9 of RFLAGS. *)
Definition interrupt_flag (c : core) : bool := Z.testbit (c_regs c RFLAGS) 9.

Module X86Core.

(** [hlt], [cli] and [sti]; an instruction is executed by a running core. *)
Definition halt (c : core) : core := mk_core (c_regs c) true.
Definition disable_interrupts (c : core) : core :=
  mk_core (Isr.put RFLAGS (Z.clearbit (c_regs c RFLAGS) 9) (c_regs c)) (c_halted c).
Definition enable_interrupts (c : core) : core :=
  mk_core (Isr.put RFLAGS (Z.setbit (c_regs c RFLAGS) 9) (c_regs c)) (c_halted c).

(** [new_test_mapper] *)
Definition new_test_mapper (w : world BitmapAllocator.t) : outcome (PageTableMapper.t * world BitmapAllocator.t) :=
  let! '(pml4, w) := mm_allocate w in
  PageTableMapper.create_mapper w pml4.

End X86Core.

Section x86_64.
Context (inp : list io -> Z -> Z) (isr_stub : Z -> Z) (gdt_addr tss_addr stacks idt_addr : Z).

#[export] Instance X86_64 : Arch := {|
  Core := core;
  Irqs := Irq.t;
  Tables := Platform.cpu;
  ArchMapper := PageTableMapper.t;
  halt := X86Core.halt;
  disable_interrupts := X86Core.disable_interrupts;
  enable_interrupts := X86Core.enable_interrupts;
  register_irq := X86_64.register_irq;
  init_cpu := X86_64.init_cpu inp isr_stub gdt_addr tss_addr stacks idt_addr;
  arch_flush_tlb_page := flush_tlb_page;
  create_mapper := PageTableMapper.create_mapper;
  mapper_from_active := PageTableMapper.mapper_from_active;
  arch_active_page_table := active_page_table;
  new_test_mapper := X86Core.new_test_mapper;
|}.

#[export] Instance X86_64_spec : ArchSpec.
Proof.
  refine {| waiting := c_halted : Core -> bool; interruptible := interrupt_flag : Core -> bool |}; try done.
  - intros c. change (Z.testbit (Isr.put RFLAGS (Z.clearbit (c_regs c RFLAGS) 9) (c_regs c) RFLAGS) 9 = false).
    rewrite put_eq. by apply Z.clearbit_eq.
  - intros c. change (Z.testbit (Isr.put RFLAGS (Z.setbit (c_regs c RFLAGS) 9) (c_regs c) RFLAGS) 9 = true).
    rewrite put_eq. by apply Z.setbit_eq.
Defined.

End x86_64.
