(* ===== verification/Serial.v ===== *)
(** * The serial port (eira/src/serial/uart16550.rs, eira/src/serial/mod.rs)

    The UART is reached through port I/O only.  What has been read from and
    written to the ports so far is a list of events, and the device is a
    parameter: the value [inp history port] that a read of a port returns.  The
    busy-wait of [write_byte] recurses on fuel, the number of polls after which
    a device that never becomes ready is given up as [Hang].

    A string is the list of its bytes, and the arguments of [print!] are the
    pieces on which the formatting machinery calls [write_str]. *)

From S2P Require Import Prelude Io.

Definition LSR_THRE : Z := Z.shiftl 1 5.

Module Uart16550.

(** [base : u16] *)
Definition t : Type := Z.

Section driver.
Context (inp : list io -> Z -> Z) (fuel : nat).
Implicit Types (self : t) (h : list io).

(** [self.base + offset] on [u16] *)
Definition reg_port self (offset : Z) : outcome Z :=
  let! _ := assert_ (self + offset <? 2 ^ 16) "attempt to add with overflow" in
  Ret (self + offset).

Definition read_reg self h (offset : Z) : outcome (Z * list io) :=
  let! port := reg_port self offset in
  Ret (inb inp h port).

Definition write_reg self h (offset val : Z) : outcome (list io) :=
  let! port := reg_port self offset in
  Ret (outb h port val).

Definition init self h : outcome (list io) :=
  let! h := write_reg self h 1 0x00 in
  let! h := write_reg self h 3 0x80 in
  let! h := write_reg self h 0 0x01 in
  let! h := write_reg self h 1 0x00 in
  let! h := write_reg self h 3 0x03 in
  let! h := write_reg self h 2 0xC7 in
  write_reg self h 4 0x03.

Definition new (base : Z) h : outcome (t * list io) :=
  let uart := base in
  let! h := init uart h in
  Ret (uart, h).

(** [while self.read_reg(5) & LSR_THRE == 0] *)
Fixpoint wait_ready (n : nat) self h : outcome (list io) :=
  match n with
  | O => Hang
  | S n =>
      let! '(v, h) := read_reg self h 5 in
      if Z.land v LSR_THRE =? 0 then wait_ready n self h else Ret h
  end.

Definition write_byte self h (byte : Z) : outcome (list io) :=
  let! h := wait_ready fuel self h in
  write_reg self h 0 byte.

Fixpoint write_str self h (s : list Z) : outcome (list io) :=
  match s with
  | [] => Ret h
  | byte :: s =>
      let! h := if byte =? 10 then write_byte self h 13 else Ret h in
      let! h := write_byte self h byte in
      write_str self h s
  end.

End driver.

End Uart16550.

Module Serial.

(** [SERIAL] with its lock, and the ports. *)
Record t := mk { locked : bool; uart : option Uart16550.t; history : list io }.

Section serial.
Context (inp : list io -> Z -> Z) (fuel : nat).

Definition lock (self : t) : outcome t :=
  if locked self then Hang else Ret (mk true (uart self) (history self)).

Definition init (self : t) : outcome t :=
  let! '(u, h) := Uart16550.new 0x2F8 (history self) in
  let! self := lock (mk (locked self) (uart self) h) in
  Ret (mk false (Some u) (history self)).

(** [write_fmt]: the pieces in order. *)
Fixpoint write_pieces (u : Uart16550.t) (h : list io) (args : list (list Z)) : outcome (list io) :=
  match args with
  | [] => Ret h
  | s :: args => let! h := Uart16550.write_str inp fuel u h s in write_pieces u h args
  end.

Definition _print (self : t) (args : list (list Z)) : outcome t :=
  let! self := lock self in
  match uart self with
  | Some u =>
      let! h := write_pieces u (history self) args in
      Ret (mk false (uart self) h)
  | None => Ret (mk false (uart self) (history self))
  end.

End serial.

End Serial.

(** ** What reaches the line *)
Section output.
Import Uart16550.
Context (inp : list io -> Z -> Z).
Implicit Types (h : list io) (u : Z).

(** The bytes written to the data register, in order. *)
Definition sent u h : list Z :=
  omap (fun e => match e with Out p v => if p =? u then Some v else None | In _ _ => None end) h.

(** The terminal's end of line is CR LF. *)
Definition crlf (s : list Z) : list Z := s ≫= fun b => if b =? 10 then [13; 10] else [b].

(** The history after [j] polls of the line status register. *)
Fixpoint polled (j : nat) u h : list io :=
  match j with
  | O => h
  | S j => let h := polled j u h in h ++ [In (u + 5) (inp h (u + 5))]
  end.

(** From any state the transmitter becomes ready within [n] polls. *)
Definition responsive (n : nat) u : Prop :=
  forall h, exists j, (j <= n)%nat /\ Z.land (inp (polled j u h) (u + 5)) LSR_THRE <> 0.

Lemma polled_S j u h : polled (S j) u h = polled j u (h ++ [In (u + 5) (inp h (u + 5))]).
Proof. induction j as [|j IH]; [done|]. cbn [polled] in *. by rewrite IH. Qed.

Lemma sent_app u h h' : sent u (h ++ h') = sent u h ++ sent u h'.
Proof. unfold sent. apply omap_app. Qed.

Lemma read_lsr u h : 0 <= u -> u + 5 < 2 ^ 16 ->
  read_reg inp u h 5 = Ret (inp h (u + 5), h ++ [In (u + 5) (inp h (u + 5))]).
Proof. intros. unfold read_reg, reg_port. by rewrite (proj2 (Z.ltb_lt _ _)) by done. Qed.

Lemma wait_ready_ok u : 0 <= u -> u + 5 < 2 ^ 16 -> forall j n h, (j < n)%nat ->
  Z.land (inp (polled j u h) (u + 5)) LSR_THRE <> 0 ->
  exists h', wait_ready inp n u h = Ret h' /\ sent u h' = sent u h.
Proof.
  intros H0 H1. induction j as [|j IH]; intros n h Hn Hr; (destruct n as [|n]; [lia|]); cbn [wait_ready];
    rewrite read_lsr by done; cbn [obind].
  - cbn [polled] in Hr. rewrite (proj2 (Z.eqb_neq _ _)) by done. eexists. split; [reflexivity|].
    rewrite sent_app. cbn. apply app_nil_r.
  - case_match; [|eexists; split; [reflexivity|]; rewrite sent_app; cbn; apply app_nil_r].
    rewrite polled_S in Hr. destruct (IH n (h ++ [In (u + 5) (inp h (u + 5))])) as (h' & -> & Hs); [lia|done|].
    exists h'. split; [done|]. rewrite Hs, sent_app. cbn. apply app_nil_r.
Qed.

Lemma write_byte_ok n u h b : 0 <= u -> u + 5 < 2 ^ 16 -> responsive n u ->
  exists h', write_byte inp (S n) u h b = Ret h' /\ sent u h' = sent u h ++ [b].
Proof.
  intros H0 H1 Hr. destruct (Hr h) as (j & Hj & Hrd).
  destruct (wait_ready_ok u H0 H1 j (S n) h) as (h' & E & Hs); [lia|done|].
  unfold write_byte. rewrite E. cbn [obind]. unfold write_reg, reg_port, outb.
  rewrite (proj2 (Z.ltb_lt _ _)) by lia. cbn [assert_ obind]. eexists. split; [reflexivity|].
  rewrite sent_app, Hs. f_equal. cbn. by rewrite Z.add_0_r, Z.eqb_refl.
Qed.

Lemma write_str_ok n u s : 0 <= u -> u + 5 < 2 ^ 16 -> responsive n u ->
  forall h, exists h', write_str inp (S n) u h s = Ret h' /\ sent u h' = sent u h ++ crlf s.
Proof.
  intros H0 H1 Hr. induction s as [|b s IH]; intros h; cbn [write_str].
  { exists h. cbn. by rewrite app_nil_r. }
  assert (Hpre : exists h1, (if b =? 10 then write_byte inp (S n) u h 13 else Ret h) = Ret h1 /\
                   sent u h1 = sent u h ++ (if b =? 10 then [13] else [])).
  { destruct (b =? 10); [by apply write_byte_ok|]. exists h. by rewrite app_nil_r. }
  destruct Hpre as (h1 & -> & Hs1). cbn [obind].
  destruct (write_byte_ok n u h1 b H0 H1 Hr) as (h2 & -> & Hs2). cbn [obind].
  destruct (IH h2) as (h3 & -> & Hs3). exists h3. split; [done|].
  rewrite Hs3, Hs2, Hs1. unfold crlf. rewrite bind_cons, <- !app_assoc. f_equal.
  destruct (Z.eqb_spec b 10) as [->|]; done.
Qed.

Lemma write_pieces_ok n u args : 0 <= u -> u + 5 < 2 ^ 16 -> responsive n u ->
  forall h, exists h', Serial.write_pieces inp (S n) u h args = Ret h' /\ sent u h' = sent u h ++ crlf (concat args).
Proof.
  intros H0 H1 Hr. induction args as [|s args IH]; intros h; cbn [Serial.write_pieces].
  { exists h. cbn. by rewrite app_nil_r. }
  destruct (write_str_ok n u s H0 H1 Hr h) as (h1 & -> & Hs1). cbn [obind].
  destruct (IH h1) as (h2 & -> & Hs2). exists h2. split; [done|]. rewrite Hs2, Hs1. cbn [concat].
  unfold crlf. by rewrite bind_app, app_assoc.
Qed.

(** Only the registers of the UART are touched. *)
Definition own_port u (e : io) : Prop := match e with In p _ | Out p _ => u <= p < u + 8 end.

Lemma wait_ready_ports u n h h' : 0 <= u -> wait_ready inp n u h = Ret h' -> exists l, h' = h ++ l /\ Forall (own_port u) l.
Proof.
  intros Hu. revert h. induction n as [|n IH]; intros h; cbn [wait_ready]; [done|].
  unfold read_reg, reg_port. destruct (u + 5 <? 2 ^ 16); cbn [assert_ obind]; [|done].
  unfold inb. destruct (_ =? 0); [|intros [= <-]; eexists; split; [done|repeat constructor; lia]].
  intros (l & -> & Hl)%IH. rewrite <- app_assoc. eexists. split; [done|]. constructor; [cbn; lia|done].
Qed.

Lemma write_byte_ports u n h b h' : 0 <= u -> write_byte inp n u h b = Ret h' -> exists l, h' = h ++ l /\ Forall (own_port u) l.
Proof.
  intros Hu. unfold write_byte. destruct (wait_ready inp n u h) as [h1| |] eqn:E; cbn [obind]; [|done..].
  destruct (wait_ready_ports u n h h1 Hu E) as (l & -> & Hl). unfold write_reg, reg_port.
  destruct (u + 0 <? 2 ^ 16); cbn [assert_ obind]; [|done]. intros [= <-]. unfold outb. rewrite <- app_assoc.
  eexists. split; [done|]. apply Forall_app. split; [done|]. repeat constructor; cbn; lia.
Qed.

Lemma write_str_ports u n s h h' : 0 <= u -> write_str inp n u h s = Ret h' -> exists l, h' = h ++ l /\ Forall (own_port u) l.
Proof.
  intros Hu. revert h. induction s as [|b s IH]; intros h; cbn [write_str].
  { intros [= <-]. exists []. by rewrite app_nil_r. }
  destruct (if b =? 10 then _ else _) as [h1| |] eqn:E1; cbn [obind]; [|done..].
  destruct (write_byte inp n u h1 b) as [h2| |] eqn:E2; cbn [obind]; [|done..].
  destruct (write_byte_ports u n h1 b h2 Hu E2) as (l2 & -> & H2). intros (l3 & -> & H3)%IH.
  assert (H1 : exists l, h1 = h ++ l /\ Forall (own_port u) l).
  { destruct (b =? 10); [by apply (write_byte_ports u n h 13)|]. injection E1 as <-. exists []. by rewrite app_nil_r. }
  destruct H1 as (l1 & -> & H1). rewrite <- !app_assoc. eexists. split; [done|]. by rewrite !Forall_app.
Qed.

(** What [init] leaves on the ports. *)
Definition line_setup : list io :=
  [Out 0x2F9 0x00; Out 0x2FB 0x80; Out 0x2F8 0x01; Out 0x2F9 0x00; Out 0x2FB 0x03; Out 0x2FA 0xC7; Out 0x2FC 0x03].

Lemma uart_new h : new 0x2F8 h = Ret (0x2F8, h ++ line_setup).
Proof.
  assert (E : forall h off v, 0 <= off < 16 -> write_reg 0x2F8 h off v = Ret (h ++ [Out (0x2F8 + off) v])).
  { intros. unfold write_reg, reg_port, outb. by rewrite (proj2 (Z.ltb_lt _ _)) by lia. }
  unfold new, init. repeat (rewrite E by lia; cbn [obind]). by rewrite <- !app_assoc.
Qed.

Lemma init_eq (u : option Uart16550.t) h : Serial.init (Serial.mk false u h) = Ret (Serial.mk false (Some 0x2F8) (h ++ line_setup)).
Proof. unfold Serial.init. cbn [Serial.history Serial.locked]. rewrite uart_new. reflexivity. Qed.

Lemma print_ok n h args : responsive n 0x2F8 ->
  exists h', Serial._print inp (S n) (Serial.mk false (Some 0x2F8) h) args = Ret (Serial.mk false (Some 0x2F8) h') /\
    sent 0x2F8 h' = sent 0x2F8 h ++ crlf (concat args).
Proof.
  intros Hr. destruct (write_pieces_ok n 0x2F8 args ltac:(lia) ltac:(lia) Hr h) as (h' & E & Hs).
  exists h'. split; [|done]. unfold Serial._print. cbn [Serial.lock Serial.locked Serial.uart Serial.history obind].
  rewrite E. reflexivity.
Qed.

(** The console in use: unlocked, on the second serial port. *)
Definition up h : Serial.t := Serial.mk false (Some 0x2F8) h.

Lemma print_one n h s : responsive n 0x2F8 ->
  exists h', Serial._print inp (S n) (up h) [s] = Ret (up h') /\ sent 0x2F8 h' = sent 0x2F8 h ++ crlf s.
Proof.
  intros Hr. destruct (print_ok n h [s] Hr) as (h' & E & Hs). cbn [concat] in Hs. rewrite app_nil_r in Hs. by exists h'.
Qed.

Lemma print_one_ports n h s : responsive n 0x2F8 ->
  exists l, Serial._print inp (S n) (up h) [s] = Ret (up (h ++ l)) /\ sent 0x2F8 l = crlf s /\ Forall (own_port 0x2F8) l.
Proof.
  intros Hr. destruct (write_str_ok n 0x2F8 s ltac:(lia) ltac:(lia) Hr h) as (h' & E & Hs).
  destruct (write_str_ports 0x2F8 (S n) s h h' ltac:(lia) E) as (l & -> & Hl). exists l. split_and!; [|by rewrite sent_app in Hs; apply app_inv_head in Hs|done].
  unfold Serial._print, up. cbn [Serial.lock Serial.locked Serial.uart Serial.history obind Serial.write_pieces]. by rewrite E.
Qed.

Lemma crlf_app s t : crlf (s ++ t) = crlf s ++ crlf t.
Proof. apply bind_app. Qed.

(** C39: after [init], [print] terminates whenever the transmitter becomes
    ready within [n] polls, releases the lock, and the bytes that reach the data
    register are exactly the pieces in order with every line feed preceded by a
    carriage return; before [init] it writes nothing. *)
Theorem serial_print_crlf n s0 args :
  Serial.locked s0 = false -> responsive n 0x2F8 ->
  exists s1 s2 s0', Serial.init s0 = Ret s1 /\ Serial._print inp (S n) s1 args = Ret s2 /\
    Serial.locked s2 = false /\
    sent 0x2F8 (Serial.history s2) = sent 0x2F8 (Serial.history s1) ++ crlf (concat args) /\
    (Serial.uart s0 = None -> Serial._print inp (S n) s0 args = Ret s0' /\ Serial.history s0' = Serial.history s0).
Proof.
  destruct s0 as [lk u h]. intros Hl Hr. cbn [Serial.locked] in Hl. subst lk.
  destruct (print_ok n (h ++ line_setup) args Hr) as (h2 & E & Hs).
  eexists _, _, (Serial.mk false None h). split; [apply init_eq|]. split; [exact E|].
  split_and!; [reflexivity|exact Hs|]. cbn [Serial.uart]. intros ->. split; reflexivity.
Qed.

End output.

(** A device that is ready at every other poll. *)
Module SerialDemo.

Definition inp (h : list io) (port : Z) : Z := if Nat.even (length h) then 0x60 else 0.
Definition cold : Serial.t := Serial.mk false None [].

Lemma ready : responsive inp 1 0x2F8.
Proof.
  intros h. destruct (Nat.even (length h)) eqn:E.
  - exists 0%nat. split; [lia|]. cbn. unfold inp. by rewrite E.
  - exists 1%nat. split; [lia|]. cbn. unfold inp at 1. rewrite length_app, Nat.add_comm. cbn.
    destruct (length h) as [|k]; [done|]. rewrite Nat.even_succ in E. unfold Nat.odd in E. by destruct (Nat.even k).
Qed.

End SerialDemo.

Lemma serial_print_crlf_witness :
  exists s1 s2, Serial.init SerialDemo.cold = Ret s1 /\ Serial._print SerialDemo.inp 2 s1 [[104; 105]; [10]] = Ret s2 /\
    sent 0x2F8 (Serial.history s2) = [1; 104; 105; 13; 10].
Proof.
  destruct (serial_print_crlf SerialDemo.inp 1 SerialDemo.cold [[104; 105]; [10]] eq_refl SerialDemo.ready)
    as (s1 & s2 & _ & E1 & E2 & _ & Hs & _).
  exists s1, s2. split; [exact E1|]. split; [exact E2|]. rewrite Hs.
  vm_compute in E1. injection E1 as <-. reflexivity.
Defined.
