(* ===== verification/Report.v ===== *)
(** * Text on the console (eira/src/arch/x86_64/idt.rs, logger.rs, main.rs)

    What a CPU exception, a panic, the logger and the timer print.  A text is
    the list of its bytes; how the formatting machinery cuts it into pieces
    makes no difference on the line.  The [log] crate is a parameter: the names
    of its levels and their order.  [deliver] hands what a call has said to the
    logger and the console, in order.  Halting for ever, interrupts off, is the end
    of a computation: what is left is the state of the console. *)

From S2P Require Import Prelude Memory Fmt Log Io Trap Serial.

(** ** The report of a CPU exception *)

Definition pf_description (ec : Z) : string :=
  let present := negb (Z.land ec (Z.shiftl 1 0) =? 0) in
  let write := negb (Z.land ec (Z.shiftl 1 1) =? 0) in
  let user := negb (Z.land ec (Z.shiftl 1 2) =? 0) in
  let ifetch := negb (Z.land ec (Z.shiftl 1 4) =? 0) in
  match present, write, user, ifetch with
  | false, false, false, false => "non-present read kernel-mode"
  | false, true, false, false => "non-present write kernel-mode"
  | false, false, true, false => "non-present read user-mode"
  | false, true, true, false => "non-present write user-mode"
  | true, false, false, false => "protection read kernel-mode"
  | true, true, false, false => "protection write kernel-mode"
  | true, false, true, false => "protection read user-mode"
  | true, true, true, false => "protection write user-mode"
  | _, _, false, true => "instruction fetch kernel-mode"
  | _, _, true, true => "instruction fetch user-mode"
  end.

Definition exception_name (vector : Z) : string :=
  match vector with
  | 0 => "#DE - Divide Error"
  | 1 => "#DB - Debug"
  | 2 => "NMI - Non-Maskable Interrupt"
  | 3 => "#BP - Breakpoint"
  | 4 => "#OF - Overflow"
  | 5 => "#BR - Bound Range Exceeded"
  | 6 => "#UD - Invalid Opcode"
  | 7 => "#NM - Device Not Available"
  | 8 => "#DF - Double Fault"
  | 9 => "Coprocessor Segment Overrun"
  | 10 => "#TS - Invalid TSS"
  | 11 => "#NP - Segment Not Present"
  | 12 => "#SS - Stack Segment Fault"
  | 13 => "#GP - General Protection Fault"
  | 14 => "#PF - Page Fault"
  | 15 => "Reserved"
  | 16 => "#MF - x87 Floating-Point Exception"
  | 17 => "#AC - Alignment Check"
  | 18 => "#MC - Machine Check"
  | 19 => "#XM - SIMD Floating-Point Exception"
  | 20 => "#VE - Virtualization Exception"
  | 21 => "#CP - Control Protection Exception"
  | 28 => "#HV - Hypervisor Injection"
  | 29 => "#VC - VMM Communication"
  | 30 => "#SX - Security Exception"
  | _ => "Reserved"
  end.

Section display.
Import ExceptionFrame.

(** A label and a value, as every row has one or two. *)
Definition cell (label : string) (v : Z) : list Z :=
  text "^[90m" ++ text label ++ text "|^[0m^[1m " ++ hex v ++ text "^[0m".

Definition row (l1 : string) (v1 : Z) (l2 : string) (v2 : Z) : list Z :=
  line (cell l1 v1 ++ text "  " ++ cell l2 v2).

(** [Display for ExceptionFrame] *)
Definition fmt (self : t) : list Z :=
  line ([10] ++ text "^[1;31meira fault.^[0m" ++ [10]) ++
  line (text "^[90mreason     |^[0m^[1m #" ++ decimal (vector self) ++ text " - " ++
        text (exception_name (Z.land (vector self) 0xFF)) ++ text "^[0m") ++
  line (cell "location   " (rip self)) ++
  (if vector self =? 14 then
     line (cell "address    " (cr2 self) ++ text "  ^[90m(" ++ text (pf_description (error_code self)) ++ text ")^[0m")
   else []) ++
  line [] ++
  row "rip        " (rip self) "rsp    " (rsp self) ++
  row "rflags     " (rflags self) "cs     " (cs self) ++
  row "ss         " (ss self) "error  " (error_code self) ++
  line [] ++
  row "rax        " (rax self) "rbx    " (rbx self) ++
  row "rcx        " (rcx self) "rdx    " (rdx self) ++
  row "rsi        " (rsi self) "rdi    " (rdi self) ++
  line (cell "rbp        " (rbp self)) ++
  row "r8         " (r8 self) "r9     " (r9 self) ++
  row "r10        " (r10 self) "r11    " (r11 self) ++
  row "r12        " (r12 self) "r13    " (r13 self) ++
  row "r14        " (r14 self) "r15    " (r15 self) ++
  line [] ++
  row "cr2        " (cr2 self) "cr3    " (cr3 self) ++
  line [] ++
  line (text "^[90mstatus     |^[0m^[1m core halted^[0m" ++ [10]) ++
  line (text "^[90mplease reset the machine.^[0m").

End display.

(** ** Who prints *)

Section console.
Context (inp : list io -> Z -> Z) (fuel : nat).
Context (level_le : Level -> Level -> bool) (level_name : Level -> list Z).

(** The console once the core has halted for ever. *)
Definition handle_cpu_exception (serial : Serial.t) (frame : ExceptionFrame.t) : outcome Serial.t :=
  Serial._print inp fuel serial [fmt frame].

(** The panic handler: message, and file and line of the location. *)
Definition panic (serial : Serial.t) (message : list Z) (location : option (list Z * Z)) : outcome Serial.t :=
  let! serial := Serial._print inp fuel serial [line ([10] ++ text "^[1;31meira fault.^[0m" ++ [10])] in
  let '(file, ln) := match location with Some l => l | None => (text "unknown", 0) end in
  let! serial := Serial._print inp fuel serial [line (text "^[90mreason     |^[0m^[1m " ++ message ++ text "^[0m")] in
  let! serial := Serial._print inp fuel serial
    [line (text "^[90mlocation   |^[0m^[1m " ++ file ++ text ":" ++ decimal ln ++ text "^[0m")] in
  let! serial := Serial._print inp fuel serial [line (text "^[90mstatus     |^[0m^[1m core halted^[0m" ++ [10])] in
  Serial._print inp fuel serial [line (text "^[90mplease reset the machine.^[0m")].

Definition timer_tick (serial : Serial.t) : outcome Serial.t := Serial._print inp fuel serial [line (text "tick")].

(** [EiraLogger] *)
Definition enabled (l : Level) : bool := level_le l LevelTrace.

Definition color_code (l : Level) : string :=
  match l with
  | LevelError => "^[1;31m"
  | LevelWarn => "^[1;33m"
  | LevelInfo => "^[1;32m"
  | LevelDebug => "^[1;34m"
  | LevelTrace => "^[1;90m"
  end.

Definition log_text (record : log_record) : list Z :=
  let dim := text "^[0;90m" in
  dim ++ text "[" ++ text (color_code (r_level record)) ++ pad_right 5 (level_name (r_level record)) ++ dim ++
  text "] " ++ r_target record ++ text " | " ++ text "^[0m" ++ r_args record.

Definition log (serial : Serial.t) (record : log_record) : outcome Serial.t :=
  if negb (enabled (r_level record)) then Ret serial
  else Serial._print inp fuel serial [line (log_text record)].

(** The logger and the console take what a call has said, in order; a call's
    words reach the line when it returns. *)
Definition emit (serial : Serial.t) (o : output) : outcome Serial.t :=
  match o with
  | Logged r => log serial r
  | Printed s => Serial._print inp fuel serial [s]
  end.

Fixpoint deliver (serial : Serial.t) (out : list output) : outcome Serial.t :=
  match out with
  | [] => Ret serial
  | o :: out => let! serial := emit serial o in deliver serial out
  end.

Definition output_text (o : output) : list Z :=
  match o with Logged r => if enabled (r_level r) then line (log_text r) else [] | Printed s => s end.

End console.

(** [logger::init]; [installed] tells whether the log crate has a logger. *)
Definition logger_init (installed : bool) : outcome bool :=
  let! _ := assert_ (negb installed) "logger already initialised" in
  Ret true.

(** ** Reading a report back *)

(** The number after the first #. *)
Fixpoint first_number (s : list Z) : Z :=
  match s with
  | b :: s => if b =? 35 then number 10 (digits_at s) else first_number s
  | [] => 0
  end.

Definition read_report (s : list Z) : option ExceptionFrame.t :=
  let vector := first_number s in
  match (if vector =? 14 then drop 2 (hex_fields s) else drop 1 (hex_fields s)) with
  | [rip; rsp; rflags; cs; ss; error_code; rax; rbx; rcx; rdx; rsi; rdi; rbp; r8; r9; r10; r11; r12; r13; r14; r15; cr2; cr3] =>
      Some (ExceptionFrame.mk cr2 cr3 r15 r14 r13 r12 r11 r10 r9 r8 rdi rsi rdx rcx rbx rax rbp vector error_code
              rip cs rflags rsp ss)
  | _ => None
  end.

Lemma hex_fields_cell l v r :
  is_u64 v -> no_number (text l) = true -> hex_fields (cell l v ++ r) = v :: hex_fields r.
Proof.
  intros Hv Hl. unfold cell. rewrite <- !app_assoc. rewrite hex_fields_skip by done.
  rewrite hex_fields_skip by done. rewrite hex_fields_skip by done. change (text "^[0m" ++ r) with (27 :: [91; 48; 109] ++ r).
  rewrite hex_fields_hex by done. f_equal. by apply (hex_fields_skip [27; 91; 48; 109]).
Qed.

Lemma hex_fields_row l1 v1 l2 v2 r :
  is_u64 v1 -> is_u64 v2 -> no_number (text l1) = true -> no_number (text l2) = true ->
  hex_fields (row l1 v1 l2 v2 ++ r) = v1 :: v2 :: hex_fields r.
Proof.
  intros. unfold row, line. rewrite <- !app_assoc. rewrite hex_fields_cell by done. f_equal.
  rewrite hex_fields_skip by done. rewrite hex_fields_cell by done. f_equal. by apply hex_fields_skip.
Qed.

(** The fields are machine words. *)
Definition words (f : ExceptionFrame.t) : list Z :=
  let '(ExceptionFrame.mk cr2 cr3 r15 r14 r13 r12 r11 r10 r9 r8 rdi rsi rdx rcx rbx rax rbp vector error_code
          rip cs rflags rsp ss) := f in
  [cr2; cr3; r15; r14; r13; r12; r11; r10; r9; r8; rdi; rsi; rdx; rcx; rbx; rax; rbp; error_code; rip; cs; rflags; rsp; ss].

Definition banner : list Z := line ([10] ++ text "^[1;31meira fault.^[0m" ++ [10]).
Definition reason (v : Z) : list Z :=
  line (text "^[90mreason     |^[0m^[1m #" ++ decimal v ++ text " - " ++ text (exception_name (Z.land v 0xFF)) ++ text "^[0m").

Lemma exceptions_ind (P : Z -> Prop) : Forall P (seqZ 0 32) -> forall v, 0 <= v < 32 -> P v.
Proof. intros Hf v Hv. rewrite Forall_forall in Hf. apply Hf, elem_of_seqZ. lia. Qed.

Lemma vector_found v r : 0 <= v < 32 -> first_number (banner ++ reason v ++ r) = v.
Proof. intros Hv. revert r. pattern v. revert Hv. apply exceptions_ind. repeat (constructor; [reflexivity|]). constructor. Qed.

Lemma reason_plain v : 0 <= v < 32 -> no_number (banner ++ reason v) = true.
Proof. apply (exceptions_ind (fun v => no_number (banner ++ reason v) = true)). repeat (constructor; [reflexivity|]). constructor. Qed.

Lemma pf_plain ec : no_number (text "  ^[90m(" ++ text (pf_description ec) ++ text ")^[0m" ++ [10]) = true.
Proof. unfold pf_description. repeat case_match; reflexivity. Qed.

Lemma hex_fields_line l v r :
  is_u64 v -> no_number (text l) = true -> hex_fields (line (cell l v) ++ r) = v :: hex_fields r.
Proof. intros. unfold line. rewrite <- app_assoc, hex_fields_cell by done. f_equal. by apply hex_fields_skip. Qed.

Lemma hex_fields_address v ec (pf : bool) r :
  is_u64 v ->
  hex_fields ((if pf then line (cell "address    " v ++ text "  ^[90m(" ++ text (pf_description ec) ++ text ")^[0m")
               else []) ++ r) =
  (if pf then [v] else []) ++ hex_fields r.
Proof.
  intros. destruct pf; [|done]. unfold line. rewrite <- (app_assoc (cell _ _)), <- (app_assoc (cell _ _)).
  rewrite hex_fields_cell by done. cbn [app]. f_equal. apply hex_fields_skip. rewrite <- !app_assoc. apply pf_plain.
Qed.

(** The registers in the order of the report. *)
Definition shown (f : ExceptionFrame.t) : list Z :=
  let '(ExceptionFrame.mk cr2 cr3 r15 r14 r13 r12 r11 r10 r9 r8 rdi rsi rdx rcx rbx rax rbp vector error_code
          rip cs rflags rsp ss) := f in
  [rip; rsp; rflags; cs; ss; error_code; rax; rbx; rcx; rdx; rsi; rdi; rbp; r8; r9; r10; r11; r12; r13; r14; r15; cr2; cr3].

Lemma fields_fmt f : Forall is_u64 (words f) -> 0 <= ExceptionFrame.vector f < 32 ->
  hex_fields (fmt f) =
    ExceptionFrame.rip f :: (if ExceptionFrame.vector f =? 14 then [ExceptionFrame.cr2 f] else []) ++ shown f.
Proof.
  destruct f. cbn [words]. rewrite !Forall_cons. intros Hw Hv. destruct_and! Hw. unfold fmt. cbn -[hex_fields line text row cell].
  fold banner. fold (reason vector). rewrite app_assoc, hex_fields_skip by by apply reason_plain.
  rewrite hex_fields_line by done. f_equal. rewrite hex_fields_address by done. f_equal.
  repeat first [rewrite hex_fields_row by done | rewrite hex_fields_line by done | rewrite (hex_fields_skip (line [])) by done];
  repeat f_equal.
Qed.

Lemma read_fmt f : Forall is_u64 (words f) -> 0 <= ExceptionFrame.vector f < 32 -> read_report (fmt f) = Some f.
Proof.
  intros Hw Hv. unfold read_report. rewrite fields_fmt by done.
  replace (first_number (fmt f)) with (ExceptionFrame.vector f) by (symmetry; by apply vector_found).
  destruct f. cbn [ExceptionFrame.vector]. by destruct (vector =? 14).
Qed.

(** ** The report reaches the line *)
Section report.
Import Isr.
Context (inp : list io -> Z -> Z).

(** C32: a CPU exception is reported in full.  When the processor has pushed the
    state [f0] it was in (and an error code for the vectors that have one) and
    entered the stub of an exception, the stub calls the dispatcher, which never
    returns, with a frame whose report ends on the console with the core halted:
    the vector and every register, control register and error code can be read
    back from the text on the line.  The report needs the lock of the console:
    an exception while it is held hangs without a word, and one before the
    console is initialised halts without a word. *)
Theorem exception_report n cr2 cr3 vec err f f0 m base :
  0 <= vec < 32 -> is_u64 cr2 -> is_u64 cr3 -> is_u64 err -> (forall r, simd r = false -> is_u64 (f0 r)) ->
  f RSP = (if with_err vec then base - 8 else base) -> 152 <= base -> base + 40 < W64 ->
  (if with_err vec then read64 m (base - 8) = err else err = 0) ->
  cpu_frame m base f0 -> (forall r, r ∈ pops -> f r = f0 r) ->
  responsive inp n 0x2F8 ->
  exists s1 frame, (forall call, isr_stub call cr2 cr3 vec (f, m) = let! s := call s1 in Ret (restore s)) /\
    ExceptionFrame.read s1.2 (s1.1 RDI) = frame /\
    (forall run d, Irq.trap_handler run d frame = Hang) /\
    (forall h, exists h' txt,
      handle_cpu_exception inp (S n) (Serial.mk false (Some 0x2F8) h) frame = Ret (Serial.mk false (Some 0x2F8) h') /\
      sent 0x2F8 h' = sent 0x2F8 h ++ crlf txt /\ read_report txt = Some (frame_of cr2 cr3 vec err f0)) /\
    (forall u h, handle_cpu_exception inp (S n) (Serial.mk true u h) frame = Hang) /\
    (forall h, handle_cpu_exception inp (S n) (Serial.mk false None h) frame = Ret (Serial.mk false None h)).
Proof.
  intros Hv H2 H3 He Hf0 Hsp Hlo Hhi Herr Hcf Hgpr Hr.
  destruct (called_ok cr2 cr3 vec err f f0 m base) as (Hdi & _ & _ & Hfr & _); try done.
  exists (called cr2 cr3 vec (f, m)), (frame_of cr2 cr3 vec err f0).
  split_and!; [intros call; apply stub_called|exact (eq_trans (f_equal (ExceptionFrame.read _) Hdi) Hfr)| | |done|done].
  - intros run d. unfold Irq.trap_handler. cbn [frame_of ExceptionFrame.vector]. rewrite vector_u8 by lia.
    unfold IRQ_BASE. by rewrite (proj2 (Z.ltb_lt _ _)) by lia.
  - intros h. set (frame := frame_of _ _ _ _ _). destruct (print_ok inp n h [fmt frame] Hr) as (h' & E & Hs).
    exists h', (fmt frame). cbn [concat] in Hs. rewrite app_nil_r in Hs. split_and!; [exact E|exact Hs|].
    apply read_fmt; [|done]. unfold frame, frame_of, words. repeat (constructor; [done || by apply Hf0|]). constructor.
Qed.

(** What has been said reaches the line, in order. *)
Lemma deliver_ok n level_le level_name h out : responsive inp n 0x2F8 ->
  exists h', deliver inp (S n) level_le level_name (up h) out = Ret (up h') /\
    sent 0x2F8 h' = sent 0x2F8 h ++ crlf (concat (output_text level_le level_name <$> out)).
Proof.
  intros Hr. revert h. induction out as [|o out IH]; intros h; cbn [deliver fmap list_fmap concat].
  { exists h. by rewrite app_nil_r. }
  assert (Hp : exists h1, emit inp (S n) level_le level_name (up h) o = Ret (up h1) /\
                 sent 0x2F8 h1 = sent 0x2F8 h ++ crlf (output_text level_le level_name o)).
  { destruct o as [r|s]; cbn [emit output_text]; [|by apply print_one]. unfold log.
    destruct (enabled level_le (r_level r)); cbn [negb]; [by apply print_one|]. exists h. by rewrite app_nil_r. }
  destruct Hp as (h1 & -> & S1). cbn [obind]. destruct (IH h1) as (h2 & -> & S2). exists h2. split; [done|].
  by rewrite S2, S1, crlf_app, app_assoc.
Qed.

(** The panic handler ends, with the message and the location on the line. *)
Theorem panic_reported n message file ln h : responsive inp n 0x2F8 ->
  exists h' pre post, panic inp (S n) (up h) message (Some (file, ln)) = Ret (up h') /\
    sent 0x2F8 h' = sent 0x2F8 h ++
      crlf (pre ++ message ++ text "^[0m" ++ [10] ++ text "^[90mlocation   |^[0m^[1m " ++ file ++ text ":" ++ decimal ln ++ post).
Proof.
  intros Hr. unfold panic, line.
  generalize (text "^[1;31meira fault.^[0m") (text "^[90mreason     |^[0m^[1m ") (text "^[0m")
    (text "^[90mlocation   |^[0m^[1m ") (text ":") (decimal ln) (text "^[90mstatus     |^[0m^[1m core halted^[0m")
    (text "^[90mplease reset the machine.^[0m"). intros t1 t2 t3 t4 t5 t6 t7 t8.
  edestruct (print_one inp n h) as (h1 & -> & S1); [done|]. cbn [obind].
  edestruct (print_one inp n h1) as (h2 & -> & S2); [done|]. cbn [obind].
  edestruct (print_one inp n h2) as (h3 & -> & S3); [done|]. cbn [obind].
  edestruct (print_one inp n h3) as (h4 & -> & S4); [done|]. cbn [obind].
  edestruct (print_one inp n h4) as (h5 & -> & S5); [done|].
  exists h5, ([10] ++ t1 ++ [10] ++ [10] ++ t2), (t3 ++ [10] ++ t7 ++ [10] ++ [10] ++ t8 ++ [10]).
  split; [reflexivity|]. rewrite S5, S4, S3, S2, S1, <- !app_assoc, <- !crlf_app. f_equal. f_equal.
  cbn [app]. by rewrite <- !app_assoc.
Qed.

(** A log record is one line, its level first, its target next, its text last. *)
Theorem log_line level_le level_name r n h :
  (forall l, level_le l LevelTrace = true) -> responsive inp n 0x2F8 ->
  exists h' pre mid, log inp (S n) level_le level_name (up h) r = Ret (up h') /\
    sent 0x2F8 h' = sent 0x2F8 h ++
      crlf (pre ++ pad_right 5 (level_name (r_level r)) ++ mid ++ r_target r ++ text " | " ++ text "^[0m" ++ r_args r ++ [10]).
Proof.
  intros Hle Hr. unfold log, enabled, log_text, line. rewrite Hle. cbn [negb].
  generalize (text "^[0;90m") (text "[") (text (color_code (r_level r))) (pad_right 5 (level_name (r_level r)))
    (text "] ") (text " | ") (text "^[0m"). intros t1 t2 t3 t4 t5 t6 t7.
  edestruct (print_one inp n h) as (h' & -> & Hs); [done|]. exists h', (t1 ++ t2 ++ t3), (t1 ++ t5). split; [reflexivity|].
  by rewrite Hs, <- !app_assoc.
Qed.

End report.

Lemma exception_report_witness :
  exists s1 h' txt, Isr.isr_stub (fun s => Ret s) 0x1000 0x2000 14 (Isr.put RSP 0x7FF8 TrapDemo.f0, write64 TrapDemo.m0 0x7FF8 2) =
      Ret (Isr.restore s1) /\
    sent 0x2F8 h' = crlf txt /\ ExceptionFrame.cr2 <$> read_report txt = Some 0x1000.
Proof.
  destruct (exception_report SerialDemo.inp 1 0x1000 0x2000 14 2 (Isr.put RSP 0x7FF8 TrapDemo.f0) TrapDemo.f0
              (write64 TrapDemo.m0 0x7FF8 2) 0x8000) as (s1 & frame & Estub & _ & _ & Hp & _).
  - lia.
  - unfold is_u64. lia.
  - unfold is_u64. lia.
  - unfold is_u64. lia.
  - intros []; unfold is_u64; cbn; lia.
  - reflexivity.
  - lia.
  - lia.
  - reflexivity.
  - split; reflexivity.
  - intros r Hr. apply put_ne. intros ->. revert Hr. apply (bool_decide_unpack _). vm_compute. exact I.
  - apply SerialDemo.ready.
  - destruct (Hp []) as (h' & txt & _ & Hs & Hrd). exists s1, h', txt. split; [apply Estub|].
    split; [exact Hs|]. by rewrite Hrd.
Defined.
