(* ===== verification/Idle.v ===== *)
(** * Idling and interrupts (idle_task of eira/src/task/scheduler.rs, timer_tick of eira/src/main.rs)

    The machine in a loop of halts: the core, its memory, the interrupt
    controllers, the registry of handlers with the console.  An interrupt takes
    the whole path: the processor pushes its frame and enters the gate of the
    vector, the stub saves the general registers, [trap_handler] runs the handler and
    acknowledges, and [iretq] returns into the loop.  The compiled [trap_handler]
    is a parameter of the machine's registers and memory, with the calling
    convention as its contract; what it does otherwise is the model of Trap.v.

    Nothing in the kernel enables interrupts, so an idle loop that serves the
    timer is what the code is made for and not what it does: the theorem states
    both sides. *)

From S2P Require Import Prelude Fmt Log Memory Io Gdt Trap Platform Arch Serial Report.
Import Isr.

(** Entering a gate that has no stack of its own: the stack is aligned, the
    interrupted state is pushed, and IF, TF, NT, RF and VM are cleared. *)
Definition enter (e : IdtEntry.t) (s : machine) : machine :=
  let f := s.1 in
  let s := (put RSP (Z.land (f RSP) (not64 15)) f, s.2) in
  let s := push_val (f RIP) (push_val (f CS) (push_val (f RFLAGS) (push_val (f RSP) (push_val (f SS) s)))) in
  mov_val RIP (gate_offset e) (mov_val CS (IdtEntry.selector e) (mov_val RFLAGS (Z.ldiff (f RFLAGS) 0x34300) s)).

(** Everything beside the core; the ports' history is what had happened before
    the registry's log, and the log. *)
Record surroundings := mk_surroundings {
  i_mem : mem;
  i_irqs : Irq.t;
  i_chips : devices;
  i_past : list io;
  i_locked : bool;
  i_uart : option Uart16550.t;
}.

Definition console (r : surroundings) : Serial.t :=
  Serial.mk (i_locked r) (i_uart r) (i_past r ++ port_events (Irq.log (i_irqs r))).

(** The handlers that have been called. *)
Definition calls (r : surroundings) : list Z :=
  omap (fun e => match e with Called h => Some h | Port _ | Said _ => None end) (Irq.log (i_irqs r)).

Section machine.
Context (inp : list io -> Z -> Z) (fuel : nat) (isr_stub : Z -> Z) (idt : Idt.t) (timer : Z).
Context (cr2 cr3 : Z) (body : machine -> machine).

(** The handler at the address [timer] is [timer_tick]. *)
Definition run_handler (r : surroundings) (h : Z) (d : Irq.t) : outcome Irq.t :=
  let! _ := assert_ (h =? timer) "no handler at this address" in
  let serial := console (mk_surroundings (i_mem r) d (i_chips r) (i_past r) (i_locked r) (i_uart r)) in
  let! serial' := Report.timer_tick inp fuel serial in
  Ret (Irq.mk (Irq.handlers d) (Irq.log d ++ (Port <$> drop (length (Serial.history serial)) (Serial.history serial')))).

(** The controllers pass on a line that is enabled while none is in service. *)
Definition deliverable (s : devices) (line : Z) : Prop :=
  0 <= line < 16 /\ Platform.enabled s line = true /\ I8259.in_service (master s) = 0 /\ I8259.in_service (slave s) = 0.

(** One interrupt, from the loop and back. *)
Inductive interrupt : core * surroundings -> core * surroundings -> Prop :=
| interrupt_served c r line e s d' :
    deliverable (i_chips r) line ->
    let vec := vector_of (i_chips r) line in
    let entered := enter e (c_regs c, i_mem r) in
    let at_call := called cr2 cr3 vec entered in
    idt !! Z.to_nat vec = Some e -> gate_present e = true -> IdtEntry.ist e = 0 -> gate_offset e = isr_stub vec ->
    Isr.isr_stub (fun s => Ret (body s)) cr2 cr3 vec entered = Ret s ->
    Irq.trap_handler (run_handler r) (i_irqs r) (ExceptionFrame.read at_call.2 (at_call.1 RDI)) = Ret d' ->
    interrupt (c, r)
      (mk_core s.1 false,
       mk_surroundings s.2 d'
         (exec (serving (i_chips r) line) (port_events (drop (length (Irq.log (i_irqs r))) (Irq.log d'))))
         (i_past r) (i_locked r) (i_uart r)).

(** The compiled [trap_handler] keeps [rbx] and the frame it is given. *)
Definition keeps_frame : Prop :=
  forall s, (body s).1 RBX = s.1 RBX /\ forall w, s.1 RDI <= w < s.1 RDI + 192 -> read64 (body s).2 w = read64 s.2 w.

(** It uses no SSE register. *)
Definition keeps_simd : Prop := forall s r, simd r = true -> (body s).1 r = s.1 r.

End machine.

(** ** Entering an interrupt *)
Lemma enter_ok e f m (base := Z.land (f RSP) (not64 15) - 40) :
  0 <= base -> base + 40 < W64 ->
  exists f' m', enter e (f, m) = (f', m') /\ f' RSP = base /\ cpu_frame m' base f /\ (forall r, r ∈ pops -> f' r = f r) /\ (forall r, simd r = true -> f' r = f r).
Proof.
  intros H0 H1. unfold enter. cbn [fst snd].
  destruct (push_val_spec (f SS) (put RSP (Z.land (f RSP) (not64 15)) f) m) as (f1 & -> & S1 & F1); [rewrite put_eq; lia|].
  rewrite put_eq in S1 |- *.
  destruct (push_val_spec (f RSP) f1 (write64 m (Z.land (f RSP) (not64 15) - 8) (f SS))) as (f2 & -> & S2 & F2); [lia|].
  match goal with |- context [push_val (f RFLAGS) (_, ?m2)] =>
    destruct (push_val_spec (f RFLAGS) f2 m2) as (f3 & -> & S3 & F3); [lia|] end.
  match goal with |- context [push_val (f CS) (_, ?m3)] =>
    destruct (push_val_spec (f CS) f3 m3) as (f4 & -> & S4 & F4); [lia|] end.
  match goal with |- context [push_val (f RIP) (_, ?m4)] =>
    destruct (push_val_spec (f RIP) f4 m4) as (f5 & -> & S5 & F5); [lia|] end.
  unfold mov_val. cbn [fst snd]. eexists _, _. split; [reflexivity|]. split_and!.
  - rewrite !put_ne by done. lia.
  - rewrite S4, S3, S2, S1. split; rewrite !read_write; repeat case_decide; (done || lia).
  - intros r Hr. rewrite !put_ne; [|by intros ->; revert Hr; apply (bool_decide_unpack _); vm_compute..].
    rewrite F5, F4, F3, F2, F1, put_ne; [done|by intros ->; revert Hr; apply (bool_decide_unpack _); vm_compute..].
  - intros r Hr. rewrite !put_ne by (by intros ->). rewrite F5, F4, F3, F2, F1, put_ne by (by intros ->). done.
Qed.

(** ** The log and the controllers *)
Lemma port_events_app l l' : port_events (l ++ l') = port_events l ++ port_events l'.
Proof. apply omap_app. Qed.

Lemma port_events_ports l : port_events (Port <$> l) = l.
Proof. unfold port_events. induction l as [|e l IH]; [done|]. cbn. f_equal. exact IH. Qed.

Lemma port_events_called h l l' : port_events (Called h :: (Port <$> l) ++ l') = l ++ port_events l'.
Proof. change (port_events ((Port <$> l) ++ l') = l ++ port_events l'). by rewrite port_events_app, port_events_ports. Qed.

Lemma exec_chips_app s l l' : exec s (l ++ l') = exec (exec s l) l'.
Proof. apply foldl_app. Qed.

(** The console's ports are none of the controllers'. *)
Lemma exec_console s l : Forall (own_port 0x2F8) l -> exec s l = s.
Proof.
  unfold exec. revert s. induction l as [|e l IH]; intros s; [done|]. rewrite Forall_cons. intros [He Hl]. cbn [foldl].
  replace (write s e) with s; [by apply IH|]. destruct e as [p v|p v]; [done|]. cbn in *. unfold write.
  repeat (rewrite (proj2 (Z.eqb_neq _ _)) by lia). done.
Qed.

(** ** One tick *)
Section tick.
Context (inp : list io -> Z -> Z) (n : nat) (isr_stub : Z -> Z) (idt : Idt.t) (timer : Z).
Context (cr2 cr3 : Z) (body : machine -> machine).
Hypothesis Hresp : responsive inp n 0x2F8.
Hypothesis Htimer : timer <> 0.
Hypothesis Hbody : keeps_frame body.
Hypothesis Hstub : is_u64 (isr_stub 32).
Hypothesis Hgate : idt !! 32%nat = Some (IdtEntry.new (isr_stub 32) 0).
Context (regs : regfile) (sent0 : list Z).
Hypothesis Hroom : 192 <= Z.land (regs RSP) (not64 15) < W64.

Abbreviation interrupt := (interrupt inp (S n) isr_stub idt timer cr2 cr3 body).
Abbreviation tick_line := (line (text "tick")).

(** After [k] ticks. *)
Record ticked (k : nat) (c : core) (r : surroundings) : Prop := {
  ti_regs : forall x, simd x = false \/ keeps_simd body -> c_regs c x = regs x;
  ti_chips : i_chips r = remapped;
  ti_handler : Irq.handlers (i_irqs r) !! 0%nat = Some timer;
  ti_calls : calls r = replicate k timer;
  ti_sent : sent 0x2F8 (Serial.history (console r)) = sent0 ++ crlf (concat (replicate k tick_line));
  ti_free : i_locked r = false;
  ti_uart : i_uart r = Some 0x2F8;
}.

Lemma tick_dispatched k c r frame : ticked k c r -> ExceptionFrame.vector frame = 32 ->
  exists l, Irq.trap_handler (run_handler inp (S n) timer r) (i_irqs r) frame =
      Ret (Irq.mk (Irq.handlers (i_irqs r)) (Irq.log (i_irqs r) ++ Called timer :: (Port <$> l) ++ eoi 0)) /\
    sent 0x2F8 l = crlf tick_line /\ Forall (own_port 0x2F8) l.
Proof.
  intros [_ _ Hh _ _ Hl Hu] Hv. unfold Irq.trap_handler. rewrite Hv. change (Z.land 32 0xFF) with 32.
  change (32 <? IRQ_BASE) with false. change (32 - IRQ_BASE) with 0. cbv zeta iota. unfold Irq.dispatch. change (IRQ_MAX <=? Z.to_nat 0)%nat with false.
  change (Z.to_nat 0) with 0%nat. cbv iota.
  rewrite Hh. cbn [expect obind]. rewrite (proj2 (Z.eqb_neq timer 0)) by done. cbn [negb].
  unfold run_handler. rewrite Z.eqb_refl. cbn [assert_ obind]. unfold console. cbn [i_locked i_uart i_past i_irqs Irq.log Irq.handlers].
  rewrite Hl, Hu, port_events_app. cbn [port_events omap list_omap]. rewrite app_nil_r.
  set (h := i_past r ++ port_events (Irq.log (i_irqs r))). unfold Report.timer_tick.
  destruct (print_one_ports inp n h tick_line Hresp) as (l & E & Hs & Hp). fold (up h). rewrite E. cbn [obind].
  exists l. split_and!; [|done|done]. unfold up. cbn [Serial.history]. rewrite drop_app_length, send_eoi_log.
  cbn [Irq.handlers Irq.log]. do 2 f_equal. by rewrite <- !app_assoc.
Qed.

(** The machine after the interrupt that finds it at [c] and [r]. *)
Definition after_tick (c : core) (r : surroundings) (s : machine) (d' : Irq.t) : core * surroundings :=
  (mk_core s.1 false,
   mk_surroundings s.2 d' (exec (serving (i_chips r) 0) (port_events (drop (length (Irq.log (i_irqs r))) (Irq.log d'))))
     (i_past r) (i_locked r) (i_uart r)).

Lemma tick_ok k c r (entered := enter (IdtEntry.new (isr_stub 32) 0) (c_regs c, i_mem r)) : ticked k c r ->
  exists s d', Isr.isr_stub (fun s => Ret (body s)) cr2 cr3 32 entered = Ret s /\
    Irq.trap_handler (run_handler inp (S n) timer r) (i_irqs r)
      (ExceptionFrame.read (called cr2 cr3 32 entered).2 ((called cr2 cr3 32 entered).1 RDI)) = Ret d' /\
    ticked (S k) (after_tick c r s d').1 (after_tick c r s d').2.
Proof.
  intros Ht. pose proof (ti_regs k c r Ht) as Hr. rewrite <- Hr in Hroom by (by left).
  destruct (enter_ok (IdtEntry.new (isr_stub 32) 0) (c_regs c) (i_mem r)) as (f' & m' & E & Hsp & Hcf & Hg & Hx); [lia|lia|].
  change (entered = (f', m')) in E. clearbody entered. subst entered. set (base := Z.land (c_regs c RSP) (not64 15) - 40) in *.
  destruct (called_ok cr2 cr3 32 0 f' (c_regs c) m' base) as (Hdi & _ & _ & Hfr & _ & _ & Hcx); try done; [lia..|].
  set (at_call := called cr2 cr3 32 (f', m')) in *.
  destruct (Hbody at_call) as [Hbx Hkeep].
  destruct (stub_returns (fun s => Ret (body s)) cr2 cr3 32 0 f' (c_regs c) m' base (body at_call)) as (s3 & Es & _ & H3); try done; [lia..| |].
  { intros w Hw. apply Hkeep. rewrite Hdi. lia. }
  destruct (tick_dispatched k c r (frame_of cr2 cr3 32 0 (c_regs c)) Ht eq_refl) as (l & Ed & Hs & Hp).
  exists s3. eexists. split; [exact Es|]. split.
  { rewrite (f_equal (ExceptionFrame.read _) Hdi). etrans; [|exact Ed]. f_equal. exact Hfr. }
  destruct Ht as [_ Hc Hh Hcalls Hsent Hl Hu]. unfold after_tick. cbn [fst snd]. split; cbn [i_chips i_irqs i_locked i_uart c_regs Irq.handlers]; try done.
  - intros x Hk. rewrite H3, <- Hr by done. destruct (simd x) eqn:Es'; [|done]. destruct Hk as [|Hk]; [done|].
    etrans; [exact (Hk at_call x Es')|]. etrans; [exact (Hcx x Es')|exact (Hx x Es')].
  - cbn [Irq.log]. rewrite drop_app_length, Hc, port_events_called. rewrite exec_chips_app, (exec_console _ _ Hp). by apply eoi_restores.
  - unfold calls in *. cbn [i_irqs Irq.log]. rewrite omap_app, Hcalls, replicate_S_end. f_equal. cbn [omap list_omap]. f_equal.
    clear. induction l as [|e l IH]; [done|exact IH].
  - unfold console in *. cbn [i_irqs i_past i_locked i_uart Irq.log Serial.history] in *.
    rewrite port_events_app, app_assoc, sent_app, Hsent, port_events_called, sent_app, Hs.
    rewrite replicate_S_end, concat_app, crlf_app, <- !app_assoc. cbn. by rewrite !app_nil_r.
Qed.

Lemma tick_possible k c r : ticked k c r -> exists st', interrupt (c, r) st' /\ ticked (S k) st'.1 st'.2.
Proof.
  intros Ht. destruct (tick_ok k c r Ht) as (s & d' & Es & Ed & Ht'). eexists. split; [|exact Ht'].
  pose proof (ti_chips k c r Ht) as Hc.
  destruct (gate_new (isr_stub 32) 0 Hstub ltac:(lia)) as (Hoff & Hpres & _ & _ & _ & Hist).
  apply (interrupt_served inp (S n) isr_stub idt timer cr2 cr3 body c r 0 (IdtEntry.new (isr_stub 32) 0) s d'); rewrite ?Hc;
    [by split_and!|exact Hgate|exact Hpres|exact Hist|exact Hoff|exact Es|exact Ed].
Qed.

Lemma tick_only k c r st' : ticked k c r -> interrupt (c, r) st' -> ticked (S k) st'.1 st'.2.
Proof.
  intros Ht Hi. destruct (tick_ok k c r Ht) as (s & d' & Es & Ed & Ht'). pose proof (ti_chips k c r Ht) as Hc.
  inversion Hi as [c0 r0 line e s0 d0 Hdel vec entered at_call Hlk _ _ _ Es0 Ed0]; subst c0 r0 st'.
  destruct Hdel as (Hline & Hen & _). rewrite Hc in Hen. apply enabled_line in Hen as ->; [|done].
  assert (Hvec : vec = 32) by (subst vec; by rewrite Hc). subst at_call entered. rewrite Hvec in *.
  change (Z.to_nat 32) with 32%nat in Hlk. rewrite Hgate in Hlk. injection Hlk as <-.
  rewrite Es in Es0. injection Es0 as <-. rewrite Ed in Ed0. injection Ed0 as <-. exact Ht'.
Qed.

End tick.

(** ** The idle loop *)
Section idle.
Context (inp : list io -> Z -> Z) (isr_stub : Z -> Z) (gdt_addr tss_addr stacks idt_addr : Z).
Context (cr2 cr3 : Z) (body : machine -> machine) (timer : Z).

(** [idle_task]: halts and interrupts, over the table [idt]. *)
Definition idle_step (fuel : nat) (idt : Idt.t) : core * surroundings -> core * surroundings -> Prop :=
  @halting (X86_64 inp isr_stub gdt_addr tss_addr stacks idt_addr) (X86_64_spec inp isr_stub gdt_addr tss_addr stacks idt_addr)
    surroundings (interrupt inp fuel isr_stub idt timer cr2 cr3 body).

Section ticks.
Context (n : nat) (idt : Idt.t) (regs : regfile) (sent0 : list Z).
Hypothesis Hresp : responsive inp n 0x2F8.
Hypothesis Htimer : timer <> 0.
Hypothesis Hbody : keeps_frame body.
Hypothesis Hstub : is_u64 (isr_stub 32).
Hypothesis Hgate : idt !! 32%nat = Some (IdtEntry.new (isr_stub 32) 0).
Hypothesis Hroom : 192 <= Z.land (regs RSP) (not64 15) < W64.

Lemma idle_ticked k c r st : ticked timer body regs sent0 k c r -> rtc (idle_step (S n) idt) (c, r) st ->
  exists k', ticked timer body regs sent0 k' st.1 st.2.
Proof.
  intros Ht Hr. refine (@halting_invariant (X86_64 _ _ _ _ _ _) (X86_64_spec _ _ _ _ _ _) surroundings _
    (fun (c : core) r => exists k', ticked timer body regs sent0 k' c r) c r st _ _ _ Hr).
  - intros c' r' (k' & H'). exists k'. by destruct H'; split.
  - intros c' r' st' (k' & H') Hi. exists (S k'). by eapply tick_only.
  - by exists k.
Qed.

Lemma idle_reaches k c r : Z.testbit (regs RFLAGS) 9 = true -> ticked timer body regs sent0 0%nat c r ->
  exists st, rtc (idle_step (S n) idt) (c, r) st /\ ticked timer body regs sent0 k st.1 st.2.
Proof.
  intros Hif H0. induction k as [|k ([c1 r1] & Hr & Ht)]; [by exists (c, r)|].
  destruct (tick_possible inp n isr_stub idt timer cr2 cr3 body Hresp Htimer Hbody Hstub Hgate regs sent0 Hroom k c1 r1 Ht)
    as (st' & Hi & Ht'). exists st'. split; [|done]. eapply rtc_r; [exact Hr|].
  apply (@halting_interrupt (X86_64 _ _ _ _ _ _) (X86_64_spec _ _ _ _ _ _)); [|exact Hi].
  cbn. unfold interrupt_flag. by rewrite (ti_regs _ _ _ _ _ _ _ Ht) by (by left).
Qed.

End ticks.

Lemma idle_deaf fuel idt (c : core) r st : interrupt_flag c = false -> rtc (idle_step fuel idt) (c, r) st -> st.2 = r.
Proof. intros Hf Hr. by destruct (@halting_deaf (X86_64 _ _ _ _ _ _) (X86_64_spec _ _ _ _ _ _) _ _ c _ _ Hf Hr). Qed.

(** C14: an idling core serves the timer for ever, if interrupts are on.  After
    [init_cpu] and the registration of [timer_tick] for line 0, with the console
    up and whatever has been printed, and from any registers with room on the
    stack: with interrupts enabled, the idle loop can serve any number of timer
    interrupts, and however many it has served, its registers are untouched (the
    SSE registers too, if the compiled handler uses none), the controllers are
    ready for the next one, and exactly as many lines "tick" have reached the
    console.  With interrupts disabled, as in the loops that end the
    panic handler and the exception report, the loop serves none.  And a tick
    that finds the console locked waits for the lock for ever. *)
Theorem idle_serves_timer hw chips0 n regs m past :
  tables hw = CpuTables.new -> Platform.idt hw = Idt.new -> (forall v, is_u64 (isr_stub v)) ->
  0 <= stacks -> stacks + 8 * IST_STACK_SIZE < W64 ->
  responsive inp n 0x2F8 -> timer <> 0 -> keeps_frame body -> 192 <= Z.land (regs RSP) (not64 15) < W64 ->
  exists hw' out ops d, X86_64.init_cpu inp isr_stub gdt_addr tss_addr stacks idt_addr hw = Ret (hw', out) /\
    ports hw' = ports hw ++ ops /\ X86_64.register_irq Irq.EMPTY 0 timer = Ret d /\
    let chips := exec chips0 ops in
    let r locked := mk_surroundings m d chips past locked (Some 0x2F8) in
    let step := idle_step (S n) (Platform.idt hw') in
    let on := X86Core.enable_interrupts (mk_core regs false) in
    let off := X86Core.disable_interrupts (mk_core regs false) in
    (forall k, exists st, rtc step (on, r false) st /\ calls st.2 = replicate k timer) /\
    (forall st, rtc step (on, r false) st -> exists k, calls st.2 = replicate k timer /\
       (forall x, simd x = false \/ keeps_simd body -> c_regs st.1 x = c_regs on x) /\ i_chips st.2 = chips /\
       sent 0x2F8 (Serial.history (console st.2)) =
         sent 0x2F8 past ++ crlf (concat (replicate k (line (text "tick"))))) /\
    (forall st, rtc step (off, r false) st -> st.2 = r false) /\
    (forall frame, ExceptionFrame.vector frame = 32 ->
       Irq.trap_handler (run_handler inp (S n) timer (r true)) d frame = Hang).
Proof.
  intros Ht Hi Hstub Hs0 Hs1 Hresp Htimer Hbody Hroom.
  destruct (init_cpu_ok inp isr_stub gdt_addr tss_addr stacks idt_addr hw Ht Hi Hs0 Hs1) as (tb & sg & idt' & E & Hgate).
  destruct (init_devices inp (ports hw) chips0) as (ops & Eops & Hdev). rewrite Eops in E.
  eexists _, _, ops, _. split; [exact E|]. split; [done|]. split; [reflexivity|].
  cbv beta iota delta [Platform.idt ports]. rewrite Hdev.
  assert (Hg : idt' !! 32%nat = Some (IdtEntry.new (isr_stub 32) 0)).
  { destruct (Hgate 32 ltac:(lia)) as (i & Hin & _ & Hlk). change (Z.to_nat 32) with 32%nat in Hlk. rewrite Hlk. do 2 f_equal.
    revert Hin. unfold Idt.vectors. rewrite !elem_of_cons, elem_of_nil. intros Hin. destruct_or?; simplify_eq; done. }
  set (d := Irq.mk _ _). intros chips r' step on off.
  set (f := c_regs on).
  assert (Hf : 192 <= Z.land (f RSP) (not64 15) < W64) by (unfold f, on; cbn; by rewrite put_ne).
  assert (Hif : Z.testbit (f RFLAGS) 9 = true) by (unfold f, on; cbn -[Z.testbit]; rewrite put_eq; by apply Z.setbit_eq).
  assert (H0 : ticked timer body f (sent 0x2F8 past) 0 on (r' false)).
  { split; try done. unfold console. cbn. by rewrite !app_nil_r. }
  split_and!.
  - intros k. destruct (idle_reaches n idt' f (sent 0x2F8 past) Hresp Htimer Hbody (Hstub 32) Hg Hf k on (r' false) Hif H0) as (st & Hr & Hk).
    exists st. split; [exact Hr|apply Hk].
  - intros st Hr. destruct (idle_ticked n idt' f (sent 0x2F8 past) Hresp Htimer Hbody Hg Hf 0 on (r' false) st H0 Hr) as (k & [? ? ? ? ? ? ?]).
    by exists k.
  - intros st Hr. eapply idle_deaf; [|exact Hr]. by apply (@disable_ok _ (X86_64_spec inp isr_stub gdt_addr tss_addr stacks idt_addr)).
  - intros frame Hv. unfold Irq.trap_handler. rewrite Hv. change (Z.land 32 0xFF) with 32. change (32 <? IRQ_BASE) with false.
    change (32 - IRQ_BASE) with 0. cbv zeta iota. unfold Irq.dispatch. change (IRQ_MAX <=? Z.to_nat 0)%nat with false. cbv iota.
    change (Irq.handlers d !! Z.to_nat 0) with (Some timer). cbn [expect obind]. rewrite (proj2 (Z.eqb_neq timer 0)) by done.
    cbn [negb]. unfold run_handler. by rewrite Z.eqb_refl.
Qed.

End idle.

(** A compiled handler that clobbers a register and writes below the frame. *)
Module IdleDemo.

Definition body (s : machine) : machine := (put RAX 0 s.1, write64 s.2 (s.1 RDI - 8) 7).

Lemma body_keeps : keeps_frame body.
Proof. intros [f m]. unfold body. cbn [fst snd]. split; [by apply put_ne|]. intros w Hw. apply read_write_ne. lia. Qed.

End IdleDemo.

Lemma idle_serves_timer_witness : exists hw' out d st,
  X86_64.init_cpu SerialDemo.inp TrapDemo.stubs 0xffffffff80001000 0xffffffff80001040 0xffffffff80002000 0xffffffff80100000
    PlatformDemo.cold = Ret (hw', out) /\
  rtc (idle_step SerialDemo.inp TrapDemo.stubs 0xffffffff80001000 0xffffffff80001040 0xffffffff80002000 0xffffffff80100000 0 0x1000
         IdleDemo.body 0x300 2 (Platform.idt hw'))
    (X86Core.enable_interrupts (mk_core TrapDemo.f0 false), mk_surroundings ∅ d remapped [] false (Some 0x2F8)) st /\
  calls st.2 = replicate 100 0x300 /\ c_regs st.1 RIP = 0x401000 /\
  sent 0x2F8 (Serial.history (console st.2)) = crlf (concat (replicate 100 (line (text "tick")))).
Proof.
  destruct (idle_serves_timer SerialDemo.inp TrapDemo.stubs 0xffffffff80001000 0xffffffff80001040 0xffffffff80002000
              0xffffffff80100000 0 0x1000 IdleDemo.body 0x300 PlatformDemo.cold PlatformDemo.unknown 1 TrapDemo.f0 ∅ [])
    as (hw' & out & ops & d & E & Eops & Ed & Hlive & Hall & _).
  - reflexivity.
  - reflexivity.
  - apply TrapDemo.stubs_u64.
  - lia.
  - unfold IST_STACK_SIZE. lia.
  - apply SerialDemo.ready.
  - done.
  - apply IdleDemo.body_keeps.
  - vm_compute. split; [discriminate|reflexivity].
  - destruct (init_devices SerialDemo.inp (ports PlatformDemo.cold) PlatformDemo.unknown) as (ops' & Eops' & Hdev).
    assert (Hops : ops = ops').
    { vm_compute in E. injection E as <- _. vm_compute in Eops, Eops'. congruence. }
    rewrite Hops, Hdev in Hlive, Hall. destruct (Hlive 100%nat) as (st & Hr & Hk).
    destruct (Hall st Hr) as (k & Hk' & Hregs & _ & Hsent).
    assert (Hk2 : k = 100%nat) by (rewrite Hk in Hk'; apply (f_equal length) in Hk'; rewrite !length_replicate in Hk'; lia).
    exists hw', out, d, st. split; [exact E|]. split; [exact Hr|]. split; [exact Hk|]. split; [by rewrite Hregs by (by left)|].
    rewrite Hsent, Hk2. reflexivity.
Defined.
