(* ===== verification/KernelTest.v ===== *)
(** * The in-kernel test framework (eira/src/test/)

    The tests of a kernel built with the feature kernel-tests: results, the
    assertion macros, registration, the runner and the debug-exit port through
    which the emulator learns the verdict.

    A test body may leave early with a result, as the assertion macros do: it is
    a computation in a monad over the kernel's state, with early results as
    errors.  The linker section of registered tests is a list in link order.  The
    [Vec] in which the runner collects a group is the list it holds: its storage on
    the kernel heap, and an allocation failure there, are not represented. *)

From Stdlib Require Import Sorted.
From S2P Require Import Prelude Fmt Io Serial.

(** ** Results *)

Inductive TestKind := Unit | Physical | Arch | Integration.

#[export] Instance TestKind_eq_dec : EqDecision TestKind.
Proof. solve_decision. Defined.

Definition label (self : TestKind) : string :=
  match self with
  | Unit => "unit"
  | Physical => "physical"
  | Arch => "arch"
  | Integration => "integration"
  end.

Record FailInfo := mk_fail {
  fi_message : string;
  fi_file : string;
  fi_line : Z;
  fi_left : option Z;
  fi_right : option Z;
}.

Inductive TestResult := Pass | Fail_ (info : FailInfo) | Skipped (reason : string).

Definition is_ok (self : TestResult) : bool := match self with Fail_ _ => false | _ => true end.

(** ** Test bodies *)

(** A value, or the result with which the body returned early. *)
Definition body (S A : Type) : Type := S -> outcome (result A TestResult * S).

#[export] Instance body_ret S : MRet (body S) := fun A a s => Ret (Ok a, s).
#[export] Instance body_bind S : MBind (body S) := fun A B k m s => rbind (m s) k.

Section body.
Context {S : Type}.

(** A call that does not touch the state, one that reads it, and one that
    changes it. *)
Definition call {A} (m : outcome A) : body S A := fun s => let! a := m in Ret (Ok a, s).
Definition query {A} (f : S -> outcome A) : body S A := fun s => let! a := f s in Ret (Ok a, s).
Definition run_on {A} (f : S -> outcome (A * S)) : body S A := fun s => let! '(a, s) := f s in Ret (Ok a, s).

(** The assertion macros, with the file, the line and the texts of their
    arguments. *)
Definition kassert (file : string) (line : Z) (what : string) (cond : bool) : body S unit := fun s =>
  if negb cond then
    Ret (Err (Fail_ (mk_fail (String.append "assertion failed: `" (String.append what "`")) file line None None)), s)
  else Ret (Ok tt, s).

(** [as u64] *)
Definition as_u64 (x : Z) : Z := x mod W64.

Definition binary_message (what op what' : string) : string :=
  String.append "assertion failed: `" (String.append what (String.append op (String.append what' "`"))).

Definition kassert_eq (file : string) (line : Z) (what what' : string) (left_ right_ : Z) : body S unit := fun s =>
  let l := as_u64 left_ in
  let r := as_u64 right_ in
  if negb (l =? r) then
    Ret (Err (Fail_ (mk_fail (binary_message what " == " what') file line (Some l) (Some r))), s)
  else Ret (Ok tt, s).

Definition kassert_ne (file : string) (line : Z) (what what' : string) (left_ right_ : Z) : body S unit := fun s =>
  let l := as_u64 left_ in
  let r := as_u64 right_ in
  if l =? r then
    Ret (Err (Fail_ (mk_fail (binary_message what " != " what') file line (Some l) (Some r))), s)
  else Ret (Ok tt, s).

Definition kskip (reason : string) : body S unit := fun s => Ret (Err (Skipped reason), s).

End body.

Record TestCase (S : Type) := mk_test {
  name : string;
  tc_module : string;
  tc_file : string;
  tc_line : Z;
  kind : TestKind;
  run : S -> outcome (TestResult * S);
}.
Arguments mk_test {S}.
Arguments name {S}.
Arguments tc_module {S}.
Arguments tc_file {S}.
Arguments tc_line {S}.
Arguments kind {S}.
Arguments run {S}.

(** The macro [kernel_test!]: a body that runs to its end passes. *)
Definition kernel_test {S} (tc_module tc_file : string) (line : Z) (name : string) (kind : TestKind)
    (b : body S unit) : TestCase S :=
  mk_test name tc_module tc_file line kind
    (fun s => let! '(r, s) := b s in Ret (match r with Ok _ => Pass | Err t => t end, s)).

(** ** The debug-exit device *)

Definition EXIT_SUCCESS : Z := 0x10.
Definition EXIT_FAILURE : Z := 0x11.

(** The write of the 32-bit code to the port, as one event of the value written;
    what remains is a halted core. *)
Definition exit (serial : Serial.t) (code : Z) : Serial.t :=
  Serial.mk (Serial.locked serial) (Serial.uart serial) (outb (Serial.history serial) 0xf4 code).

(** ** The runner *)

Definition RESET : list Z := text "^[0m".
Definition DIM : list Z := text "^[2m".
Definition DIM_BOLD : list Z := text "^[1;2m".
Definition BOLD : list Z := text "^[1m".
Definition GREEN : list Z := text "^[1;32m".
Definition RED : list Z := text "^[1;31m".
Definition YELLOW : list Z := text "^[1;33m".

Record Counts := mk_counts { passed : Z; failed : Z; skipped : Z }.

Definition no_counts : Counts := mk_counts 0 0 0.

Definition total (c : Counts) : outcome Z :=
  let! n := add_ (passed c) (failed c) in
  add_ n (skipped c).

Section runner.
Context {S : Type} (inp : list io -> Z -> Z) (fuel : nat).
Implicit Types (serial : Serial.t) (s : S) (test : TestCase S).

Definition print serial (t : list Z) : outcome Serial.t := Serial._print inp fuel serial [t].
Definition println serial (t : list Z) : outcome Serial.t := print serial (line t).

Definition run_one test (counts : Counts) serial s : outcome (Counts * Serial.t * S) :=
  let! serial := print serial
    (text "    " ++ DIM ++ text "...." ++ RESET ++ text "  " ++ DIM ++ bytes (tc_module test) ++ RESET ++ text " :: " ++
     bytes (name test)) in
  let! '(result, s) := run test s in
  match result with
  | Pass =>
      let! p := add_ (passed counts) 1 in
      let! serial := println serial ([13] ++ text "    " ++ GREEN ++ text "pass" ++ RESET) in
      Ret (mk_counts p (failed counts) (skipped counts), serial, s)
  | Fail_ info =>
      let! f := add_ (failed counts) 1 in
      let! serial := println serial ([13] ++ text "    " ++ RED ++ text "fail" ++ RESET) in
      let! serial := println serial (DIM ++ text "            " ++ bytes (fi_message info) ++ RESET) in
      let! serial :=
        match fi_left info, fi_right info with
        | Some l, Some r =>
            let! serial := println serial (text "            " ++ DIM ++ text "left :" ++ RESET ++ text "  " ++ hex l) in
            println serial (text "            " ++ DIM ++ text "right:" ++ RESET ++ text "  " ++ hex r)
        | _, _ => Ret serial
        end in
      let! serial := println serial
        (text "            " ++ DIM ++ text "at:     " ++ bytes (fi_file info) ++ text ":" ++ decimal (fi_line info) ++ RESET) in
      Ret (mk_counts (passed counts) f (skipped counts), serial, s)
  | Skipped reason =>
      let! k := add_ (skipped counts) 1 in
      let! serial := println serial
        ([13] ++ text "    " ++ YELLOW ++ text "skip" ++ RESET ++ text "  " ++ DIM ++ bytes (tc_module test) ++ RESET ++
         text " :: " ++ bytes (name test) ++ text "  " ++ DIM ++ text "(" ++ bytes reason ++ text ")" ++ RESET) in
      Ret (mk_counts (passed counts) (failed counts) k, serial, s)
  end.

Fixpoint run_group (group : list (TestCase S)) (counts : Counts) serial s : outcome (Counts * Serial.t * S) :=
  match group with
  | [] => Ret (counts, serial, s)
  | test :: group =>
      let! '(counts, serial, s) := run_one test counts serial s in
      run_group group counts serial s
  end.

Fixpoint run_kinds (kinds : list TestKind) (all : list (TestCase S)) (counts : Counts) serial s
  : outcome (Counts * Serial.t * S) :=
  match kinds with
  | [] => Ret (counts, serial, s)
  | k :: kinds =>
      let group := filter (fun t => kind t = k) all in
      match group with
      | [] => run_kinds kinds all counts serial s
      | _ =>
          let! serial := println serial ([10] ++ DIM_BOLD ++ bytes (label k) ++ RESET) in
          let! '(counts, serial, s) := run_group group counts serial s in
          run_kinds kinds all counts serial s
      end
  end.

Definition print_footer serial (c : Counts) : outcome Serial.t :=
  let status_color := if 0 <? failed c then RED else GREEN in
  let! serial := print serial
    ([10; 10] ++ text "  " ++ status_color ++ BOLD ++ text "result  " ++ DIM ++ text "|" ++ RESET) in
  let! serial := print serial
    (text "  " ++ (if 0 <? passed c then GREEN else DIM) ++ decimal (passed c) ++ text " passed" ++ RESET) in
  let! serial := print serial
    (text "  " ++ (if 0 <? failed c then RED else DIM) ++ decimal (failed c) ++ text " failed" ++ RESET) in
  println serial
    (text "  " ++ (if 0 <? skipped c then YELLOW else DIM) ++ decimal (skipped c) ++ text " skipped" ++ RESET ++ [10]).

(** The machine when the emulator gets the verdict. *)
Definition run_all (all : list (TestCase S)) serial s : outcome (Serial.t * S) :=
  let! serial := println serial
    ([10] ++ BOLD ++ text "eira test run. running " ++ decimal (Z.of_nat (length all)) ++ text " tests." ++ RESET) in
  let! '(counts, serial, s) := run_kinds [Unit; Physical; Arch; Integration] all no_counts serial s in
  let! serial := print_footer serial counts in
  let exit_code := if failed counts =? 0 then EXIT_SUCCESS else EXIT_FAILURE in
  Ret (exit serial exit_code, s).

End runner.

(** ** Reference: run in order, then count *)
Section reference.
Context {S : Type}.
Implicit Types (s : S) (t : TestCase S) (ts : list (TestCase S)) (rs : list TestResult).

Definition rank (k : TestKind) : nat :=
  match k with Unit => 0 | Physical => 1 | Arch => 2 | Integration => 3 end.

(** Insertion sort by kind, which keeps the link order within a kind. *)
Fixpoint insert_by_kind t ts : list (TestCase S) :=
  match ts with
  | [] => [t]
  | u :: us => if (rank (kind t) <=? rank (kind u))%nat then t :: ts else u :: insert_by_kind t us
  end.
Definition sort_by_kind ts : list (TestCase S) := foldr insert_by_kind [] ts.

(** The results of the tests one after the other. *)
Fixpoint exec ts s : outcome (list TestResult * S) :=
  match ts with
  | [] => Ret ([], s)
  | t :: ts =>
      let! '(r, s) := run t s in
      let! '(rs, s) := exec ts s in
      Ret (r :: rs, s)
  end.

Definition is_pass (r : TestResult) : bool := match r with Pass => true | _ => false end.
Definition is_skipped (r : TestResult) : bool := match r with Skipped _ => true | _ => false end.
Definition count (p : TestResult -> bool) rs : Z := Z.of_nat (length (List.filter p rs)).
Definition counts_of rs : Counts :=
  mk_counts (count is_pass rs) (count (fun r => negb (is_ok r)) rs) (count is_skipped rs).

Definition add_counts (c d : Counts) : Counts :=
  mk_counts (passed c + passed d) (failed c + failed d) (skipped c + skipped d).

Definition of_kind (k : TestKind) ts : list (TestCase S) := filter (fun t => kind t = k) ts.

(** Groups in the order of their kinds are the sorted list. *)
Lemma insert_group t l1 l2 :
  Forall (fun u => rank (kind u) < rank (kind t))%nat l1 ->
  Forall (fun u => rank (kind t) <= rank (kind u))%nat l2 ->
  insert_by_kind t (l1 ++ l2) = l1 ++ t :: l2.
Proof.
  induction 1 as [|u us Hu _ IH]; intros H2; cbn [app insert_by_kind].
  - destruct l2 as [|u us]; [done|]. cbn [insert_by_kind]. apply Forall_cons in H2 as [Hu _].
    by rewrite (proj2 (Nat.leb_le _ _)).
  - rewrite (proj2 (Nat.leb_gt _ _)) by done. by rewrite IH.
Qed.

Lemma of_kind_rank k ts : Forall (fun u => rank (kind u) = rank k) (of_kind k ts).
Proof. apply Forall_forall. intros u [-> _]%list_elem_of_filter. done. Qed.

Lemma of_kind_cons k t ts : of_kind k (t :: ts) = if decide (kind t = k) then t :: of_kind k ts else of_kind k ts.
Proof. reflexivity. Qed.

Lemma sort_groups ts :
  sort_by_kind ts = of_kind Unit ts ++ of_kind Physical ts ++ of_kind Arch ts ++ of_kind Integration ts.
Proof.
  induction ts as [|t ts IH]; [done|]. cbn [sort_by_kind foldr]. fold (sort_by_kind ts). rewrite IH.
  assert (Hr : forall k, Forall (fun u => rank (kind u) = rank k) (of_kind k ts)) by (intros k; apply of_kind_rank).
  assert (Hle : forall k, (rank (kind t) <= rank k)%nat -> Forall (fun u => rank (kind t) <= rank (kind u))%nat (of_kind k ts)).
  { intros k Hk. eapply Forall_impl; [apply Hr|]. cbn. lia. }
  assert (Hlt : forall k, (rank k < rank (kind t))%nat -> Forall (fun u => rank (kind u) < rank (kind t))%nat (of_kind k ts)).
  { intros k Hk. eapply Forall_impl; [apply Hr|]. cbn. lia. }
  rewrite !of_kind_cons. destruct (kind t) eqn:Hk; cbn [decide TestKind_eq_dec decide_rel].
  - apply (insert_group t []); [constructor|]. rewrite Hk. repeat (apply Forall_app; split); apply Hle; cbn; lia.
  - apply (insert_group t (of_kind Unit ts)); rewrite Hk; repeat (apply Forall_app; split);
      first [apply Hlt; cbn; lia|apply Hle; cbn; lia].
  - rewrite !(app_assoc (of_kind Unit ts)).
    apply (insert_group t (of_kind Unit ts ++ of_kind Physical ts)); rewrite Hk; repeat (apply Forall_app; split);
      first [apply Hlt; cbn; lia|apply Hle; cbn; lia].
  - rewrite !(app_assoc (of_kind Unit ts)), !(app_assoc (of_kind Unit ts ++ _)).
    apply (insert_group t ((of_kind Unit ts ++ of_kind Physical ts) ++ of_kind Arch ts)); rewrite Hk;
      repeat (apply Forall_app; split); first [apply Hlt; cbn; lia|apply Hle; cbn; lia].
Qed.

Lemma sort_permutation ts : Permutation (sort_by_kind ts) ts.
Proof.
  induction ts as [|t ts IH]; [done|]. cbn [sort_by_kind foldr]. fold (sort_by_kind ts).
  transitivity (t :: sort_by_kind ts); [|by constructor]. generalize (sort_by_kind ts). clear. intros us.
  induction us as [|u us IH]; cbn [insert_by_kind]; [done|]. case_match; [done|].
  rewrite IH. apply Permutation_swap.
Qed.

Definition by_kind (t u : TestCase S) : Prop := (rank (kind t) <= rank (kind u))%nat.

Lemma insert_sorted t us : StronglySorted by_kind us -> StronglySorted by_kind (insert_by_kind t us).
Proof.
  unfold by_kind. induction 1 as [|u us Hs IH Hu]; cbn [insert_by_kind]; [by repeat constructor|].
  destruct (Nat.leb_spec (rank (kind t)) (rank (kind u))) as [Hle|Hlt].
  - constructor; [by constructor|]. constructor; [done|]. eapply Forall_impl; [exact Hu|]. cbn. lia.
  - constructor; [done|]. clear -Hu Hlt. induction Hu as [|v us Hv Hvs IH]; cbn [insert_by_kind].
    + constructor; [lia|done].
    + case_match; by repeat constructor; try lia.
Qed.

Lemma sort_sorted ts : StronglySorted by_kind (sort_by_kind ts).
Proof. induction ts as [|t ts IH]; [constructor|]. by apply insert_sorted. Qed.

Lemma of_kind_insert k t us :
  of_kind k (insert_by_kind t us) = if decide (kind t = k) then t :: of_kind k us else of_kind k us.
Proof.
  induction us as [|u us IH]; cbn [insert_by_kind]; [apply of_kind_cons|].
  destruct (Nat.leb_spec (rank (kind t)) (rank (kind u))) as [Hle|Hlt]; [apply of_kind_cons|].
  rewrite !of_kind_cons, IH. destruct (decide (kind t = k)) as [Et|], (decide (kind u = k)) as [Eu|]; try done.
  exfalso. rewrite Et, Eu in Hlt. lia.
Qed.

Lemma sort_stable k ts : of_kind k (sort_by_kind ts) = of_kind k ts.
Proof.
  induction ts as [|t ts IH]; [done|]. cbn [sort_by_kind foldr]. fold (sort_by_kind ts).
  by rewrite of_kind_insert, of_kind_cons, IH.
Qed.

Lemma exec_app ts us s :
  exec (ts ++ us) s = let! '(rs, s) := exec ts s in let! '(rs', s) := exec us s in Ret (rs ++ rs', s).
Proof.
  revert s. induction ts as [|t ts IH]; intros s; cbn [exec app obind].
  - by destruct (exec us s) as [[??]| |].
  - destruct (run t s) as [[r s1]| |]; cbn [obind]; [|done|done]. rewrite IH.
    destruct (exec ts s1) as [[rs s2]| |]; cbn [obind]; [|done|done].
    by destruct (exec us s2) as [[rs' s3]| |].
Qed.

Lemma exec_length ts s rs s' : exec ts s = Ret (rs, s') -> length rs = length ts.
Proof.
  revert s rs. induction ts as [|t ts IH]; intros s rs; cbn [exec]; [by intros [= <- <-]|].
  destruct (run t s) as [[r s1]| |]; cbn [obind]; [|done|done].
  destruct (exec ts s1) as [[rs1 s2]| |] eqn:E; cbn [obind]; [|done|done]. intros [= <- <-]. cbn. f_equal. by eapply IH.
Qed.

Lemma no_failures rs : (count (fun r => negb (is_ok r)) rs =? 0) = forallb is_ok rs.
Proof.
  unfold count. induction rs as [|[] rs IH]; [done|..]; cbn [List.filter is_ok negb forallb andb length]; [done| |done].
  apply Z.eqb_neq. lia.
Qed.

Definition sum (c : Counts) : Z := passed c + failed c + skipped c.
Definition good_counts (c : Counts) : Prop := 0 <= passed c /\ 0 <= failed c /\ 0 <= skipped c.

Lemma count_app p rs rs' : count p (rs ++ rs') = count p rs + count p rs'.
Proof. unfold count. rewrite List.filter_app, length_app. lia. Qed.

Lemma counts_app rs rs' : counts_of (rs ++ rs') = add_counts (counts_of rs) (counts_of rs').
Proof. unfold counts_of, add_counts. cbn. by rewrite !count_app. Qed.

Lemma add_counts_assoc c d e : add_counts (add_counts c d) e = add_counts c (add_counts d e).
Proof. unfold add_counts. cbn. f_equal; lia. Qed.

Lemma add_counts_nil c : add_counts c (counts_of []) = c.
Proof. destruct c. unfold add_counts, counts_of, count. cbn [passed failed skipped List.filter length Z.of_nat]. by rewrite !Z.add_0_r. Qed.

Lemma sum_counts rs : sum (counts_of rs) = Z.of_nat (length rs) /\ good_counts (counts_of rs).
Proof.
  unfold sum, good_counts, counts_of, count. cbn [passed failed skipped]. split; [|lia].
  induction rs as [|[] rs IH]; [done|..]; cbn [List.filter is_pass is_ok is_skipped negb length]; lia.
Qed.

Lemma sum_add c rs : sum (add_counts c (counts_of rs)) = sum c + Z.of_nat (length rs).
Proof. destruct (sum_counts rs) as [E _]. unfold sum, add_counts in *. cbn [passed failed skipped] in *. lia. Qed.

Lemma good_add c rs : good_counts c -> good_counts (add_counts c (counts_of rs)).
Proof. destruct (sum_counts rs) as [_ G]. unfold good_counts, add_counts in *. cbn [passed failed skipped] in *. lia. Qed.

End reference.

(** ** The runner against the reference *)
Section equivalence.
Context {S : Type} (inp : list io -> Z -> Z) (n : nat).
Hypothesis Hresp : responsive inp n 0x2F8.
Implicit Types (s : S) (t : TestCase S) (ts : list (TestCase S)) (h : list io).

(** The line has grown from [h] to [h']. *)
Definition extends h h' : Prop := exists out, sent 0x2F8 h' = sent 0x2F8 h ++ out.

#[local] Instance extends_preorder : PreOrder extends.
Proof.
  split.
  - intros h. exists []. by rewrite app_nil_r.
  - intros h1 h2 h3 [o1 E1] [o2 E2]. exists (o1 ++ o2). by rewrite E2, E1, app_assoc.
Qed.

Lemma print_up h x : exists h', print inp (Datatypes.S n) (up h) x = Ret (up h') /\ sent 0x2F8 h' = sent 0x2F8 h ++ crlf x.
Proof. by apply print_one. Qed.

Lemma print_extends h x : exists h', print inp (Datatypes.S n) (up h) x = Ret (up h') /\ extends h h'.
Proof. destruct (print_up h x) as (h' & E & Hs). exists h'. split; [done|]. by exists (crlf x). Qed.

(** [m] does what the tests [ts] do, and counts their results. *)
Definition follows ts h s (c : Counts) (m : outcome (Counts * Serial.t * S)) : Prop :=
  match exec ts s with
  | Ret (rs, s') => exists h', m = Ret (add_counts c (counts_of rs), up h', s') /\ extends h h'
  | Panic w => m = Panic w
  | Hang => m = Hang
  end.

Ltac print_step :=
  match goal with
  | |- context [obind (println inp _ (up ?h) ?x) _] =>
      let h1 := fresh "h" in let E := fresh "E" in
      destruct (print_extends h (line x)) as (h1 & E & ?);
      change (println inp (Datatypes.S n) (up h) x) with (print inp (Datatypes.S n) (up h) (line x));
      rewrite E; clear E; cbn [obind]
  | |- context [obind (print inp _ (up ?h) ?x) _] =>
      let h1 := fresh "h" in let E := fresh "E" in
      destruct (print_extends h x) as (h1 & E & ?); rewrite E; clear E; cbn [obind]
  end.

Ltac extends_chain := first [eassumption | etransitivity; [eassumption|extends_chain]].

Ltac counted :=
  eexists; split; [f_equal; f_equal; f_equal; f_equal; cbn [List.filter is_pass is_ok is_skipped negb length]; lia|extends_chain].

Lemma run_one_follows t c h s :
  good_counts c -> sum c + 1 < W64 -> follows [t] h s c (run_one inp (Datatypes.S n) t c (up h) s).
Proof.
  intros Hg Hb. unfold sum, good_counts in *. unfold follows, run_one. cbn [exec]. print_step.
  destruct (run t s) as [[r s1]| |]; cbn [obind]; [|done|done].
  destruct c as [p f k]. cbn [passed failed skipped] in *.
  destruct r as [|info|reason]; rewrite add_Ret by lia; cbn [obind]; unfold add_counts, counts_of, count;
    cbn [passed failed skipped]; print_step; [by counted| |by counted].
  print_step. destruct (fi_left info) as [l|], (fi_right info) as [r|]; cbn [obind]; try (print_step; by counted).
  print_step. unfold println at 1.
  match goal with |- context [obind (print inp _ (up ?h) ?x) _] => destruct (print_extends h x) as (h5 & -> & ?) end.
  cbn [obind]. print_step. by counted.
Qed.

Lemma follows_bind ts us h s c m (k : Counts -> Serial.t -> S -> outcome (Counts * Serial.t * S)) :
  good_counts c -> follows ts h s c m ->
  (forall c' h' s', good_counts c' -> sum c' = sum c + Z.of_nat (length ts) -> follows us h' s' c' (k c' (up h') s')) ->
  follows (ts ++ us) h s c (let! '(c, serial, s) := m in k c serial s).
Proof.
  unfold follows. intros Hg Hm Hk. rewrite exec_app.
  destruct (exec ts s) as [[rs s1]| |] eqn:E; cbn [obind]; [|by rewrite Hm|by rewrite Hm].
  destruct Hm as (h1 & -> & Hx1). cbn [obind].
  specialize (Hk (add_counts c (counts_of rs)) h1 s1 (good_add _ _ Hg)).
  rewrite sum_add, (exec_length _ _ _ _ E) in Hk. specialize (Hk eq_refl).
  destruct (exec us s1) as [[rs' s2]| |]; cbn [obind]; [|done|done].
  destruct Hk as (h2 & -> & Hx2). exists h2. rewrite counts_app, add_counts_assoc. split; [done|]. by transitivity h1.
Qed.

Lemma follows_nil h h' s c : extends h h' -> follows [] h s c (Ret (c, up h', s)).
Proof. intros Hx. exists h'. by rewrite add_counts_nil. Qed.

Lemma follows_extends ts h h' s c m : extends h h' -> follows ts h' s c m -> follows ts h s c m.
Proof.
  unfold follows. intros Hx. destruct (exec ts s) as [[rs s1]| |]; [|done|done].
  intros (h2 & E & Hx2). exists h2. split; [done|]. by transitivity h'.
Qed.

Lemma run_group_follows ts c h s :
  good_counts c -> sum c + Z.of_nat (length ts) < W64 -> follows ts h s c (run_group inp (Datatypes.S n) ts c (up h) s).
Proof.
  revert c h s. induction ts as [|t ts IH]; intros c h s Hg Hb; cbn [run_group]; [by apply follows_nil|].
  cbn [length] in Hb. apply (follows_bind [t] ts); [done|apply run_one_follows; [done|lia]|].
  intros c' h' s' Hg' Hs. cbn [length] in Hs. apply IH; [done|lia].
Qed.

Definition groups (kinds : list TestKind) ts : list (TestCase S) := concat ((fun k => of_kind k ts) <$> kinds).

Lemma run_kinds_follows kinds ts c h s :
  good_counts c -> sum c + Z.of_nat (length (groups kinds ts)) < W64 ->
  follows (groups kinds ts) h s c (run_kinds inp (Datatypes.S n) kinds ts c (up h) s).
Proof.
  revert c h s. induction kinds as [|k kinds IH]; intros c h s Hg Hb; cbn [run_kinds]; [by apply follows_nil|].
  unfold groups in *. cbn [fmap list_fmap concat] in *. fold (of_kind k ts). rewrite length_app in Hb.
  destruct (of_kind k ts) as [|t us] eqn:E; [apply IH; [done|lia]|]. print_step.
  eapply follows_extends; [eassumption|]. apply follows_bind; [done|apply run_group_follows; [done|lia]|].
  intros c' h' s' Hg' Hs. apply IH; [done|lia].
Qed.

(** The summary line. *)
Definition footer (c : Counts) : list Z :=
  [10; 10] ++ text "  " ++ (if 0 <? failed c then RED else GREEN) ++ BOLD ++ text "result  " ++ DIM ++ text "|" ++ RESET ++
  text "  " ++ (if 0 <? passed c then GREEN else DIM) ++ decimal (passed c) ++ text " passed" ++ RESET ++
  text "  " ++ (if 0 <? failed c then RED else DIM) ++ decimal (failed c) ++ text " failed" ++ RESET ++
  text "  " ++ (if 0 <? skipped c then YELLOW else DIM) ++ decimal (skipped c) ++ text " skipped" ++ RESET ++ [10] ++ [10].

Lemma print_footer_up c h : exists h', print_footer inp (Datatypes.S n) (up h) c = Ret (up h') /\
  sent 0x2F8 h' = sent 0x2F8 h ++ crlf (footer c).
Proof.
  unfold print_footer, footer, println, line.
  edestruct (print_up h) as (h1 & -> & S1). cbn [obind].
  edestruct (print_up h1) as (h2 & -> & S2). cbn [obind].
  edestruct (print_up h2) as (h3 & -> & S3). cbn [obind].
  edestruct (print_up h3) as (h4 & -> & S4). exists h4. split; [done|].
  rewrite S4, S3, S2, S1, <- !app_assoc, <- !crlf_app. f_equal. f_equal. by rewrite <- !app_assoc.
Qed.

(** The runner against the tests in order. *)
Lemma run_all_exec ts h s :
  Z.of_nat (length ts) < W64 ->
  match exec (sort_by_kind ts) s with
  | Ret (rs, s') => exists h' pre,
      run_all inp (Datatypes.S n) ts (up h) s =
        Ret (up (h' ++ [Out 0xf4 (if forallb is_ok rs then EXIT_SUCCESS else EXIT_FAILURE)]), s') /\
      sent 0x2F8 h' = sent 0x2F8 h ++ pre ++ crlf (footer (counts_of rs)) /\ length rs = length ts
  | Panic w => run_all inp (Datatypes.S n) ts (up h) s = Panic w
  | Hang => run_all inp (Datatypes.S n) ts (up h) s = Hang
  end.
Proof.
  intros Hb. unfold run_all. print_step.
  rename h0 into h1. assert (Hg : groups [Unit; Physical; Arch; Integration] ts = sort_by_kind ts).
  { rewrite sort_groups. unfold groups. cbn. by rewrite app_nil_r. }
  pose proof (run_kinds_follows [Unit; Physical; Arch; Integration] ts no_counts h1 s) as Hk. rewrite Hg in Hk.
  unfold follows in Hk. rewrite (Permutation_length (sort_permutation ts)) in Hk.
  specialize (Hk ltac:(unfold good_counts; cbn; lia) ltac:(unfold sum; cbn; lia)).
  destruct (exec (sort_by_kind ts) s) as [[rs s']| |] eqn:E; [|by rewrite Hk|by rewrite Hk].
  destruct Hk as (h2 & -> & Hx). cbn [obind].
  replace (add_counts no_counts (counts_of rs)) with (counts_of rs) by (unfold add_counts; by destruct (counts_of rs)).
  destruct (print_footer_up (counts_of rs) h2) as (h3 & -> & Hs3). cbn [obind].
  destruct (transitivity H Hx) as [pre Hpre]. exists h3, pre. split_and!.
  - unfold exit, up, outb, counts_of. cbn [Serial.locked Serial.uart Serial.history failed]. by rewrite no_failures.
  - by rewrite Hs3, Hpre, app_assoc.
  - rewrite (exec_length _ _ _ _ E). apply Permutation_length, sort_permutation.
Qed.

(** C16: the runner is equivalent to its reference.  With a console that becomes
    ready, [run_all] runs every registered test exactly once, by kind in the
    order of the enum and in link order within a kind: it returns exactly when
    each of them does, and then in the state they leave; its verdict on the
    debug-exit port is success exactly when no test failed, and the summary on
    the console counts the results, one per test.  A test that panics or hangs
    takes the run with it, without a verdict. *)
Theorem run_all_equiv ts h s :
  Z.of_nat (length ts) < W64 ->
  (Permutation (sort_by_kind ts) ts /\ StronglySorted by_kind (sort_by_kind ts) /\
   forall k, of_kind k (sort_by_kind ts) = of_kind k ts) /\
  match exec (sort_by_kind ts) s with
  | Ret (rs, s') => exists h' pre,
      run_all inp (Datatypes.S n) ts (up h) s =
        Ret (up (h' ++ [Out 0xf4 (if forallb is_ok rs then EXIT_SUCCESS else EXIT_FAILURE)]), s') /\
      sent 0x2F8 h' = sent 0x2F8 h ++ pre ++ crlf (footer (counts_of rs)) /\ length rs = length ts
  | Panic w => run_all inp (Datatypes.S n) ts (up h) s = Panic w
  | Hang => run_all inp (Datatypes.S n) ts (up h) s = Hang
  end.
Proof.
  intros Hb. split; [split_and!; [apply sort_permutation|apply sort_sorted|intros; apply sort_stable]|].
  exact (run_all_exec ts h s Hb).
Qed.

End equivalence.

(** Two tests, registered against the order of their kinds. *)
Module KernelTestDemo.

Definition fails : TestCase nat := kernel_test "eira::mm" "mm.rs" 1 "fails" Physical (kassert_eq "mm.rs" 2 "1" "2" 1 2).
Definition counts : TestCase nat := kernel_test "eira::mm" "mm.rs" 5 "counts" Unit (run_on (fun s => Ret (tt, S s))).

End KernelTestDemo.

Lemma run_all_equiv_witness : exists h',
  run_all SerialDemo.inp 2 [KernelTestDemo.fails; KernelTestDemo.counts] (up []) 0%nat = Ret (up (h' ++ [Out 0xf4 0x11]), 1%nat).
Proof.
  destruct (run_all_equiv SerialDemo.inp 1 SerialDemo.ready [KernelTestDemo.fails; KernelTestDemo.counts] [] 0%nat eq_refl)
    as [_ H].
  destruct H as (h' & _ & E & _). exists h'. exact E.
Defined.
