(* ===== verification/Display.v ===== *)
(** * The texts of values (the impls of Display and Debug under eira/src/)

    The hand-written implementations, with the derived ones they use.  The
    builders of the standard library's formatter, [debug_struct] and
    [debug_list], are given by the text they write without the alternate flag.
    [LowerHex] and [UpperHex] of the addresses forward the caller's formatter
    to the word and have no definition of their own. *)

From S2P Require Import Prelude Addr Frame Memory Region Heap Paging AddressSpace Context Task Fmt KernelTest.

(** ** The standard library's builders *)

Definition join (sep : list Z) (l : list (list Z)) : list Z :=
  match l with
  | [] => []
  | x :: l => x ++ concat ((fun y => sep ++ y) <$> l)
  end.

Definition field (name : string) (value : list Z) : string * list Z := (name, value).

Definition debug_struct (name : string) (fields : list (string * list Z)) : list Z :=
  bytes name ++ bytes " { " ++ join (bytes ", ") ((fun f => bytes f.1 ++ bytes ": " ++ f.2) <$> fields) ++ bytes " }".

Definition debug_list (entries : list (list Z)) : list Z := bytes "[" ++ join (bytes ", ") entries ++ bytes "]".

Definition debug_tuple (name : string) (field : list Z) : list Z := bytes name ++ bytes "(" ++ field ++ bytes ")".

Definition debug_option (o : option (list Z)) : list Z :=
  match o with Some x => debug_tuple "Some" x | None => bytes "None" end.

(** ** Addresses, frames and regions *)

Definition PhysAddr_Debug (self : Z) : list Z := bytes "PhysAddr(" ++ hex self ++ bytes ")".
Definition PhysAddr_Display (self : Z) : list Z := hex self.
Definition VirtAddr_Debug (self : Z) : list Z := bytes "VirtAddr(" ++ hex self ++ bytes ")".
Definition VirtAddr_Display (self : Z) : list Z := hex self.

Definition PhysFrame_Debug (S self : Z) : list Z := bytes "PhysFrame<" ++ decimal (S / 1024) ++ bytes "K>(" ++ hex self ++ bytes ")".
Definition FrameRange_Debug (S : Z) (self : FrameRange.t) : list Z :=
  bytes "FrameRange(" ++ PhysFrame_Debug S (FrameRange.start self) ++ bytes "..=" ++ PhysFrame_Debug S (FrameRange.end_ self) ++ bytes ")".

(** derived *)
Definition Region_Debug (self : Region.t) : list Z :=
  debug_struct "Region" [field "base" (VirtAddr_Debug (Region.base self)); field "size" (decimal (Region.size self))].

Definition RegionAllocator_Debug (self : RegionAllocator.t) : outcome (list Z) :=
  let! entries := RegionAllocator.prefix self in
  Ret (debug_list (Region_Debug <$> entries)).

(** ** Errors *)

Definition RegionError_Display (self : RegionError) : list Z :=
  bytes match self with
  | OutOfVirtualMemory => "out of virtual address space"
  | TrackerFull => "region tracker slot array is full"
  | UnalignedAddress => "address or size is not page-aligned"
  end.

Definition MapError_Display (self : MapError) : list Z :=
  bytes match self with
  | AlreadyMapped => "virtual address is already mapped"
  | FrameAllocationFailed => "could not allocate a page table frame"
  | MapUnalignedAddress => "virtual address is not page-aligned"
  end.

Definition UnmapError_Display (self : UnmapError) : list Z :=
  bytes match self with
  | NotMapped => "virtual address is not mapped"
  | UnmapUnalignedAddress => "virtual address is not page-aligned"
  | HugePage => "address is backed by a huge page"
  end.

Definition UnmapError_Debug (self : UnmapError) : list Z := UnmapError_Display self.

Definition AddressSpaceError_Display (self : AddressSpaceError) : list Z :=
  match self with
  | ErrRegion e => bytes "virtual region error: " ++ RegionError_Display e
  | ErrMap e => bytes "page table map error: " ++ MapError_Display e
  | ErrUnmap e => bytes "page table unmap error: " ++ UnmapError_Display e
  | OutOfPhysicalMemory => bytes "out of physical memory"
  end.

(** The panic of a [TlbFlush] dropped in a debug build. *)
Definition TlbFlush_drop_message (self : Z) : list Z :=
  bytes "TlbFlush for " ++ hex_short self ++ bytes " dropped without being flushed or ignored".

(** ** Page tables *)

(** [flag!] *)
Definition flag (name : string) (bit : Z) : string * Z := (name, bit).

Definition entry_flag_names : list (string * Z) :=
  [flag "PRESENT" EntryFlags.PRESENT; flag "WRITABLE" EntryFlags.WRITABLE; flag "USER" EntryFlags.USER;
   flag "WRITE_THROUGH" EntryFlags.WRITE_THROUGH; flag "CACHE_DISABLE" EntryFlags.CACHE_DISABLE;
   flag "ACCESSED" EntryFlags.ACCESSED; flag "DIRTY" EntryFlags.DIRTY; flag "HUGE_PAGE" EntryFlags.HUGE_PAGE;
   flag "GLOBAL" EntryFlags.GLOBAL; flag "NO_EXECUTE" EntryFlags.NO_EXECUTE].

Definition EntryFlags_Debug (self : Z) : list Z :=
  concat ((fun f : string * Z => if EntryFlags.contains self f.2 then bytes f.1 ++ bytes " " else []) <$> entry_flag_names).

Definition PageTableEntry_Debug (self : Z) : outcome (list Z) :=
  let! frame := PageTableEntry.frame self in
  Ret (debug_struct "PageTableEntry"
         [field "frame" (debug_option (PhysFrame_Debug PAGE_SIZE <$> frame));
          field "flags" (EntryFlags_Debug (PageTableEntry.flags self))]).

Definition present_count (m : mem) (table : Z) : nat :=
  length (List.filter PageTableEntry.is_present ((fun i => read64 m (table + 8 * i)) <$> seqZ 0 ENTRY_COUNT)).

Definition PageTable_Debug (m : mem) (table : Z) : list Z :=
  debug_struct "PageTable" [field "present_entries" (decimal (Z.of_nat (present_count m table)))].

(** ** Heap, stacks and tasks *)

Definition HeapAllocator_Debug (m : mem) (self : HeapAllocator.t) : outcome (list Z) :=
  let stats := HeapAllocator.stats self in
  let! free_blocks := HeapAllocator.free_list_len m self in
  Ret (debug_struct "HeapAllocator"
         [field "free_bytes" (decimal (HeapStats.free_bytes stats)); field "total_bytes" (decimal (HeapStats.total_bytes stats));
          field "free_blocks" (decimal free_blocks); field "alloc_count" (decimal (HeapStats.alloc_count stats));
          field "dealloc_count" (decimal (HeapStats.dealloc_count stats))]).

(** A pointer prints like [{:#x}]. *)
Definition KernelStack_Debug (self : KernelStack.t) : outcome (list Z) :=
  let! top := KernelStack.top self in
  Ret (debug_struct "KernelStack"
         [field "base" (hex_short (KernelStack.base self)); field "top" (hex_short top); field "size" (decimal (KernelStack.size self))]).

(** derived *)
Definition TaskId_Debug (self : Z) : list Z := debug_tuple "TaskId" (decimal self).
Definition Priority_Debug (self : Z) : list Z := debug_tuple "Priority" (decimal self).
Definition BlockReason_Debug (self : BlockReason) : list Z :=
  bytes match self with
  | IpcReply => "IpcReply" | Sleep => "Sleep" | Io => "Io" | PageFault => "PageFault" | Other => "Other"
  end.
Definition TaskState_Debug (self : TaskState) : list Z :=
  match self with
  | Created => bytes "Created" | Ready => bytes "Ready" | Running => bytes "Running"
  | Blocked reason => debug_tuple "Blocked" (BlockReason_Debug reason)
  | Dead => bytes "Dead"
  end.

Definition Task_Debug {C} (self : Task C) : list Z :=
  debug_struct "Task"
    [field "id" (TaskId_Debug (Task.id self)); field "state" (TaskState_Debug (Task.state self));
     field "priority" (Priority_Debug (Task.priority self))].

Definition TestCase_Debug {S} (self : TestCase S) : list Z :=
  bytes "TestCase(" ++ bytes (tc_module self) ++ bytes "::" ++ bytes (name self) ++ bytes ")".

Example entry_text :
  PageTableEntry_Debug (PageTableEntry.new 0x5000 (EntryFlags.or EntryFlags.PRESENT EntryFlags.NO_EXECUTE)) =
    Ret (bytes "PageTableEntry { frame: Some(PhysFrame<4K>(0x0000000000005000)), flags: PRESENT NO_EXECUTE  }").
Proof. vm_compute. reflexivity. Qed.

Example task_text : TaskState_Debug (Blocked Sleep) = bytes "Blocked(Sleep)" /\ TaskId_Display 12 = bytes "task#12" /\
  TlbFlush_drop_message 0x1f000 = bytes "TlbFlush for 0x1f000 dropped without being flushed or ignored".
Proof. vm_compute. done. Qed.

(** No two errors have the same text: the texts of the inner errors overlap, the
    prefixes tell them apart. *)
Theorem error_texts_distinct : Inj (=) (=) AddressSpaceError_Display.
Proof. intros [[]|[]|[]|] [[]|[]|[]|] E; first [reflexivity | vm_compute in E; discriminate E]. Qed.

(** The texts of addresses have one length and are read back. *)
Theorem address_text_read a :
  is_u64 a ->
  length (PhysAddr_Display a) = 18%nat /\ number 16 (drop 2 (PhysAddr_Display a)) = a /\
  hex_fields (VirtAddr_Debug a) = [a] /\ hex_fields (PhysAddr_Debug a) = [a].
Proof.
  intros Ha. unfold PhysAddr_Display, VirtAddr_Debug, PhysAddr_Debug. split_and!.
  - unfold hex. rewrite length_app, hex_digits_length. done.
  - unfold hex. change (drop 2 (text "0x" ++ ?x)) with x. apply number_hex_digits, Ha.
  - rewrite hex_fields_skip by done. change (bytes ")") with [41]. by rewrite hex_fields_hex.
  - rewrite hex_fields_skip by done. change (bytes ")") with [41]. by rewrite hex_fields_hex.
Qed.

(** ** Reading a page table entry back *)

(** A text cut at its spaces. *)
Fixpoint words (s : list Z) : list (list Z) :=
  match s with
  | [] => [[]]
  | b :: s => if b =? 32 then [] :: words s else match words s with w :: ws => (b :: w) :: ws | [] => [[b]] end
  end.

(** A name is written in capitals. *)
Definition is_capital (b : Z) : bool := ((65 <=? b) && (b <=? 90)) || (b =? 95).
Definition is_name (w : list Z) : bool := negb (length w =? 0)%nat && forallb is_capital w.

Definition read_flags (s : list Z) : Z :=
  foldr (fun f r => if decide (bytes f.1 ∈ words s) then Z.lor f.2 r else r) 0 entry_flag_names.

(** The frame, if the text has a number, and the flags. *)
Definition read_entry (s : list Z) : option Z * Z := (head (hex_fields s), read_flags s).

(** The bits that have a name. *)
Definition named_flags : Z := foldr Z.lor 0 entry_flag_names.*2.

Lemma words_cut a r : words (a ++ 32 :: r) = words a ++ words r.
Proof.
  induction a as [|b a IH]; [done|]. cbn [app words]. rewrite IH. destruct (b =? 32); [done|].
  assert (words a <> []) by (destruct a as [|x a]; cbn; [done|]; by repeat case_match).
  by destruct (words a).
Qed.

Lemma words_word w : Forall (fun b => b <> 32) w -> words w = [w].
Proof. induction 1 as [|b w Hb Hw IH]; [done|]. cbn. by rewrite (proj2 (Z.eqb_neq b 32)), IH. Qed.

Lemma hex_fields_none s : Forall (fun b => b <> 120) s -> hex_fields s = [].
Proof.
  induction 1 as [|a s Ha Hs IH]; [done|]. rewrite hex_fields_cons. destruct s as [|b s]; [done|].
  inversion_clear Hs. by rewrite (proj2 (Z.eqb_neq b 120)), andb_false_r.
Qed.

Lemma hex_digits_in n v : 0 <= v -> Forall (fun b => 48 <= b < 103) (hex_digits n v).
Proof.
  revert v. induction n as [|n IH]; intros v Hv; [constructor|]. cbn. apply Forall_app. split; [apply IH; zlia|].
  constructor; [|constructor]. destruct (hex_digit_range (v mod 16)); zlia.
Qed.

Section flags.
Variable e : Z.

Definition shown_flags : list (string * Z) := List.filter (fun f => EntryFlags.contains e f.2) entry_flag_names.

Lemma flags_text : EntryFlags_Debug e = concat ((fun f => bytes f.1 ++ [32]) <$> shown_flags).
Proof.
  unfold EntryFlags_Debug, shown_flags. induction entry_flag_names as [|f l IH]; [done|]. cbn.
  case_match; cbn; by rewrite <- IH.
Qed.

Lemma names_plain : Forall (fun f => is_name (bytes f.1) = true /\ Forall (fun b => b <> 32) (bytes f.1)) entry_flag_names.
Proof. repeat (constructor; [split; [done|by repeat constructor]|]). constructor. Qed.

Lemma shown_plain : Forall (fun f => is_name (bytes f.1) = true /\ Forall (fun b => b <> 32) (bytes f.1)) shown_flags.
Proof.
  apply Forall_forall. intros f Hf%list_elem_of_In%filter_In. destruct Hf as [Hf%list_elem_of_In _]. revert f Hf.
  apply Forall_forall, names_plain.
Qed.

Lemma flags_words r : words (EntryFlags_Debug e ++ r) = ((fun f => bytes f.1) <$> shown_flags) ++ words r.
Proof.
  rewrite flags_text. pose proof shown_plain as Hp. induction Hp as [|f l [_ Hf] Hl IH]; [done|].
  cbn [fmap list_fmap concat]. rewrite <- !app_assoc. cbn [app]. rewrite words_cut, IH, words_word by done. done.
Qed.

End flags.

Lemma land_bit e n : 0 <= n ->
  (if EntryFlags.contains e (Z.shiftl 1 n) then Z.shiftl 1 n else 0) = Z.land e (Z.shiftl 1 n).
Proof.
  intros Hn. unfold EntryFlags.contains. rewrite Z.shiftl_1_l.
  assert (E : Z.land e (2 ^ n) = if Z.testbit e n then 2 ^ n else 0).
  { apply Z.bits_inj'. intros i Hi. rewrite Z.land_spec, Z.pow2_bits_eqb by done. destruct (Z.eqb_spec n i) as [->|Hne].
    - destruct (Z.testbit e i); [|by rewrite Z.bits_0]. by rewrite Z.pow2_bits_true.
    - rewrite andb_false_r. destruct (Z.testbit e n); [|by rewrite Z.bits_0]. by rewrite Z.pow2_bits_false. }
  rewrite E. pose proof (Z.pow_pos_nonneg 2 n ltac:(lia) Hn). destruct (Z.testbit e n).
  - by rewrite Z.eqb_refl.
  - by rewrite (proj2 (Z.eqb_neq 0 (2 ^ n))) by lia.
Qed.

Lemma land_named e l : Forall (fun f : string * Z => exists n, 0 <= n /\ f.2 = Z.shiftl 1 n) l ->
  foldr (fun f r => if EntryFlags.contains e f.2 then Z.lor f.2 r else r) 0 l = Z.land e (foldr Z.lor 0 l.*2).
Proof.
  induction 1 as [|[n0 b] l (n & Hn & Hb) Hl IH]; [by rewrite Z.land_0_r|]. cbn in *. subst b.
  rewrite IH, Z.land_lor_distr_r, <- land_bit by done. by case_match.
Qed.

Lemma names_bits : Forall (fun f : string * Z => exists n, 0 <= n /\ f.2 = Z.shiftl 1 n) entry_flag_names.
Proof. repeat (constructor; [eexists; split; [|reflexivity]; lia|]). constructor. Qed.

Lemma names_inj f g : f ∈ entry_flag_names -> g ∈ entry_flag_names -> bytes f.1 = bytes g.1 -> f = g.
Proof.
  intros [i Hi]%list_elem_of_lookup [j Hj]%list_elem_of_lookup E.
  assert (Hnd : NoDup ((fun f => bytes f.1) <$> entry_flag_names)) by (apply (bool_decide_unpack _); vm_compute; done).
  enough (i = j) by congruence. eapply NoDup_lookup; [exact Hnd|by rewrite list_lookup_fmap, Hi|].
  rewrite list_lookup_fmap, Hj. cbn. by rewrite E.
Qed.

(** The names that occur in a text are the capital words among its words. *)
Lemma read_flags_words e s :
  List.filter is_name (words s) = (fun f => bytes f.1) <$> shown_flags e -> read_flags s = Z.land e named_flags.
Proof.
  intros Hs. unfold read_flags, named_flags. rewrite <- land_named by apply names_bits.
  assert (Hin : Forall (fun f => bytes f.1 ∈ words s <-> EntryFlags.contains e f.2 = true) entry_flag_names).
  { apply Forall_forall. intros f Hf.
    pose proof (proj1 (Forall_forall _ _) names_plain f Hf) as [Hn _]. cbv beta in Hn.
    transitivity (bytes f.1 ∈ List.filter is_name (words s)); [rewrite !list_elem_of_In, filter_In; tauto|].
    rewrite Hs, list_elem_of_fmap. unfold shown_flags. setoid_rewrite list_elem_of_In. setoid_rewrite filter_In.
    split; [|intros; exists f; by rewrite <- list_elem_of_In].
    intros (g & E & Hg & Hc). apply list_elem_of_In in Hg.
    by rewrite (names_inj f g). }
  clear Hs. induction Hin as [|f l Hf Hl IH]; [done|]. cbn. rewrite IH. case_decide as Hd; case_match eqn:Hc; try done; exfalso.
  - apply Hf in Hd. congruence.
  - by apply Hd, Hf.
Qed.

(** ** Theorems *)

Lemma filter_skip {A} (p : A -> bool) l r : forallb (fun x => negb (p x)) l = true -> List.filter p (l ++ r) = List.filter p r.
Proof.
  intros Hl. rewrite List.filter_app. replace (List.filter p l) with (@nil A); [done|].
  induction l as [|x l IH]; [done|]. cbn in *. apply andb_true_iff in Hl as [Hx%negb_true_iff Hl]. by rewrite Hx, <- IH.
Qed.

Lemma filter_all {A} (p : A -> bool) l r : Forall (fun x => p x = true) l -> List.filter p (l ++ r) = l ++ List.filter p r.
Proof. induction 1 as [|x l Hx Hl IH]; [done|]. cbn. by rewrite Hx, IH. Qed.

(** The words of an entry's text: those around the frame are not capital. *)
Lemma entry_words F e :
  Forall (fun b => b <> 32) F ->
  List.filter is_name (words (debug_struct "PageTableEntry" [field "frame" F; field "flags" (EntryFlags_Debug e)])) =
    (fun f => bytes f.1) <$> shown_flags e.
Proof.
  intros HF.
  transitivity (List.filter is_name (words (bytes "PageTableEntry { frame:" ++ 32 :: (F ++ [44]) ++ 32 :: bytes "flags:" ++ 32 ::
                                             EntryFlags_Debug e ++ bytes " }"))).
  { do 2 f_equal. unfold debug_struct, field, join. cbn [fmap list_fmap concat fst snd]. rewrite app_nil_r, <- !app_assoc. done. }
  rewrite !words_cut, flags_words, (words_word (F ++ [44])) by (apply Forall_app; split; [done|by repeat constructor]).
  rewrite filter_skip by by vm_compute.
  rewrite filter_skip by (cbn [forallb]; unfold is_name; by rewrite forallb_app, !andb_false_r).
  rewrite filter_skip by by vm_compute. rewrite filter_all; [by rewrite app_nil_r|].
  apply Forall_fmap. eapply Forall_impl; [apply shown_plain|]. by intros f [? _].
Qed.

Lemma frame_plain o : (forall f, o = Some f -> is_u64 f) -> Forall (fun b => b <> 32) (debug_option (PhysFrame_Debug PAGE_SIZE <$> o)).
Proof.
  intros Ho. destruct o as [f|]; [|by repeat constructor]. cbn [fmap option_fmap option_map debug_option].
  unfold debug_tuple, PhysFrame_Debug, hex. change (decimal (PAGE_SIZE / 1024)) with [52].
  rewrite !Forall_app. split_and!; try (by repeat constructor). eapply Forall_impl; [apply hex_digits_in, Ho; done|]. cbv beta. lia.
Qed.

Lemma flags_no_number e : Forall (fun b => b <> 120) (EntryFlags_Debug e).
Proof.
  rewrite flags_text. pose proof (shown_plain e) as Hp.
  induction Hp as [|f l [Hf _] Hl IH]; [constructor|]. cbn [fmap list_fmap concat]. rewrite !Forall_app. split_and!; [|by repeat constructor|done].
  unfold is_name in Hf. apply andb_true_iff in Hf as [_ Hf]. rewrite forallb_forall in Hf. apply Forall_forall.
  intros b Hb%list_elem_of_In Hx. specialize (Hf b Hb). by subst b.
Qed.

Lemma entry_hex o e : (forall f, o = Some f -> is_u64 f) ->
  head (hex_fields (debug_struct "PageTableEntry"
    [field "frame" (debug_option (PhysFrame_Debug PAGE_SIZE <$> o)); field "flags" (EntryFlags_Debug e)])) = o.
Proof.
  intros Ho.
  transitivity (head (hex_fields (bytes "PageTableEntry { frame: " ++ debug_option (PhysFrame_Debug PAGE_SIZE <$> o) ++
                                    bytes ", flags: " ++ EntryFlags_Debug e ++ bytes " }"))).
  { do 2 f_equal. unfold debug_struct, field, join. cbn [fmap list_fmap concat fst snd]. rewrite app_nil_r, <- !app_assoc. done. }
  destruct o as [f|]; cbn [fmap option_fmap option_map debug_option].
  - unfold debug_tuple, PhysFrame_Debug. change (decimal (PAGE_SIZE / 1024)) with [52]. rewrite <- !app_assoc.
    change (bytes ")") with [41]. do 6 (rewrite hex_fields_skip by done). cbn [app]. by rewrite hex_fields_hex by auto.
  - rewrite hex_fields_none; [done|]. rewrite !Forall_app. split_and!; try apply flags_no_number; by repeat constructor.
Qed.

Lemma land_is_u64 x y : is_u64 y -> is_u64 (Z.land x y).
Proof.
  intros Hy. replace (Z.land x y) with (Z.land x y mod 2 ^ 64); [apply Z.mod_pos_bound; lia|].
  rewrite <- Z.land_ones, <- Z.land_assoc, Z.land_ones, (Z.mod_small y) by (lia || exact Hy). done.
Qed.

(** The text of a page table entry shows the entry.  [Debug] always gives a
    text, from which the frame of a present entry and every bit that has a name
    can be read back: two entries have the same text only if they are both
    absent or map the same frame, with the same named flags. *)
Theorem entry_debug_roundtrip e :
  exists txt, PageTableEntry_Debug e = Ret txt /\
    read_entry txt = (if PageTableEntry.is_present e then Some (Z.land e PHYS_MASK) else None, Z.land e named_flags).
Proof.
  unfold PageTableEntry_Debug. rewrite entry_frame_eq. cbn [obind]. eexists. split; [reflexivity|].
  set (o := if PageTableEntry.is_present e then _ else _).
  assert (Ho : forall f, o = Some f -> is_u64 f).
  { intros f Hf. unfold o in Hf. case_match; simplify_eq. by apply land_is_u64. }
  unfold read_entry. rewrite entry_hex by done. f_equal.
  rewrite (read_flags_words (PageTableEntry.flags e)) by by apply entry_words, frame_plain.
  unfold PageTableEntry.flags. rewrite <- Z.land_assoc. by replace (Z.land (not64 PHYS_MASK) named_flags) with named_flags.
Qed.

(** ** Reading the region allocator back *)

(** The numbers after each "ze: ", the end of the label "size: ". *)
Fixpoint sizes (s : list Z) : list Z :=
  match s with
  | [] => []
  | b :: s => if b =? 122 then number 10 (digits_at (drop 3 s)) :: sizes s else sizes s
  end.

Definition read_regions (s : list Z) : list Region.t := zip (hex_fields s) (sizes s).

Lemma sizes_skip s r : Forall (fun b => b <> 122) s -> sizes (s ++ r) = sizes r.
Proof. induction 1 as [|b s Hb Hs IH]; [done|]. cbn [app sizes]. by rewrite (proj2 (Z.eqb_neq b 122)). Qed.

Lemma decimal_plain v : 0 <= v -> Forall (fun b => 48 <= b < 58) (decimal v).
Proof.
  intros Hv. eapply Forall_impl; [apply (decimal_digits v Hv)|]. intros b Hb. unfold is_digit in Hb.
  apply andb_true_iff in Hb as [?%Z.leb_le ?%Z.ltb_lt]. lia.
Qed.

(** A region's text, followed by any other. *)
Lemma region_text g r : is_u64 g.1 -> 0 <= g.2 ->
  hex_fields (Region_Debug g ++ r) = g.1 :: hex_fields r /\ sizes (Region_Debug g ++ r) = g.2 :: sizes r.
Proof.
  intros Hb Hs. destruct g as [b n]. cbn [fst snd] in *.
  assert (E : Region_Debug (b, n) ++ r =
    bytes "Region { base: VirtAddr(" ++ hex b ++ 41 :: [44; 32; 115; 105] ++ 122 :: [101; 58; 32] ++ decimal n ++ 32 :: 125 :: r).
  { unfold Region_Debug, debug_struct, VirtAddr_Debug, field, join. cbn [fmap list_fmap concat fst snd].
    rewrite app_nil_r, <- !app_assoc. done. }
  rewrite E. pose proof (decimal_plain n Hs) as Hd. split.
  - rewrite hex_fields_skip, hex_fields_hex by done. f_equal.
    change (41 :: _ ++ 122 :: _ ++ ?x) with ([41; 44; 32; 115; 105; 122; 101; 58; 32] ++ x). rewrite hex_fields_skip by done.
    rewrite hex_fields_plain by (done || (eapply Forall_impl; [exact Hd|cbv beta; lia])). by apply (hex_fields_skip [32; 125]).
  - rewrite sizes_skip by by repeat constructor. unfold hex. rewrite <- app_assoc, sizes_skip by by repeat constructor.
    rewrite sizes_skip by (eapply Forall_impl; [apply hex_digits_in, Hb|cbv beta; lia]).
    change (41 :: ?x ++ 122 :: ?y) with ((41 :: x) ++ 122 :: y). rewrite sizes_skip by by repeat constructor.
    cbn [sizes Z.eqb Pos.eqb]. change (drop 3 ([101; 58; 32] ++ ?x)) with x. rewrite number_decimal by done. f_equal.
    rewrite sizes_skip by by repeat constructor. rewrite sizes_skip by (eapply Forall_impl; [exact Hd|cbv beta; lia]). done.
Qed.

(** A list's text, from its first entry to its last. *)
Lemma regions_text l r : Forall (fun g : Region.t => is_u64 g.1 /\ 0 <= g.2) l -> hex_fields r = [] -> sizes r = [] ->
  hex_fields (join (bytes ", ") (Region_Debug <$> l) ++ r) = l.*1 /\ sizes (join (bytes ", ") (Region_Debug <$> l) ++ r) = l.*2.
Proof.
  intros Hl Hr1 Hr2. destruct Hl as [|g l Hg Hl]; [done|]. cbn [fmap list_fmap join]. revert g Hg.
  induction Hl as [|g' l Hg' Hl IH]; intros g [Hb Hs]; cbn [fmap list_fmap concat]; rewrite <- !app_assoc; cbn [app].
  - destruct (region_text g r Hb Hs) as [-> ->]. by rewrite Hr1, Hr2.
  - destruct (IH g' Hg') as [E1 E2]. cbn [fmap list_fmap] in *. rewrite <- app_assoc in E1, E2.
    destruct (region_text g (bytes ", " ++ Region_Debug g' ++ concat ((fun y => bytes ", " ++ y) <$> (Region_Debug <$> l)) ++ r) Hb Hs) as [-> ->].
    rewrite hex_fields_skip by done. rewrite (sizes_skip (bytes ", ")) by by repeat constructor.
    split; [by rewrite <- E1|by rewrite <- E2].
Qed.

(** The text of the region allocator shows its free list: the regions can be
    read back from it, all of them and in order. *)
Theorem regions_debug_roundtrip self :
  (RegionAllocator.len self <= length (RegionAllocator.slots self))%nat ->
  Forall (fun g : Region.t => is_u64 g.1 /\ 0 <= g.2) (RegionAllocator.slots self) ->
  exists txt, RegionAllocator_Debug self = Ret txt /\
    read_regions txt = take (RegionAllocator.len self) (RegionAllocator.slots self).
Proof.
  intros Hlen Hl. unfold RegionAllocator_Debug, RegionAllocator.prefix. rewrite (proj2 (Nat.leb_le _ _)) by done.
  cbn [obind]. eexists. split; [reflexivity|]. set (l := take _ _).
  assert (Hl' : Forall (fun g : Region.t => is_u64 g.1 /\ 0 <= g.2) l) by by apply Forall_take.
  destruct (regions_text l (bytes "]") Hl' eq_refl eq_refl) as [E1 E2].
  unfold read_regions, debug_list. rewrite hex_fields_skip by done. rewrite sizes_skip by by repeat constructor.
  rewrite E1, E2. by rewrite zip_fst_snd.
Qed.
