(* ===== verification/TestBase.v ===== *)
(** * What the in-kernel tests work on

    The state of the kernel that a test can reach (the globals of the memory
    manager and the heap), the calls of the tests as steps on it, and what
    happens to the locals of a test that leaves early: an owned frame that goes
    out of scope panics, a buffer is given back to the heap. *)

From S2P Require Import Prelude Addr Frame Memory FrameAllocator Bitmap Heap World Context AddressSpace KernelTest.

Record kernel_state := mk_ks { ks_world : world BitmapAllocator.t; ks_heap : LockedHeap.t }.

Definition test_body : Type := body kernel_state unit.

(** A step on the memory, with or without a value, and one on memory and heap. *)
Definition on_world {A} (f : world BitmapAllocator.t -> outcome (A * world BitmapAllocator.t)) : body kernel_state A :=
  run_on (fun s => let! '(a, w) := f (ks_world s) in Ret (a, mk_ks w (ks_heap s))).
Definition on_world_ (f : world BitmapAllocator.t -> outcome (world BitmapAllocator.t)) : body kernel_state unit :=
  on_world (fun w => let! w := f w in Ret (tt, w)).
Definition on_mem {A} (f : mem -> outcome (A * mem)) : body kernel_state A :=
  on_world (fun w => let! '(a, m) := f (memory w) in Ret (a, with_memory w m)).
Definition on_heap {A} (f : mem -> LockedHeap.t -> outcome (A * mem * LockedHeap.t)) : body kernel_state A :=
  run_on (fun s => let! '(a, m, h) := f (memory (ks_world s)) (ks_heap s) in Ret (a, mk_ks (with_memory (ks_world s) m) h)).

(** [mm::allocate], [mm::deallocate], [mm::free_frames], [mm::total_frames] *)
Definition allocate_frame : body kernel_state Z := on_world mm_allocate.
Definition deallocate_frame (frame : Z) : test_body := on_world_ (fun w => mm_deallocate w frame).
Definition free_frames_now : body kernel_state Z := query (fun s => mm_free_frames (ks_world s)).
Definition total_frames_now : body kernel_state Z := query (fun s => mm_total_frames (ks_world s)).

(** [Option::unwrap], [Option::expect] and [Result::expect] *)
Definition unwrap {A} (o : option A) : body kernel_state A := call (expect o "called `Option::unwrap()` on a `None` value").
Definition expecting {A} (o : option A) (why : string) : body kernel_state A := call (expect o why).
Definition expecting_ok {A E} (r : result A E) (why : string) : body kernel_state A := call (expect_ok r why).

(** Leaving early while a frame is owned drops it. *)
Definition while_owned {A} (b : body kernel_state A) : body kernel_state A := fun s =>
  let! '(r, s) := b s in
  match r with
  | Ok a => Ret (Ok a, s)
  | Err _ => Panic "owned frame dropped without being freed"
  end.

(** A local that is dropped at the end of its scope. *)
Definition dropping {A} (drop : test_body) (b : body kernel_state A) : body kernel_state A := fun s =>
  let! '(r, s) := b s in
  let! '(_, s) := drop s in
  Ret (r, s).

(** [for x in l] *)
Fixpoint for_each {A} (l : list A) (b : A -> test_body) : test_body :=
  match l with
  | [] => mret tt
  | x :: l => b x ;; for_each l b
  end.

Definition is_some {A} (o : option A) : bool := match o with Some _ => true | None => false end.
Definition is_none {A} (o : option A) : bool := negb (is_some o).
