(* ===== verification/MmTests.v ===== *)
(** * Tests of addresses, frames and the frame allocator (eira/src/mm/tests.rs) *)

From S2P Require Import Prelude Addr Frame Memory FrameAllocator Bitmap World KernelTest TestBase.

Definition file : string := "eira/src/mm/tests.rs".

Definition physaddr_new_zero : test_body :=
  let addr := PhysAddr.new 0 in
  kassert file 11 "addr.is_some()" (is_some addr) ;;
  a ← unwrap addr; kassert_eq file 12 "addr.unwrap().as_usize()" "0" a 0.

Definition physaddr_new_valid : test_body :=
  let addr := PhysAddr.new 0x0000123456789000 in
  kassert file 17 "addr.is_some()" (is_some addr) ;;
  a ← unwrap addr; kassert_eq file 18 "addr.unwrap().as_usize()" "0x0000_1234_5678_9000" a 0x0000123456789000.

Definition physaddr_new_at_max : test_body :=
  let max := Z.shiftl 1 52 - 1 in
  let addr := PhysAddr.new max in
  kassert file 24 "addr.is_some()" (is_some addr) ;;
  a ← unwrap addr; kassert_eq file 25 "addr.unwrap().as_usize()" "max" a max.

Definition physaddr_new_above_max : test_body :=
  let over := Z.shiftl 1 52 in
  kassert file 30 "PhysAddr::new(over).is_none()" (is_none (PhysAddr.new over)).

Definition physaddr_new_truncate_clears_high_bits : test_body :=
  let raw := Z.lor (Z.shiftl 1 52) 0x1000 in
  let addr := PhysAddr.new_truncate raw in
  kassert_eq file 36 "addr.as_usize()" "0x1000" addr 0x1000.

Definition physaddr_new_truncate_valid_passthrough : test_body :=
  let raw := 0x0000DEADBEEF0000 in
  let addr := PhysAddr.new_truncate raw in
  kassert_eq file 42 "addr.as_usize()" "raw" addr raw.

Definition physaddr_max_constant : test_body :=
  kassert_eq file 46 "PhysAddr::MAX.as_usize()" "(1usize << 52) - 1" PhysAddr.MAX (Z.shiftl 1 52 - 1).

Definition physaddr_is_aligned_page : test_body :=
  aligned ← unwrap (PhysAddr.new 0x4000);
  b ← call (PhysAddr.is_aligned aligned PAGE_SIZE); kassert file 53 "aligned.is_aligned(PAGE_SIZE)" b.

Definition physaddr_is_aligned_not_page : test_body :=
  unaligned ← unwrap (PhysAddr.new 0x4001);
  b ← call (PhysAddr.is_aligned unaligned PAGE_SIZE); kassert file 58 "!unaligned.is_aligned(PAGE_SIZE)" (negb b).

Definition physaddr_is_aligned_one : test_body :=
  addr ← unwrap (PhysAddr.new 0x1337);
  b ← call (PhysAddr.is_aligned addr 1); kassert file 63 "addr.is_aligned(1)" b.

Definition physaddr_align_down_already_aligned : test_body :=
  addr ← unwrap (PhysAddr.new 0x8000);
  a ← call (PhysAddr.align_down addr PAGE_SIZE); kassert_eq file 68 "addr.align_down(PAGE_SIZE).as_usize()" "0x8000" a 0x8000.

Definition physaddr_align_down_mid_page : test_body :=
  addr ← unwrap (PhysAddr.new 0x8FFF);
  a ← call (PhysAddr.align_down addr PAGE_SIZE); kassert_eq file 73 "addr.align_down(PAGE_SIZE).as_usize()" "0x8000" a 0x8000.

Definition physaddr_align_down_one_below_boundary : test_body :=
  addr ← unwrap (PhysAddr.new (0x9000 - 1));
  a ← call (PhysAddr.align_down addr PAGE_SIZE); kassert_eq file 78 "addr.align_down(PAGE_SIZE).as_usize()" "0x8000" a 0x8000.

Definition physaddr_align_up_already_aligned : test_body :=
  addr ← unwrap (PhysAddr.new 0x8000);
  o ← call (PhysAddr.align_up addr PAGE_SIZE); a ← unwrap o; kassert_eq file 83 "addr.align_up(PAGE_SIZE).unwrap().as_usize()" "0x8000" a 0x8000.

Definition physaddr_align_up_one_past_boundary : test_body :=
  addr ← unwrap (PhysAddr.new 0x8001);
  o ← call (PhysAddr.align_up addr PAGE_SIZE); a ← unwrap o; kassert_eq file 89 "addr.align_up(PAGE_SIZE).unwrap().as_usize()" "0x9000" a 0x9000.

Definition physaddr_align_up_overflow_returns_none : test_body :=
  near_max ← call (PhysAddr.align_down PhysAddr.MAX PAGE_SIZE);
  match PhysAddr.checked_add near_max 1 with
  | Some one_past => o ← call (PhysAddr.align_up one_past PAGE_SIZE); kassert file 96 "one_past.align_up(PAGE_SIZE).is_none()" (is_none o)
  | None => mret tt
  end.

Definition physaddr_checked_add_normal : test_body :=
  base ← unwrap (PhysAddr.new 0x1000);
  result ← unwrap (PhysAddr.checked_add base 0x2000);
  kassert_eq file 105 "result.as_usize()" "0x3000" result 0x3000.

Definition physaddr_checked_add_to_max : test_body :=
  let max := Z.shiftl 1 52 - 1 in
  base ← unwrap (PhysAddr.new (max - 0xFF));
  result ← unwrap (PhysAddr.checked_add base 0xFF);
  kassert_eq file 112 "result.as_usize()" "max" result max.

Definition physaddr_checked_add_overflow : test_body :=
  near ← unwrap (PhysAddr.new (Z.shiftl 1 52 - 1));
  kassert file 117 "near.checked_add(1).is_none()" (is_none (PhysAddr.checked_add near 1)).

Definition physaddr_checked_sub_normal : test_body :=
  addr ← unwrap (PhysAddr.new 0x5000);
  result ← unwrap (PhysAddr.checked_sub addr 0x1000);
  kassert_eq file 123 "result.as_usize()" "0x4000" result 0x4000.

Definition physaddr_checked_sub_to_zero : test_body :=
  addr ← unwrap (PhysAddr.new 0x1000);
  result ← unwrap (PhysAddr.checked_sub addr 0x1000);
  kassert_eq file 129 "result.as_usize()" "0" result 0.

Definition physaddr_checked_sub_underflow : test_body :=
  addr ← unwrap (PhysAddr.new 0);
  kassert file 134 "addr.checked_sub(1).is_none()" (is_none (PhysAddr.checked_sub addr 1)).

Definition virtaddr_new_zero : test_body :=
  kassert file 140 "VirtAddr::new(0).is_some()" (is_some (VirtAddr.new 0)).

Definition virtaddr_new_low_half_max : test_body :=
  let low_max := Z.shiftl 1 47 - 1 in
  kassert file 145 "VirtAddr::new(low_max).is_some()" (is_some (VirtAddr.new low_max)).

Definition virtaddr_new_high_half_min : test_body :=
  let high_min := not64 (Z.shiftl 1 47 - 1) in
  kassert file 150 "VirtAddr::new(high_min).is_some()" (is_some (VirtAddr.new high_min)).

Definition virtaddr_new_non_canonical : test_body :=
  let non_canonical := Z.shiftl 1 47 in
  kassert file 155 "VirtAddr::new(non_canonical).is_none()" (is_none (VirtAddr.new non_canonical)).

Definition virtaddr_new_canonical_sign_extends : test_body :=
  let input := Z.lor (Z.shiftl 1 47) 0x1000 in
  let addr := VirtAddr.new_canonical input in
  let high := Z.shiftr addr 48 in
  kassert_eq file 162 "high" "0xFFFF" high 0xFFFF.

Definition virtaddr_roundtrip : test_body :=
  let raw := 0xFFFF800000100000 in
  addr ← unwrap (VirtAddr.new raw);
  kassert_eq file 168 "addr.as_usize()" "raw" addr raw.

Definition physframe_from_base_aligned : test_body :=
  base ← unwrap (PhysAddr.new 0x10000);
  o ← call (PhysFrame.from_base PAGE_SIZE base); kassert file 175 "Frame4K::from_base(base).is_some()" (is_some o).

Definition physframe_from_base_unaligned : test_body :=
  base ← unwrap (PhysAddr.new 0x10001);
  o ← call (PhysFrame.from_base PAGE_SIZE base); kassert file 180 "Frame4K::from_base(base).is_none()" (is_none o).

Definition physframe_from_base_zero : test_body :=
  base ← unwrap (PhysAddr.new 0);
  o ← call (PhysFrame.from_base PAGE_SIZE base); kassert file 185 "Frame4K::from_base(base).is_some()" (is_some o).

Definition physframe_containing_aligned : test_body :=
  addr ← unwrap (PhysAddr.new 0x5000);
  frame ← call (PhysFrame.containing PAGE_SIZE addr);
  kassert_eq file 191 "frame.base().as_usize()" "0x5000" frame 0x5000.

Definition physframe_containing_mid_page : test_body :=
  addr ← unwrap (PhysAddr.new 0x5FFE);
  frame ← call (PhysFrame.containing PAGE_SIZE addr);
  kassert_eq file 197 "frame.base().as_usize()" "0x5000" frame 0x5000.

Definition physframe_containing_last_byte : test_body :=
  addr ← unwrap (PhysAddr.new 0x5FFF);
  frame ← call (PhysFrame.containing PAGE_SIZE addr);
  kassert_eq file 203 "frame.base().as_usize()" "0x5000" frame 0x5000.

Definition physframe_containing_first_byte_next_page : test_body :=
  addr ← unwrap (PhysAddr.new 0x6000);
  frame ← call (PhysFrame.containing PAGE_SIZE addr);
  kassert_eq file 209 "frame.base().as_usize()" "0x6000" frame 0x6000.

Definition physframe_index_zero : test_body :=
  base ← unwrap (PhysAddr.new 0);
  o ← call (PhysFrame.from_base PAGE_SIZE base); frame ← unwrap o;
  kassert_eq file 217 "frame.index()" "0" (PhysFrame.index PAGE_SIZE frame) 0.

Definition physframe_index_nonzero : test_body :=
  base ← unwrap (PhysAddr.new 0x5000);
  o ← call (PhysFrame.from_base PAGE_SIZE base); frame ← unwrap o;
  kassert_eq file 223 "frame.index()" "5" (PhysFrame.index PAGE_SIZE frame) 5.

Definition physframe_from_index_roundtrip : test_body :=
  for_each [0; 1; 7; 255; 1024; 0x100000] (fun i =>
    frame ← unwrap (PhysFrame.from_index PAGE_SIZE i);
    kassert_eq file 229 "frame.index()" "i" (PhysFrame.index PAGE_SIZE frame) i).

Definition physframe_index_from_base_roundtrip : test_body :=
  base ← unwrap (PhysAddr.new 0x42000);
  o ← call (PhysFrame.from_base PAGE_SIZE base); frame ← unwrap o;
  reconstructed ← unwrap (PhysFrame.from_index PAGE_SIZE (PhysFrame.index PAGE_SIZE frame));
  kassert_eq file 237 "reconstructed.base().as_usize()" "base.as_usize()" reconstructed base.

Definition physframe_end_normal : test_body :=
  base ← unwrap (PhysAddr.new 0x1000);
  o ← call (PhysFrame.from_base PAGE_SIZE base); frame ← unwrap o;
  e ← unwrap (PhysFrame.end_ PAGE_SIZE frame); kassert_eq file 245 "frame.end().unwrap().as_usize()" "0x2000" e 0x2000.

Definition physframe_end_frame_zero : test_body :=
  frame ← unwrap (PhysFrame.from_index PAGE_SIZE 0);
  e ← unwrap (PhysFrame.end_ PAGE_SIZE frame); kassert_eq file 250 "frame.end().unwrap().as_usize()" "PAGE_SIZE" e PAGE_SIZE.

Definition framerange_len_single : test_body :=
  f ← unwrap (PhysFrame.from_index PAGE_SIZE 5);
  let range := FrameRange.new f f in
  n ← call (FrameRange.len PAGE_SIZE range); kassert_eq file 258 "range.len()" "1" n 1.

Definition framerange_len_multiple : test_body :=
  start ← unwrap (PhysFrame.from_index PAGE_SIZE 3);
  end_ ← unwrap (PhysFrame.from_index PAGE_SIZE 7);
  let range := FrameRange.new start end_ in
  n ← call (FrameRange.len PAGE_SIZE range); kassert_eq file 265 "range.len()" "5" n 5.

Definition framerange_is_empty_false : test_body :=
  start ← unwrap (PhysFrame.from_index PAGE_SIZE 1);
  end_ ← unwrap (PhysFrame.from_index PAGE_SIZE 3);
  kassert file 271 "!FrameRange::new(start, end).is_empty()" (negb (FrameRange.is_empty PAGE_SIZE (FrameRange.new start end_))).

Definition framerange_is_empty_true : test_body :=
  start ← unwrap (PhysFrame.from_index PAGE_SIZE 5);
  end_ ← unwrap (PhysFrame.from_index PAGE_SIZE 3);
  kassert file 277 "FrameRange::new(start, end).is_empty()" (FrameRange.is_empty PAGE_SIZE (FrameRange.new start end_)).

Definition framerange_contains_start : test_body :=
  start ← unwrap (PhysFrame.from_index PAGE_SIZE 10);
  end_ ← unwrap (PhysFrame.from_index PAGE_SIZE 20);
  let range := FrameRange.new start end_ in
  kassert file 284 "range.contains(start)" (FrameRange.contains PAGE_SIZE range start).

Definition framerange_contains_end : test_body :=
  start ← unwrap (PhysFrame.from_index PAGE_SIZE 10);
  end_ ← unwrap (PhysFrame.from_index PAGE_SIZE 20);
  let range := FrameRange.new start end_ in
  kassert file 291 "range.contains(end)" (FrameRange.contains PAGE_SIZE range end_).

Definition framerange_contains_mid : test_body :=
  start ← unwrap (PhysFrame.from_index PAGE_SIZE 10);
  end_ ← unwrap (PhysFrame.from_index PAGE_SIZE 20);
  mid ← unwrap (PhysFrame.from_index PAGE_SIZE 15);
  let range := FrameRange.new start end_ in
  kassert file 299 "range.contains(mid)" (FrameRange.contains PAGE_SIZE range mid).

Definition framerange_not_contains_before : test_body :=
  start ← unwrap (PhysFrame.from_index PAGE_SIZE 10);
  end_ ← unwrap (PhysFrame.from_index PAGE_SIZE 20);
  before ← unwrap (PhysFrame.from_index PAGE_SIZE 9);
  let range := FrameRange.new start end_ in
  kassert file 307 "!range.contains(before)" (negb (FrameRange.contains PAGE_SIZE range before)).

Definition framerange_not_contains_after : test_body :=
  start ← unwrap (PhysFrame.from_index PAGE_SIZE 10);
  end_ ← unwrap (PhysFrame.from_index PAGE_SIZE 20);
  after ← unwrap (PhysFrame.from_index PAGE_SIZE 21);
  let range := FrameRange.new start end_ in
  kassert file 315 "!range.contains(after)" (negb (FrameRange.contains PAGE_SIZE range after)).

Definition framerange_iterator_count : test_body :=
  start ← unwrap (PhysFrame.from_index PAGE_SIZE 0);
  end_ ← unwrap (PhysFrame.from_index PAGE_SIZE 3);
  let range := FrameRange.new start end_ in
  l ← call (FrameRange.collect 8 PAGE_SIZE range); kassert_eq file 322 "range.count()" "4" (Z.of_nat (length l)) 4.

Definition framerange_iterator_order : test_body :=
  start ← unwrap (PhysFrame.from_index PAGE_SIZE 7);
  end_ ← unwrap (PhysFrame.from_index PAGE_SIZE 9);
  let range := FrameRange.new start end_ in
  '(o, range) ← call (FrameRange.next PAGE_SIZE range); f ← unwrap o; kassert_eq file 329 "range.next().unwrap().index()" "7" (PhysFrame.index PAGE_SIZE f) 7 ;;
  '(o, range) ← call (FrameRange.next PAGE_SIZE range); f ← unwrap o; kassert_eq file 330 "range.next().unwrap().index()" "8" (PhysFrame.index PAGE_SIZE f) 8 ;;
  '(o, range) ← call (FrameRange.next PAGE_SIZE range); f ← unwrap o; kassert_eq file 331 "range.next().unwrap().index()" "9" (PhysFrame.index PAGE_SIZE f) 9 ;;
  '(o, range) ← call (FrameRange.next PAGE_SIZE range); kassert file 332 "range.next().is_none()" (is_none o).

Definition framerange_iterator_exhausted : test_body :=
  f ← unwrap (PhysFrame.from_index PAGE_SIZE 0);
  let range := FrameRange.new f f in
  '(_, range) ← call (FrameRange.next PAGE_SIZE range);
  '(o, range) ← call (FrameRange.next PAGE_SIZE range); kassert file 339 "range.next().is_none()" (is_none o) ;;
  '(o, range) ← call (FrameRange.next PAGE_SIZE range); kassert file 340 "range.next().is_none()" (is_none o).

Definition framerange_from_addr_len_basic : test_body :=
  base ← unwrap (PhysAddr.new 0x2000);
  o ← call (FrameRange.from_addr_len PAGE_SIZE base (PAGE_SIZE * 4)); range ← unwrap o;
  kassert_eq file 346 "range.start().index()" "2" (PhysFrame.index PAGE_SIZE (FrameRange.start range)) 2 ;;
  kassert_eq file 347 "range.end().index()" "5" (PhysFrame.index PAGE_SIZE (FrameRange.end_ range)) 5.

Definition framerange_from_addr_len_zero : test_body :=
  base ← unwrap (PhysAddr.new 0x1000);
  o ← call (FrameRange.from_addr_len PAGE_SIZE base 0); kassert file 352 "FrameRange::<{ PAGE_SIZE }>::from_addr_len(base, 0).is_none()" (is_none o).

Definition alloc_returns_page_aligned_frame : test_body :=
  frame ← allocate_frame;
  let aligned := frame mod PAGE_SIZE =? 0 in
  deallocate_frame frame ;;
  kassert file 361 "aligned" aligned.

Definition alloc_base_within_52_bits : test_body :=
  frame ← allocate_frame;
  let in_range := frame <=? Z.shiftl 1 52 - 1 in
  deallocate_frame frame ;;
  kassert file 368 "in_range" in_range.

Definition total_frames_nonzero : test_body :=
  n ← total_frames_now; kassert file 372 "mm::total_frames() > 0" (0 <? n).

Definition free_le_total : test_body :=
  f ← free_frames_now; n ← total_frames_now; kassert file 376 "mm::free_frames() <= mm::total_frames()" (f <=? n).

Definition free_count_decreases_by_one_on_alloc : test_body :=
  before ← free_frames_now;
  frame ← allocate_frame;
  after ← free_frames_now;
  deallocate_frame frame ;;
  d ← call (sub_ before 1); kassert_eq file 386 "before - 1" "after" d after.

Definition free_count_restores_after_dealloc : test_body :=
  before ← free_frames_now;
  frame ← allocate_frame;
  deallocate_frame frame ;;
  n ← free_frames_now; kassert_eq file 393 "mm::free_frames()" "before" n before.

Definition total_stable_across_alloc_dealloc : test_body :=
  total ← total_frames_now;
  frame ← allocate_frame;
  n ← total_frames_now; while_owned (kassert_eq file 399 "mm::total_frames()" "total" n total) ;;
  deallocate_frame frame ;;
  n ← total_frames_now; kassert_eq file 401 "mm::total_frames()" "total" n total.

Definition multi_alloc_decreases_count_by_n : test_body :=
  before ← free_frames_now;
  f0 ← allocate_frame;
  f1 ← allocate_frame;
  f2 ← allocate_frame;
  n ← free_frames_now; d ← call (sub_ before 3); while_owned (kassert_eq file 409 "mm::free_frames()" "before - 3" n d) ;;
  deallocate_frame f0 ;;
  deallocate_frame f1 ;;
  deallocate_frame f2 ;;
  n ← free_frames_now; kassert_eq file 413 "mm::free_frames()" "before" n before.

Definition two_live_allocs_never_alias : test_body :=
  a ← allocate_frame;
  b ← allocate_frame;
  let differ := negb (a =? b) in
  deallocate_frame a ;;
  deallocate_frame b ;;
  kassert file 424 "differ" differ.

Definition three_live_allocs_all_distinct : test_body :=
  a ← allocate_frame;
  b ← allocate_frame;
  c ← allocate_frame;
  deallocate_frame a ;;
  deallocate_frame b ;;
  deallocate_frame c ;;
  kassert file 440 "ba != bb" (negb (a =? b)) ;;
  kassert file 441 "bb != bc" (negb (b =? c)) ;;
  kassert file 442 "ba != bc" (negb (a =? c)).

Definition lifo_single_frame : test_body :=
  frame ← allocate_frame;
  deallocate_frame frame ;;
  again ← allocate_frame;
  let same := again =? frame in
  deallocate_frame again ;;
  kassert file 454 "same" same.

Definition lifo_three_frame_chain : test_body :=
  a ← allocate_frame;
  b ← allocate_frame;
  c ← allocate_frame;
  deallocate_frame a ;;
  deallocate_frame b ;;
  deallocate_frame c ;;
  c2 ← allocate_frame;
  b2 ← allocate_frame;
  a2 ← allocate_frame;
  let ok_c := c2 =? c in
  let ok_b := b2 =? b in
  let ok_a := a2 =? a in
  deallocate_frame c2 ;;
  deallocate_frame b2 ;;
  deallocate_frame a2 ;;
  kassert file 482 "ok_c" ok_c ;;
  kassert file 483 "ok_b" ok_b ;;
  kassert file 484 "ok_a" ok_a.

Definition lifo_interleaved : test_body :=
  a ← allocate_frame;
  b ← allocate_frame;
  deallocate_frame b ;;
  b2 ← allocate_frame;
  let got_b := b2 =? b in
  deallocate_frame a ;;
  deallocate_frame b2 ;;
  kassert file 500 "got_b" got_b.

Definition stress_sequential_alloc_dealloc_no_leak : test_body :=
  baseline ← free_frames_now;
  for_each (seq 0 64) (fun _ =>
    frame ← allocate_frame;
    deallocate_frame frame) ;;
  n ← free_frames_now; kassert_eq file 515 "mm::free_frames()" "baseline" n baseline.

Definition stress_bulk_alloc_then_free : test_body :=
  let N := 16%nat in
  baseline ← free_frames_now;
  frames ← mapM (fun _ => allocate_frame) (seq 0 N);
  for_each (seq 0 N) (fun i =>
    base ← unwrap (frames !! i);
    kassert_eq file 534 "bases[i] % PAGE_SIZE" "0" (base mod PAGE_SIZE) 0 ;;
    for_each (seq (i + 1) (N - (i + 1))) (fun j =>
      other ← unwrap (frames !! j);
      kassert file 536 "bases[i] != bases[j]" (negb (base =? other)))) ;;
  n ← free_frames_now; d ← call (sub_ baseline (Z.of_nat N)); kassert_eq file 540 "mm::free_frames()" "baseline - N" n d ;;
  for_each (rev (seq 0 N)) (fun i =>
    f ← unwrap (frames !! i);
    deallocate_frame f) ;;
  n ← free_frames_now; kassert_eq file 549 "mm::free_frames()" "baseline" n baseline.

Definition stress_free_never_exceeds_total : test_body :=
  let N := 8%nat in
  total ← total_frames_now;
  frames ← mapM (fun _ => n ← free_frames_now; kassert file 560 "mm::free_frames() <= total" (n <=? total) ;; allocate_frame) (seq 0 N);
  for_each (seq 0 N) (fun i =>
    f ← unwrap (frames !! i);
    deallocate_frame f ;;
    n ← free_frames_now; kassert file 568 "mm::free_frames() <= total" (n <=? total)).

(** Registered in the order of the source. *)
Definition all : list (TestCase kernel_state) :=
  [kernel_test "eira::mm::tests" file 9 "physaddr_new_zero" Unit physaddr_new_zero;
   kernel_test "eira::mm::tests" file 15 "physaddr_new_valid" Unit physaddr_new_valid;
   kernel_test "eira::mm::tests" file 21 "physaddr_new_at_max" Unit physaddr_new_at_max;
   kernel_test "eira::mm::tests" file 28 "physaddr_new_above_max" Unit physaddr_new_above_max;
   kernel_test "eira::mm::tests" file 33 "physaddr_new_truncate_clears_high_bits" Unit physaddr_new_truncate_clears_high_bits;
   kernel_test "eira::mm::tests" file 39 "physaddr_new_truncate_valid_passthrough" Unit physaddr_new_truncate_valid_passthrough;
   kernel_test "eira::mm::tests" file 45 "physaddr_max_constant" Unit physaddr_max_constant;
   kernel_test "eira::mm::tests" file 51 "physaddr_is_aligned_page" Unit physaddr_is_aligned_page;
   kernel_test "eira::mm::tests" file 56 "physaddr_is_aligned_not_page" Unit physaddr_is_aligned_not_page;
   kernel_test "eira::mm::tests" file 61 "physaddr_is_aligned_one" Unit physaddr_is_aligned_one;
   kernel_test "eira::mm::tests" file 66 "physaddr_align_down_already_aligned" Unit physaddr_align_down_already_aligned;
   kernel_test "eira::mm::tests" file 71 "physaddr_align_down_mid_page" Unit physaddr_align_down_mid_page;
   kernel_test "eira::mm::tests" file 76 "physaddr_align_down_one_below_boundary" Unit physaddr_align_down_one_below_boundary;
   kernel_test "eira::mm::tests" file 81 "physaddr_align_up_already_aligned" Unit physaddr_align_up_already_aligned;
   kernel_test "eira::mm::tests" file 86 "physaddr_align_up_one_past_boundary" Unit physaddr_align_up_one_past_boundary;
   kernel_test "eira::mm::tests" file 92 "physaddr_align_up_overflow_returns_none" Unit physaddr_align_up_overflow_returns_none;
   kernel_test "eira::mm::tests" file 102 "physaddr_checked_add_normal" Unit physaddr_checked_add_normal;
   kernel_test "eira::mm::tests" file 108 "physaddr_checked_add_to_max" Unit physaddr_checked_add_to_max;
   kernel_test "eira::mm::tests" file 115 "physaddr_checked_add_overflow" Unit physaddr_checked_add_overflow;
   kernel_test "eira::mm::tests" file 120 "physaddr_checked_sub_normal" Unit physaddr_checked_sub_normal;
   kernel_test "eira::mm::tests" file 126 "physaddr_checked_sub_to_zero" Unit physaddr_checked_sub_to_zero;
   kernel_test "eira::mm::tests" file 132 "physaddr_checked_sub_underflow" Unit physaddr_checked_sub_underflow;
   kernel_test "eira::mm::tests" file 139 "virtaddr_new_zero" Unit virtaddr_new_zero;
   kernel_test "eira::mm::tests" file 143 "virtaddr_new_low_half_max" Unit virtaddr_new_low_half_max;
   kernel_test "eira::mm::tests" file 148 "virtaddr_new_high_half_min" Unit virtaddr_new_high_half_min;
   kernel_test "eira::mm::tests" file 153 "virtaddr_new_non_canonical" Unit virtaddr_new_non_canonical;
   kernel_test "eira::mm::tests" file 158 "virtaddr_new_canonical_sign_extends" Unit virtaddr_new_canonical_sign_extends;
   kernel_test "eira::mm::tests" file 165 "virtaddr_roundtrip" Unit virtaddr_roundtrip;
   kernel_test "eira::mm::tests" file 173 "physframe_from_base_aligned" Unit physframe_from_base_aligned;
   kernel_test "eira::mm::tests" file 178 "physframe_from_base_unaligned" Unit physframe_from_base_unaligned;
   kernel_test "eira::mm::tests" file 183 "physframe_from_base_zero" Unit physframe_from_base_zero;
   kernel_test "eira::mm::tests" file 188 "physframe_containing_aligned" Unit physframe_containing_aligned;
   kernel_test "eira::mm::tests" file 194 "physframe_containing_mid_page" Unit physframe_containing_mid_page;
   kernel_test "eira::mm::tests" file 200 "physframe_containing_last_byte" Unit physframe_containing_last_byte;
   kernel_test "eira::mm::tests" file 206 "physframe_containing_first_byte_next_page" Unit physframe_containing_first_byte_next_page;
   kernel_test "eira::mm::tests" file 214 "physframe_index_zero" Unit physframe_index_zero;
   kernel_test "eira::mm::tests" file 220 "physframe_index_nonzero" Unit physframe_index_nonzero;
   kernel_test "eira::mm::tests" file 226 "physframe_from_index_roundtrip" Unit physframe_from_index_roundtrip;
   kernel_test "eira::mm::tests" file 233 "physframe_index_from_base_roundtrip" Unit physframe_index_from_base_roundtrip;
   kernel_test "eira::mm::tests" file 242 "physframe_end_normal" Unit physframe_end_normal;
   kernel_test "eira::mm::tests" file 248 "physframe_end_frame_zero" Unit physframe_end_frame_zero;
   kernel_test "eira::mm::tests" file 255 "framerange_len_single" Unit framerange_len_single;
   kernel_test "eira::mm::tests" file 261 "framerange_len_multiple" Unit framerange_len_multiple;
   kernel_test "eira::mm::tests" file 268 "framerange_is_empty_false" Unit framerange_is_empty_false;
   kernel_test "eira::mm::tests" file 274 "framerange_is_empty_true" Unit framerange_is_empty_true;
   kernel_test "eira::mm::tests" file 280 "framerange_contains_start" Unit framerange_contains_start;
   kernel_test "eira::mm::tests" file 287 "framerange_contains_end" Unit framerange_contains_end;
   kernel_test "eira::mm::tests" file 294 "framerange_contains_mid" Unit framerange_contains_mid;
   kernel_test "eira::mm::tests" file 302 "framerange_not_contains_before" Unit framerange_not_contains_before;
   kernel_test "eira::mm::tests" file 310 "framerange_not_contains_after" Unit framerange_not_contains_after;
   kernel_test "eira::mm::tests" file 318 "framerange_iterator_count" Unit framerange_iterator_count;
   kernel_test "eira::mm::tests" file 325 "framerange_iterator_order" Unit framerange_iterator_order;
   kernel_test "eira::mm::tests" file 335 "framerange_iterator_exhausted" Unit framerange_iterator_exhausted;
   kernel_test "eira::mm::tests" file 343 "framerange_from_addr_len_basic" Unit framerange_from_addr_len_basic;
   kernel_test "eira::mm::tests" file 350 "framerange_from_addr_len_zero" Unit framerange_from_addr_len_zero;
   kernel_test "eira::mm::tests" file 357 "alloc_returns_page_aligned_frame" Physical alloc_returns_page_aligned_frame;
   kernel_test "eira::mm::tests" file 364 "alloc_base_within_52_bits" Physical alloc_base_within_52_bits;
   kernel_test "eira::mm::tests" file 371 "total_frames_nonzero" Physical total_frames_nonzero;
   kernel_test "eira::mm::tests" file 375 "free_le_total" Physical free_le_total;
   kernel_test "eira::mm::tests" file 381 "free_count_decreases_by_one_on_alloc" Physical free_count_decreases_by_one_on_alloc;
   kernel_test "eira::mm::tests" file 389 "free_count_restores_after_dealloc" Physical free_count_restores_after_dealloc;
   kernel_test "eira::mm::tests" file 396 "total_stable_across_alloc_dealloc" Physical total_stable_across_alloc_dealloc;
   kernel_test "eira::mm::tests" file 404 "multi_alloc_decreases_count_by_n" Physical multi_alloc_decreases_count_by_n;
   kernel_test "eira::mm::tests" file 418 "two_live_allocs_never_alias" Physical two_live_allocs_never_alias;
   kernel_test "eira::mm::tests" file 427 "three_live_allocs_all_distinct" Physical three_live_allocs_all_distinct;
   kernel_test "eira::mm::tests" file 447 "lifo_single_frame" Physical lifo_single_frame;
   kernel_test "eira::mm::tests" file 457 "lifo_three_frame_chain" Physical lifo_three_frame_chain;
   kernel_test "eira::mm::tests" file 487 "lifo_interleaved" Physical lifo_interleaved;
   kernel_test "eira::mm::tests" file 505 "stress_sequential_alloc_dealloc_no_leak" Physical stress_sequential_alloc_dealloc_no_leak;
   kernel_test "eira::mm::tests" file 519 "stress_bulk_alloc_then_free" Physical stress_bulk_alloc_then_free;
   kernel_test "eira::mm::tests" file 552 "stress_free_never_exceeds_total" Physical stress_free_never_exceeds_total].
