(* ===== verification/HeapTests.v ===== *)
(** * Tests of the heap (eira/src/mm/heap_tests.rs)

    The allocators of these tests are locals, and so are the buffers they manage:
    [buf] is the address the compiler gives to the [AlignedBuf] of a test. *)

From S2P Require Import Prelude Memory Heap KernelTest TestBase.

Definition file : string := "eira/src/mm/heap_tests.rs".

Section heap_tests.
Context (buf : Z).

(** [AlignedBuf::<N>::new()], its address and its length; the bytes after its
    last whole word are not represented. *)
Definition AlignedBuf_new (N : Z) : body kernel_state (Z * Z) :=
  on_mem (fun m => Ret ((buf, N), zero_words m buf (Z.to_nat (N / 8)))).

Definition add_memory (a : HeapAllocator.t) (ptr size : Z) : body kernel_state HeapAllocator.t :=
  on_mem (fun m => let! '(m, a) := HeapAllocator.add_memory m a ptr size in Ret (a, m)).
Definition alloc (a : HeapAllocator.t) (size align : Z) : body kernel_state (option Z * HeapAllocator.t) :=
  on_mem (fun m => let! '(p, m, a) := HeapAllocator.alloc m a size align in Ret ((p, a), m)).
Definition dealloc (a : HeapAllocator.t) (ptr size align : Z) : body kernel_state HeapAllocator.t :=
  on_mem (fun m => let! '(m, a) := HeapAllocator.dealloc m a ptr size align in Ret (a, m)).
Definition free_list_len (a : HeapAllocator.t) : body kernel_state Z :=
  on_mem (fun m => let! n := HeapAllocator.free_list_len m a in Ret (n, m)).

Definition heap_new_is_empty : test_body :=
  let a := HeapAllocator.new in
  kassert file 24 "allocator.is_empty()" (HeapAllocator.is_empty a) ;;
  kassert_eq file 25 "allocator.free_bytes()" "0" (HeapAllocator.free_bytes a) 0 ;;
  kassert_eq file 26 "allocator.total_bytes()" "0" (HeapAllocator.total_bytes a) 0 ;;
  n ← free_list_len a; kassert_eq file 27 "allocator.free_list_len()" "0" n 0.

Definition heap_add_memory_single_region : test_body :=
  '(ptr, len) ← AlignedBuf_new 1024;
  a ← add_memory HeapAllocator.new ptr len;
  let expected := Z.land len (not64 (BLOCK_ALIGN - 1)) in
  kassert_eq file 37 "allocator.total_bytes()" "expected" (HeapAllocator.total_bytes a) expected ;;
  kassert_eq file 38 "allocator.free_bytes()" "expected" (HeapAllocator.free_bytes a) expected ;;
  n ← free_list_len a; kassert_eq file 39 "allocator.free_list_len()" "1" n 1.

Definition heap_add_memory_rounds_size : test_body :=
  '(ptr, len) ← AlignedBuf_new 1023;
  a ← add_memory HeapAllocator.new ptr len;
  let expected := (len / BLOCK_ALIGN) * BLOCK_ALIGN in
  kassert_eq file 49 "allocator.total_bytes()" "expected" (HeapAllocator.total_bytes a) expected ;;
  kassert_eq file 50 "allocator.free_bytes()" "expected" (HeapAllocator.free_bytes a) expected.

Definition heap_add_memory_two_non_adjacent : test_body :=
  '(ptr, len) ← AlignedBuf_new 1536;
  let chunk_size := 512 in
  let gap_size := 512 in
  a ← add_memory HeapAllocator.new ptr chunk_size;
  a ← add_memory a (ptr + (chunk_size + gap_size)) chunk_size;
  let expected := chunk_size * 2 in
  kassert_eq file 67 "allocator.total_bytes()" "expected" (HeapAllocator.total_bytes a) expected ;;
  kassert_eq file 68 "allocator.free_bytes()" "expected" (HeapAllocator.free_bytes a) expected ;;
  n ← free_list_len a; kassert_eq file 70 "allocator.free_list_len()" "2" n 2.

Definition heap_add_memory_two_adjacent_merge : test_body :=
  '(ptr, len) ← AlignedBuf_new 1024;
  let half := len / 2 in
  a ← add_memory HeapAllocator.new ptr half;
  a ← add_memory a (ptr + half) half;
  kassert_eq file 83 "allocator.total_bytes()" "buf.len()" (HeapAllocator.total_bytes a) len ;;
  kassert_eq file 84 "allocator.free_bytes()" "buf.len()" (HeapAllocator.free_bytes a) len ;;
  n ← free_list_len a; kassert_eq file 85 "allocator.free_list_len()" "1" n 1.

Definition heap_add_memory_reverse_order_merge : test_body :=
  '(ptr, len) ← AlignedBuf_new 1024;
  let half := len / 2 in
  a ← add_memory HeapAllocator.new (ptr + half) half;
  a ← add_memory a ptr half;
  kassert_eq file 98 "allocator.total_bytes()" "buf.len()" (HeapAllocator.total_bytes a) len ;;
  kassert_eq file 99 "allocator.free_bytes()" "buf.len()" (HeapAllocator.free_bytes a) len ;;
  n ← free_list_len a; kassert_eq file 100 "allocator.free_list_len()" "1" n 1.

Definition heap_stats_after_add_memory : test_body :=
  '(ptr, len) ← AlignedBuf_new 2048;
  a ← add_memory HeapAllocator.new ptr len;
  let stats := HeapAllocator.stats a in
  kassert_eq file 110 "stats.total_bytes" "buf.len()" (HeapStats.total_bytes stats) len ;;
  kassert_eq file 111 "stats.free_bytes" "buf.len()" (HeapStats.free_bytes stats) len ;;
  kassert_eq file 112 "stats.alloc_count" "0" (HeapStats.alloc_count stats) 0 ;;
  kassert_eq file 113 "stats.dealloc_count" "0" (HeapStats.dealloc_count stats) 0 ;;
  kassert file 114 "stats.is_balanced()" (HeapStats.is_balanced stats).

Definition heap_alloc_dealloc_simple : test_body :=
  '(ptr, len) ← AlignedBuf_new 1024;
  a ← add_memory HeapAllocator.new ptr len;
  let size := 32 in
  let align := 16 in
  '(o, a) ← alloc a size align; ptr ← expecting o "alloc should not fail";
  kassert_eq file 127 "(ptr.as_ptr() as usize) % align" "0" (ptr mod align) 0 ;;
  let stats_after_alloc := HeapAllocator.stats a in
  kassert_eq file 130 "stats_after_alloc.alloc_count" "1" (HeapStats.alloc_count stats_after_alloc) 1 ;;
  kassert_eq file 131 "stats_after_alloc.dealloc_count" "0" (HeapStats.dealloc_count stats_after_alloc) 0 ;;
  kassert file 132 "stats_after_alloc.free_bytes < 1024" (HeapStats.free_bytes stats_after_alloc <? 1024) ;;
  a ← dealloc a ptr size align;
  kassert file 136 "allocator.stats().is_balanced()" (HeapStats.is_balanced (HeapAllocator.stats a)) ;;
  kassert_eq file 137 "allocator.free_bytes()" "1024" (HeapAllocator.free_bytes a) 1024 ;;
  n ← free_list_len a; kassert_eq file 138 "allocator.free_list_len()" "1" n 1.

Definition heap_alloc_exact_exhaustion : test_body :=
  '(ptr, len) ← AlignedBuf_new 128;
  a ← add_memory HeapAllocator.new ptr len;
  '(o, a) ← alloc a 128 16; ptr ← expecting o "alloc should not fail";
  kassert_eq file 148 "allocator.free_bytes()" "0" (HeapAllocator.free_bytes a) 0 ;;
  kassert file 149 "allocator.is_empty()" (HeapAllocator.is_empty a) ;;
  n ← free_list_len a; kassert_eq file 150 "allocator.free_list_len()" "0" n 0 ;;
  a ← dealloc a ptr 128 16;
  kassert file 154 "allocator.stats().is_balanced()" (HeapStats.is_balanced (HeapAllocator.stats a)) ;;
  n ← free_list_len a; kassert_eq file 155 "allocator.free_list_len()" "1" n 1.

Definition heap_alloc_oom : test_body :=
  '(ptr, len) ← AlignedBuf_new 128;
  a ← add_memory HeapAllocator.new ptr len;
  '(ptr, a) ← alloc a 256 16;
  kassert file 165 "ptr.is_none()" (is_none ptr) ;;
  kassert_eq file 166 "allocator.stats().alloc_count" "0" (HeapStats.alloc_count (HeapAllocator.stats a)) 0 ;;
  kassert_eq file 167 "allocator.free_bytes()" "128" (HeapAllocator.free_bytes a) 128.

Definition heap_alloc_multiple_and_coalesce : test_body :=
  '(ptr, len) ← AlignedBuf_new 1024;
  a ← add_memory HeapAllocator.new ptr len;
  let size := 64 in
  let align := 16 in
  '(o, a) ← alloc a size align; ptr_a ← unwrap o;
  '(o, a) ← alloc a size align; ptr_b ← unwrap o;
  '(o, a) ← alloc a size align; ptr_c ← unwrap o;
  n ← free_list_len a; kassert_eq file 182 "allocator.free_list_len()" "1" n 1 ;;
  a ← dealloc a ptr_b size align;
  n ← free_list_len a; kassert_eq file 185 "allocator.free_list_len()" "2" n 2 ;;
  a ← dealloc a ptr_a size align;
  n ← free_list_len a; kassert_eq file 188 "allocator.free_list_len()" "2" n 2 ;;
  a ← dealloc a ptr_c size align;
  kassert file 192 "allocator.stats().is_balanced()" (HeapStats.is_balanced (HeapAllocator.stats a)) ;;
  n ← free_list_len a; kassert_eq file 193 "allocator.free_list_len()" "1" n 1 ;;
  kassert_eq file 194 "allocator.free_bytes()" "1024" (HeapAllocator.free_bytes a) 1024.

Definition heap_alloc_high_alignment : test_body :=
  '(ptr, len) ← AlignedBuf_new 2048;
  a ← add_memory HeapAllocator.new ptr len;
  let size := 32 in
  let align := 128 in
  '(o, a) ← alloc a size align; ptr1 ← expecting o "alloc 1 failed";
  '(o, a) ← alloc a size align; ptr2 ← expecting o "alloc 2 failed";
  kassert_eq file 208 "(ptr1.as_ptr() as usize) % align" "0" (ptr1 mod align) 0 ;;
  kassert_eq file 209 "(ptr2.as_ptr() as usize) % align" "0" (ptr2 mod align) 0 ;;
  a ← dealloc a ptr1 size align;
  a ← dealloc a ptr2 size align;
  kassert file 216 "allocator.stats().is_balanced()" (HeapStats.is_balanced (HeapAllocator.stats a)) ;;
  n ← free_list_len a; kassert_eq file 217 "allocator.free_list_len()" "1" n 1.

(** Registered in the order of the source. *)
Definition all : list (TestCase kernel_state) :=
  [kernel_test "eira::mm::heap_tests" file 22 "heap_new_is_empty" Unit heap_new_is_empty;
   kernel_test "eira::mm::heap_tests" file 30 "heap_add_memory_single_region" Unit heap_add_memory_single_region;
   kernel_test "eira::mm::heap_tests" file 42 "heap_add_memory_rounds_size" Unit heap_add_memory_rounds_size;
   kernel_test "eira::mm::heap_tests" file 53 "heap_add_memory_two_non_adjacent" Unit heap_add_memory_two_non_adjacent;
   kernel_test "eira::mm::heap_tests" file 73 "heap_add_memory_two_adjacent_merge" Unit heap_add_memory_two_adjacent_merge;
   kernel_test "eira::mm::heap_tests" file 88 "heap_add_memory_reverse_order_merge" Unit heap_add_memory_reverse_order_merge;
   kernel_test "eira::mm::heap_tests" file 103 "heap_stats_after_add_memory" Unit heap_stats_after_add_memory;
   kernel_test "eira::mm::heap_tests" file 117 "heap_alloc_dealloc_simple" Unit heap_alloc_dealloc_simple;
   kernel_test "eira::mm::heap_tests" file 141 "heap_alloc_exact_exhaustion" Unit heap_alloc_exact_exhaustion;
   kernel_test "eira::mm::heap_tests" file 158 "heap_alloc_oom" Unit heap_alloc_oom;
   kernel_test "eira::mm::heap_tests" file 170 "heap_alloc_multiple_and_coalesce" Unit heap_alloc_multiple_and_coalesce;
   kernel_test "eira::mm::heap_tests" file 197 "heap_alloc_high_alignment" Unit heap_alloc_high_alignment].

End heap_tests.
