(* ===== verification/VmTests.v ===== *)
(** * Tests of virtual regions and address spaces (eira/src/mm/vm/tests.rs) *)

From S2P Require Import Prelude Addr Frame Memory FrameAllocator Bitmap Region Paging World Mapper MapperClass AddressSpace KernelTest TestBase.

Definition file : string := "eira/src/mm/vm/tests.rs".

(** Methods on a [&mut] local. *)
Definition ra_add_region (ra : RegionAllocator.t) (base size : Z) : body kernel_state RegionAllocator.t :=
  r ← call (Region.new base size);
  '(o, ra) ← call (RegionAllocator.add_region ra r);
  expecting_ok o "add_region failed" ;;
  mret ra.
Definition ra_alloc (ra : RegionAllocator.t) (size align : Z) : body kernel_state (result Region.t RegionError * RegionAllocator.t) :=
  call (RegionAllocator.alloc ra size align).

Definition KernelAddressSpace : Type := AddressSpace.t PageTableMapper.t.

Definition new_kernel : body kernel_state KernelAddressSpace := on_world AddressSpace.new_kernel.
Definition alloc_and_map (k : KernelAddressSpace) (size align flags : Z) (kind : AllocKind) (why : string)
  : body kernel_state (Region.t * KernelAddressSpace) :=
  '(r, k) ← on_world (fun w => let! '(r, k, w) := AddressSpace.alloc_and_map w k size align flags kind in Ret ((r, k), w));
  r ← expecting_ok r why;
  mret (r, k).
Definition unmap_and_dealloc (k : KernelAddressSpace) (region : Region.t) (kind : AllocKind) (why : string)
  : body kernel_state KernelAddressSpace :=
  '(r, k) ← on_world (fun w => let! '(r, k, w) := AddressSpace.unmap_and_dealloc w k region kind in Ret ((r, k), w));
  expecting_ok r why ;;
  mret k.
Definition translate (k : KernelAddressSpace) (virt : Z) : body kernel_state (option (Z * Z)) :=
  query (fun s => AddressSpace.translate (ks_world s) k virt).

Definition region_alloc_basic : test_body :=
  let base := VirtAddr.new_unchecked 0xffffd00000000000 in
  ra ← ra_add_region RegionAllocator.new base (16 * PAGE_SIZE);
  '(r, ra) ← ra_alloc ra (4 * PAGE_SIZE) PAGE_SIZE; r ← expecting_ok r "alloc failed";
  kassert_eq file 16 "r.size" "4 * PAGE_SIZE" (Region.size r) (4 * PAGE_SIZE) ;;
  b ← call (VirtAddr.is_aligned (Region.base r) PAGE_SIZE); kassert file 17 "r.base.is_aligned(PAGE_SIZE)" b ;;
  n ← call (RegionAllocator.free_bytes ra); kassert_eq file 19 "ra.free_bytes()" "12 * PAGE_SIZE" n (12 * PAGE_SIZE).

Definition region_alloc_free_merge : test_body :=
  let base := VirtAddr.new_unchecked 0xffffd00000000000 in
  ra ← ra_add_region RegionAllocator.new base (8 * PAGE_SIZE);
  '(r, ra) ← ra_alloc ra (8 * PAGE_SIZE) PAGE_SIZE; r ← expecting_ok r "alloc failed";
  n ← call (RegionAllocator.free_bytes ra); kassert_eq file 31 "ra.free_bytes()" "0" n 0 ;;
  '(o, ra) ← call (RegionAllocator.free ra r); expecting_ok o "free failed" ;;
  n ← call (RegionAllocator.free_bytes ra); kassert_eq file 34 "ra.free_bytes()" "8 * PAGE_SIZE" n (8 * PAGE_SIZE) ;;
  kassert_eq file 35 "ra.free_region_count()" "1" (Z.of_nat (RegionAllocator.free_region_count ra)) 1.

Definition region_alloc_alignment : test_body :=
  let align_2m := 2 * 1024 * 1024 in
  let base_raw := 0xffffd00000000000 + PAGE_SIZE in
  let base := VirtAddr.new_unchecked base_raw in
  let padding := align_2m - PAGE_SIZE in
  let region_size := padding + align_2m in
  ra ← ra_add_region RegionAllocator.new base region_size;
  '(r, ra) ← ra_alloc ra align_2m align_2m; r ← expecting_ok r "alloc failed";
  b ← call (VirtAddr.is_aligned (Region.base r) align_2m); kassert file 52 "r.base.is_aligned(align_2m)" b ;;
  kassert_eq file 53 "r.size" "align_2m" (Region.size r) align_2m.

Definition region_out_of_vm : test_body :=
  let base := VirtAddr.new_unchecked 0xffffd00000000000 in
  ra ← ra_add_region RegionAllocator.new base PAGE_SIZE;
  '(r, ra) ← ra_alloc ra PAGE_SIZE PAGE_SIZE; expecting_ok r "first alloc failed" ;;
  '(result, ra) ← ra_alloc ra PAGE_SIZE PAGE_SIZE;
  kassert file 67 "result == Err(RegionError::OutOfVirtualMemory)" (match result with Err OutOfVirtualMemory => true | _ => false end).

Definition address_space_alloc_and_map_4_pages : test_body :=
  k ← new_kernel;
  '(warmup, k) ← alloc_and_map k PAGE_SIZE PAGE_SIZE PageFlags.kernel_data KindKernelVm "warmup alloc_and_map failed";
  k ← unmap_and_dealloc k warmup KindKernelVm "warmup unmap failed";
  free_before ← free_frames_now;
  '(region, k) ← alloc_and_map k (4 * PAGE_SIZE) PAGE_SIZE PageFlags.kernel_data KindKernelVm "alloc_and_map failed";
  kassert_eq file 97 "region.size" "4 * PAGE_SIZE" (Region.size region) (4 * PAGE_SIZE) ;;
  n ← free_frames_now; d ← call (sub_ free_before 4); kassert_eq file 98 "mm::free_frames()" "free_before - 4" n d ;;
  let base := Region.base region in
  for_each (seq 0 4) (fun i =>
    virt ← call (AddressSpace.page_addr base (Z.of_nat i));
    o ← translate k virt; kassert file 103 "kspace.translate(virt).is_some()" (is_some o)) ;;
  phys ← mapM (fun i : nat =>
    virt ← call (AddressSpace.page_addr base (Z.of_nat i));
    o ← translate k virt; p ← unwrap o; mret p.1) (seq 0 4);
  for_each (seq 0 4) (fun i =>
    for_each (seq (i + 1) (4 - (i + 1))) (fun j =>
      p ← unwrap (phys !! i); q ← unwrap (phys !! j);
      kassert file 112 "phys[i] != phys[j]" (negb (p =? q)))) ;;
  k ← unmap_and_dealloc k region KindKernelVm "unmap_and_dealloc failed";
  n ← free_frames_now; kassert_eq file 120 "mm::free_frames()" "free_before" n free_before.

Definition address_space_flags_roundtrip : test_body :=
  k ← new_kernel;
  '(region, k) ← alloc_and_map k PAGE_SIZE PAGE_SIZE PageFlags.kernel_data KindKernelVm "alloc_and_map failed";
  let virt := Region.base region in
  o ← translate k virt; '(_, flags) ← expecting o "translation failed";
  kassert file 140 "flags.contains(PageFlags::READ)" (PageFlags.contains flags PageFlags.READ) ;;
  kassert file 141 "flags.contains(PageFlags::WRITE)" (PageFlags.contains flags PageFlags.WRITE) ;;
  kassert file 142 "!flags.contains(PageFlags::EXECUTE)" (negb (PageFlags.contains flags PageFlags.EXECUTE)) ;;
  unmap_and_dealloc k region KindKernelVm "unmap failed" ;;
  mret tt.

Definition address_space_remap_flags : test_body :=
  k ← new_kernel;
  '(region, k) ← alloc_and_map k PAGE_SIZE PAGE_SIZE PageFlags.kernel_data KindKernelVm "alloc_and_map failed";
  let virt := Region.base region in
  r ← on_world (fun w => AddressSpace.remap w k virt PageFlags.kernel_code);
  flush ← expecting_ok r "remap failed";
  on_world_ (fun w => Ret (flush_tlb_page w flush)) ;;
  o ← translate k virt; '(_, flags) ← expecting o "translation after remap failed";
  kassert file 173 "flags.contains(PageFlags::READ)" (PageFlags.contains flags PageFlags.READ) ;;
  kassert file 174 "flags.contains(PageFlags::EXECUTE)" (PageFlags.contains flags PageFlags.EXECUTE) ;;
  kassert file 175 "!flags.contains(PageFlags::WRITE)" (negb (PageFlags.contains flags PageFlags.WRITE)) ;;
  unmap_and_dealloc k region KindKernelVm "unmap failed" ;;
  mret tt.

Definition address_space_translate_unmapped : test_body :=
  k ← new_kernel;
  let unmapped := VirtAddr.new_unchecked 0xffffd000dead0000 in
  o ← translate k unmapped; kassert file 186 "kspace.translate(unmapped).is_none()" (is_none o).

Definition address_space_virt_pool_accounting : test_body :=
  k ← new_kernel;
  before ← call (AddressSpace.kernel_vm_free_bytes k);
  kassert file 193 "before > 0" (0 <? before) ;;
  '(r, k) ← call (AddressSpace.alloc_virt k (8 * PAGE_SIZE) PAGE_SIZE KindKernelVm);
  region ← expecting_ok r "alloc_virt failed";
  n ← call (AddressSpace.kernel_vm_free_bytes k); d ← call (sub_ before (8 * PAGE_SIZE)); kassert_eq file 199 "kspace.kernel_vm_free_bytes()" "before - 8 * PAGE_SIZE" n d ;;
  '(r, k) ← call (AddressSpace.free_virt k region KindKernelVm);
  expecting_ok r "free_virt failed" ;;
  n ← call (AddressSpace.kernel_vm_free_bytes k); kassert_eq file 205 "kspace.kernel_vm_free_bytes()" "before" n before.

(** Registered in the order of the source. *)
Definition all : list (TestCase kernel_state) :=
  [kernel_test "eira::mm::vm::tests" file 7 "region_alloc_basic" Unit region_alloc_basic;
   kernel_test "eira::mm::vm::tests" file 22 "region_alloc_free_merge" Unit region_alloc_free_merge;
   kernel_test "eira::mm::vm::tests" file 38 "region_alloc_alignment" Unit region_alloc_alignment;
   kernel_test "eira::mm::vm::tests" file 56 "region_out_of_vm" Unit region_out_of_vm;
   kernel_test "eira::mm::vm::tests" file 70 "address_space_alloc_and_map_4_pages" Physical address_space_alloc_and_map_4_pages;
   kernel_test "eira::mm::vm::tests" file 123 "address_space_flags_roundtrip" Physical address_space_flags_roundtrip;
   kernel_test "eira::mm::vm::tests" file 149 "address_space_remap_flags" Physical address_space_remap_flags;
   kernel_test "eira::mm::vm::tests" file 182 "address_space_translate_unmapped" Physical address_space_translate_unmapped;
   kernel_test "eira::mm::vm::tests" file 189 "address_space_virt_pool_accounting" Physical address_space_virt_pool_accounting].
