(* ===== verification/PagingTests.v ===== *)
(** * Tests of the page-table mapper (eira/src/mm/paging/tests.rs) *)

From S2P Require Import Prelude Addr Frame Memory FrameAllocator Bitmap Paging World Mapper KernelTest TestBase.

Definition file : string := "eira/src/mm/paging/tests.rs".

Definition virt (addr : Z) : Z := VirtAddr.new_unchecked addr.

(** [Platform::new_test_mapper] *)
Definition new_test_mapper : body kernel_state PageTableMapper.t :=
  pml4 ← allocate_frame;
  on_world (fun w => PageTableMapper.create_mapper w pml4).

Definition mapper_map (mapper : PageTableMapper.t) (v frame flags : Z) : body kernel_state (result Z (Z * MapError)) :=
  on_world (fun w => PageTableMapper.map w mapper v frame flags).
Definition mapper_unmap (mapper : PageTableMapper.t) (v : Z) (why : string) : body kernel_state (Z * Z) :=
  r ← on_world (fun w => PageTableMapper.unmap w mapper v);
  expecting_ok r why.
Definition mapper_translate (mapper : PageTableMapper.t) (v : Z) : body kernel_state (option (Z * Z)) :=
  query (fun s => PageTableMapper.translate (memory (ks_world s)) mapper v).

(** [TlbFlush::flush] *)
Definition flush (token : Z) : test_body := on_world_ (fun w => Ret (flush_tlb_page w token)).

Definition do_map (mapper : PageTableMapper.t) (v frame flags : Z) : body kernel_state Z :=
  r ← mapper_map mapper v frame flags;
  expecting_ok r "map should succeed".

Definition map_then_translate : test_body :=
  let v := virt 0x0000100000000000 in
  frame ← allocate_frame;
  let phys := frame in
  mapper ← new_test_mapper;
  r ← mapper_map mapper v frame PageFlags.kernel_data; token ← expecting_ok r "map failed";
  flush token ;;
  o ← mapper_translate mapper v; '(got_phys, flags) ← expecting o "translate returned None";
  kassert_eq file 36 "got_phys.as_usize()" "phys.as_usize()" got_phys phys ;;
  kassert file 37 "flags.contains(PageFlags::WRITE)" (PageFlags.contains flags PageFlags.WRITE) ;;
  kassert file 38 "!flags.contains(PageFlags::EXECUTE)" (negb (PageFlags.contains flags PageFlags.EXECUTE)).

Definition translate_unmapped_returns_none : test_body :=
  let v := virt 0x0000100100000000 in
  mapper ← new_test_mapper;
  o ← mapper_translate mapper v; kassert file 44 "mapper.translate(v).is_none()" (is_none o).

Definition double_map_returns_already_mapped : test_body :=
  let v := virt 0x0000100200000000 in
  frame_a ← allocate_frame;
  frame_b ← allocate_frame;
  mapper ← new_test_mapper;
  r ← mapper_map mapper v frame_a PageFlags.kernel_data; token ← expecting_ok r "first map failed";
  flush token ;;
  result ← mapper_map mapper v frame_b PageFlags.kernel_data;
  while_owned (kassert file 59 "matches!(result, Err((_, MapError::AlreadyMapped)))" (match result with Err (_, AlreadyMapped) => true | _ => false end)) ;;
  match result with
  | Err (returned_frame, _) => deallocate_frame returned_frame
  | Ok _ => mret tt
  end.

Definition remap_after_unmap : test_body :=
  let v := virt 0x0000100300000000 in
  frame_a ← allocate_frame;
  frame_b ← allocate_frame;
  let phys_b := frame_b in
  mapper ← new_test_mapper;
  r ← mapper_map mapper v frame_a PageFlags.kernel_data; token ← expecting_ok r "first map failed";
  flush token ;;
  '(returned, token) ← mapper_unmap mapper v "unmap failed";
  flush token ;;
  deallocate_frame returned ;;
  r ← mapper_map mapper v frame_b PageFlags.kernel_code; token ← expecting_ok r "second map failed";
  flush token ;;
  o ← mapper_translate mapper v; '(got_phys, flags) ← expecting o "translate after remap failed";
  kassert_eq file 87 "got_phys.as_usize()" "phys_b.as_usize()" got_phys phys_b ;;
  kassert file 88 "flags.contains(PageFlags::EXECUTE)" (PageFlags.contains flags PageFlags.EXECUTE) ;;
  kassert file 89 "!flags.contains(PageFlags::WRITE)" (negb (PageFlags.contains flags PageFlags.WRITE)).

Definition translate_preserves_page_offset : test_body :=
  let base := virt 0x0000100400000000 in
  frame ← allocate_frame;
  let phys_base := frame in
  mapper ← new_test_mapper;
  r ← mapper_map mapper base frame PageFlags.kernel_data; token ← expecting_ok r "map failed";
  flush token ;;
  let v_offset := virt 0x0000100400000550 in
  o ← mapper_translate mapper v_offset; '(got_phys, _) ← expecting o "translate with offset failed";
  e ← call (add_ phys_base 0x550); kassert_eq file 107 "got_phys.as_usize()" "phys_base.as_usize() + 0x550" got_phys e.

Definition user_data_flags_roundtrip : test_body :=
  let v := virt 0x0000200000000000 in
  frame ← allocate_frame;
  mapper ← new_test_mapper;
  token ← do_map mapper v frame PageFlags.user_data; flush token ;;
  o ← mapper_translate mapper v; '(_, flags) ← expecting o "translate failed";
  kassert file 118 "flags.contains(PageFlags::READ)" (PageFlags.contains flags PageFlags.READ) ;;
  kassert file 119 "flags.contains(PageFlags::WRITE)" (PageFlags.contains flags PageFlags.WRITE) ;;
  kassert file 120 "flags.contains(PageFlags::USER)" (PageFlags.contains flags PageFlags.USER) ;;
  kassert file 121 "!flags.contains(PageFlags::EXECUTE)" (negb (PageFlags.contains flags PageFlags.EXECUTE)) ;;
  kassert file 122 "!flags.contains(PageFlags::GLOBAL)" (negb (PageFlags.contains flags PageFlags.GLOBAL)).

Definition user_code_flags_roundtrip : test_body :=
  let v := virt 0x0000200100000000 in
  frame ← allocate_frame;
  mapper ← new_test_mapper;
  token ← do_map mapper v frame PageFlags.user_code; flush token ;;
  o ← mapper_translate mapper v; '(_, flags) ← expecting o "translate failed";
  kassert file 133 "flags.contains(PageFlags::READ)" (PageFlags.contains flags PageFlags.READ) ;;
  kassert file 134 "flags.contains(PageFlags::EXECUTE)" (PageFlags.contains flags PageFlags.EXECUTE) ;;
  kassert file 135 "flags.contains(PageFlags::USER)" (PageFlags.contains flags PageFlags.USER) ;;
  kassert file 136 "!flags.contains(PageFlags::WRITE)" (negb (PageFlags.contains flags PageFlags.WRITE)) ;;
  kassert file 137 "!flags.contains(PageFlags::GLOBAL)" (negb (PageFlags.contains flags PageFlags.GLOBAL)).

Definition uncached_flag_roundtrip : test_body :=
  let v := virt 0x0000200200000000 in
  frame ← allocate_frame;
  mapper ← new_test_mapper;
  token ← do_map mapper v frame (PageFlags.or PageFlags.kernel_data PageFlags.UNCACHED); flush token ;;
  o ← mapper_translate mapper v; '(_, flags) ← expecting o "translate failed";
  kassert file 154 "flags.contains(PageFlags::UNCACHED)" (PageFlags.contains flags PageFlags.UNCACHED).

Definition map_non_canonical_returns_error : test_body :=
  let v := VirtAddr.new_unchecked 0x0000800000000000 in
  frame ← allocate_frame;
  mapper ← new_test_mapper;
  result ← mapper_map mapper v frame PageFlags.kernel_data;
  while_owned (kassert file 165 "matches!( result, Err((_, MapError::UnalignedAddress)) | Err((_, MapError::FrameAllocationFailed)) )" (match result with
      | Err (_, MapUnalignedAddress) => true
      | Err (_, FrameAllocationFailed) => true
      | _ => false
      end)) ;;
  match result with
  | Err (returned, _) => deallocate_frame returned
  | Ok _ => mret tt
  end.

Definition kernel_data_is_global : test_body :=
  let v := virt 0x0000300000000000 in
  frame ← allocate_frame;
  mapper ← new_test_mapper;
  token ← do_map mapper v frame PageFlags.kernel_data; flush token ;;
  o ← mapper_translate mapper v; '(_, flags) ← expecting o "translate failed";
  kassert file 183 "flags.contains(PageFlags::GLOBAL)" (PageFlags.contains flags PageFlags.GLOBAL) ;;
  kassert file 184 "!flags.contains(PageFlags::USER)" (negb (PageFlags.contains flags PageFlags.USER)).

Definition kernel_code_is_global : test_body :=
  let v := virt 0x0000300100000000 in
  frame ← allocate_frame;
  mapper ← new_test_mapper;
  token ← do_map mapper v frame PageFlags.kernel_code; flush token ;;
  o ← mapper_translate mapper v; '(_, flags) ← expecting o "translate failed";
  kassert file 195 "flags.contains(PageFlags::GLOBAL)" (PageFlags.contains flags PageFlags.GLOBAL) ;;
  kassert file 196 "flags.contains(PageFlags::EXECUTE)" (PageFlags.contains flags PageFlags.EXECUTE) ;;
  kassert file 197 "!flags.contains(PageFlags::WRITE)" (negb (PageFlags.contains flags PageFlags.WRITE)) ;;
  kassert file 198 "!flags.contains(PageFlags::USER)" (negb (PageFlags.contains flags PageFlags.USER)).

Definition unmap_then_remap_different_flags : test_body :=
  let v := virt 0x0000400000000000 in
  frame_a ← allocate_frame;
  frame_b ← allocate_frame;
  let phys_b := frame_b in
  mapper ← new_test_mapper;
  token ← do_map mapper v frame_a PageFlags.kernel_data; flush token ;;
  o ← mapper_translate mapper v; '(_, flags_before) ← expecting o "translate failed";
  while_owned (kassert file 211 "flags_before.contains(PageFlags::WRITE)" (PageFlags.contains flags_before PageFlags.WRITE)) ;;
  while_owned (kassert file 212 "!flags_before.contains(PageFlags::EXECUTE)" (negb (PageFlags.contains flags_before PageFlags.EXECUTE))) ;;
  '(returned, token) ← mapper_unmap mapper v "unmap failed";
  flush token ;;
  deallocate_frame returned ;;
  token ← do_map mapper v frame_b PageFlags.kernel_code; flush token ;;
  o ← mapper_translate mapper v; '(got_phys, flags_after) ← expecting o "translate after remap failed";
  kassert_eq file 221 "got_phys.as_usize()" "phys_b.as_usize()" got_phys phys_b ;;
  kassert file 222 "!flags_after.contains(PageFlags::WRITE)" (negb (PageFlags.contains flags_after PageFlags.WRITE)) ;;
  kassert file 223 "flags_after.contains(PageFlags::EXECUTE)" (PageFlags.contains flags_after PageFlags.EXECUTE).

Definition adjacent_pages_independent : test_body :=
  let v0 := virt 0x0000500000000000 in
  let v1 := virt 0x0000500000001000 in
  let v2 := virt 0x0000500000002000 in
  f0 ← allocate_frame;
  f1 ← allocate_frame;
  f2 ← allocate_frame;
  let p0 := f0 in
  let p1 := f1 in
  let p2 := f2 in
  mapper ← new_test_mapper;
  token ← do_map mapper v0 f0 PageFlags.kernel_data; flush token ;;
  token ← do_map mapper v1 f1 PageFlags.kernel_code; flush token ;;
  token ← do_map mapper v2 f2 PageFlags.user_data; flush token ;;
  o ← mapper_translate mapper v0; '(got_p0, flags0) ← expecting o "translate v0 failed";
  o ← mapper_translate mapper v1; '(got_p1, flags1) ← expecting o "translate v1 failed";
  o ← mapper_translate mapper v2; '(got_p2, flags2) ← expecting o "translate v2 failed";
  kassert_eq file 249 "got_p0.as_usize()" "p0.as_usize()" got_p0 p0 ;;
  kassert_eq file 250 "got_p1.as_usize()" "p1.as_usize()" got_p1 p1 ;;
  kassert_eq file 251 "got_p2.as_usize()" "p2.as_usize()" got_p2 p2 ;;
  kassert file 253 "flags0.contains(PageFlags::WRITE)" (PageFlags.contains flags0 PageFlags.WRITE) ;;
  kassert file 254 "!flags0.contains(PageFlags::EXECUTE)" (negb (PageFlags.contains flags0 PageFlags.EXECUTE)) ;;
  kassert file 256 "flags1.contains(PageFlags::EXECUTE)" (PageFlags.contains flags1 PageFlags.EXECUTE) ;;
  kassert file 257 "!flags1.contains(PageFlags::WRITE)" (negb (PageFlags.contains flags1 PageFlags.WRITE)) ;;
  kassert file 259 "flags2.contains(PageFlags::USER)" (PageFlags.contains flags2 PageFlags.USER) ;;
  kassert file 260 "flags2.contains(PageFlags::WRITE)" (PageFlags.contains flags2 PageFlags.WRITE) ;;
  kassert file 261 "!flags2.contains(PageFlags::EXECUTE)" (negb (PageFlags.contains flags2 PageFlags.EXECUTE)).

Definition unmap_middle_page_leaves_neighbors : test_body :=
  let v0 := virt 0x0000006000000000 in
  let v1 := virt 0x0000006000001000 in
  let v2 := virt 0x0000006000002000 in
  f0 ← allocate_frame;
  f1 ← allocate_frame;
  f2 ← allocate_frame;
  let p0 := f0 in
  let p2 := f2 in
  mapper ← new_test_mapper;
  token ← do_map mapper v0 f0 PageFlags.kernel_data; flush token ;;
  token ← do_map mapper v1 f1 PageFlags.kernel_data; flush token ;;
  token ← do_map mapper v2 f2 PageFlags.kernel_data; flush token ;;
  '(returned, token) ← mapper_unmap mapper v1 "unmap v1 failed";
  flush token ;;
  deallocate_frame returned ;;
  o ← mapper_translate mapper v1; kassert file 286 "mapper.translate(v1).is_none()" (is_none o) ;;
  o ← mapper_translate mapper v0; '(got_p0, _) ← expecting o "v0 should still be mapped";
  o ← mapper_translate mapper v2; '(got_p2, _) ← expecting o "v2 should still be mapped";
  kassert_eq file 291 "got_p0.as_usize()" "p0.as_usize()" got_p0 p0 ;;
  kassert_eq file 292 "got_p2.as_usize()" "p2.as_usize()" got_p2 p2.

(** Registered in the order of the source. *)
Definition all : list (TestCase kernel_state) :=
  [kernel_test "eira::mm::paging::tests" file 23 "map_then_translate" Physical map_then_translate;
   kernel_test "eira::mm::paging::tests" file 41 "translate_unmapped_returns_none" Physical translate_unmapped_returns_none;
   kernel_test "eira::mm::paging::tests" file 47 "double_map_returns_already_mapped" Physical double_map_returns_already_mapped;
   kernel_test "eira::mm::paging::tests" file 66 "remap_after_unmap" Physical remap_after_unmap;
   kernel_test "eira::mm::paging::tests" file 92 "translate_preserves_page_offset" Physical translate_preserves_page_offset;
   kernel_test "eira::mm::paging::tests" file 110 "user_data_flags_roundtrip" Physical user_data_flags_roundtrip;
   kernel_test "eira::mm::paging::tests" file 125 "user_code_flags_roundtrip" Physical user_code_flags_roundtrip;
   kernel_test "eira::mm::paging::tests" file 140 "uncached_flag_roundtrip" Physical uncached_flag_roundtrip;
   kernel_test "eira::mm::paging::tests" file 157 "map_non_canonical_returns_error" Physical map_non_canonical_returns_error;
   kernel_test "eira::mm::paging::tests" file 175 "kernel_data_is_global" Physical kernel_data_is_global;
   kernel_test "eira::mm::paging::tests" file 187 "kernel_code_is_global" Physical kernel_code_is_global;
   kernel_test "eira::mm::paging::tests" file 201 "unmap_then_remap_different_flags" Physical unmap_then_remap_different_flags;
   kernel_test "eira::mm::paging::tests" file 226 "adjacent_pages_independent" Physical adjacent_pages_independent;
   kernel_test "eira::mm::paging::tests" file 264 "unmap_middle_page_leaves_neighbors" Physical unmap_middle_page_leaves_neighbors].
