(* ===== verification/StackTests.v ===== *)
(** * Tests of kernel stacks (eira/src/task/tests.rs)

    A stack goes back to the heap at the end of its test. *)

From S2P Require Import Prelude Memory Heap World Context KernelTest TestBase.

Definition file : string := "eira/src/task/tests.rs".

Definition stack_new (size : Z) : body kernel_state KernelStack.t := on_heap (fun m h => KernelStack.new m h size).
Definition stack_new_default : body kernel_state KernelStack.t := on_heap KernelStack.new_default.
Definition stack_drop (stack : KernelStack.t) : test_body :=
  on_heap (fun m h => let! '(m, h) := KernelStack.drop m h stack in Ret (tt, m, h)).

Definition kernel_stack_size : test_body :=
  stack ← stack_new 4096;
  dropping (stack_drop stack) (kassert_eq file 7 "stack.size()" "4096" (KernelStack.size stack) 4096).

Definition kernel_stack_top_within_buf : test_body :=
  stack ← stack_new 4096;
  dropping (stack_drop stack) (
    let base := KernelStack.base stack in
    top ← call (KernelStack.top stack);
    kassert file 14 "top > base" (base <? top) ;;
    e ← call (add_ base (KernelStack.size stack)); kassert file 15 "top <= base + stack.size()" (top <=? e)).

Definition kernel_stack_top_aligned : test_body :=
  stack ← stack_new 4096;
  dropping (stack_drop stack) (
    top ← call (KernelStack.top stack); kassert file 20 "stack.top() as usize % STACK_ALIGN == 0" (top mod STACK_ALIGN =? 0)).

Definition kernel_stack_top_aligned_odd_size : test_body :=
  stack ← stack_new 4097;
  dropping (stack_drop stack) (
    top ← call (KernelStack.top stack); kassert file 25 "stack.top() as usize % STACK_ALIGN == 0" (top mod STACK_ALIGN =? 0)).

Definition kernel_stack_no_alias : test_body :=
  a ← stack_new 4096;
  dropping (stack_drop a) (
    b ← stack_new 4096;
    dropping (stack_drop b) (
      kassert file 31 "a.base() != b.base()" (negb (KernelStack.base a =? KernelStack.base b)))).

Definition kernel_stack_default_size : test_body :=
  stack ← stack_new_default;
  dropping (stack_drop stack) (kassert_eq file 36 "stack.size()" "DEFAULT_STACK_SIZE" (KernelStack.size stack) DEFAULT_STACK_SIZE).

Definition kernel_stack_zeroed : test_body :=
  stack ← stack_new 4096;
  dropping (stack_drop stack) (
    words ← query (fun s => Ret ((fun i => read64 (memory (ks_world s)) (KernelStack.base stack + 8 * Z.of_nat i)) <$> seq 0 512));
    kassert file 42 "slice.iter().all(|&b| b == 0)" (forallb (fun w => w =? 0) words)).

(** Registered in the order of the source. *)
Definition all : list (TestCase kernel_state) :=
  [kernel_test "eira::task::tests" file 5 "kernel_stack_size" Unit kernel_stack_size;
   kernel_test "eira::task::tests" file 10 "kernel_stack_top_within_buf" Unit kernel_stack_top_within_buf;
   kernel_test "eira::task::tests" file 18 "kernel_stack_top_aligned" Unit kernel_stack_top_aligned;
   kernel_test "eira::task::tests" file 23 "kernel_stack_top_aligned_odd_size" Unit kernel_stack_top_aligned_odd_size;
   kernel_test "eira::task::tests" file 28 "kernel_stack_no_alias" Unit kernel_stack_no_alias;
   kernel_test "eira::task::tests" file 34 "kernel_stack_default_size" Unit kernel_stack_default_size;
   kernel_test "eira::task::tests" file 39 "kernel_stack_zeroed" Unit kernel_stack_zeroed].
