(* ===== verification/Boot.v ===== *)
(** * Booting (eira/src/main.rs, [kmain])

    [kmain] composes the components: the console, the processor and interrupt
    set-up, the frame allocator, the kernel's address space and heap, the
    scheduler and two tasks, up to the yield that leaves the boot thread.

    The physical frames behind the heap's pages belong to the heap from the
    moment they are mapped, and nothing accesses them through the direct map any
    more, so one memory serves both ranges of virtual addresses: words of the
    direct map for the frame allocator and the page tables, words of the heap's
    range for the heap.  The layout of the shared address-space object is chosen
    by the compiler and is a parameter.  What the components say is delivered to the console when
    the call that says it returns. *)

From S2P Require Import Prelude Fmt Log Addr Frame Memory FrameAllocator Bitmap Intervals Region Heap Paging World Mapper MapperClass AddressSpace Context Task Scheduler Init Io Gdt Trap Platform Serial Report KernelTest TestBase.
Import HeapInv Saved Scheduler.

(** What the bootloader hands over, and the control registers on entry. *)
Record firmware := mk_firmware {
  fw_memmap : option (list Memmap.entry);
  fw_hhdm : option Z;
  fw_supported : bool;
  fw_cr3 : Z;
  fw_cr0 : Z;
  fw_cr4 : Z;
}.

(** The statics of the kernel. *)
Record statics := mk_statics {
  st_serial : Serial.t;
  st_logger : bool;
  st_cpu : Platform.cpu;
  st_irqs : Irq.t;
  st_world : world BitmapAllocator.t;
  st_allocator : LockedHeap.t;
  st_counter : Z;
  st_scheduler : option Scheduler.t;
}.

(** Their initial values, in memory [m], with the firmware's APIC register. *)
Definition initial (m : mem) (apic : Z) : statics :=
  mk_statics (Serial.mk false None []) false (mk_cpu CpuTables.new None Idt.new None apic []) Irq.EMPTY
    (mk_world m false None 0 []) LockedHeap.new 1 None.

(** ["\x1B[2J\x1B[H"] *)
Definition CLEAR_SCREEN : list Z := [27; 91; 50; 74; 27; 91; 72].

(** Everything at the moment the first task starts. *)
Record booted := mk_booted {
  b_serial : Serial.t;
  b_cpu : Platform.cpu;
  b_irqs : Irq.t;
  b_world : world BitmapAllocator.t;
  b_space : AddressSpace.t PageTableMapper.t;
  b_heap_region : Region.t;
  b_kernel : kernel;
  b_control : Z * Z;  (** CR0 and CR4 *)
}.

(** The memory side of the kernel when the heap is up, with the address of the
    shared address-space object, and what has been said. *)
Record memory_side := mk_memory_side {
  e_world : world BitmapAllocator.t;
  e_space : AddressSpace.t PageTableMapper.t;
  e_region : Region.t;
  e_heap : LockedHeap.t;
  e_arc : Z;
  e_out : list output;
}.

Section kmain.
Context `{TaskLayout}.
(** The devices, with the polls a busy wait may take; the log crate's levels; addresses chosen by the
    linker; the layout of the shared address space; the boot thread's registers
    at its calls into the scheduler. *)
Context (inp : list io -> Z -> Z) (fuel : nat) (level_le : Level -> Level -> bool) (level_name : Level -> list Z) (isr_stub : Z -> Z) (gdt_addr tss_addr stacks idt_addr : Z).
Context (MEMMAP_USABLE arc_size arc_align : Z) (timer_tick idle_task task_a task_b : Z) (c : Context.cpu).

Abbreviation deliver := (deliver inp fuel level_le level_name).

(** What the interrupt side has said. *)
Definition said (l : list event) : list output :=
  omap (fun e => match e with Said o => Some o | Called _ | Port _ => None end) l.

(** What the scheduler has said between two states. *)
Definition hear (serial : Serial.t) (k k' : kernel) : outcome Serial.t :=
  deliver serial (drop (length (k_out k)) (k_out k')).

(** [kmain] up to the registration of the timer. *)
Definition devices_up (st : statics) : outcome (Serial.t * Platform.cpu * Irq.t) :=
  let! serial := Serial.init (st_serial st) in
  let! serial := Serial._print inp fuel serial [CLEAR_SCREEN] in
  let! _ := logger_init (st_logger st) in
  let! '(hw, out) := X86_64.init_cpu inp isr_stub gdt_addr tss_addr stacks idt_addr
               (mk_cpu (tables (st_cpu st)) (segs (st_cpu st)) (idt (st_cpu st)) (idtr (st_cpu st))
                  (apic_base (st_cpu st)) (Serial.history serial)) in
  let serial := Serial.mk (Serial.locked serial) (Serial.uart serial) (ports hw) in
  let! serial := deliver serial out in
  let! irqs := X86_64.register_irq (st_irqs st) 0 timer_tick in
  let! serial := deliver serial (said (drop (length (Irq.log (st_irqs st))) (Irq.log irqs))) in
  Ret (serial, hw, irqs).

Definition limine_record : log_record := debug "eira" (Fmt.bytes "limine base revision supported").
Definition heap_record (heap_size : Z) : log_record :=
  info "eira" (Fmt.bytes "kernel heap initialised with " ++ decimal heap_size ++ Fmt.bytes " bytes").

(** [kmain] from there to the shared address space. *)
Definition memory_up (f : firmware) (st : statics) : outcome memory_side :=
  let! memmap := expect (fw_memmap f) "no memory map response" in
  let! hhdm := expect (fw_hhdm f) "no HHDM response" in
  let! _ := assert_ (fw_supported f) "incompatible bootloader: limine base revision is not supported" in
  let out1 := Logged limine_record in
  let! '(w, out2) := mm_init MEMMAP_USABLE (st_world st) memmap hhdm in
  let heap_size := 1024 * 1024 in
  let root_phys := active_page_table (fw_cr3 f) in
  let! kernel_space := AddressSpace.from_active w root_phys in
  let! '(r, kernel_space, w) :=
    AddressSpace.alloc_and_map w kernel_space heap_size PAGE_SIZE PageFlags.kernel_data KindHeap in
  let! heap_region := expect_ok r "failed to allocate kernel heap" in
  let! heap := LockedHeap.lock (st_allocator st) in
  let! '(m, heap) := HeapAllocator.add_memory (memory w) heap (Region.base heap_region) (Region.size heap_region) in
  let out3 := Logged (heap_record heap_size) in
  let! '(arc, m, heap) := global_alloc m (false, heap) arc_size arc_align in
  Ret (mk_memory_side (with_memory w m) kernel_space heap_region heap arc (out1 :: out2 ++ [out3])).

Definition kmain (f : firmware) (st : statics) : outcome booted :=
  let control := enable_sse (fw_cr0 f) (fw_cr4 f) in
  let! '(serial, hw, irqs) := devices_up st in
  let! e := memory_up f st in
  let! serial := deliver serial (e_out e) in
  let k0 := mk_kernel (memory (e_world e)) (e_heap e) (st_counter st) false (st_scheduler st) c [] in
  let! k1 := Scheduler.init idle_task k0 (e_arc e) in
  let! serial := hear serial k0 k1 in
  let! '(_, k2) := spawn k1 task_a Priority.NORMAL (e_arc e) in
  let! serial := hear serial k1 k2 in
  let! '(_, k3) := spawn k2 task_b Priority.NORMAL (e_arc e) in
  let! serial := hear serial k2 k3 in
  let! k := yield_now k3 in
  Ret (mk_booted serial hw irqs (with_memory (e_world e) (k_mem k)) (e_space e) (e_region e) k control).

(** With the feature kernel-tests the runner takes over before the scheduler
    starts. *)
Definition kmain_tests (tests : list (TestCase kernel_state)) (f : firmware) (st : statics)
  : outcome (Serial.t * kernel_state) :=
  let! '(serial, _, _) := devices_up st in
  let! e := memory_up f st in
  let! serial := deliver serial (e_out e) in
  run_all inp fuel tests serial (mk_ks (e_world e) (e_heap e)).

End kmain.

(** ** The kernel's address space over the bootloader's tables *)
Section space.
Context {A : Type} `{FrameAllocatorSpec A}.
Implicit Types (w : world A).

Definition heap_pool : list Region.t := [(HEAP_START, HEAP_END - HEAP_START)].

Lemma from_mapper_ok (mp : PageTableMapper.t) :
  exists s, AddressSpace.from_mapper mp = Ret s /\ AddressSpace.mapper s = mp /\ pool s KindHeap heap_pool.
Proof.
  eexists. split; [vm_compute; reflexivity|]. split; [done|]. split.
  - apply (RegionDemo.of_list_inv heap_pool); [unfold CAPACITY; cbn; lia|by vm_compute|]. repeat constructor.
  - intros x [Hx|[]]. unfold in_ival, iend in Hx. cbn [fst snd] in Hx. klia.
Qed.

(** Once the allocator runs, the tables found in memory carry the mapper's
    invariant. *)
Lemma active_state w (hhdm root : Z) (T : gmap (list Z) Z) free live :
  mm_state w free live -> hhdm_offset w = hhdm -> MapperInv.pt_wf hhdm (memory w) root T ->
  (forall p t, T !! p = Some t -> t ∉ free) ->
  let mp := PageTableMapper.new root hhdm in
  pt_state w mp (fun v => target v <$> MapperInv.lookup hhdm (memory w) T v)
    (list_to_set (map_to_list T).*2) free live.
Proof.
  intros Hm Hh Hw Hd mp. exists T. split_and!.
  - by split.
  - done.
  - intros f. rewrite elem_of_list_to_set, list_elem_of_fmap. split.
    + intros ([p g] & -> & Hp%elem_of_map_to_list). by exists p.
    + intros (p & Hp). exists (p, f). split; [done|]. by apply elem_of_map_to_list.
Qed.

(** Tables that no write has reached. *)
Lemma pt_wf_same (hhdm : Z) (m m' : mem) (root : Z) (T : gmap (list Z) Z) :
  MapperInv.pt_wf hhdm m root T ->
  (forall p t x, T !! p = Some t -> in_frame hhdm t x -> read64 m' x = read64 m x) ->
  MapperInv.pt_wf hhdm m' root T /\
  (forall v, MapperInv.lookup hhdm m' T v = MapperInv.lookup hhdm m T v) /\
  (forall v, MapperInv.huge_along hhdm m' root (MapperInv.path v) = MapperInv.huge_along hhdm m root (MapperInv.path v)).
Proof.
  intros Hw Hs.
  assert (Hsl : forall p t i, T !! p = Some t -> 0 <= i < 512 ->
    read64 m' (MapperInv.slot hhdm t i) = read64 m (MapperInv.slot hhdm t i)).
  { intros p t i Hp Hi. apply (Hs p t); [done|]. by apply slot_in_frame. }
  split_and!.
  - split; try apply Hw. intros p t i Hp Hl Hi. rewrite (Hsl p) by done. by apply (MapperInv.pt_entry Hw).
  - intros v. unfold MapperInv.lookup. destruct (T !! MapperInv.path v) as [t|] eqn:Ht; [|done].
    by rewrite (Hsl _ t _ Ht) by apply index_of_bound.
  - intros v. apply (huge_along_same hhdm m m' root T _ []); try done; [apply (MapperInv.pt_root Hw)|apply path_bounds|].
    intros p t i Hp _ Hi. by apply (Hsl p).
Qed.

End space.

(** ** The heap from its first region *)
Lemma first_heap m base n k :
  0 < base -> base mod 16 = 0 -> n mod 16 = 0 -> 16 <= n < W64 -> base + n + 16 <= W64 -> k < W64 ->
  exists m' h', HeapAllocator.add_memory m HeapAllocator.new base n = Ret (m', h') /\
    heap_ok m' (false, h') [(base, n)] k /\ same_outside (in_ival (base, n)) m m'.
Proof.
  intros Hb Hbm Hnm Hn Hend Hk.
  assert (E0 : n - n mod 16 = n) by lia.
  destruct (add_memory_ok m HeapAllocator.new [] base n) as (l1 & l2 & m' & h' & El & E & Hi & Hst & _ & _ & Hs).
  - apply (good_initial m).
  - rewrite E0. unfold block_ok, iend. cbn. lia.
  - done.
  - done.
  - by intros x _ [].
  - rewrite E0. cbn. lia.
  - rewrite E0. cbn. lia.
  - symmetry in El. apply app_nil in El as [-> ->]. rewrite E0 in *. exists m', h'. split; [exact E|]. split.
    + split; [done|exact Hi| |cbn [snd]; rewrite Hst; cbn; lia]. intros x [[Hx1 Hx2]|[]]. unfold iend in Hx2. cbn in *. lia.
    + eapply same_outside_weaken; [exact Hs|]. intros x [[]|Hx]; done.
Qed.

(** ** What the boot protocol and the linker provide *)
Section bootable.
Context `{TaskLayout} (MEMMAP_USABLE arc_size arc_align : Z).
Implicit Types (w : world BitmapAllocator.t) (m : mem) (c : Context.cpu) (T : gmap (list Z) Z) (e : Memmap.entry).

(** A frame that the memory manager may touch: one of the bootloader's tables
    or a whole frame of usable memory. *)
Definition managed_frame (memmap : list Memmap.entry) T (t : Z) : Prop :=
  (exists p, T !! p = Some t) \/ exists e, e ∈ memmap /\ usable MEMMAP_USABLE e = true /\ whole e t.

Record bootable m (f : firmware) c (memmap : list Memmap.entry) (hhdm M bp : Z) T : Prop := {
  bo_memmap : fw_memmap f = Some memmap;
  bo_hhdm : fw_hhdm f = Some hhdm;
  bo_supported : fw_supported f = true;
  (** the memory map, its highest usable address, and room for the bitmap *)
  bo_map_ok : memmap_ok MEMMAP_USABLE memmap hhdm;
  bo_max_pos : 0 < M;
  bo_max : exists e, e ∈ memmap /\ usable MEMMAP_USABLE e = true /\ e_end e = M;
  bo_max_le : forall e, e ∈ memmap -> usable MEMMAP_USABLE e = true -> e_end e <= M;
  bo_bitmap : find_base MEMMAP_USABLE memmap (bitmap_size_of M) = Some bp;
  (** the page tables CR3 points to, outside usable memory and with nothing in
      the heap's range *)
  bo_tables : MapperInv.pt_wf hhdm m (active_page_table (fw_cr3 f)) T;
  bo_tables_kept : forall p t e, T !! p = Some t -> e ∈ memmap -> usable MEMMAP_USABLE e = true -> ~ whole e t;
  bo_heap_area : forall v, HEAP_START <= v < HEAP_END ->
    MapperInv.lookup hhdm m T v = None /\
    MapperInv.huge_along hhdm m (active_page_table (fw_cr3 f)) (MapperInv.path v) = false;
  (** four frames for each of the heap's 256 pages, tables included *)
  bo_frames : exists fs : gset Z, (1024 <= size fs)%nat /\ forall t, t ∈ fs ->
    PhysFrame.wf PAGE_SIZE t /\ off_bitmap bp (bp + bitmap_size_of M) t /\
    exists e, e ∈ memmap /\ usable MEMMAP_USABLE e = true /\ whole e t;
  (** the direct map lies below the heap, and so does the boot stack, in memory
      of its own *)
  bo_below : forall t, managed_frame memmap T t -> hhdm + t + PAGE_SIZE <= HEAP_START;
  bo_stack : 56 <= rsp c <= HEAP_START;
  bo_stack_own : forall t x, managed_frame memmap T t -> in_frame hhdm t x -> ~ in_saved (rsp c - 56) x;
}.

(** The layouts: everything allocated during boot fits into the heap. *)
Definition layouts_fit : Prop :=
  0 < arc_size < 2 ^ 63 /\ is_power_of_two arc_align = true /\ arc_align <= 16 /\
  served_size arc_size + 3 * task_bytes < 1024 * 1024.

Context (m : mem) (f : firmware) (c : Context.cpu) (memmap : list Memmap.entry) (hhdm M bp : Z) (T : gmap (list Z) Z).
Context (Hb : bootable m f c memmap hhdm M bp T).

Abbreviation root := (active_page_table (fw_cr3 f)).
Abbreviation kept := (managed_frame memmap T).

(** The frame allocator runs and the address space is found. *)
Lemma boot_memory apic :
  exists w s tr tabs free, mm_init MEMMAP_USABLE (st_world (initial m apic)) memmap hhdm =
      Ret (w, Logged <$> memory_records M bp (Z.of_nat (size free))) /\
    AddressSpace.from_active w root = Ret s /\ pt_state w (AddressSpace.mapper s) tr tabs free ∅ /\
    pool s KindHeap heap_pool /\ (1024 <= size free)%nat /\ hhdm_offset w = hhdm /\
    (forall t, t ∈ tabs ∪ free -> kept t) /\
    (forall v, HEAP_START <= v < HEAP_END -> tr v = None /\ pt_open w (AddressSpace.mapper s) v).
Proof using Hb.
  destruct Hb. cbn [st_world initial]. set (w0 := mk_world m false None 0 []).
  destruct (mm_init_ok MEMMAP_USABLE w0 memmap hhdm M bp) as (w & free & E & Hm & _ & Hh & _ & Hfree & Hs); try done.
  cbn in Hs.
  assert (Hfw : forall t, t ∈ free -> PhysFrame.wf PAGE_SIZE t)
    by (intros t Ht; apply (mm_state_wf w free ∅ t Hm); set_solver).
  assert (Hdis : forall p t, T !! p = Some t -> t ∉ free).
  { intros p t Hp Ht. destruct (proj1 (Hfree t (Hfw t Ht)) Ht) as (_ & e & He & Hu & Hwh). by apply (bo_tables_kept0 p t e). }
  destruct (pt_wf_same hhdm m (memory w) root T bo_tables0) as (Hw & Hlk & Hhu).
  { intros p t x Hp Hx. apply Hs. intros (g & Hg & Hx').
    destruct (MapperInv.pt_frames bo_tables0 _ _ Hp) as [[_ Htm] _]. destruct (Hfw g Hg) as [_ Hgm].
    revert Hx'. apply (in_frame_disjoint _ t g); try done. intros ->. by apply (Hdis p g). }
  destruct (from_mapper_ok (PageTableMapper.new root hhdm)) as (s & Es & Hmp & Hpool).
  destruct (MapperInv.pt_frames bo_tables0 _ _ (MapperInv.pt_root bo_tables0)) as [Hrw _].
  assert (Hfrom : PhysFrame.from_base PAGE_SIZE root = Ret (Some root)).
  { rewrite from_base_eq by (reflexivity || klia). by rewrite (proj2 Hrw). }
  pose proof (active_state w hhdm root T free ∅ Hm Hh Hw Hdis) as Hst. rewrite <- Hmp in Hst.
  eexists w, s, _, _, free. split_and!; try done.
  - unfold AddressSpace.from_active, PageTableMapper.mapper_from_active. rewrite Hfrom. cbn [obind expect].
    by rewrite Hh.
  - destruct bo_frames0 as (fs & Hsz & Hfs). etrans; [exact Hsz|]. apply subseteq_size. intros t Ht.
    destruct (Hfs t Ht) as (Hwt & Ho & He). apply Hfree; auto.
  - intros t [Ht|Ht]%elem_of_union.
    + left. apply elem_of_list_to_set, list_elem_of_fmap in Ht as ([p g] & -> & Hp%elem_of_map_to_list). by exists p.
    + right. by apply Hfree; [apply Hfw|].
  - intros v Hv. destruct (bo_heap_area0 v Hv) as [Hn Hg]. cbn beta. rewrite Hlk, Hn. split; [done|].
    unfold pt_open, under_huge. rewrite Hmp. cbn [PageTableMapper.new PageTableMapper.hhdm PageTableMapper.pml4]. by rewrite Hhu.
Qed.

(** The heap's pages are mapped, each to a frame of its own. *)
Lemma boot_heap_region apic :
  exists nfree w s s1 w1 r fs tr tabs free live, mm_init MEMMAP_USABLE (st_world (initial m apic)) memmap hhdm =
      Ret (w, Logged <$> memory_records M bp nfree) /\
    AddressSpace.from_active w root = Ret s /\
    AddressSpace.alloc_and_map w s (1024 * 1024) PAGE_SIZE PageFlags.kernel_data KindHeap = Ret (Ok r, s1, w1) /\
    pt_state w1 (AddressSpace.mapper s1) tr tabs free live /\ hhdm_offset w1 = hhdm /\
    r.2 = 1024 * 1024 /\ HEAP_START <= r.1 /\ r.1 + 1024 * 1024 <= HEAP_END /\ r.1 mod PAGE_SIZE = 0 /\
    length fs = 256%nat /\ NoDup fs /\ (forall t, t ∈ fs -> t ∉ tabs ∪ free) /\
    (forall t, t ∈ tabs ∪ free -> kept t) /\
    (forall k t off, fs !! k = Some t -> 0 <= off < PAGE_SIZE ->
       tr (page r.1 (Z.of_nat k) + off) = Some (t + off, PageFlags.or PageFlags.kernel_data PageFlags.READ)).
Proof using Hb.
  destruct (boot_memory apic) as (w & s & tr & tabs & free & E & Es & Hst & Hpool & Hsz & Hh & Hk & Harea).
  assert (Hst' : ms_state w (AddressSpace.mapper s) tr tabs free ∅) by exact Hst.
  destruct (alloc_and_map_ok w s KindHeap heap_pool tr tabs free ∅ (1024 * 1024) PAGE_SIZE PageFlags.kernel_data Hst' Hpool)
    as (res & s1 & w1 & fs & tabs' & free' & live' & Ea & Hmp & Hr).
  { split; [|split; [|split]].
    - split_and!; by vm_compute.
    - unfold CAPACITY. cbn. lia.
    - by vm_compute.
    - change (Z.to_nat (1024 * 1024 / PAGE_SIZE)) with 256%nat. lia. }
  assert (Hin : forall a, free_range heap_pool (1024 * 1024) PAGE_SIZE a -> HEAP_START <= a /\ a + 1024 * 1024 <= HEAP_END).
  { intros a [_ Hc]. destruct (Hc a) as [Hx|[]]; [lia|]. destruct (Hc (a + 1024 * 1024 - 1)) as [Hy|[]]; [lia|].
    unfold in_ival, iend in Hx, Hy. cbn [fst snd] in Hx, Hy. lia. }
  destruct res as [r|e]; cycle 1.
  { exfalso. destruct Hr as (_ & _ & _ & [(_ & _ & Hno)|(_ & a & Hfr & Hmod & j & Hj & Ht)]).
    - apply (Hno HEAP_START). split; [done|]. intros x Hx. left. unfold in_ival, iend. cbn [fst snd]. klia.
    - apply Hin in Hfr. change (1024 * 1024 / PAGE_SIZE) with 256 in Hj.
      destruct (Harea (page a j)) as [Hn Ho]; [unfold page; klia|]. by destruct Ht. }
  destruct Hr as (Hr2 & Hfr & _ & _ & Hmod & Hlen & (w2 & Hrun & Hmem & Hmm & Hh2 & _) & _ & _).
  change (Z.to_nat (1024 * 1024 / PAGE_SIZE)) with 256%nat in Hlen. apply Hin in Hfr as [Hlo Hhi].
  pose proof (run_flushed _ _ _ _ _ _ _ _ _ _ _ _ _ _ Hrun Hmem Hmm Hh2) as Hst1. cbn [ms_state page_table_mapper_spec] in Hst1.
  destruct Hrun as [_ Hfs Hnd [_ Htabs] Hfree _ _ _ [[Hh1 _] _]].
  exists (Z.of_nat (size free)), w, s, s1, w1, r, fs, (tr_map tr r.1 0 fs (PageFlags.or PageFlags.kernel_data PageFlags.READ)), tabs', free', live'.
  rewrite Hmp. split_and!; try done; [congruence| | |].
  - intros t Ht. destruct (Hfs t Ht) as (_ & ? & ?). rewrite elem_of_union. tauto.
  - intros t Ht. apply Hk. rewrite elem_of_union in Ht |- *. destruct Ht as [Ht%Htabs|Ht%Hfree]; [|by right].
    rewrite elem_of_union, elem_of_difference in Ht. tauto.
  - intros k t off Hkt Hoff. destruct (page_of_off r.1 (Z.of_nat k) off Hmod Hoff) as [Hpg Hofm].
    pose proof (lookup_lt_Some _ _ _ Hkt). rewrite (tr_map_at _ _ _ _ _ k t) by (done || klia). by rewrite Hofm.
Qed.

(** What happens in the heap's range and on the boot stack leaves allocator and
    tables alone. *)
Lemma boot_frames_kept w s tr tabs free live (region : Region.t) m' :
  pt_state w (AddressSpace.mapper s) tr tabs free live -> hhdm_offset w = hhdm ->
  (forall t, t ∈ tabs ∪ free -> kept t) -> HEAP_START <= region.1 ->
  (forall x, ~ in_ival region x -> ~ in_saved (rsp c - 56) x -> read64 m' x = read64 (memory w) x) ->
  pt_state (with_memory w m') (AddressSpace.mapper s) tr tabs free live.
Proof using Hb.
  intros Hst Hh Hk Hlo Hs.
  assert (Hsame : forall t x, t ∈ tabs ∪ free -> in_frame hhdm t x -> read64 m' x = read64 (memory w) x).
  { intros t x Ht Hx. apply Hk in Ht. pose proof (bo_below _ _ _ _ _ _ _ _ Hb t Ht). apply Hs.
    - intros Hin. unfold in_ival in Hin. unfold in_frame in Hx. lia.
    - by apply (bo_stack_own _ _ _ _ _ _ _ _ Hb t). }
  eapply pt_state_frame; [exact Hst| |done|by eapply pt_state_tabs|].
  - apply mm_state_write; [by eapply pt_state_mm|]. intros t x Ht Hx. rewrite Hh in Hx. apply (Hsame t); set_solver.
  - intros t x Ht Hx. rewrite Hh in Hx. apply (Hsame t); set_solver.
Qed.

End bootable.

(** ** The scheduler's first tasks *)
Section tasks.
Context `{TaskLayout} (idle_task task_a task_b : Z).
Implicit Types (k : kernel) (l : list ival) (V : Z -> Context.cpu).

(** Two fresh tasks of the same priority: the older one is selected. *)
Lemma select_first ta tb idle :
  state ta = Ready -> state tb = Ready -> priority ta = Priority.NORMAL -> priority tb = Priority.NORMAL ->
  select_next (mk [ta; tb] None idle []) = (mk [tb] (Some (set_state ta Running)) idle [], context ta).
Proof.
  intros Ha Hb Pa Pb. unfold select_next, pick_next. cbn [run_queue best]. unfold is_runnable. rewrite Ha, Hb, Pa, Pb.
  reflexivity.
Qed.

Lemma task_bytes_nonneg : 0 <= task_bytes.
Proof.
  pose proof task_size_ok. pose proof context_in_task. unfold task_bytes.
  destruct (served_size_spec DEFAULT_STACK_SIZE) as (? & _); [by vm_compute|].
  destruct (served_size_spec task_size) as (? & _); [lia|]. lia.
Qed.

(** Two ready tasks of normal priority, one of them running, each on a stack of
    its own. *)
Record duo k t u (idle : Task Z) l (n : Z) V : Prop := {
  duo_vcpus : vcpus k (mk [u] (Some t) idle []) l n V;
  duo_homes : forall v, v = t \/ v = u -> home (mk [u] (Some t) idle []) l V v;
  duo_apart : forall w, in_stack t w -> ~ in_stack u w;
  duo_states : state t = Running /\ state u = Ready;
  duo_priorities : priority t = Priority.NORMAL /\ priority u = Priority.NORMAL;
}.

(** What the creation of a task says: the diagnostics of its context, then [rs]. *)
Definition creation (entry : Z) t (rs : list log_record) : list output :=
  (Printed <$> fresh_lines entry (rsp (fresh_cpu entry t) - 56)) ++ (Logged <$> rs).

Definition told k k' (entry : Z) t (rs : list log_record) : Prop := k_out k' = k_out k ++ creation entry t rs.

(** [init] and two spawns. *)
Lemma spawn_two k l n asp r (c := k_cpu k) :
  k_sched k = None -> k_locked k = false -> k_counter k = 1 -> heap_ok (k_mem k) (k_heap k) l (n + 6) -> 0 <= n ->
  56 <= rsp c < W64 -> (forall w, in_saved (rsp c - 56) w -> ~ covers l w) -> room l r -> 3 * task_bytes < r ->
  exists k1 k2 k3 idle ta tb l' V (s := mk [ta; tb] None idle []),
    Scheduler.init idle_task k asp = Ret k1 /\ spawn k1 task_a Priority.NORMAL asp = Ret (2, k2) /\
    spawn k2 task_b Priority.NORMAL asp = Ret (3, k3) /\ vcpus k3 s l' n V /\
    (forall v, v = ta \/ v = tb -> home s l' V v) /\ (forall w, in_stack ta w -> ~ in_stack tb w) /\
    (id idle = 1 /\ id ta = 2 /\ id tb = 3) /\ (state idle = Created /\ state ta = Ready /\ state tb = Ready) /\
    (priority idle = Priority.IDLE /\ priority ta = Priority.NORMAL /\ priority tb = Priority.NORMAL) /\
    V (context ta) = fresh_cpu task_a ta /\ V (context tb) = fresh_cpu task_b tb /\ V (context idle) = c /\
    (forall t entry, t = ta \/ t = tb ->
       rsp (fresh_cpu entry t) = KernelStack.buf (stack t) + DEFAULT_STACK_SIZE - 8) /\
    covers l (context idle) /\ (forall x, covers l' x -> covers l x) /\ same_outside (covers l) (k_mem k) (k_mem k3) /\
    told k k1 idle_task idle [started] /\ told k1 k2 task_a ta [spawned 2 Priority.NORMAL] /\
    told k2 k3 task_b tb [spawned 3 Priority.NORMAL].
Proof.
  intros Hs Hl Hn1 Hh Hn Hsp Hst Hr Hbig.
  pose proof task_bytes_nonneg as Htb.
  replace (n + 6) with ((n + 2 + 2) + 2) in Hh by lia.
  destruct (vcpus_init idle_task k l (n + 2 + 2) asp Hs Hl Hh ltac:(lia) Hsp Hst)
    as [[_ Hno]|(idle & k1 & l1 & E1 & Hid1 & Hst1 & Hp1 & Hc1 & Hcpu1 & Hr1 & Hm1 & Hsh1 & Hcv1 & Ho1 & Hv1)].
  { exfalso. apply Hno. destruct Hr as (i & Hi & Hri). exists i. split; [done|lia]. }
  specialize (Hr1 r Hr ltac:(lia)). rewrite Hn1 in *.
  destruct (vcpus_spawn k1 (new idle) l1 (n + 2) _ task_a Priority.NORMAL asp Hv1)
    as [[_ Hno]|(ta & k2 & l2 & E2 & Hid2 & Hst2 & Hp2 & Hc2 & Hr2 & Hm2 & Hsh2 & Hcv2 & Hv2 & Hsp2 & Ho2 & Hps2)]; [lia| |].
  { exfalso. apply Hno. destruct Hr1 as (i & Hi & Hri). exists i. split; [done|lia]. }
  specialize (Hr2 _ Hr1 ltac:(lia)). cbn [run_queue new app current Scheduler.idle] in Hv2.
  destruct (vcpus_spawn k2 _ l2 n _ task_b Priority.NORMAL asp Hv2)
    as [[_ Hno]|(tb & k3 & l3 & E3 & Hid3 & Hst3 & Hp3 & Hc3 & _ & Hm3 & Hsh3 & Hcv3 & Hv3 & Hsp3 & Ho3 & Hps3)]; [lia| |].
  { exfalso. apply Hno. destruct Hr2 as (i & Hi & Hri). exists i. split; [done|lia]. }
  pose proof (fun u => spawn_homes _ _ _ _ _ _ ta _ u Hv1 Hps2 Hsh2) as Hm_a.
  pose proof (fun u => spawn_homes _ _ _ _ _ _ tb _ u Hv2 Hps3 Hsh3) as Hm_b.
  cbn [run_queue new app current Scheduler.idle] in Hv3, Hm_a, Hm_b. set (V := add_vcpu _ (context tb) _) in *.
  assert (Hc1' : k_counter k1 = 2) by (rewrite Hc1; reflexivity). rewrite Hc1' in *.
  assert (Hc2' : k_counter k2 = 3) by (rewrite Hc2; reflexivity). rewrite Hc2' in *.
  pose proof (vc_nodup _ _ _ _ _ Hv3) as Hnd. unfold ctxs in Hnd. cbn in Hnd.
  apply NoDup_cons in Hnd as [Hna Hnd]. apply NoDup_cons in Hnd as [Hnb _].
  assert (Hab : context ta <> context tb) by (intros E; apply Hna; rewrite E; left).
  assert (Hai : context ta <> context idle) by (intros E; apply Hna; rewrite E; right; left).
  assert (Hbi : context tb <> context idle) by (intros E; apply Hnb; rewrite E; left).
  exists k1, k2, k3, idle, ta, tb, l3, V. cbn zeta. split_and!; try done.
  - intros v [->| ->]; apply Hm_b; [right|by left]. apply Hm_a. by left.
  - intros w Hwa Hwb. destruct (ps_stack _ _ _ _ Hps2 w Hwa) as (_ & Hno & _).
    by destruct (ps_stack _ _ _ _ Hps3 w Hwb) as (? & _).
  - subst V. rewrite add_vcpu_ne by done. by rewrite add_vcpu_eq.
  - subst V. by rewrite add_vcpu_eq.
  - subst V. by rewrite !add_vcpu_ne by congruence.
  - by intros t entry [->| ->].
  - auto.
  - intros x Hx. rewrite Hm3, Hm2, Hm1; auto.
Qed.

(** Then the yield of the boot thread. *)
Lemma first_tasks k l n asp r (c := k_cpu k) :
  k_sched k = None -> k_locked k = false -> k_counter k = 1 -> heap_ok (k_mem k) (k_heap k) l (n + 6) -> 0 <= n ->
  56 <= rsp c < W64 -> (forall w, in_saved (rsp c - 56) w -> ~ covers l w) -> room l r -> 3 * task_bytes < r ->
  exists k1 k2 k3 k4 idle ta tb l' V,
    Scheduler.init idle_task k asp = Ret k1 /\ spawn k1 task_a Priority.NORMAL asp = Ret (2, k2) /\
    spawn k2 task_b Priority.NORMAL asp = Ret (3, k3) /\ yield_now k3 = Ret k4 /\
    duo k4 ta tb idle l' n V /\
    (id idle = 1 /\ id ta = 2 /\ id tb = 3) /\ (state idle = Created /\ priority idle = Priority.IDLE) /\
    V (context ta) = fresh_cpu task_a ta /\ V (context tb) = fresh_cpu task_b tb /\ V (context idle) = c /\
    (forall t entry, t = ta \/ t = tb ->
       rsp (fresh_cpu entry t) = KernelStack.buf (stack t) + DEFAULT_STACK_SIZE - 8) /\
    (forall x, covers l' x -> covers l x) /\
    same_outside (fun x => covers l x \/ in_saved (rsp c - 56) x) (k_mem k) (k_mem k4) /\
    told k k1 idle_task idle [started] /\ told k1 k2 task_a ta [spawned 2 Priority.NORMAL] /\
    told k2 k3 task_b tb [spawned 3 Priority.NORMAL].
Proof.
  intros Hs Hl Hn1 Hh Hn Hsp Hst Hr Hbig.
  destruct (spawn_two k l n asp r Hs Hl Hn1 Hh Hn Hsp Hst Hr Hbig) as (k1 & k2 & k3 & idle & ta & tb & l3 & V & E1 & E2 & E3 &
    Hv3 & Hhomes & Hapart & (Hi1 & Hi2 & Hi3) & (Hsi & Hsa & Hsb) & (Hpi & Hpa & Hpb) & Hva & Hvb & Hvi & Hsps & Hci & Hsh & Hm3 & Ho1 & Ho2 & Ho3).
  set (s3 := mk [ta; tb] None idle []) in *.
  destruct (vcpus_schedule k3 s3 l3 n V None Hv3 eq_refl) as (k4 & s4 & E4 & Hv4 & Hperm & Hsel & _ & Hm4).
  unfold parked in Hsel. cbn [run_queue current Scheduler.idle app s3] in Hsel. rewrite select_first in Hsel by done.
  injection Hsel as Es4 _. subst s4.
  exists k1, k2, k3, k4, idle, (set_state ta Running), tb, l3, V. split_and!; try done.
  - split; try done. intros v [->| ->]; [apply (home_same s3); [done|apply Hhomes; by left]|].
    replace tb with (set_state tb Ready) at 2 by (rewrite <- Hsb; by destruct tb).
    apply (home_same s3); [done|apply Hhomes; by right].
  - intros t entry [->| ->]; [|apply Hsps; by right]. apply (Hsps ta entry). by left.
  - unfold running_ctx, s3 in Hm4. cbn [current Scheduler.idle] in Hm4. intros x Hx.
    rewrite Hm4, Hm3; [done| |]; intros Hx'; apply Hx; [by left|].
    destruct Hx' as [->|Hx']; [|right; by rewrite Hvi in Hx'].
    by left.
Qed.

(** When both tasks block, the idle context is loaded. *)
Lemma both_block k l n V ta tb idle r1 r2 :
  vcpus k (mk [tb] (Some ta) idle []) l n V -> state ta = Running -> state tb = Ready -> priority tb = Priority.NORMAL ->
  exists k1 k2, block k r1 = Ret k1 /\ block k1 r2 = Ret k2 /\ k_cpu k2 = V (context idle).
Proof.
  intros Hv Ha Hb Hp.
  destruct (vcpus_schedule k _ l n V (Some r1) Hv) as (k1 & s1 & E1 & Hv1 & _ & Hsel1 & _).
  { cbn. by rewrite Ha. }
  unfold select_next, pick_next, parked in Hsel1. cbn [run_queue current app best] in Hsel1.
  unfold is_runnable in Hsel1. rewrite Hb, Hp in Hsel1. cbn in Hsel1. injection Hsel1 as Es _. subst s1.
  destruct (vcpus_schedule k1 _ l n V (Some r2) Hv1) as (k2 & s2 & E2 & Hv2 & _ & Hsel2 & _); [done|].
  cbn in Hsel2. injection Hsel2 as Es _. subst s2.
  exists k1, k2. split_and!; [done|done|]. by rewrite <- (vc_running _ _ _ _ _ Hv2).
Qed.

End tasks.

(** ** [kmain] *)
Section boot.
Context `{TaskLayout}.
Context (inp : list io -> Z -> Z) (isr_stub : Z -> Z) (gdt_addr tss_addr stacks idt_addr : Z).
Context (MEMMAP_USABLE arc_size arc_align : Z) (timer_tick idle_task task_a task_b : Z) (c : Context.cpu).
Context (level_le : Level -> Level -> bool) (level_name : Level -> list Z).

Abbreviation text_of out := (concat (output_text level_le level_name <$> out)).

(** What the console shows of the devices, of memory and of the scheduler. *)
Definition device_output : list output := (Logged <$> device_records gdt_addr tss_addr idt_addr) ++ said [Irq.registered 0].
Definition memory_output (M bp nfree : Z) : list output :=
  Logged limine_record :: (Logged <$> memory_records M bp nfree) ++ [Logged (heap_record (1024 * 1024))].
Definition task_output (idle ta tb : Task Z) : list output :=
  creation idle_task idle [started] ++ creation task_a ta [spawned 2 Priority.NORMAL] ++ creation task_b tb [spawned 3 Priority.NORMAL].

(** The controllers are not on the line. *)
Lemma init_silent h : sent 0x2F8 (Pic.init_pit (Pic.init inp h).1) = sent 0x2F8 h.
Proof.
  unfold Pic.init_pit, Pic.init, inb, outb. cbn [fst snd]. rewrite <- !app_assoc, sent_app. apply app_nil_r.
Qed.

Lemma devices_up_ok (m : mem) (apic : Z) (n : nat) :
  0 <= stacks -> stacks + 8 * IST_STACK_SIZE < W64 -> responsive inp n 0x2F8 ->
  exists h hw, devices_up inp (S n) level_le level_name isr_stub gdt_addr tss_addr stacks idt_addr timer_tick (initial m apic) =
      Ret (up h, hw, Irq.mk (timer_tick :: replicate 223 0) [Irq.registered 0]) /\
    idtr hw = Some (Idt.size_of - 1, idt_addr) /\
    sent 0x2F8 h = sent 0x2F8 line_setup ++ crlf (CLEAR_SCREEN ++ text_of device_output).
Proof.
  intros Hs0 Hs1 Hresp. unfold devices_up. cbn [initial st_serial st_cpu st_irqs].
  rewrite init_eq. cbn [obind]. destruct (print_ok inp n line_setup [CLEAR_SCREEN] Hresp) as (h1 & Ep & Sp).
  cbn [app]. rewrite Ep. cbn [obind Serial.history].
  destruct (init_cpu_ok inp isr_stub gdt_addr tss_addr stacks idt_addr
              (mk_cpu CpuTables.new None Idt.new None apic h1) eq_refl eq_refl Hs0 Hs1) as (tb0 & sg & idt' & Ec & _).
  cbn [tables segs idt idtr apic_base logger_init assert_ negb]. rewrite Ec.
  cbn [initial st_logger logger_init negb assert_ obind ports Serial.locked Serial.uart up].
  change (Serial.mk false (Some 0x2F8) ?g) with (up g).
  destruct (deliver_ok inp n level_le level_name (Pic.init_pit (Pic.init inp h1).1) (Logged <$> device_records gdt_addr tss_addr idt_addr) Hresp)
    as (h2 & E2 & S2). rewrite E2. cbn [obind].
  destruct (deliver_ok inp n level_le level_name h2 (said [Irq.registered 0]) Hresp) as (h3 & E3 & S3).
  exists h3. eexists. split; [|split].
  - change (X86_64.register_irq Irq.EMPTY 0 timer_tick) with (Ret (Irq.mk (timer_tick :: replicate 223 0) [Irq.registered 0])).
    cbn [obind Irq.log Irq.EMPTY length drop]. rewrite E3. reflexivity.
  - reflexivity.
  - unfold device_output. rewrite S3, S2, init_silent, Sp, fmap_app, concat_app, !crlf_app, <- !app_assoc. cbn [concat]. by rewrite app_nil_r.
Qed.

Lemma hear_ok n h k k' entry t rs : responsive inp n 0x2F8 -> told k k' entry t rs ->
  exists h', hear inp (S n) level_le level_name (up h) k k' = Ret (up h') /\
    sent 0x2F8 h' = sent 0x2F8 h ++ crlf (text_of (creation entry t rs)).
Proof. intros Hr Ht. unfold hear. rewrite Ht, drop_app_length. by apply deliver_ok. Qed.

(** What [kmain] leaves behind at its yield. *)
Lemma kmain_ok (m : mem) (apic : Z) (f : firmware) (memmap : list Memmap.entry) (hhdm M bp : Z) (T : gmap (list Z) Z) (n : nat) :
  bootable MEMMAP_USABLE m f c memmap hhdm M bp T -> layouts_fit arc_size arc_align ->
  0 <= stacks -> stacks + 8 * IST_STACK_SIZE < W64 -> responsive inp n 0x2F8 ->
  exists b idle ta tb l V fs h nfree,
    kmain inp (S n) level_le level_name isr_stub gdt_addr tss_addr stacks idt_addr MEMMAP_USABLE arc_size arc_align
      timer_tick idle_task task_a task_b c f (initial m apic) = Ret b /\
    b_serial b = up h /\ duo (b_kernel b) ta tb idle l 0 V /\
    (id idle = 1 /\ id ta = 2 /\ id tb = 3) /\ (state idle = Created /\ priority idle = Priority.IDLE) /\
    V (context ta) = fresh_cpu task_a ta /\ V (context tb) = fresh_cpu task_b tb /\ V (context idle) = c /\
    (forall t entry, t = ta \/ t = tb ->
       rsp (fresh_cpu entry t) = KernelStack.buf (stack t) + DEFAULT_STACK_SIZE - 8) /\
    (length fs = 256%nat /\ NoDup fs /\ forall k t off, fs !! k = Some t -> 0 <= off < PAGE_SIZE ->
       AddressSpace.translate (b_world b) (b_space b) (page (Region.base (b_heap_region b)) (Z.of_nat k) + off) =
         Ret (Some (t + off, PageFlags.or PageFlags.kernel_data PageFlags.READ))) /\
    (forall x, covers l x -> in_ival (b_heap_region b) x) /\
    Irq.handlers (b_irqs b) !! 0%nat = Some timer_tick /\ idtr (b_cpu b) = Some (Idt.size_of - 1, idt_addr) /\
    sent 0x2F8 h = sent 0x2F8 line_setup ++
      crlf (CLEAR_SCREEN ++ text_of (device_output ++ memory_output M bp nfree ++ task_output idle ta tb)).
Proof.
  intros Hb (Has & Hap & Haa & Hfit) Hs0 Hs1 Hresp. unfold kmain.
  destruct (devices_up_ok m apic n Hs0 Hs1 Hresp) as (h & hw & -> & Hidtr & S0). cbn [obind]. unfold memory_up.
  change (st_allocator (initial m apic)) with LockedHeap.new.
  change (st_counter (initial m apic)) with 1. change (st_scheduler (initial m apic)) with (None : option Scheduler.t).
  rewrite (bo_memmap _ _ _ _ _ _ _ _ _ Hb), (bo_hhdm _ _ _ _ _ _ _ _ _ Hb), (bo_supported _ _ _ _ _ _ _ _ _ Hb).
  cbn [expect assert_ obind].
  destruct (boot_heap_region MEMMAP_USABLE m f c memmap hhdm M bp T Hb apic)
    as (nfree & w & s & s1 & w1 & r & fs & tr & tabs & free & live & Ei & Ef & Ea & Hst & Hh & Hr2 & Hlo & Hhi & Hmod & Hlen & Hnd & Hfs & Hk & Htr).
  rewrite Ei. cbn [obind]. rewrite Ef. cbn [obind]. rewrite Ea. cbn [obind expect_ok].
  cbn [LockedHeap.lock LockedHeap.new fst snd obind]. unfold Region.base, Region.size. rewrite Hr2.
  destruct (first_heap (memory w1) r.1 (1024 * 1024) 7) as (m2 & h2 & -> & Hh2 & Hs2); [klia|klia|done|lia|klia|lia|].
  cbn [obind].
  destruct (global_alloc_ok m2 (false, h2) [(r.1, 1024 * 1024)] 6 arc_size arc_align Hh2 ltac:(lia) Has Hap Haa)
    as [[_ Hno]|(arc & m3 & h3 & l3 & -> & Hal)].
  { exfalso. apply Hno. exists (r.1, 1024 * 1024). split; [left|]. cbn. pose proof task_bytes_nonneg. lia. }
  cbn [obind]. destruct Hal as [Hh3 _ _ _ _ _ Hsh3 Hs3 Hrm3].
  set (k := mk_kernel m3 h3 1 false None c []).
  assert (Hheap : forall x, covers l3 x -> in_ival r x).
  { intros x [Hx|[]]%Hsh3. destruct r as [rb rs]. cbn in Hr2. by subst rs. }
  destruct (bo_stack _ _ _ _ _ _ _ _ _ Hb) as [Hsp1 Hsp2].
  destruct (first_tasks idle_task task_a task_b k l3 0 arc (1024 * 1024 - served_size arc_size))
    as (k1 & k2 & k3 & k4 & idle & ta & tb & l4 & V & E1 & E2 & E3 & E4 & Hduo & Hids & Hsi & Hva & Hvb & Hvi & Hsps & Hsh & Hm4 & Ho1 & Ho2 & Ho3);
    try done; [cbn [k_cpu k]; klia| | |lia|].
  { intros x Hx Hc%Hheap. unfold in_saved in Hx. unfold in_ival in Hc. cbn [k_cpu k] in Hx. lia. }
  { apply Hrm3; [exists (r.1, 1024 * 1024); split; [left|cbn; lia]|]. pose proof task_bytes_nonneg. lia. }
  assert (Hst4 : pt_state (with_memory w1 (k_mem k4)) (AddressSpace.mapper s1) tr tabs free live).
  { apply (boot_frames_kept MEMMAP_USABLE m f c memmap hhdm M bp T Hb w1 s1 tr tabs free live r); try done.
    intros x Hx1 Hx2. rewrite Hm4, Hs3, Hs2; try done.
    - unfold in_ival, iend. cbn. unfold in_ival, iend in Hx1. rewrite Hr2 in Hx1. done.
    - intros [Hx|[]]. unfold in_ival, iend in Hx, Hx1. cbn in Hx. rewrite Hr2 in Hx1. done.
    - intros [Hx|Hx]; [by apply Hx1, Hheap|by apply Hx2]. }
  cbn [e_world e_space e_region e_heap e_arc e_out]. change (memory (with_memory w1 m3)) with m3. fold k.
  fold (memory_output M bp nfree).
  destruct (deliver_ok inp n level_le level_name h (memory_output M bp nfree) Hresp) as (g0 & -> & S1). cbn [obind].
  rewrite E1. cbn [obind]. destruct (hear_ok n g0 _ _ _ _ _ Hresp Ho1) as (g1 & -> & S2). cbn [obind].
  rewrite E2. cbn [obind]. destruct (hear_ok n g1 _ _ _ _ _ Hresp Ho2) as (g2 & -> & S3). cbn [obind].
  rewrite E3. cbn [obind]. destruct (hear_ok n g2 _ _ _ _ _ Hresp Ho3) as (g3 & -> & S4). cbn [obind].
  rewrite E4. cbn [obind].
  exists (mk_booted (up g3) hw (Irq.mk (timer_tick :: replicate 223 0) [Irq.registered 0]) (with_memory w1 (k_mem k4)) s1 r k4 (enable_sse (fw_cr0 f) (fw_cr4 f))), idle, ta, tb, l4, V, fs, g3, nfree.
  split; [reflexivity|].
  cbn [b_serial b_kernel b_world b_space b_heap_region b_irqs b_cpu Irq.handlers idtr].
  destruct Hids as (? & ? & ?), Hsi as [? ?]. split_and!; try done.
  - intros k0 t off Hkt Hoff. unfold AddressSpace.translate.
    etrans; [exact (pt_state_translate _ _ _ _ _ _ _ Hst4)|]. by rewrite (Htr k0 t off).
  - intros x Hx. by apply Hheap, Hsh.
  - rewrite S4, S3, S2, S1, S0. unfold task_output. rewrite !fmap_app, !concat_app, !crlf_app, <- !app_assoc. done.
Qed.

(** C6: booting works.  On a machine as the boot protocol and the linker
    provide it (memory map, page tables, boot stack, four free frames for every
    page of the heap), with a console that becomes ready and layouts that fit,
    [kmain] runs without a panic up to its yield.  Then the first task stands at
    its entry with ids 1, 2 and 3 given to idle, first and second task; the
    machine implements a virtual CPU for each; the heap's 256 pages translate to
    256 frames of their own and everything still free on the heap lies in them;
    the timer's handler is registered and the IDT is loaded.  And the idle task's
    virtual CPU is the boot thread inside [yield_now]: when both tasks block, the
    processor is back in [kmain], which goes on to its [unreachable!]. *)
Theorem boot_runs_first_task (m : mem) (apic : Z) (f : firmware) (memmap : list Memmap.entry) (hhdm M bp : Z) (T : gmap (list Z) Z) (n : nat) :
  bootable MEMMAP_USABLE m f c memmap hhdm M bp T -> layouts_fit arc_size arc_align ->
  0 <= stacks -> stacks + 8 * IST_STACK_SIZE < W64 -> responsive inp n 0x2F8 ->
  exists b idle ta tb l V fs,
    kmain inp (S n) level_le level_name isr_stub gdt_addr tss_addr stacks idt_addr MEMMAP_USABLE arc_size arc_align
      timer_tick idle_task task_a task_b c f (initial m apic) = Ret b /\
    vcpus (b_kernel b) (mk [tb] (Some ta) idle []) l 0 V /\
    (id idle = 1 /\ id ta = 2 /\ id tb = 3) /\ (state idle = Created /\ state ta = Running /\ state tb = Ready) /\
    (priority idle = Priority.IDLE /\ priority ta = Priority.NORMAL /\ priority tb = Priority.NORMAL) /\
    rip (k_cpu (b_kernel b)) = task_a /\ rip (V (context tb)) = task_b /\
    (length fs = 256%nat /\ NoDup fs /\ forall k t off, fs !! k = Some t -> 0 <= off < PAGE_SIZE ->
       AddressSpace.translate (b_world b) (b_space b) (page (Region.base (b_heap_region b)) (Z.of_nat k) + off) =
         Ret (Some (t + off, PageFlags.or PageFlags.kernel_data PageFlags.READ))) /\
    (forall x, covers l x -> in_ival (b_heap_region b) x) /\
    Irq.handlers (b_irqs b) !! 0%nat = Some timer_tick /\ idtr (b_cpu b) = Some (Idt.size_of - 1, idt_addr) /\
    forall r1 r2, exists k1 k2, block (b_kernel b) r1 = Ret k1 /\ block k1 r2 = Ret k2 /\ k_cpu k2 = c.
Proof.
  intros Hb Hlf Hs0 Hs1 Hresp.
  destruct (kmain_ok m apic f memmap hhdm M bp T n Hb Hlf Hs0 Hs1 Hresp)
    as (b & idle & ta & tb & l & V & fs & h & nfree & E & _ & [Hv _ _ [Hsa Hsb] [Hpa Hpb]] & Hids & [Hsi Hpi] & Hva & Hvb & Hvi & _ &
        Hfs & Hl & Hirq & Hidt & _).
  exists b, idle, ta, tb, l, V, fs. split_and!; try done; try apply Hids.
  - pose proof (vc_running _ _ _ _ _ Hv) as Hr. cbn in Hr. by rewrite <- Hr, Hva.
  - by rewrite Hvb.
  - apply Hfs.
  - apply Hfs.
  - apply Hfs.
  - intros r1 r2. destruct (both_block _ _ _ _ _ _ _ r1 r2 Hv) as (j1 & j2 & Ej1 & Ej2 & Ecpu); try done.
    exists j1, j2. split_and!; [done|done|]. by rewrite Ecpu.
Qed.

End boot.

(** ** Witness: nine megabytes of memory *)
Module BootDemo.

Definition USABLE : Z := 0.
Definition direct_map : Z := 0xffff800000000000.
Definition usable_memory : Memmap.entry := Memmap.mk_entry 0x100000 0x800000 0.
Definition memmap0 : list Memmap.entry := [Memmap.mk_entry 0 0x100000 1; usable_memory].
Definition top : Z := 0x900000.
Definition firmware0 : firmware := mk_firmware (Some memmap0) (Some direct_map) true 0x1018 0x80010011 0x20.
Definition root0 : Z := 0x1000.
Definition tables0 : gmap (list Z) Z := {[ [] := root0 ]}.
Definition boot_cpu : Context.cpu := Context.mk_cpu 0x1234 (direct_map + 0x8000) 1 2 3 4 5 6.
Definition frames0 : gset Z := list_to_set ((fun i => 0x200000 + Z.of_nat i * 0x1000) <$> seq 0 1024).

Lemma memmap0_cases e : e ∈ memmap0 -> usable USABLE e = true -> e = usable_memory.
Proof. unfold memmap0. rewrite !elem_of_cons, elem_of_nil. intros [->|[->|[]]]; done. Qed.

Lemma tables0_lookup p t : tables0 !! p = Some t -> p = [] /\ t = root0.
Proof. unfold tables0. by intros [<- <-]%lookup_singleton_Some. Qed.

Lemma tables0_wf : MapperInv.pt_wf direct_map ∅ root0 tables0.
Proof.
  split.
  - apply lookup_singleton_eq.
  - by intros p q t [-> _]%tables0_lookup [-> _]%tables0_lookup.
  - intros p t [_ ->]%tables0_lookup. split; [|unfold root0, direct_map, PAGE_SIZE; lia].
    split; [unfold PhysAddr.valid; rewrite PhysAddr_MAX_val; unfold root0; lia|done].
  - intros p i [t [Hp _]%tables0_lookup]. by destruct p.
  - intros p t i _ _ _. destruct (tables0 !! (p ++ [i])) as [g|] eqn:E; [|by left].
    apply tables0_lookup in E as [Hp _]. by destruct p.
Qed.

Lemma frames0_size : size frames0 = 1024%nat.
Proof.
  unfold frames0. rewrite size_list_to_set; [by rewrite length_fmap, length_seq|].
  apply NoDup_fmap_2; [intros i j; lia|apply NoDup_seq].
Qed.

Lemma kept0 t : managed_frame USABLE memmap0 tables0 t -> t = 0x1000 \/ (0x100000 <= t /\ t + 0x1000 <= 0x900000).
Proof.
  intros [(p & [_ ->]%tables0_lookup)|(e & He & Hu & Hw)]; [by left|right].
  apply memmap0_cases in He as ->; [|done]. unfold whole, e_end in Hw. cbn in Hw. unfold PAGE_SIZE in Hw. lia.
Qed.

Lemma memmap0_ok : memmap_ok USABLE memmap0 direct_map.
Proof.
  split; [done|]. split.
  - cbn -[elem_of]. split_and!; try done. intros _ e' x He'. by apply elem_of_nil in He'.
  - intros e He Hu. apply memmap0_cases in He as ->; [|done]. unfold entry_ok, e_end. rewrite PhysAddr_MAX_val.
    cbn [usable_memory Memmap.e_base Memmap.e_length]. unfold direct_map, PAGE_SIZE. lia.
Qed.

Lemma bootable0 : bootable USABLE ∅ firmware0 boot_cpu memmap0 direct_map top 0x100000 tables0.
Proof.
  assert (Hroot : active_page_table (fw_cr3 firmware0) = root0) by reflexivity.
  assert (Hwf : forall f, 0 <= f < 0x1000000 -> f mod PAGE_SIZE = 0 -> PhysFrame.wf PAGE_SIZE f).
  { intros f Hf Hp. split; [unfold PhysAddr.valid; rewrite PhysAddr_MAX_val; lia|done]. }
  split; rewrite ?Hroot; try done.
  - apply memmap0_ok.
  - exists usable_memory. split_and!; [right; left|done|done].
  - intros e He Hu. by apply memmap0_cases in He as ->.
  - apply tables0_wf.
  - intros p t e [_ ->]%tables0_lookup He Hu [Hw _]. apply memmap0_cases in He as ->; [|done].
    cbn in Hw. unfold root0 in Hw. lia.
  - intros v _. split; [|done]. unfold MapperInv.lookup.
    destruct (tables0 !! MapperInv.path v) as [t|] eqn:E; [|done]. by apply tables0_lookup in E as [? _].
  - exists frames0. rewrite frames0_size. split; [done|]. intros t Ht.
    apply elem_of_list_to_set, list_elem_of_fmap in Ht as (i & -> & Hi%elem_of_seq).
    change (bitmap_size_of top) with 4096. split_and!.
    + apply Hwf; [lia|]. unfold PAGE_SIZE. zlia.
    + right. lia.
    + exists usable_memory. split_and!; [right; left|done|unfold whole, e_end; cbn; unfold PAGE_SIZE; lia].
  - intros t Ht%kept0. unfold direct_map, PAGE_SIZE, HEAP_START. lia.
  - intros t x Ht%kept0 Hx. unfold in_frame, PAGE_SIZE in Hx. unfold in_saved, boot_cpu. cbn. lia.
Qed.

#[local] Instance layout : TaskLayout.
Proof. refine {| task_size := 80; task_align := 8; context_offset := 16 |}; by vm_compute. Defined.

End BootDemo.

Lemma boot_runs_first_task_witness :
  exists b, kmain (H := BootDemo.layout) SerialDemo.inp 2 LogDemo.level_le LogDemo.level_name TrapDemo.stubs 0xffffffff80001000 0xffffffff80001040 0xffffffff80002000
      0xffffffff80100000 BootDemo.USABLE 0x2000 8 0x300 0x400 0x500 0x600 BootDemo.boot_cpu BootDemo.firmware0
      (initial ∅ 0xFEE00900) = Ret b /\ rip (k_cpu (b_kernel b)) = 0x500 /\ Irq.handlers (b_irqs b) !! 0%nat = Some 0x300.
Proof.
  destruct (boot_runs_first_task (H := BootDemo.layout) SerialDemo.inp TrapDemo.stubs 0xffffffff80001000 0xffffffff80001040
              0xffffffff80002000 0xffffffff80100000 BootDemo.USABLE 0x2000 8 0x300 0x400 0x500 0x600 BootDemo.boot_cpu
              LogDemo.level_le LogDemo.level_name ∅ 0xFEE00900 BootDemo.firmware0 BootDemo.memmap0 BootDemo.direct_map BootDemo.top 0x100000 BootDemo.tables0 1
              BootDemo.bootable0)
    as (b & idle & ta & tb & l & V & fs & E & _ & _ & _ & _ & Hrip & _ & _ & _ & Hirq & _).
  - split; [lia|]. split; [reflexivity|]. split; [lia|]. by vm_compute.
  - lia.
  - unfold IST_STACK_SIZE. lia.
  - apply SerialDemo.ready.
  - exists b. split; [exact E|]. split; [exact Hrip|exact Hirq].
Defined.
