(* ===== verification/Run.v ===== *)
(** * The tasks of the kernel (task_a and task_b of eira/src/main.rs)

    After [kmain] has yielded the machine runs two loops, each of which logs a
    line and yields.  A transition is one iteration of the running loop, up to
    the switch to the other task.  Which loop runs is told by the address at
    which the processor stands: its entry the first time, the return address of
    its [yield_now] afterwards; the frames of [yield_now] and [schedule] between
    a task and the switch are not represented.

    What the compiler makes of a loop is a parameter: the registers at its call
    of [yield_now], and the words of the stack it writes.  Interrupts are
    disabled throughout: the boot protocol enters the kernel with interrupts
    disabled, and no code calls [enable_interrupts]. *)

From S2P Require Import Prelude Fmt Log Addr Memory Intervals Heap Context Task Scheduler Init Io Gdt Trap Platform Serial Report Boot.
Import Scheduler.

Record task_loop := mk_loop { tl_entry : Z; tl_resume : Z; tl_message : string }.

(** The compiled loop: it may use the [lc_reach] bytes of the stack below its
    registers' stack pointer, and keeps a frame of [lc_frame] bytes. *)
Record loop_code (lp : task_loop) := {
  lc_regs : Context.cpu -> Context.cpu;
  lc_writes : Context.cpu -> mem -> mem;
  lc_frame : Z;
  lc_reach : Z;
  lc_resume : forall c, rip (lc_regs c) = tl_resume lp;
  lc_enter : forall c, rip c = tl_entry lp -> rsp (lc_regs c) = rsp c - lc_frame;
  lc_again : forall c, rip c = tl_resume lp -> rsp (lc_regs c) = rsp c;
  lc_stack : forall c m, same_outside (fun w => rsp c - lc_reach <= w < rsp c) m (lc_writes c m);
  lc_fits : 0 <= lc_frame /\ 0 <= lc_reach /\ lc_frame + lc_reach + 72 <= DEFAULT_STACK_SIZE;
}.
Arguments lc_regs {lp}.
Arguments lc_writes {lp}.
Arguments lc_frame {lp}.
Arguments lc_reach {lp}.

Definition task_a (entry resume : Z) : task_loop := mk_loop entry resume "task A is running".
Definition task_b (entry resume : Z) : task_loop := mk_loop entry resume "task B is running".

(** The record that an iteration logs. *)
Definition says (lp : task_loop) : log_record := info "eira" (Fmt.bytes (tl_message lp)).

(** The processor stands at the head of a loop. *)
Definition at_head (lp : task_loop) (k : kernel) : Prop :=
  rip (k_cpu k) = tl_entry lp \/ rip (k_cpu k) = tl_resume lp.

Section system.
Context `{TaskLayout}.
Context (inp : list io -> Z -> Z) (fuel : nat).
Context (level_le : Level -> Level -> bool) (level_name : Level -> list Z).

(** One iteration, up to the switch in [yield_now]. *)
Definition iteration {lp : task_loop} (code : loop_code lp) (st : Serial.t * kernel) : outcome (Serial.t * kernel) :=
  let '(serial, k) := st in
  let! serial := log inp fuel level_le level_name serial (says lp) in
  let! k := yield_now (mk_kernel (lc_writes code (k_cpu k) (k_mem k)) (k_heap k) (k_counter k) (k_locked k) (k_sched k)
                         (lc_regs code (k_cpu k)) (k_out k)) in
  Ret (serial, k).

Context {la lb : task_loop} (code_a : loop_code la) (code_b : loop_code lb).

Inductive turn : Serial.t * kernel -> Serial.t * kernel -> Prop :=
| turn_a st st' : at_head la st.2 -> iteration code_a st = Ret st' -> turn st st'
| turn_b st st' : at_head lb st.2 -> iteration code_b st = Ret st' -> turn st st'.

(** The loop whose turn is the [i]th, and the console after [n] turns. *)
Definition loop_of (i : nat) : task_loop := if Nat.even i then la else lb.
Definition lines (n : nat) : list Z :=
  concat ((fun i => line (log_text level_name (says (loop_of i)))) <$> seq 0 n).

End system.

(** ** One turn *)
Section turns.
Context `{TaskLayout} (inp : list io -> Z -> Z) (n : nat) (level_le : Level -> Level -> bool) (level_name : Level -> list Z).
Hypothesis Hresp : responsive inp n 0x2F8.
Hypothesis Hle : forall l, level_le l LevelTrace = true.

Lemma log_ok h r : exists h', log inp (S n) level_le level_name (up h) r = Ret (up h') /\
  sent 0x2F8 h' = sent 0x2F8 h ++ crlf (line (log_text level_name r)).
Proof. unfold log, enabled. rewrite Hle. cbn [negb]. by apply print_one. Qed.

(** Where a task's virtual CPU stands between its turns. *)
Definition standing {lp} (code : loop_code lp) (c : Context.cpu) (t : Task Z) : Prop :=
  let top := KernelStack.buf (stack t) + DEFAULT_STACK_SIZE - 8 in
  (rip c = tl_entry lp /\ rsp c = top) \/ (rip c = tl_resume lp /\ rsp c = top - lc_frame code).

(** An iteration keeps to the task's stack and ends where it can go on. *)
Lemma standing_runs {lp} (code : loop_code lp) c t m :
  standing code c t ->
  standing code (lc_regs code c) t /\ same_outside (in_stack t) m (lc_writes code c m) /\
  KernelStack.buf (stack t) + 64 <= rsp (lc_regs code c) < KernelStack.buf (stack t) + DEFAULT_STACK_SIZE.
Proof.
  intros Hst. destruct (lc_fits _ code) as (Hf & Hr & Hfr).
  assert (Hsp : rsp (lc_regs code c) = KernelStack.buf (stack t) + DEFAULT_STACK_SIZE - 8 - lc_frame code).
  { destruct Hst as [[Hip Hsp]|[Hip Hsp]]; [rewrite (lc_enter _ code) by done|rewrite (lc_again _ code) by done]; lia. }
  split_and!; [right; split; [apply lc_resume|lia]| |lia|lia].
  eapply same_outside_weaken; [apply lc_stack|]. unfold in_stack. destruct Hst as [[_ Hs]|[_ Hs]]; intros w Hw; lia.
Qed.

Lemma iteration_ok {lp lp'} (code : loop_code lp) (code' : loop_code lp') h k t u idle l m V :
  duo k t u idle l m V -> standing code (V (context t)) t -> standing code' (V (context u)) u ->
  exists h' k' V', iteration inp (S n) level_le level_name code (up h, k) = Ret (up h', k') /\
    sent 0x2F8 h' = sent 0x2F8 h ++ crlf (line (log_text level_name (says lp))) /\
    duo k' (set_state u Running) (set_state t Ready) idle l m V' /\
    standing code' (V' (context u)) u /\ standing code (V' (context t)) t.
Proof.
  intros [Hv Hh Hap [Hst Hsu] [Hpt Hpu]] Ht Hu. set (s := mk [u] (Some t) idle []) in *.
  assert (Hin : context t ∈ ctxs s) by (unfold ctxs; cbn; right; left).
  assert (Hne : context u <> context t).
  { pose proof (vc_nodup _ _ _ _ _ Hv) as Hnd. unfold ctxs in Hnd. cbn in Hnd.
    apply NoDup_cons in Hnd as [Hnd _]. intros E. apply Hnd. rewrite E. left. }
  destruct (log_ok h (says lp)) as (h' & El & Hs). unfold iteration. rewrite El. cbn [obind].
  pose proof (vc_running _ _ _ _ _ Hv) as Hcpu. change (running_ctx s) with (context t) in Hcpu. rewrite <- Hcpu.
  destruct (standing_runs code (V (context t)) t (k_mem k) Ht) as (Ht' & Hm & Hsp).
  set (c := lc_regs code (V (context t))) in *.
  pose proof (vcpus_ran _ _ _ _ _ t c _ Hv eq_refl (Hh t (or_introl eq_refl)) Hm Hsp) as Hv1.
  set (V' := add_vcpu V (context t) c) in *. set (k1 := mk_kernel _ _ _ _ _ _ _) in *.
  destruct (vcpus_schedule k1 s l m V' None Hv1 eq_refl) as (k' & s' & E & Hv' & Hperm & Hsel & _ & _).
  unfold yield_now. rewrite E. cbn [obind].
  unfold parked in Hsel. cbn [run_queue current Scheduler.idle app s] in Hsel. rewrite select_first in Hsel by done.
  injection Hsel as Es _. subst s'.
  exists h', k', V'. split_and!; [done|done| |by unfold V'; rewrite add_vcpu_ne|by unfold V'; rewrite add_vcpu_eq].
  split; [done| |by intros w Hw1 Hw2; apply (Hap w)|done|done].
  assert (Hr : forall v, v = t \/ v = u -> home s l V' v).
  { intros v Hvv. apply home_ran; try done; [by apply Hh| |].
    - destruct Hvv as [->| ->]; [done|]. intros _. exact Hap.
    - intros Hnv Hx. destruct (Hh v Hvv) as [_ _ Hfeet _]. apply (Hfeet (context t) (context t)); try done; by left. }
  intros v [->| ->]; apply (home_same s); try done; apply Hr; [by right|by left].
Qed.

End turns.

(** ** Turn after turn *)
Section alternation.
Context `{TaskLayout} (inp : list io -> Z -> Z) (n : nat) (level_le : Level -> Level -> bool) (level_name : Level -> list Z).
Hypothesis Hresp : responsive inp n 0x2F8.
Hypothesis Hle : forall l, level_le l LevelTrace = true.
Context {la lb : task_loop} (code_a : loop_code la) (code_b : loop_code lb).
Hypothesis Hapart : forall x, (x = tl_entry la \/ x = tl_resume la) -> x <> tl_entry lb /\ x <> tl_resume lb.

Lemma lines_S i : lines level_name (la := la) (lb := lb) (S i) =
  lines level_name (la := la) (lb := lb) i ++ line (log_text level_name (says (if Nat.even i then la else lb))).
Proof. unfold lines. rewrite seq_S, fmap_app, concat_app. cbn. by rewrite app_nil_r. Qed.

(** After [i] turns: the lines so far are printed and the loops take turns. *)
Definition after (h0 : list io) (i : nat) (st : Serial.t * kernel) : Prop :=
  exists h k t u idle l m V, st = (up h, k) /\
    sent 0x2F8 h = sent 0x2F8 h0 ++ crlf (lines level_name (la := la) (lb := lb) i) /\ duo k t u idle l m V /\
    if Nat.even i then standing code_a (V (context t)) t /\ standing code_b (V (context u)) u
    else standing code_b (V (context t)) t /\ standing code_a (V (context u)) u.

Lemma standing_head {lp} (code : loop_code lp) k t u idle l m V :
  duo k t u idle l m V -> standing code (V (context t)) t -> at_head lp k.
Proof.
  intros [Hv _ _ _ _] Hst. pose proof (vc_running _ _ _ _ _ Hv) as Hcpu. cbn in Hcpu. rewrite Hcpu in Hst.
  unfold at_head. destruct Hst as [[? _]|[? _]]; [by left|by right].
Qed.

Lemma after_turn h0 i st : after h0 i st ->
  exists st', turn inp (S n) level_le level_name code_a code_b st st' /\ after h0 (S i) st' /\
    forall st'', turn inp (S n) level_le level_name code_a code_b st st'' -> st'' = st'.
Proof.
  intros (h & k & t & u & idle & l & m & V & -> & Hs & Hduo & Hst). unfold after. rewrite Nat.even_succ, <- Nat.negb_even, lines_S.
  destruct (Nat.even i); destruct Hst as [Ht Hu]; pose proof (standing_head _ _ _ _ _ _ _ _ Hduo Ht) as Hhead.
  - destruct (iteration_ok inp n level_le level_name Hresp Hle _ _ h _ _ _ _ _ _ _ Hduo Ht Hu) as (h' & k' & V' & E & Hs' & Hd' & Hu' & Ht').
    exists (up h', k'). split_and!; [by apply turn_a| |].
    + exists h', k', (set_state u Running), (set_state t Ready), idle, l, m, V'. split_and!; try done.
      by rewrite Hs', Hs, crlf_app, app_assoc.
    + intros st'' Hturn. inversion Hturn as [? ? _ E2|? ? Hb]; subst; [congruence|].
      destruct (Hapart _ Hhead) as [? ?]. by destruct Hb.
  - destruct (iteration_ok inp n level_le level_name Hresp Hle _ _ h _ _ _ _ _ _ _ Hduo Ht Hu) as (h' & k' & V' & E & Hs' & Hd' & Hu' & Ht').
    exists (up h', k'). split_and!; [by apply turn_b| |].
    + exists h', k', (set_state u Running), (set_state t Ready), idle, l, m, V'. split_and!; try done.
      by rewrite Hs', Hs, crlf_app, app_assoc.
    + intros st'' Hturn. inversion Hturn as [? ? Ha|? ? _ E2]; subst; [|congruence].
      destruct (Hapart _ Ha) as [? ?]. by destruct Hhead.
Qed.

Lemma after_turns h0 i st0 : after h0 0 st0 ->
  (exists st, nsteps (turn inp (S n) level_le level_name code_a code_b) i st0 st) /\
  forall st, nsteps (turn inp (S n) level_le level_name code_a code_b) i st0 st -> after h0 i st.
Proof.
  intros H0. induction i as [|i [[st Hex] Hall]].
  - split; [by exists st0; constructor|]. intros st Hn. by inversion Hn; subst.
  - split.
    + destruct (after_turn h0 i st (Hall _ Hex)) as (st' & Ht & _). exists st'. by eapply nsteps_r.
    + intros st'' (st' & Hn & Ht)%nsteps_inv_r. destruct (after_turn h0 i st' (Hall _ Hn)) as (st1 & _ & Ha & Hu).
      by rewrite (Hu _ Ht).
Qed.

End alternation.

(** ** From power-on *)
Section forever.
Context `{TaskLayout}.
Context (inp : list io -> Z -> Z) (isr_stub : Z -> Z) (gdt_addr tss_addr stacks idt_addr : Z).
Context (MEMMAP_USABLE arc_size arc_align : Z) (timer_tick idle_task : Z) (c : Context.cpu).
Context (level_le : Level -> Level -> bool) (level_name : Level -> list Z).
Context (entry_a resume_a entry_b resume_b : Z).
Context (code_a : loop_code (task_a entry_a resume_a)) (code_b : loop_code (task_b entry_b resume_b)).

(** C7: the kernel boots and then runs its two tasks in turn for ever.  On a
    machine as the boot protocol and the linker provide it, with layouts that fit
    the heap, a console that becomes ready and the code of the two tasks at different addresses, [kmain]
    reaches its yield, and after that, for every [i], the system makes [i] turns
    without panicking or getting stuck.  After any [i] turns the console has
    received, since power-on, exactly the set-up of the line, the cleared screen,
    the lines of the boot (devices, the memory found and the frames free, the
    heap, each new task with the frame built for it) and then the log lines of
    task A and task B in strict alternation, beginning with task A. *)
Theorem kernel_runs_forever (m : mem) (apic : Z) (f : firmware) (memmap : list Memmap.entry) (hhdm M bp : Z) (T : gmap (list Z) Z) (n : nat) :
  bootable MEMMAP_USABLE m f c memmap hhdm M bp T -> layouts_fit arc_size arc_align ->
  0 <= stacks -> stacks + 8 * IST_STACK_SIZE < W64 -> responsive inp n 0x2F8 ->
  (forall l, level_le l LevelTrace = true) ->
  (forall x, x = entry_a \/ x = resume_a -> x <> entry_b /\ x <> resume_b) ->
  exists b h idle ta tb nfree,
    kmain inp (S n) level_le level_name isr_stub gdt_addr tss_addr stacks idt_addr MEMMAP_USABLE arc_size arc_align
      timer_tick idle_task entry_a entry_b c f (initial m apic) = Ret b /\ b_serial b = up h /\
    forall i,
      (exists st, nsteps (turn inp (S n) level_le level_name code_a code_b) i (b_serial b, b_kernel b) st) /\
      forall st, nsteps (turn inp (S n) level_le level_name code_a code_b) i (b_serial b, b_kernel b) st ->
        exists h' k', st = (up h', k') /\
          sent 0x2F8 h' = sent 0x2F8 line_setup ++ crlf (CLEAR_SCREEN ++
            concat (output_text level_le level_name <$>
              device_output gdt_addr tss_addr idt_addr ++ memory_output M bp nfree ++ task_output idle_task entry_a entry_b idle ta tb) ++
            lines level_name (la := task_a entry_a resume_a) (lb := task_b entry_b resume_b) i).
Proof.
  intros Hb Hlf Hs0 Hs1 Hresp Hle Hapart.
  destruct (kmain_ok inp isr_stub gdt_addr tss_addr stacks idt_addr MEMMAP_USABLE arc_size arc_align timer_tick idle_task
              entry_a entry_b c level_le level_name m apic f memmap hhdm M bp T n Hb Hlf Hs0 Hs1 Hresp)
    as (b & idle & ta & tb & l & V & fs & h & nfree & E & Hser & Hduo & _ & _ & Hva & Hvb & _ & Hsp & _ & _ & _ & _ & Hs0').
  exists b, h, idle, ta, tb, nfree. split; [exact E|]. split; [done|]. intros i. rewrite Hser.
  assert (H0 : after level_name code_a code_b h 0 (up h, b_kernel b)).
  { exists h, (b_kernel b), ta, tb, idle, l, 0, V. split_and!; [done| |done|].
    - cbn [lines seq fmap list_fmap concat crlf mbind list_bind]. by rewrite app_nil_r.
    - cbn [Nat.even]. split; left; rewrite ?Hva, ?Hvb; (split; [done|apply Hsp; auto]). }
  destruct (after_turns inp n level_le level_name Hresp Hle code_a code_b Hapart h i _ H0) as [Hex Hall].
  split; [exact Hex|]. intros st Hst. destruct (Hall st Hst) as (h' & k' & t & u & ? & ? & ? & ? & -> & Hs & _).
  exists h', k'. split; [done|]. by rewrite Hs, Hs0', (app_assoc CLEAR_SCREEN), (crlf_app (CLEAR_SCREEN ++ _)), app_assoc.
Qed.

End forever.

(** A compiled loop with a frame of 40 bytes that writes one word of it. *)
Module RunDemo.

Definition regs (lp : task_loop) (c : Context.cpu) : Context.cpu :=
  Context.mk_cpu (tl_resume lp) (if rip c =? tl_resume lp then rsp c else rsp c - 40) (rbx c) (rbp c) (r12 c) (r13 c) (r14 c) 7.

Program Definition code (lp : task_loop) (Hne : tl_entry lp <> tl_resume lp) : loop_code lp :=
  {| lc_regs := regs lp; lc_writes c m := write64 m (rsp c - 16) 1; lc_frame := 40; lc_reach := 64 |}.
Next Obligation. done. Qed.
Next Obligation. intros lp Hne c Hc. cbn. destruct (Z.eqb_spec (rip c) (tl_resume lp)); [congruence|done]. Qed.
Next Obligation. intros lp Hne c Hc. cbn. destruct (Z.eqb_spec (rip c) (tl_resume lp)); [done|congruence]. Qed.
Next Obligation. intros lp Hne c m. apply same_outside_write. cbn. lia. Qed.
Next Obligation. intros lp Hne. cbn. klia. Qed.

Definition code_a : loop_code (task_a 0x500 0x520) := code (task_a 0x500 0x520) ltac:(done).
Definition code_b : loop_code (task_b 0x600 0x620) := code (task_b 0x600 0x620) ltac:(done).

End RunDemo.
Import RunDemo LogDemo.

Lemma kernel_runs_forever_witness : exists b st h' k' idle ta tb nfree,
  kmain (H := BootDemo.layout) SerialDemo.inp 2 level_le level_name TrapDemo.stubs 0xffffffff80001000 0xffffffff80001040
      0xffffffff80002000 0xffffffff80100000 BootDemo.USABLE 0x2000 8 0x300 0x400 0x500 0x600 BootDemo.boot_cpu BootDemo.firmware0
      (initial ∅ 0xFEE00900) = Ret b /\
  nsteps (turn (H := BootDemo.layout) SerialDemo.inp 2 level_le level_name code_a code_b) 1000 (b_serial b, b_kernel b) st /\ st = (up h', k') /\
  sent 0x2F8 h' = sent 0x2F8 line_setup ++ crlf (CLEAR_SCREEN ++
    concat (output_text level_le level_name <$>
      device_output 0xffffffff80001000 0xffffffff80001040 0xffffffff80100000 ++ memory_output BootDemo.top 0x100000 nfree ++
      task_output 0x400 0x500 0x600 idle ta tb) ++
    lines level_name (la := task_a 0x500 0x520) (lb := task_b 0x600 0x620) 1000).
Proof.
  destruct (kernel_runs_forever (H := BootDemo.layout) SerialDemo.inp TrapDemo.stubs 0xffffffff80001000 0xffffffff80001040
              0xffffffff80002000 0xffffffff80100000 BootDemo.USABLE 0x2000 8 0x300 0x400 BootDemo.boot_cpu level_le level_name
              0x500 0x520 0x600 0x620 code_a code_b ∅ 0xFEE00900 BootDemo.firmware0 BootDemo.memmap0 BootDemo.direct_map
              BootDemo.top 0x100000 BootDemo.tables0 1 BootDemo.bootable0) as (b & h & idle & ta & tb & nfree & E & _ & Hrun).
  - split; [lia|]. split; [reflexivity|]. split; [lia|]. by vm_compute.
  - lia.
  - unfold IST_STACK_SIZE. lia.
  - apply SerialDemo.ready.
  - apply all_enabled.
  - lia.
  - destruct (Hrun 1000%nat) as [[st Hst] Hall]. destruct (Hall st Hst) as (h' & k' & Est & Hs).
    exists b, st, h', k', idle, ta, tb, nfree. split; [exact E|]. split; [exact Hst|]. split; [exact Est|exact Hs].
Defined.
