(* ===== verification/TestSuite.v ===== *)
(** * The test kernel

    All registered tests, run by the kernel that boots on the machine of the
    boot demonstration.  The linker's order of the test modules is one of those
    it may choose; within a module it is the order of the source. *)

From S2P Require Import Prelude Log Report Memory FrameAllocator Bitmap World Task Io Trap Gdt Serial KernelTest TestBase.
From S2P Require Import MmTests HeapTests VmTests PagingTests StackTests Boot.

(** [buf] is where the compiler puts the local buffers of the heap tests. *)
Definition all_tests (buf : Z) : list (TestCase kernel_state) :=
  HeapTests.all buf ++ MmTests.all ++ PagingTests.all ++ VmTests.all ++ StackTests.all.

Definition demo_tests : list (TestCase kernel_state) := all_tests (BootDemo.direct_map + 0x7000).

(** The memory side of the demonstration. *)
Definition demo_memory : outcome memory_side :=
  memory_up BootDemo.USABLE 0x2000 8 BootDemo.firmware0 (initial ∅ 0xFEE00900).

Definition all_passed (o : outcome (list TestResult * kernel_state)) : bool :=
  match o with Ret (rs, _) => forallb is_pass rs | _ => false end.

Lemma demo_passes :
  all_passed (let! e := demo_memory in exec (sort_by_kind demo_tests) (mk_ks (e_world e) (e_heap e))) = true.
Proof. vm_compute. reflexivity. Qed.

Lemma demo_count : length demo_tests = 113%nat.
Proof. vm_compute. reflexivity. Qed.

Lemma demo_bound : Z.of_nat (length demo_tests) < W64.
Proof. by rewrite demo_count. Qed.

Lemma demo_memory_eq : memory_up BootDemo.USABLE 0x2000 8 BootDemo.firmware0 (initial ∅ 0xFEE00900) = demo_memory.
Proof. unfold demo_memory. reflexivity. Qed.

Lemma all_pass_counts rs :
  forallb is_pass rs = true -> counts_of rs = mk_counts (Z.of_nat (length rs)) 0 0 /\ forallb is_ok rs = true.
Proof.
  unfold counts_of, count. induction rs as [|[] rs IH]; [done| |done|done]. cbn [forallb is_pass andb]. intros H.
  destruct (IH H) as [E E']. injection E as E1 E2 E3. cbn [List.filter is_pass is_ok is_skipped negb length forallb andb].
  split; [f_equal; lia|done].
Qed.

(** A kernel whose tests all pass says so, on the console and to the emulator. *)
Lemma suite_verdict inp n stubs gdt_addr tss_addr stacks idt_addr usable arc_size arc_align timer_tick level_le level_name ts f m apic mo :
  responsive inp n 0x2F8 -> 0 <= stacks -> stacks + 8 * IST_STACK_SIZE < W64 -> Z.of_nat (length ts) < W64 ->
  memory_up usable arc_size arc_align f (initial m apic) = mo ->
  all_passed (let! e := mo in exec (sort_by_kind ts) (mk_ks (e_world e) (e_heap e))) = true ->
  exists h pre s, kmain_tests inp (S n) level_le level_name stubs gdt_addr tss_addr stacks idt_addr usable arc_size arc_align timer_tick
      ts f (initial m apic) = Ret (up (h ++ [Out 0xf4 EXIT_SUCCESS]), s) /\
    sent 0x2F8 h = pre ++ crlf (footer (mk_counts (Z.of_nat (length ts)) 0 0)).
Proof.
  intros Hr Hs0 Hs1 Hb Hm Hp. unfold kmain_tests.
  destruct (devices_up_ok inp stubs gdt_addr tss_addr stacks idt_addr timer_tick level_le level_name m apic n Hs0 Hs1 Hr)
    as (h0 & hw & -> & _). cbn [obind]. rewrite Hm. destruct mo as [e| |]; cbn [obind] in *; [|done|done].
  destruct (deliver_ok inp n level_le level_name h0 (e_out e) Hr) as (h & -> & _). cbn [obind].
  pose proof (run_all_exec inp n Hr ts h (mk_ks (e_world e) (e_heap e)) Hb) as H.
  destruct (exec (sort_by_kind ts) _) as [[rs s]| |]; cbn [all_passed] in Hp; [|done|done].
  destruct H as (h' & pre & E & Hs & Hl). destruct (all_pass_counts rs Hp) as [Ec Eo].
  rewrite Eo in E. rewrite Ec, Hl in Hs. exists h', (sent 0x2F8 h ++ pre), s. split; [exact E|].
  by rewrite <- app_assoc.
Qed.

(** C18: the repository's own tests pass.  The kernel built with its tests, on a
    machine with nine megabytes of memory and any console that becomes ready,
    boots, runs all 113 registered tests, prints that 113 passed and none failed
    or was skipped, and ends with the verdict of success on the debug-exit
    port. *)
Theorem kernel_tests_pass inp n stubs gdt_addr tss_addr stacks idt_addr timer_tick level_le level_name :
  responsive inp n 0x2F8 -> 0 <= stacks -> stacks + 8 * IST_STACK_SIZE < W64 ->
  length demo_tests = 113%nat /\
  exists h pre s, kmain_tests inp (S n) level_le level_name stubs gdt_addr tss_addr stacks idt_addr BootDemo.USABLE 0x2000 8 timer_tick
      demo_tests BootDemo.firmware0 (initial ∅ 0xFEE00900) = Ret (up (h ++ [Out 0xf4 EXIT_SUCCESS]), s) /\
    sent 0x2F8 h = pre ++ crlf (footer (mk_counts (Z.of_nat (length demo_tests)) 0 0)).
Proof.
  intros Hr Hs0 Hs1. split; [exact demo_count|].
  exact (suite_verdict inp n stubs gdt_addr tss_addr stacks idt_addr BootDemo.USABLE 0x2000 8 timer_tick level_le level_name demo_tests
           BootDemo.firmware0 ∅ 0xFEE00900 demo_memory Hr Hs0 Hs1 demo_bound demo_memory_eq demo_passes).
Qed.

Lemma kernel_tests_pass_witness :
  exists h s, kmain_tests SerialDemo.inp 2 LogDemo.level_le LogDemo.level_name TrapDemo.stubs 0xffffffff80001000 0xffffffff80001040 0xffffffff80002000
      0xffffffff80100000 BootDemo.USABLE 0x2000 8 0x300 demo_tests BootDemo.firmware0 (initial ∅ 0xFEE00900) =
    Ret (up (h ++ [Out 0xf4 0x10]), s).
Proof.
  destruct (kernel_tests_pass SerialDemo.inp 1 TrapDemo.stubs 0xffffffff80001000 0xffffffff80001040 0xffffffff80002000
              0xffffffff80100000 0x300 LogDemo.level_le LogDemo.level_name) as (_ & h & pre & s & E & _).
  - apply SerialDemo.ready.
  - lia.
  - unfold IST_STACK_SIZE. lia.
  - exists h, s. exact E.
Defined.
