(* ===== verification/XtaskLog.v ===== *)
(** * The progress lines of xtask (xtask/src/log.rs)

    The macros that print a badge and a message, a step counter or a section
    title.  The colours are a parameter, the functions of the owo_colors crate;
    a text is the list of its bytes in UTF-8. *)

From S2P Require Import Prelude Fmt.

(** A line on the standard output or the standard error. *)
Inductive printed := Stdout (line : list Z) | Stderr (line : list Z).

Section colours.
Context (bold dimmed green red yellow blue bright_blue bright_magenta bright_yellow : list Z -> list Z).

Definition badge_ok : list Z := green (bold (bytes "OK   ")).
Definition badge_err : list Z := red (bold (bytes "ERR  ")).
Definition badge_warn : list Z := yellow (bold (bytes "WARN ")).
Definition badge_info : list Z := blue (bold (bytes "INFO ")).
Definition badge_dl : list Z := bright_blue (bold (bytes "DL   ")).
Definition badge_run : list Z := bright_magenta (bold (bytes "RUN  ")).
Definition badge_build : list Z := bright_yellow (bold (bytes "BUILD")).

(** ["[{}] {}"] *)
Definition badged (badge args : list Z) : list Z := bytes "[" ++ badge ++ bytes "] " ++ args.

Definition log_ok (args : list Z) : printed := Stdout (badged badge_ok args).
Definition log_err (args : list Z) : printed := Stderr (badged badge_err args).
Definition log_warn (args : list Z) : printed := Stdout (badged badge_warn args).
Definition log_info (args : list Z) : printed := Stdout (badged badge_info args).
Definition log_dl (args : list Z) : printed := Stdout (badged badge_dl args).
Definition log_run (args : list Z) : printed := Stdout (badged badge_run args).
Definition log_build (args : list Z) : printed := Stdout (badged badge_build args).

(** [cur] and [total] as they are displayed. *)
Definition log_step (cur total args : list Z) : printed :=
  Stdout (badged (dimmed (cur ++ bytes "/" ++ total ++ bytes "  ")) args).

(** U+2500, which has three bytes. *)
Definition BAR : list Z := [0xE2; 0x94; 0x80].

Definition section_title (args : list Z) : list Z := BAR ++ BAR ++ bytes " " ++ args ++ bytes " ".
Definition section_rule (title : list Z) : list Z := concat (replicate (60 - length title) BAR).
Definition log_section (args : list Z) : printed :=
  let title := section_title args in
  let rule := section_rule title in
  Stdout ([10] ++ bold title ++ dimmed rule).

End colours.

(** The characters of a text: the bytes that do not continue one. *)
Definition columns (s : list Z) : nat := length (filter (fun b => Z.land b 0xC0 <> 0x80) s).

Lemma columns_app s t : columns (s ++ t) = (columns s + columns t)%nat.
Proof. unfold columns. by rewrite filter_app, length_app. Qed.

Lemma columns_ascii s : Forall (fun b => 0 <= b < 128) s -> columns s = length s.
Proof.
  unfold columns. intros H. induction H as [|b s Hb _ IH]; [done|]. rewrite filter_cons_True; [cbn; by rewrite IH|].
  intros E. assert (Hbit : Z.testbit (Z.land b 0xC0) 7 = true) by (by rewrite E).
  rewrite Z.land_spec, andb_true_iff in Hbit. destruct Hbit as [Hbit _]. rewrite Z.testbit_true in Hbit by lia.
  rewrite Z.div_small in Hbit by (cbn; lia). done.
Qed.

Lemma columns_bars n : columns (concat (replicate n BAR)) = n.
Proof. induction n as [|n IH]; [done|]. cbn [replicate concat]. rewrite columns_app, IH. done. Qed.

(** The width of a section line: the rule is computed from the bytes of the
    title, whose two bars have three bytes each, so the line has 56 columns and
    not the 60 that the code names, as long as the title leaves room. *)
Theorem section_width args : Forall (fun b => 0 <= b < 128) args ->
  columns (section_title args ++ section_rule (section_title args)) = (56 `max` (length args + 4))%nat.
Proof.
  intros Ha. unfold section_rule. rewrite columns_app, columns_bars. unfold section_title.
  rewrite !columns_app, !length_app, (columns_ascii args) by done.
  change (columns BAR) with 1%nat. change (length BAR) with 3%nat.
  change (columns (bytes " ")) with 1%nat. change (length (bytes " ")) with 1%nat. lia.
Qed.

Lemma section_width_witness :
  columns (section_title (bytes "Building kernel") ++ section_rule (section_title (bytes "Building kernel"))) = 56%nat.
Proof. apply (section_width (bytes "Building kernel")). vm_compute. repeat constructor; discriminate. Defined.
