(* ===== verification/Xtask.v ===== *)
(** * The build tool (xtask/src/)

    The tool drives other programs and the file system.  What it has done so far
    is a list of operations; whether a path exists, whether a file operation
    succeeds and how a program ends are functions of that history.  A program that
    never ends makes the tool hang.  Paths are strings below [root], the
    directory of the workspace.  The command line is parsed by a library: a run
    starts from the parsed command.  The progress lines it prints (XtaskLog.v)
    are not part of a run. *)

From stdpp Require Import pretty.
From S2P Require Import Prelude.

Record command := mk_command { program : string; args : list string; current_dir : option string }.

Inductive operation :=
| Ran (c : command)
| RemoveDirAll (path : string)
| CreateDirAll (path : string)
| Copied (src dst : string).

(** [anyhow::Error]: a message, an error of the system, or a context around an
    error. *)
Inductive error :=
| Bail (message : string)
| Os (op : operation)
| Context (message : string) (cause : error).

#[local] Notation "a ^^ b" := (String.append a%string b%string) (at level 60, right associativity).

(** [PathBuf::join] with a relative path *)
Definition join (a b : string) : string := a ^^ "/" ^^ b.

Module Arch.

Inductive t := X86_64 | Aarch64.

Definition as_str (self : t) : string := match self with X86_64 => "x86_64" | Aarch64 => "aarch64" end.
Definition target_json (self : t) : string := as_str self ^^ "-eira.json".
Definition iso (self : t) : string := "eira-" ^^ as_str self ^^ ".iso".
Definition linker_script (self : t) : string := "eira/src/arch/" ^^ as_str self ^^ "/linker.ld".
Definition ovmf_code (self : t) : string := "ovmf-code-" ^^ as_str self ^^ ".fd".
Definition ovmf_vars (self : t) : string := "ovmf-vars-" ^^ as_str self ^^ ".fd".
Definition qemu_bin (self : t) : string :=
  match self with X86_64 => "qemu-system-x86_64" | Aarch64 => "qemu-system-aarch64" end.

End Arch.

Inductive Command :=
| Fetch
| Build (arch : Arch.t) (release : bool)
| Iso (arch : Arch.t) (release : bool)
| Run (arch : Arch.t) (release bios : bool)
| Test (arch : Arch.t) (release bios : bool)
| Clean.

(** [str::replace] with the empty string: the occurrences from left to right. *)
Fixpoint remove_all (n : nat) (pat s : string) : string :=
  match n with
  | O => s
  | S n =>
      match s with
      | String.EmptyString => String.EmptyString
      | String.String c s' =>
          if String.prefix pat s
          then remove_all n pat (String.substring (String.length pat) (String.length s - String.length pat) s)
          else String.String c (remove_all n pat s')
      end
  end.
Definition replace_with_empty (pat s : string) : string := remove_all (String.length s) pat s.

Section xtask.
(** The workspace, and how the system answers: paths that exist, file operations
    that succeed, and programs: not started, killed by a signal, or ended with a
    code. *)
Context (root : string).
Context (exists_ : list operation -> string -> bool) (fs_ok : list operation -> operation -> bool).
Context (ends : list operation -> command -> outcome (option (option Z))).

Abbreviation host := (list operation).
Abbreviation io_result A := (outcome (result A error * host)).

Definition workspace_root : string := root.
Definition build_dir : string := join workspace_root "build".

(** A file operation that the system may refuse. *)
Definition fs (op : operation) (h : host) : io_result unit :=
  let h' := h ++ [op] in
  Ret (if fs_ok h op then Ok tt else Err (Os op), h').

(** [Command::status]: [None] inside is a death by signal. *)
Definition status (c : command) (h : host) : io_result (option Z) :=
  let! o := ends h c in
  let h' := h ++ [Ran c] in
  Ret (match o with Some code => Ok code | None => Err (Os (Ran c)) end, h').

(** [ExitStatus::success] *)
Definition success (code : option Z) : bool := match code with Some 0 => true | _ => false end.

Definition bail {A} (message : string) (h : host) : io_result A := Ret (Err (Bail message), h).

Definition context {A} (message : string) (r : io_result A) : io_result A :=
  let! '(r, h) := r in
  Ret (match r with Ok a => Ok a | Err e => Err (Context message e) end, h).

Definition fetch_repository (dest : string) (pull clone : list string) (pull_why clone_why pull_bail clone_bail : string) (h : host)
  : io_result unit :=
  if exists_ h (join dest ".git") then
    let? st, h := context pull_why (status (mk_command "git" pull None) h) in
    if negb (success st) then bail pull_bail h else Ret (Ok tt, h)
  else
    let? _, h := fs (CreateDirAll dest) h in
    let? st, h := context clone_why (status (mk_command "git" clone None) h) in
    if negb (success st) then bail clone_bail h else Ret (Ok tt, h).

Definition LIMINE_REPO : string := "https://github.com/limine-bootloader/limine.git".
Definition LIMINE_BRANCH : string := "v11.x-binary".
Definition EDK2_OVMF_REPO : string := "https://github.com/gulce777/edk2-ovmf.git".

Definition fetch_limine (h : host) : io_result unit :=
  let dest := join build_dir "limine" in
  fetch_repository dest ["-C"; dest; "pull"; "--ff-only"]
    ["clone"; "--branch"; LIMINE_BRANCH; "--depth"; "1"; LIMINE_REPO; dest]
    "git pull failed, is git installed?" "git clone failed, is git installed?" "git pull failed" "Limine clone failed" h.

Definition fetch_ovmf (h : host) : io_result unit :=
  let dest := join build_dir "edk2-ovmf" in
  fetch_repository dest ["-C"; dest; "pull"] ["clone"; "--depth"; "1"; EDK2_OVMF_REPO; dest]
    "git pull failed, is git installed?" "git clone failed, is git installed?" "git pull failed" "edk2-ovmf clone failed" h.

Definition kernel_bin_path (arch : Arch.t) (release : bool) : string :=
  let target_name := replace_with_empty ".json" (Arch.target_json arch) in
  let profile := if release then "release" else "debug" in
  join (join (join (join workspace_root "target") target_name) profile) "eira".

Definition cargo_build (target_json : string) (release tests : bool) : command :=
  mk_command "cargo"
    (["build"; "--package"; "eira"] ++ ["--target"; target_json] ++
     ["-Zbuild-std=core,compiler_builtins,alloc"; "-Zbuild-std-features=compiler-builtins-mem"; "-Zjson-target-spec"] ++
     (if tests then ["--features"; "kernel-tests"] else []) ++ (if release then ["--release"] else []))
    (Some workspace_root).

Definition build_kernel_inner (arch : Arch.t) (release tests : bool) (h : host) : io_result unit :=
  let target_json := join (join workspace_root "targets") (Arch.target_json arch) in
  let linker_script := join workspace_root (Arch.linker_script arch) in
  if negb (exists_ h target_json) then
    bail ("Target JSON not found: " ^^ target_json ^^ String.String (Ascii.ascii_of_nat 10)
            ("Create targets/" ^^ Arch.target_json arch ^^ " to add support for this architecture.")) h
  else if negb (exists_ h linker_script) then
    bail ("Linker script not found: " ^^ linker_script ^^ String.String (Ascii.ascii_of_nat 10)
            ("Make sure the file exists for the '" ^^ Arch.as_str arch ^^ "' architecture.")) h
  else
    let? st, h := context "Failed to run cargo build" (status (cargo_build target_json release tests) h) in
    if negb (success st) then bail "Kernel compilation failed" h else Ret (Ok tt, h).

Definition build_kernel (arch : Arch.t) (release : bool) (h : host) : io_result unit := build_kernel_inner arch release false h.
Definition build_kernel_with_tests (arch : Arch.t) (release : bool) (h : host) : io_result unit :=
  build_kernel_inner arch release true h.

Definition copy_limine (limine limine_dir file : string) (h : host) : io_result unit :=
  let src := join limine file in
  if exists_ h src then context ("Failed to copy " ^^ file) (fs (Copied src (join limine_dir file)) h)
  else bail (file ^^ " not found in limine. Run `cargo xtask fetch`") h.

Fixpoint copy_all (limine limine_dir : string) (files : list string) (h : host) : io_result unit :=
  match files with
  | [] => Ret (Ok tt, h)
  | file :: files => let? _, h := copy_limine limine limine_dir file h in copy_all limine limine_dir files h
  end.

Definition efi_files (arch : Arch.t) : list string :=
  match arch with Arch.X86_64 => ["BOOTX64.EFI"] | Arch.Aarch64 => ["BOOTAA64.EFI"] end.

(** A missing file is only a warning. *)
Fixpoint copy_efi (limine_dir efi_dir : string) (files : list string) (h : host) : io_result unit :=
  match files with
  | [] => Ret (Ok tt, h)
  | name :: files =>
      let src := join limine_dir name in
      let? _, h :=
        if exists_ h src then context ("Failed to copy " ^^ name) (fs (Copied src (join efi_dir name)) h)
        else Ret (Ok tt, h) in
      copy_efi limine_dir efi_dir files h
  end.

Definition copy_efi_files (arch : Arch.t) (limine_dir efi_dir : string) (h : host) : io_result unit :=
  copy_efi limine_dir efi_dir (efi_files arch) h.

Definition iso_path (arch : Arch.t) : string := join build_dir (Arch.iso arch).
Definition iso_root : string := join build_dir "iso_root".

Definition xorriso (arch : Arch.t) : command :=
  mk_command "xorriso"
    (["-as"; "mkisofs"] ++
     match arch with
     | Arch.X86_64 =>
         ["-b"; "boot/limine/limine-bios-cd.bin"; "-no-emul-boot"; "-boot-load-size"; "4"; "-boot-info-table"]
     | Arch.Aarch64 => []
     end ++
     ["--efi-boot"; "boot/limine/limine-uefi-cd.bin"; "-efi-boot-part"; "--efi-boot-image"; "--protective-msdos-label"] ++
     [iso_root; "-o"; iso_path arch])
    None.

Definition create_iso (arch : Arch.t) (release : bool) (h : host) : io_result unit :=
  let limine := join build_dir "limine" in
  let? _, h := if exists_ h iso_root then fs (RemoveDirAll iso_root) h else Ret (Ok tt, h) in
  let limine_dir := join (join iso_root "boot") "limine" in
  let efi_dir := join (join iso_root "EFI") "BOOT" in
  let? _, h := fs (CreateDirAll limine_dir) h in
  let? _, h := fs (CreateDirAll efi_dir) h in
  let kernel := kernel_bin_path arch release in
  if negb (exists_ h kernel) then bail ("Kernel binary not found:   " ^^ kernel) h
  else
    let? _, h := fs (Copied kernel (join (join iso_root "boot") "eira")) h in
    let? _, h := fs (Copied (join workspace_root "limine.conf") (join limine_dir "limine.conf")) h in
    let? _, h :=
      copy_all limine limine_dir
        (match arch with Arch.X86_64 => ["limine-bios.sys"; "limine-bios-cd.bin"] | Arch.Aarch64 => [] end) h in
    let? _, h := copy_limine limine limine_dir "limine-uefi-cd.bin" h in
    let? _, h := copy_efi_files arch limine efi_dir h in
    let? st, h :=
      context "xorriso not found — install it with: sudo apt install xorriso" (status (xorriso arch) h) in
    if negb (success st) then bail "xorriso failed to create the ISO" h else Ret (Ok tt, h).

(** The command line of the emulator, if everything it needs is there. *)
Definition base_cmd (arch : Arch.t) (uefi : bool) (h : host) : io_result command :=
  let qemu := Arch.qemu_bin arch in
  let! '(version, h) := status (mk_command qemu ["--version"] None) h in
  match version with
  | Err _ => bail (qemu ^^ " not found.") h
  | Ok _ =>
      let iso := iso_path arch in
      if negb (exists_ h iso) then
        bail ("ISO not found: " ^^ iso ^^ String.String (Ascii.ascii_of_nat 10) "Run `cargo xtask iso` first.") h
      else
        let code := join (join build_dir "edk2-ovmf") (Arch.ovmf_code arch) in
        let vars := join (join build_dir "edk2-ovmf") (Arch.ovmf_vars arch) in
        let firmware :=
          ["-drive"; "if=pflash,format=raw,readonly=on,file=" ^^ code] ++
          (if exists_ h vars then ["-drive"; "if=pflash,format=raw,file=" ^^ vars] else []) in
        match arch with
        | Arch.X86_64 =>
            let cmd := ["-M"; "q35"; "-m"; "256M"] ++ ["-cdrom"; iso] ++ ["-serial"; "file:uefi_boot.log"] ++ ["-serial"; "stdio"] in
            if uefi then
              if negb (exists_ h code) then bail "OVMF firmware not found, run `cargo xtask fetch`" h
              else Ret (Ok (mk_command qemu (cmd ++ firmware) None), h)
            else Ret (Ok (mk_command qemu (cmd ++ ["-boot"; "d"]) None), h)
        | Arch.Aarch64 =>
            if negb (exists_ h code) then bail "OVMF firmware not found, run `cargo xtask fetch`" h
            else
              let cmd := ["-M"; "virt"; "-cpu"; "cortex-a57"; "-m"; "256M"] ++ ["-cdrom"; iso] ++ ["-serial"; "stdio"] ++
                         ["-device"; "ramfb"; "-device"; "qemu-xhci"; "-device"; "usb-kbd"; "-device"; "usb-mouse"] in
              Ret (Ok (mk_command qemu (cmd ++ firmware) None), h)
        end
  end.

Definition run_qemu (arch : Arch.t) (uefi : bool) (h : host) : io_result unit :=
  let? cmd, h := base_cmd arch uefi h in
  let? st, h := context "Failed to start QEMU" (status cmd h) in
  if negb (success st) then bail "QEMU exited with an error" h else Ret (Ok tt, h).

Definition QEMU_TEST_SUCCESS : Z := 33.
Definition QEMU_TEST_FAILURE : Z := 35.

Definition debug_exit : list string := ["-device"; "isa-debug-exit,iobase=0xf4,iosize=0x04"].

Definition test_cmd (arch : Arch.t) (cmd : command) : command :=
  mk_command (program cmd)
    (args cmd ++ match arch with Arch.X86_64 => debug_exit | Arch.Aarch64 => [] end ++ ["-no-reboot"; "-display"; "none"])
    (current_dir cmd).

Definition run_qemu_tests (arch : Arch.t) (uefi : bool) (h : host) : io_result unit :=
  let? cmd, h := base_cmd arch uefi h in
  let? st, h := context "Failed to start QEMU" (status (test_cmd arch cmd) h) in
  match arch, st with
  | Arch.X86_64, Some code =>
      if code =? QEMU_TEST_SUCCESS then Ret (Ok tt, h)
      else if code =? QEMU_TEST_FAILURE then bail "one or more tests failed" h
      else bail ("QEMU exited unexpectedly (code " ^^ pretty code ^^ ")") h
  | Arch.X86_64, None => bail "QEMU killed by signal" h
  | Arch.Aarch64, _ => Ret (Ok tt, h)
  end.

Definition run_cli (c : Command) (h : host) : io_result unit :=
  match c with
  | Fetch => let? _, h := fetch_limine h in fetch_ovmf h
  | Build arch release => build_kernel arch release h
  | Iso arch release =>
      let? _, h := build_kernel arch release h in
      create_iso arch release h
  | Run arch release bios =>
      let? _, h := build_kernel arch release h in
      let? _, h := create_iso arch release h in
      run_qemu arch (negb bios) h
  | Test arch release bios =>
      let? _, h := build_kernel_with_tests arch release h in
      let? _, h := create_iso arch release h in
      run_qemu_tests arch (negb bios) h
  | Clean => if exists_ h build_dir then fs (RemoveDirAll build_dir) h else Ret (Ok tt, h)
  end.

(** The exit code of the tool. *)
Definition main (c : Command) (h : host) : outcome (Z * host) :=
  let! '(r, h) := run_cli c h in
  Ret (match r with Ok _ => 0 | Err _ => 1 end, h).

End xtask.

(** ** The build script of the kernel (eira/build.rs): what it tells cargo *)
Definition build_script (manifest_dir arch : string) : list string :=
  let ld := join manifest_dir ("src/arch/" ^^ arch ^^ "/linker.ld") in
  ["cargo:rerun-if-changed=" ^^ ld;
   "cargo:rerun-if-changed=" ^^ manifest_dir ^^ "/limine.conf";
   "cargo:rustc-link-arg=-T" ^^ ld;
   "cargo:rustc-link-arg=-zmax-page-size=0x1000"].

(** ** What a run has done *)
Section runs.
Context (root : string).
Context (exists_ : list operation -> string -> bool) (fs_ok : list operation -> operation -> bool).
Context (ends : list operation -> command -> outcome (option (option Z))).
Implicit Types (h : list operation) (op : operation) (c : command).

(** The history only grows. *)
Definition grows {A} h (r : outcome (result A error * list operation)) : Prop :=
  match r with Ret (_, h') => h `prefix_of` h' | _ => True end.

Lemma grows_ret {A} h (r : result A error) : grows h (Ret (r, h)).
Proof. unfold grows. done. Qed.

Lemma grows_bail {A} h why : grows h (bail (A := A) why h).
Proof. apply grows_ret. Qed.

Lemma grows_fs op h : grows h (fs fs_ok op h).
Proof. by exists [op]. Qed.

Lemma grows_status c h : grows h (status ends c h).
Proof. unfold status. destruct (ends h c); cbn; [|done|done]. by exists [Ran c]. Qed.

Lemma grows_context {A} why h (r : outcome (result A error * list operation)) : grows h r -> grows h (context why r).
Proof. unfold context. by destruct r as [[[]]| |]. Qed.

Lemma grows_bind {A B} h (m : outcome (result A error * list operation)) k :
  grows h m -> (forall a h', grows h' (k a h')) -> grows (A := B) h (rbind m k).
Proof.
  unfold grows, rbind. intros Hm Hk. destruct m as [[[a|e] h1]| |]; cbn; try done.
  specialize (Hk a h1). destruct (k a h1) as [[r h2]| |]; [|done|done]. by transitivity h1.
Qed.

Lemma rbind_Ok {A B} (m : outcome (result A error * list operation)) k (b : B) h :
  rbind m k = Ret (Ok b, h) -> exists a h', m = Ret (Ok a, h') /\ k a h' = Ret (Ok b, h).
Proof. unfold rbind. destruct m as [[[a|e] h']| |]; cbn; try done. eauto. Qed.

Lemma context_Ok {A} why (r : outcome (result A error * list operation)) a h :
  context why r = Ret (Ok a, h) -> r = Ret (Ok a, h).
Proof. unfold context. destruct r as [[[]]| |]; cbn; try done; congruence. Qed.

Lemma status_Ok c h a h' : status ends c h = Ret (Ok a, h') -> ends h c = Ret (Some a) /\ h' = h ++ [Ran c].
Proof. unfold status. destruct (ends h c) as [[o|]| |]; cbn; try done. by intros [= <- <-]. Qed.

Lemma fs_Ok op h a h' : fs fs_ok op h = Ret (Ok a, h') -> fs_ok h op = true /\ h' = h ++ [op].
Proof. unfold fs. destruct (fs_ok h op); [|done]. by intros [= _ <-]. Qed.

Lemma grows_Ret {A} h (r : outcome (result A error * list operation)) x h' : grows h r -> r = Ret (x, h') -> h `prefix_of` h'.
Proof. by intros H ->. Qed.

Ltac grow := repeat first
  [ apply grows_bind; [|intros] | apply grows_context | apply grows_fs | apply grows_status | apply grows_bail | apply grows_ret
  | case_match ].

Lemma grows_copy limine limine_dir file h : grows h (copy_limine exists_ fs_ok limine limine_dir file h).
Proof. unfold copy_limine. grow. Qed.

Lemma grows_copy_all limine limine_dir files h : grows h (copy_all exists_ fs_ok limine limine_dir files h).
Proof.
  revert h. induction files as [|f files IH]; intros h; cbn [copy_all]; [apply grows_ret|].
  apply grows_bind; [apply grows_copy|intros; apply IH].
Qed.

Lemma grows_efi limine efi files h : grows h (copy_efi exists_ fs_ok limine efi files h).
Proof.
  revert h. induction files as [|f files IH]; intros h; cbn [copy_efi]; [apply grows_ret|].
  apply grows_bind; [grow|intros; apply IH].
Qed.

(** A successful [create_iso] has copied the kernel and then run xorriso. *)
Lemma create_iso_Ok arch release h a h' :
  create_iso root exists_ fs_ok ends arch release h = Ret (Ok a, h') ->
  exists h1 h2, h `prefix_of` h1 /\
    h1 ++ [Copied (kernel_bin_path root arch release) (join (join (iso_root root) "boot") "eira")] `prefix_of` h2 /\
    ends h2 (xorriso root arch) = Ret (Some (Some 0)) /\ h' = h2 ++ [Ran (xorriso root arch)].
Proof.
  unfold create_iso. intros H.
  apply rbind_Ok in H as (? & ha & Ea & H). apply rbind_Ok in H as (? & hb & Eb & H). apply rbind_Ok in H as (? & hc & Ec & H).
  destruct (negb _); [done|].
  apply rbind_Ok in H as (? & hd & [_ ->]%fs_Ok & H). apply rbind_Ok in H as (? & he & Ee & H).
  apply rbind_Ok in H as (? & hf & Ef & H). apply rbind_Ok in H as (? & hg & Eg & H).
  apply rbind_Ok in H as (? & hi & Ei & H). apply rbind_Ok in H as (st & hj & [Ej ->]%context_Ok%status_Ok & H).
  unfold success in H. destruct st as [[| |]|]; try done. injection H as _ <-.
  exists hc, hi. split_and!; try done.
  - transitivity ha; [by eapply grows_Ret; [|exact Ea]; grow|]. transitivity hb; eapply grows_Ret; try eassumption; grow.
  - transitivity he; [eapply grows_Ret; [|exact Ee]; grow|]. transitivity hf; [eapply grows_Ret; [|exact Ef]; apply grows_copy_all|].
    transitivity hg; [eapply grows_Ret; [|exact Eg]; apply grows_copy|]. eapply grows_Ret; [|exact Ei]. apply grows_efi.
Qed.

Lemma build_Ok arch release tests h a h' :
  build_kernel_inner root exists_ ends arch release tests h = Ret (Ok a, h') ->
  let c := cargo_build root (join (join root "targets") (Arch.target_json arch)) release tests in
  ends h c = Ret (Some (Some 0)) /\ h' = h ++ [Ran c].
Proof.
  unfold build_kernel_inner. intros H. case_match; [done|]. case_match; [done|].
  apply rbind_Ok in H as (st & hj & [Ej ->]%context_Ok%status_Ok & H).
  unfold success in H. destruct st as [[| |]|]; try done. injection H as _ <-. split; [exact Ej|done].
Qed.

Lemma base_cmd_Ok arch uefi h c h' :
  base_cmd root exists_ ends arch uefi h = Ret (Ok c, h') ->
  h `prefix_of` h' /\ program c = Arch.qemu_bin arch /\ exists l r, args c = l ++ ["-cdrom"; iso_path root arch] ++ r.
Proof.
  unfold base_cmd. destruct (status ends _ h) as [[[st|e] h1]| |] eqn:E; cbn [obind]; try done.
  assert (Hp : h `prefix_of` h1) by (eapply grows_Ret; [apply grows_status|exact E]).
  case_match; [done|]. destruct arch.
  - destruct uefi; [case_match; [done|]|]; intros [= <- <-]; cbn [program args]; (split_and!; [done|done|]);
      by eexists ["-M"; "q35"; "-m"; "256M"], _.
  - case_match; [done|]. intros [= <- <-]. cbn [program args]. split_and!; [done|done|].
    by eexists ["-M"; "virt"; "-cpu"; "cortex-a57"; "-m"; "256M"], _.
Qed.

(** C17: a passing test run tested the kernel that was just built.  If
    [cargo xtask test] for x86_64 exits with 0, then cargo succeeded in building
    the kernel with the feature kernel-tests, after that the kernel was copied
    into the tree of the image, from which xorriso then made the image, and last
    of all the emulator, started on that image with the debug-exit device, ended
    with the code of success. *)
Theorem xtask_test_sound release bios h0 h :
  main root exists_ fs_ok ends (Test Arch.X86_64 release bios) h0 = Ret (0, h) ->
  let cargo := cargo_build root (join (join root "targets") "x86_64-eira.json") release true in
  let kernel := kernel_bin_path root Arch.X86_64 release in
  let xorriso := xorriso root Arch.X86_64 in
  exists h1 h2 h3 qemu,
    ends h0 cargo = Ret (Some (Some 0)) /\ "kernel-tests"%string ∈ args cargo /\
    (h0 ++ [Ran cargo]) `prefix_of` h1 /\
    (h1 ++ [Copied kernel (join (join (iso_root root) "boot") "eira")]) `prefix_of` h2 /\
    ends h2 xorriso = Ret (Some (Some 0)) /\ (h2 ++ [Ran xorriso]) `prefix_of` h3 /\
    ends h3 qemu = Ret (Some (Some QEMU_TEST_SUCCESS)) /\ h = h3 ++ [Ran qemu] /\
    program qemu = "qemu-system-x86_64"%string /\
    exists l m r, args qemu = l ++ ["-cdrom"; iso_path root Arch.X86_64]%string ++ m ++ ["-device"%string; "isa-debug-exit,iobase=0xf4,iosize=0x04"%string] ++ r.
Proof.
  intros H cargo kernel xr. unfold main, run_cli in H.
  destruct (rbind _ _) as [[r hr]| |] eqn:E in H; cbn [obind] in H; [|done|done].
  destruct r as [u|e]; [|done]. injection H as ->.
  apply rbind_Ok in E as (? & hb & Eb & E). apply build_Ok in Eb. cbn zeta in Eb. destruct Eb as [Eb ->].
  apply rbind_Ok in E as (? & hi & (h1 & h2 & P1 & P2 & Ex & ->)%create_iso_Ok & E).
  unfold run_qemu_tests in E. apply rbind_Ok in E as (c & hq & (P3 & Hp & l & m & Ha)%base_cmd_Ok & E).
  apply rbind_Ok in E as (st & hr & [Es ->]%context_Ok%status_Ok & E).
  exists h1, h2, hq, (test_cmd Arch.X86_64 c). split_and!; try done.
  - unfold cargo, cargo_build. cbn [args]. rewrite !elem_of_app. do 3 right. left. right. left.
  - destruct st as [code|]; [|done]. destruct (Z.eqb_spec code QEMU_TEST_SUCCESS) as [->|]; [exact Es|].
    destruct (code =? QEMU_TEST_FAILURE); done.
  - destruct st as [code|]; [|done]. destruct (code =? QEMU_TEST_SUCCESS); [by injection E as _ <-|].
    destruct (code =? QEMU_TEST_FAILURE); done.
  - exists l, m, ["-no-reboot"; "-display"; "none"]%string. unfold test_cmd. cbn [args]. by rewrite Ha, <- !app_assoc.
Qed.

End runs.

(** A workspace in which everything is in place, and an emulator whose guest
    reports success. *)
Module XtaskDemo.

Definition present (h : list operation) (p : string) : bool := true.
Definition allowed (h : list operation) (op : operation) : bool := true.
Definition is_emulator (c : command) : bool := String.eqb (program c) "qemu-system-x86_64".
Definition succeeds (h : list operation) (c : command) : outcome (option (option Z)) :=
  Ret (Some (Some (if is_emulator c then 33 else 0))).

End XtaskDemo.

Lemma xtask_test_sound_witness : exists h,
  main "/w" XtaskDemo.present XtaskDemo.allowed XtaskDemo.succeeds (Test Arch.X86_64 true true) [] = Ret (0, h) /\
  Copied "/w/target/x86_64-eira/release/eira" "/w/build/iso_root/boot/eira" ∈ h.
Proof.
  assert (E : exists h, main "/w" XtaskDemo.present XtaskDemo.allowed XtaskDemo.succeeds (Test Arch.X86_64 true true) [] = Ret (0, h))
    by (eexists; vm_compute; reflexivity).
  destruct E as [h E]. exists h. split; [exact E|].
  destruct (xtask_test_sound "/w" XtaskDemo.present XtaskDemo.allowed XtaskDemo.succeeds true true [] h E)
    as (h1 & h2 & h3 & qemu & _ & _ & _ & P2 & _ & P3 & _ & -> & _).
  apply elem_of_app. left. eapply elem_of_prefix; [|exact P3]. apply elem_of_app. left.
  eapply elem_of_prefix; [|exact P2]. apply elem_of_app. right. left.
Defined.

(** The linker script that the tool looks for is the one the build script hands
    to the linker. *)
Lemma linker_scripts_agree root arch :
  (String.append "cargo:rustc-link-arg=-T" (join root (Arch.linker_script arch))) ∈
    build_script (join root "eira") (Arch.as_str arch).
Proof.
  unfold build_script. right. right.
  replace (join root (Arch.linker_script arch)) with (join (join root "eira") (String.append "src/arch/" (String.append (Arch.as_str arch) "/linker.ld"))); [left|].
  unfold join. induction root as [|a s IH]; [by destruct arch|]. exact (f_equal (String.String a) IH).
Qed.
