(* ===== verification/Ci.v ===== *)
(** * From the build tool to the tests in the kernel

    [cargo xtask test] starts the emulator on the kernel it has built, the
    kernel runs its tests and writes a verdict to the debug-exit port, the
    emulator ends with an exit code, and the tool turns that into its own. *)

From stdpp Require Import strings.
From S2P Require Import Prelude Log Report Memory FrameAllocator Bitmap World Task Io Trap Gdt Serial KernelTest TestBase Boot MmTests TestSuite Xtask.

(** The emulator on a guest: a write of [v] to the debug-exit port ends it with
    the code [(v << 1) | 1]; a guest that has halted or spins runs on. *)
Definition emulated {S} (guest : outcome (Serial.t * S)) : outcome (option (option Z)) :=
  match guest with
  | Ret (serial, _) =>
      match last (Serial.history serial) with
      | Some (Out 0xf4 v) => Ret (Some (Some (Z.lor (Z.shiftl v 1) 1)))
      | _ => Hang
      end
  | _ => Hang
  end.

Section ci.
Context (root : string) (ends : list operation -> command -> outcome (option (option Z))).
Implicit Types (h : list operation) (c : command).

(** Every path exists and every file operation succeeds, cargo and xorriso
    succeed, the emulator is installed, and with the debug-exit device it runs
    [guest]. *)
Record in_place {S} (guest : outcome (Serial.t * S)) : Prop := {
  ip_tools : forall h c, program c = "cargo"%string \/ program c = "xorriso"%string -> ends h c = Ret (Some (Some 0));
  ip_version : forall h, ends h (mk_command "qemu-system-x86_64" ["--version"%string] None) = Ret (Some (Some 0));
  ip_guest : forall h c l r, program c = "qemu-system-x86_64"%string -> 
    args c = l ++ ["-device"%string; "isa-debug-exit,iobase=0xf4,iosize=0x04"%string] ++ r -> ends h c = emulated guest;
}.

Definition present (h : list operation) (p : string) : bool := true.
Definition allowed (h : list operation) (op : operation) : bool := true.

Lemma status_ends c h code : ends h c = Ret (Some code) -> status ends c h = Ret (Ok code, h ++ [Ran c]).
Proof. unfold status. by intros ->. Qed.

Lemma built {S} (guest : outcome (Serial.t * S)) arch release h :
  in_place guest -> exists h', build_kernel_with_tests root present ends arch release h = Ret (Ok tt, h').
Proof.
  intros Hp. unfold build_kernel_with_tests, build_kernel_inner. cbn [present negb].
  rewrite (status_ends _ _ (Some 0)) by (apply (ip_tools _ Hp); by left). by eexists.
Qed.

Lemma imaged {S} (guest : outcome (Serial.t * S)) release h :
  in_place guest -> exists h', create_iso root present allowed ends Arch.X86_64 release h = Ret (Ok tt, h').
Proof.
  intros Hp. unfold create_iso, copy_efi_files, efi_files.
  cbn [present negb fs allowed rbind obind copy_all copy_limine copy_efi context].
  rewrite (status_ends _ _ (Some 0)) by (apply (ip_tools _ Hp); by right). by eexists.
Qed.

Lemma started {S} (guest : outcome (Serial.t * S)) uefi h :
  in_place guest -> exists c h', base_cmd root present ends Arch.X86_64 uefi h = Ret (Ok c, h') /\
    program c = "qemu-system-x86_64"%string.
Proof.
  intros Hp. unfold base_cmd. rewrite (status_ends _ _ (Some 0)) by apply (ip_version _ Hp).
  cbn [obind present negb]. destruct uefi; by eexists _, _.
Qed.

(** The exit code of a test run on a guest. *)
Lemma run_tests_code {S} (guest : outcome (Serial.t * S)) release bios h0 :
  in_place guest ->
  match emulated guest with
  | Ret (Some (Some code)) => exists h, main root present allowed ends (Test Arch.X86_64 release bios) h0 =
      Ret (if code =? QEMU_TEST_SUCCESS then 0 else 1, h)
  | Hang => main root present allowed ends (Test Arch.X86_64 release bios) h0 = Hang
  | _ => True
  end.
Proof.
  intros Hp. unfold main, run_cli.
  destruct (built guest Arch.X86_64 release h0 Hp) as (h1 & ->). cbn [rbind obind].
  destruct (imaged guest release h1 Hp) as (h2 & ->). cbn [rbind obind]. unfold run_qemu_tests.
  destruct (started guest (negb bios) h2 Hp) as (c & h3 & -> & Hc). cbn [rbind obind].
  assert (Ee : ends h3 (test_cmd Arch.X86_64 c) = emulated guest) by (eapply (ip_guest _ Hp); [exact Hc|reflexivity]).
  destruct (emulated guest) as [[[code|]|]| |]; try done.
  - rewrite (status_ends _ _ _ Ee). cbn [context rbind obind].
    destruct (code =? QEMU_TEST_SUCCESS); [by eexists|]. destruct (code =? QEMU_TEST_FAILURE); by eexists.
  - unfold status. by rewrite Ee.
Qed.

(** C15: the exit code of [cargo xtask test] is the verdict of the kernel.  With
    everything in place, a kernel that boots, and the emulator's documented exit
    code, the tool exits with 0 if no registered test failed and with 1 if one
    did, and never ends if a test panics or hangs. *)
Theorem ci_verdict inp n stubs gdt_addr tss_addr stacks idt_addr usable arc_size arc_align timer_tick level_le level_name ts f m apic e release bios h0 :
  responsive inp n 0x2F8 -> 0 <= stacks -> stacks + 8 * IST_STACK_SIZE < W64 -> Z.of_nat (length ts) < W64 ->
  memory_up usable arc_size arc_align f (initial m apic) = Ret e ->
  in_place (kmain_tests inp (Datatypes.S n) level_le level_name stubs gdt_addr tss_addr stacks idt_addr usable arc_size arc_align timer_tick
              ts f (initial m apic)) ->
  match exec (sort_by_kind ts) (mk_ks (e_world e) (e_heap e)) with
  | Ret (rs, _) => exists h, main root present allowed ends (Test Arch.X86_64 release bios) h0 =
      Ret (if forallb is_ok rs then 0 else 1, h)
  | _ => main root present allowed ends (Test Arch.X86_64 release bios) h0 = Hang
  end.
Proof.
  intros Hr Hs0 Hs1 Hb Hm Hp. pose proof (run_tests_code _ release bios h0 Hp) as Hc. revert Hc. clear Hp. unfold kmain_tests.
  destruct (devices_up_ok inp stubs gdt_addr tss_addr stacks idt_addr timer_tick level_le level_name m apic n Hs0 Hs1 Hr)
    as (g & hw & -> & _). cbn [obind]. rewrite Hm. cbn [obind].
  destruct (deliver_ok inp n level_le level_name g (e_out e) Hr) as (h & -> & _). cbn [obind].
  pose proof (run_all_exec inp n Hr ts h (mk_ks (e_world e) (e_heap e)) Hb) as H.
  destruct (exec (sort_by_kind ts) _) as [[rs s]| |]; [|by rewrite H|by rewrite H].
  destruct H as (h' & pre & -> & _). cbn [emulated up Serial.history]. rewrite last_snoc.
  by destruct (forallb is_ok rs).
Qed.

End ci.

(** A host on which the emulator runs a given guest. *)
Module CiDemo.

Definition is_version (c : command) : bool := match args c with [a] => String.eqb a "--version" | _ => false end.

Definition ends {S} (guest : outcome (Serial.t * S)) (h : list operation) (c : command) : outcome (option (option Z)) :=
  if String.eqb (program c) "qemu-system-x86_64" && negb (is_version c) then emulated guest else Ret (Some (Some 0)).

Lemma demo_in_place {S} (guest : outcome (Serial.t * S)) : in_place (ends guest) guest.
Proof.
  split.
  - intros h c [E|E]; unfold ends; by rewrite E.
  - intros h. reflexivity.
  - intros h c l r E Ea. unfold ends, is_version. rewrite E, Ea. cbn [String.eqb andb].
    destruct l as [|a [|b l]]; done.
Qed.

Lemma demo_memory_ret : exists e, demo_memory = Ret e.
Proof. generalize demo_passes. generalize demo_memory. intros [e| |] H; [by exists e|done|done]. Qed.

Definition one_test : list (TestCase kernel_state) :=
  [kernel_test "eira::mm::tests" MmTests.file 11 "physaddr_new_zero" Unit MmTests.physaddr_new_zero].

End CiDemo.

Lemma ci_verdict_witness : exists ends h,
  main "/w" present allowed ends (Test Arch.X86_64 false false) [] = Ret (0, h).
Proof.
  destruct CiDemo.demo_memory_ret as [e He].
  assert (Hx : exists s, exec (sort_by_kind CiDemo.one_test) (mk_ks (e_world e) (e_heap e)) = Ret ([Pass], s)) by (eexists; reflexivity).
  destruct Hx as [s Hx].
  set (guest := kmain_tests SerialDemo.inp 2 LogDemo.level_le LogDemo.level_name TrapDemo.stubs 0xffffffff80001000 0xffffffff80001040 0xffffffff80002000
    0xffffffff80100000 BootDemo.USABLE 0x2000 8 0x300 CiDemo.one_test BootDemo.firmware0 (initial ∅ 0xFEE00900)).
  pose proof (ci_verdict "/w" (CiDemo.ends guest) SerialDemo.inp 1 TrapDemo.stubs 0xffffffff80001000 0xffffffff80001040
    0xffffffff80002000 0xffffffff80100000 BootDemo.USABLE 0x2000 8 0x300 LogDemo.level_le LogDemo.level_name CiDemo.one_test BootDemo.firmware0 ∅ 0xFEE00900 e
    false false []) as H.
  rewrite Hx in H. destruct H as [h H].
  - apply SerialDemo.ready.
  - lia.
  - unfold IST_STACK_SIZE. lia.
  - reflexivity.
  - rewrite demo_memory_eq. exact He.
  - apply CiDemo.demo_in_place.
  - exists (CiDemo.ends guest), h. exact H.
Defined.
